(* ===== verification/_CoqProject ===== *)
-Q . S2P
Prelude.v
Machine.v
Rounding.v
StdMap.v
Types.v
ObjectPool.v
OrderBook.v
PriceTime.v
BookInv.v
BookOps.v
MatchingEngine.v
MatchRefine.v
EngineSpec.v
Exchange.v
Determinism.v
EngineProps.v
BookProps.v
RiskChecker.v
RiskProps.v
Wire.v
Numbers.v
Protocol.v
Format.v
Layout.v
Typing.v
TcpServer.v
ServerProps.v
Threads.v
ThreadInv.v
ThreadSteps.v
ThreadProps.v
Broken.v
EndToEnd.v
LatencyHistogram.v
Deviations.v
Random.v
Simulation.v
SimBooks.v
SimProps.v
SimMaker.v
SimRun.v
SimKept.v
Momentum.v
Seeded.v
Replay.v
Tape.v
Harness.v
Benchmark.v
MicroBench.v
Main.v
Reports.v
ReportProps.v
BenchProps.v
UnitTests.v
