(* ===== verification/Prelude.v ===== *)
(** * A verified model of the order book exchange

    The program is a limit order book exchange in C++17: a matching engine that keeps
    one order book per symbol, a pre-trade risk checker, a TCP front end with a binary
    protocol, a simulation with five trading agents, a harness that replays order
    tapes, a latency histogram and benchmarks.  This library models it file by file,
    states what each part promises, and proves that the code keeps the promise.

    ** The program and its model

    - Types, orders and trades (include/core/Types.h, Order.h): [Types].  Quantities,
      identifiers and times are integers of [Z] kept at their machine width; prices are
      IEEE 754 doubles ([Machine], on the Standard Library's executable [SpecFloat]).
      An enumeration field read from the wire can hold a byte that is no enumerator;
      such values have their own constructors.
    - The object pool (include/core/ObjectPool.h): [ObjectPool].  A pointer into the
      pool is the index of its cell.  The class [PoolLaws] is what the pool promises to
      the book, and the book's proofs use only that.
    - The order book (include/core/OrderBook.h, src/core/OrderBook.cpp): [OrderBook], on
      [StdMap], the [std::map] of price levels as a list sorted by a strict weak order.
      A book is the two maps of levels, the index from identifiers to list iterators,
      and the pool; nodes of a level have an address, so that an iterator can dangle.
    - The matching engine (include/core/MatchingEngine.h, src/core/MatchingEngine.cpp):
      [MatchingEngine].  [submit_order] is validation, insertion, [match_order], the
      report of the trades to statistics and callback, and [post_match], in the order of
      the source.  The trade callback is a function on the state of whoever installed it.
    - The risk checker (include/risk/RiskChecker.h, src/risk/RiskChecker.cpp) and the
      callback of src/main.cpp that feeds it: [RiskChecker].
    - The wire protocol (include/network/Protocol.h): [Protocol], on [Wire], the
      little-endian integers and binary64 doubles in bytes.  The server loop
      (TcpServer::handle_client) over the bytes of one connection: [TcpServer].
    - The server as a whole (TcpServer::start, stop and any number of client threads):
      [Threads], a step relation [act] over a state with the mutex of the engine, the
      sockets and the place of every thread in [handle_client].  [Broken] adds the errors
      of [recv] and [send].
    - The entry points (src/main.cpp, src/run_simulation.cpp): [Main].
    - The agents and the simulation (include/simulation, src/simulation): [Simulation],
      for given draws, and [Seeded], which draws them as the code does, from the
      generators of [Random]: [mt19937] as the C++ standard defines it, and the
      distributions as a class with the ranges of the standard.
    - The replay harness (src/replay/ReplayHarness.cpp): [Replay] has the execution of
      events, [Tape] the reader of the file and the loop over it, on [Numbers], the
      conversions of the C++ library from text to numbers, and [Harness] the whole of
      ReplayHarness::replay with its measurements and its report.
    - The latency histogram (src/metrics/LatencyHistogram.cpp): [LatencyHistogram].  The
      library it wraps is not in the repository; it is the class [Hdr], with what its
      documentation says as [HdrLaws], and [list_hdr] is an instance of both.
    - The benchmarks: [Benchmark] (benchmarks/bench_throughput.cpp) and [MicroBench]
      (benchmarks/bench_matching_engine.cpp).
    - What the programs print (Simulation::run and print_results, src/run_replay.cpp,
      src/run_simulation.cpp, the benchmark): [Reports], on [Format], the output streams
      of C++ with the format state that manipulators change.  [Layout] has the layout of
      the structs and tools/print_sizes.cpp.

    Operations are functions in the option monad that thread the state.  [None] is
    undefined behaviour of the source: a pointer or iterator that is not valid, a
    [std::map<double>] whose keys are not strictly weakly ordered (a NaN among numbers),
    a signed overflow, a division by zero, a read of bytes that were never received.
    Theorems that say an operation returns [Some] therefore say that it has no undefined
    behaviour.  Clock readings, random draws and received bytes are arguments.

    ** Specification and proofs

    - [PriceTime] is the specification of matching: a side of a market is the list of its
      resting orders in price-time priority, with [enqueue], [dequeue] and [match_queue]
      on such lists, and [match_outcome] as the closed form of a match.
    - [BookInv] has the invariant [book_wf] of a book and the effect of linking,
      unlinking and writing on the two queues; [BookOps] the entry points of the book.
    - [MatchRefine] shows that [match_loop] computes [match_queue].
    - [EngineSpec] has the abstract market ([spec_submit], [spec_cancel]) and shows that
      a submission refines it and keeps the book uncrossed.  [Exchange] lifts this to the
      engine: the simulation relation [sim] between an engine and a family of markets,
      runs of calls, the step relation [engine_step] and its reachable states.
    - [EngineProps] states the properties of the engine: C1 and C2 are the refinement, C3
      and C4 the invariants of a book, C5 to C8 matching (priority, limits, conservation,
      market orders), C9 and C10 the fate of an order, C11 and C12 cancellation and
      reduction, C13 the statistics.
    - [BookProps]: termination of the matching loop (C14), the queries of a book (C15)
      and the pool, which holds exactly the resting orders (C16).
    - [Typing]: every value fits the C++ type of its field (C17).
    - [Determinism]: the clock never decides anything.  [untimed] forgets times,
      [same_engine] is equality up to times, and both the specification and the engine
      respect it.
    - [RiskProps]: decisions and position cap (C18, C19), the server's callback, the kill
      switch and the statistics.
    - [ServerProps]: round trips of the protocol (C20), totality of the deployed server
      on one connection (C21), the gate in front of the engine (C22), framing and
      termination of the connection loop.
    - [ThreadInv] has the invariant of the server with its threads, [ThreadSteps] shows
      that every step keeps it, and [ThreadProps] the properties, for the server without a
      risk checker and for the one of src/main.cpp: concurrent service refines sequential
      service, its only undefined behaviour is a data race on the checker (C24), and it
      answers everything it is sent (C25).  Then come a run into that race, the limits
      under interleaving, [stop], and the descriptors that are closed.
    - [Broken] lets connections break at any time: a simulation shows that this server does
      what the one of [Threads] does, so that a broken connection harms nobody else, until
      a send to one ends the process (C26).
    - [EndToEnd] composes the refinements: what the clients of the threaded server are
      told is what one abstract market per symbol answers (C23).
    - [LatencyHistogram]: histograms are owned by one object and freed once (C27), and
      they count what is recorded.
    - [Harness]: the report of the replay of any file (C28), and that a replay does not
      depend on any clock (C29).  [Tape] has the round trip of a printed tape (C30) and
      evaluates the replay of data/sample_tape.csv.
    - [SimBooks] has the books of the agents: what is booked, to whom, and [audit], which
      recomputes an account from the log of trades.  [SimProps] has the invariant
      [sim_inv] of a simulation; [SimMaker] how shares pass from the quotes of the market
      maker to its position; [Rounding] which operations on doubles give numbers, so that
      the prices the agents compute are numbers.  [SimRun] puts them together, with
      triples [safe] for the steps of a tick: which runs are defined, the audit of the
      books (C33), the results (C35) and the position of the market maker (C36), for
      arbitrary draws.  [SimKept] has the interface [AgentInvariant] of what a tick keeps,
      for [Momentum], the window and the cooldown of the momentum trader (C34), and for
      [Seeded], where a run with generators is one of these runs and its price walk
      depends on the fixed seed alone (C32).  [Main] applies this to the simulations that
      the programs run.
    - [ReportProps]: the numbers that run_replay prints are read back (C31), the lines
      that a simulation prints and when (C37), and its profits and losses, to the cent (C38).  [Reports]
      reproduces the files under results/ character by character.
    - [Benchmark] and [BenchProps]: the depth of the book is capped, and the two phases
      of the throughput benchmark report on the same work (C39).  [MicroBench]: the
      microbenchmarks measure what they are named for (C40).
    - [Layout]: fields are aligned, in order and disjoint, and the sizes are those of
      results/struct_sizes.txt; the messages have the sizes that [Protocol] encodes.
    - [Deviations] evaluates runs in which the program deviates from its comments, and
      [UnitTests] the 58 unit tests under tests/, which all hold of the model.

    ** Bounds and fuel

    [match_loop] runs with one round more than the book has orders; C14 shows that this
    is enough and that more changes nothing.  [handle_client] is bounded by the bytes of
    the connection in the same way ([connection_terminates]), [replay_tape] and [timed_tape]
    by the lines of the file (C28, C30); the steps of the threads of the server by [work]
    (C25).  Identifiers have 64 bits: theorems about a run assume fewer than
    2^64 - 1 calls, theorems about a call that the next identifier does not wrap.
    Quantities are below 2^32.

    Prices of accepted orders that are not market orders are not NaN.  The engine lets such
    prices through, after which its maps are no longer ordered; [Deviations] evaluates it.
    The condition is [op_ok] for calls, [message_price_ok] for messages and [written_ok] for
    the clients of the threaded server, and it is part of [reachable]: an engine is
    reachable by calls that satisfy it, so all theorems about reachable engines have it.

    Runs of the simulation have at most 2^26 ticks, which bounds positions and identifiers;
    their draws are finite and multiply the price by a factor other than zero.  For a run
    with generators (C32) this is asked of the returns that the walk draws in that run, and
    can be evaluated for a given library.

    ** Not modelled

    Signals other than that of a [send] to a broken connection; the log lines of the
    server; the bodies of the distributions of <random>, which the standard leaves to the
    implementation, and of [std::random_device]; the HdrHistogram_c library and with it the
    contents of the CSV file; the Google Benchmark library, which decides how often the
    microbenchmarks run.  Memory is never exhausted.

    The risk checker has no lock, so what threads do that are inside it at the same time
    is undefined by the language; it is [Undefined] in [Threads].  Calls of the checker that
    do not overlap but that nothing orders are a data race of C++ too; there the model lets
    them take effect one after the other.  Arithmetic on doubles rounds after every
    operation: a compiler that contracts a product and a sum into one operation, as some do
    for arm64, can change the last bits of cash and notional. *)

From stdpp Require Import base list gmap sorting.
From Stdlib Require Import ZArith Lia.

(** ** Hint databases *)

Create HintDb exch.
Create Rewrite HintDb exch.

(** ** Tactics *)

(** Split the conjunctions and existentials of the context. *)
Ltac crush_hyps := destruct_and?; simplify_eq/=.

(** Decide the boolean tests of the goal and finish by arithmetic. *)
Ltac bool_lia :=
  repeat match goal with
  | H : (_ && _)%bool = true |- _ => apply andb_true_iff in H as [? ?]
  | H : (_ || _)%bool = false |- _ => apply orb_false_iff in H as [? ?]
  | H : negb _ = true |- _ => apply negb_true_iff in H
  | H : negb _ = false |- _ => apply negb_false_iff in H
  end; lia.

(** Run the first computation of an option-monad bind in the goal with the
    equation [H] that says what it returns. *)
Tactic Notation "run" constr(H) := rewrite H; cbn [mbind option_bind].

(** ** Lists *)

(** Elements with distinct images under [f] that agree on [f] are the same. *)
Lemma NoDup_fmap_inj {A B} (f : A → B) (l : list A) x y :
  NoDup (f <$> l) → x ∈ l → y ∈ l → f x = f y → x = y.
Proof.
  intros Hnd (i & Hi)%list_elem_of_lookup (j & Hj)%list_elem_of_lookup Hf.
  assert (i = j) as ->; [|congruence].
  eapply NoDup_lookup; [exact Hnd| |]; rewrite list_lookup_fmap.
  - by rewrite Hi.
  - by rewrite Hj, Hf.
Qed.

(** [NoDup] and [∈] only depend on the multiset of a list. *)
Lemma perm_elem_of {A} (l k : list A) x : l ≡ₚ k → x ∈ l ↔ x ∈ k.
Proof. by intros ->. Qed.

(** Removing what a test rejects changes nothing when nothing is rejected. *)
Lemma filter_all {A} (P : A → Prop) `{!∀ x, Decision (P x)} (l : list A) :
  Forall P l → filter P l = l.
Proof.
  induction 1 as [|x l Hx Hl IH]; [done|]. by rewrite filter_cons_True, IH.
Qed.

Lemma StronglySorted_mid {A} (R : relation A) l1 x l2 :
  StronglySorted R (l1 ++ x :: l2) ↔
  StronglySorted R (l1 ++ l2) ∧ Forall (λ y, R y x) l1 ∧ Forall (R x) l2.
Proof.
  rewrite !StronglySorted_app, StronglySorted_cons. split.
  - intros (H12 & H1 & Hx & H2). split_and!; try done.
    + intros y z Hy Hz. apply H12; [done|]. by right.
    + apply Forall_forall. intros y Hy. apply H12; [done|]. left.
  - intros ((H12 & H1 & H2) & H1x & Hx2). split_and!; try done.
    intros y z Hy [->|Hz]%elem_of_cons; [|by apply H12].
    rewrite Forall_forall in H1x. by apply H1x.
Qed.

(** A loop that runs over the sum of a list with machine additions computes the
    sum of the list, reduced once at the end. *)
Definition sum_list_Z (l : list Z) : Z := foldr Z.add 0%Z l.

Lemma sum_list_Z_app l k : sum_list_Z (l ++ k) = (sum_list_Z l + sum_list_Z k)%Z.
Proof. induction l as [|x l IH]; simpl; [done|]. rewrite IH. lia. Qed.

Lemma sum_list_Z_nonneg l : Forall (λ x, 0 ≤ x)%Z l → (0 ≤ sum_list_Z l)%Z.
Proof. induction 1; simpl; lia. Qed.

#[export] Instance sum_list_Z_perm : Proper ((≡ₚ) ==> (=)) sum_list_Z.
Proof. induction 1; simpl; lia. Qed.

Lemma StronglySorted_filter {A} (R : relation A) (P : A → Prop)
    `{!∀ x, Decision (P x)} (l : list A) :
  StronglySorted R l → StronglySorted R (filter P l).
Proof.
  induction 1 as [|x l Hs IH Hx]; [constructor|]. rewrite filter_cons.
  case_decide; [|done]. constructor; [done|].
  rewrite Forall_forall in Hx |- *. intros y [_ Hy]%list_elem_of_filter. by apply Hx.
Qed.

Lemma omap_of_fmap {A B C} (f : B → option C) (g : A → B) (l : list A) :
  omap f (g <$> l) = omap (λ x, f (g x)) l.
Proof. induction l as [|x l IH]; [done|]. csimpl. by rewrite IH. Qed.

Lemma omap_fmap_pointwise {A B} (f g : A → option B) (h : B → B) (l : list A) :
  (∀ x, x ∈ l → f x = h <$> g x) → omap f l = h <$> omap g l.
Proof.
  induction l as [|x l IH]; intros H; [done|]. csimpl.
  rewrite (H x) by left. rewrite IH by (intros; apply H; by right).
  by destruct (g x).
Qed.

Lemma omap_ext_in {A B} (f g : A → option B) (l : list A) :
  (∀ x, x ∈ l → f x = g x) → omap f l = omap g l.
Proof.
  intros H. rewrite (omap_fmap_pointwise f g (λ x, x)).
  - apply list_fmap_id.
  - intros x Hx. rewrite (H x Hx). by destruct (g x).
Qed.
