(* ===== verification/Machine.v ===== *)
(** Machine data: unsigned integers of 32 and 64 bits with their wrap-around,
    and [double] as IEEE 754 binary64.  The doubles are the executable
    specification of the Standard Library ([SpecFloat]) at precision 53 and
    maximal exponent 1024, so every comparison and every arithmetic operation of
    the source is the rounded one, with its infinities, signed zeros and NaN. *)

From stdpp Require Import base list gmap sorting.
From Stdlib Require Import ZArith Lia SpecFloat.
From S2P Require Import Prelude.

Open Scope Z_scope.

(** ** Unsigned integers *)

Definition u32 (x : Z) : Z := x mod 2 ^ 32.
Definition u64 (x : Z) : Z := x mod 2 ^ 64.

Lemma u32_small x : 0 ≤ x < 2 ^ 32 → u32 x = x.
Proof. apply Z.mod_small. Qed.
Lemma u64_small x : 0 ≤ x < 2 ^ 64 → u64 x = x.
Proof. apply Z.mod_small. Qed.
Lemma u32_range x : 0 ≤ u32 x < 2 ^ 32.
Proof. apply Z.mod_pos_bound. lia. Qed.
Lemma u64_range x : 0 ≤ u64 x < 2 ^ 64.
Proof. apply Z.mod_pos_bound. lia. Qed.
Lemma u32_add_l x y : u32 (u32 x + y) = u32 (x + y).
Proof. apply Zplus_mod_idemp_l. Qed.
Lemma u64_add_l x y : u64 (u64 x + y) = u64 (x + y).
Proof. apply Zplus_mod_idemp_l. Qed.

#[export] Hint Rewrite u32_add_l u64_add_l : exch.

(** ** Signed integers

    [long] has 64 bits; its arithmetic is undefined when the result does not fit,
    which is [None] here. *)

Definition long_ok (x : Z) : bool := (- 2 ^ 63 <=? x) && (x <? 2 ^ 63).
Definition to_long (x : Z) : option Z := if long_ok x then Some x else None.
Definition ladd (x y : Z) : option Z := to_long (x + y).
Definition labs (x : Z) : option Z := to_long (Z.abs x).

Lemma to_long_small x : - 2 ^ 63 ≤ x < 2 ^ 63 → to_long x = Some x.
Proof. intros H. unfold to_long, long_ok. by rewrite (proj2 (Z.leb_le _ _)), (proj2 (Z.ltb_lt _ _)) by lia. Qed.
Lemma to_long_Some x y : to_long x = Some y → y = x ∧ - 2 ^ 63 ≤ x < 2 ^ 63.
Proof.
  unfold to_long, long_ok. destruct (_ && _) eqn:E; [|done].
  intros [= <-]. split; [done|]. bool_lia.
Qed.

(** ** Doubles *)

Abbreviation double := spec_float.

Definition dadd : double → double → double := SFadd 53 1024.
Definition dsub : double → double → double := SFsub 53 1024.
Definition dmul : double → double → double := SFmul 53 1024.
Definition ddiv : double → double → double := SFdiv 53 1024.
Definition dneg : double → double := SFopp.
Definition dltb (x y : double) : bool := SFltb x y.
Definition dleb (x y : double) : bool := SFleb x y.
Definition dgtb (x y : double) : bool := dltb y x.
Definition dgeb (x y : double) : bool := dleb y x.
Definition deqb (x y : double) : bool := SFeqb x y.
Definition dzero : double := S754_zero false.
Definition dinf : double := S754_infinity false.
Definition dnan : double := S754_nan.

(** [std::numeric_limits<double>::max()]. *)
Definition dbl_max : double := SFmax_float 53 1024.

(** The conversion of an integer to [double], rounded to nearest even. *)
Definition dofZ (z : Z) : double := binary_normalize 53 1024 z 0 false.

(** The double nearest to [m / 10 ^ k]: a decimal literal of the source. *)
Definition dlit (m : Z) (k : nat) : double :=
  match m with
  | Z0 => dzero
  | Zpos p =>
      let '(q, e, l) := SFdiv_core_binary 53 1024 (Zpos p) 0 (10 ^ Z.of_nat k) 0 in
      binary_round_aux 53 1024 false q e l
  | Zneg p =>
      let '(q, e, l) := SFdiv_core_binary 53 1024 (Zpos p) 0 (10 ^ Z.of_nat k) 0 in
      binary_round_aux 53 1024 true q e l
  end.

(** [std::round]: to the nearest integer, halves away from zero. *)
Definition dround (x : double) : double :=
  match x with
  | S754_finite s m e =>
      if 0 <=? e then x
      else
        let n := (2 * Zpos m + 2 ^ (- e)) / 2 ^ (- e + 1) in
        if n =? 0 then S754_zero s else if s then dneg (dofZ n) else dofZ n
  | _ => x
  end.

(** [std::max(a, b)], which is [a] unless [a < b]. *)
Definition dmax (a b : double) : double := if dltb a b then b else a.

Definition is_nanb (x : double) : bool :=
  match x with S754_nan => true | _ => false end.

(** A number: not a NaN. *)
Definition num (x : double) : Prop := is_nanb x = false.

#[export] Instance double_eq_dec : EqDecision double.
Proof. solve_decision. Defined.
#[export] Instance num_dec x : Decision (num x).
Proof. unfold num. apply _. Defined.

(** *** The order of the doubles

    Every number has a rank, and comparisons compare ranks
    lexicographically. *)

Definition drank (x : double) : Z * Z * Z :=
  match x with
  | S754_infinity true => (-2, 0, 0)
  | S754_finite true m e => (-1, - e, Z.neg m)
  | S754_zero _ => (0, 0, 0)
  | S754_finite false m e => (1, e, Z.pos m)
  | S754_infinity false => (2, 0, 0)
  | S754_nan => (3, 0, 0)
  end.

Definition rank_lt (a b : Z * Z * Z) : Prop :=
  a.1.1 < b.1.1 ∨ a.1.1 = b.1.1 ∧ (a.1.2 < b.1.2 ∨ a.1.2 = b.1.2 ∧ a.2 < b.2).

Lemma rank_lt_irrefl a : ¬ rank_lt a a.
Proof. unfold rank_lt. lia. Qed.
Lemma rank_lt_trans a b c : rank_lt a b → rank_lt b c → rank_lt a c.
Proof. unfold rank_lt. lia. Qed.
Lemma rank_lt_split a b c : rank_lt a c → rank_lt a b ∨ rank_lt b c.
Proof. unfold rank_lt. lia. Qed.

Lemma dcompare_rank x y :
  num x → num y →
  match SFcompare x y with
  | Some Lt => rank_lt (drank x) (drank y)
  | Some Eq => drank x = drank y
  | Some Gt => rank_lt (drank y) (drank x)
  | None => False
  end.
Proof.
  unfold num, rank_lt.
  destruct x as [?|[]| |[] m e], y as [?|[]| |[] m' e']; intros; simplify_eq/=;
    try lia; try done;
    destruct (Z.compare_spec e e'); simpl; try lia; subst;
    change (Pos.compare_cont Eq m m') with (Pos.compare m m');
    destruct (Pos.compare_spec m m'); simpl; subst; try lia; done.
Qed.

Lemma dcompare_nan x y : SFcompare x y = None ↔ ¬ (num x ∧ num y).
Proof.
  split.
  - intros Hc [Hx Hy]. pose proof (dcompare_rank x y Hx Hy) as H. by rewrite Hc in H.
  - intros Hn. destruct x as [?|[]| |[]], y as [?|[]| |[]]; try done; by destruct Hn.
Qed.

Lemma dltb_rank x y : dltb x y = true ↔ num x ∧ num y ∧ rank_lt (drank x) (drank y).
Proof.
  unfold dltb, SFltb. pose proof (dcompare_rank x y) as H.
  pose proof (rank_lt_irrefl (drank x)). pose proof (rank_lt_trans (drank x) (drank y) (drank x)).
  destruct (SFcompare x y) as [c|] eqn:E; [|apply dcompare_nan in E; naive_solver].
  assert (num x ∧ num y) as [Hx Hy].
  { destruct (decide (num x ∧ num y)) as [|Hn%dcompare_nan]; [done|congruence]. }
  specialize (H Hx Hy). destruct c; [rewrite <-H| |]; naive_solver.
Qed.

Lemma dleb_rank x y : dleb x y = true ↔ num x ∧ num y ∧ ¬ rank_lt (drank y) (drank x).
Proof.
  unfold dleb, SFleb. pose proof (dcompare_rank x y) as H.
  pose proof (rank_lt_irrefl (drank x)). pose proof (rank_lt_trans (drank x) (drank y) (drank x)).
  destruct (SFcompare x y) as [c|] eqn:E; [|apply dcompare_nan in E; naive_solver].
  assert (num x ∧ num y) as [Hx Hy].
  { destruct (decide (num x ∧ num y)) as [|Hn%dcompare_nan]; [done|congruence]. }
  specialize (H Hx Hy). destruct c; [rewrite <-H| |]; naive_solver.
Qed.

Lemma dleb_ltb x y : num x → num y → dleb x y = negb (dltb y x).
Proof.
  intros Hx Hy. apply eq_true_iff_eq. rewrite dleb_rank, negb_true_iff.
  rewrite <-not_true_iff_false, dltb_rank. naive_solver.
Qed.

Lemma deqb_ltb x y :
  num x → num y → deqb x y = (negb (dltb x y) && negb (dltb y x))%bool.
Proof.
  intros Hx Hy. unfold deqb, dltb, SFeqb, SFltb.
  pose proof (dcompare_rank x y Hx Hy) as H1. pose proof (dcompare_rank y x Hy Hx) as H2.
  destruct (SFcompare x y) as [[]|], (SFcompare y x) as [[]|]; try done;
    exfalso; unfold rank_lt in *; try (rewrite H1 in * ); try (rewrite H2 in * ); lia.
Qed.

(** *** Strict weak orders

    What [std::map] requires of its comparator.  Incomparability of keys is only
    transitive among the keys that [ok] accepts: for doubles, the numbers. *)

Class StrictWeakOrder {K} (ltb : K → K → bool) (ok : K → Prop) : Prop := {
  swo_irrefl x : ltb x x = false;
  swo_trans x y z : ltb x y = true → ltb y z = true → ltb x z = true;
  swo_split x y z : ok y → ltb x z = true → ltb x y = true ∨ ltb y z = true;
}.

#[export] Instance dltb_swo : StrictWeakOrder dltb num.
Proof.
  split.
  - intros x. apply not_true_iff_false. rewrite dltb_rank.
    pose proof (rank_lt_irrefl (drank x)). naive_solver.
  - intros x y z. rewrite !dltb_rank.
    pose proof (rank_lt_trans (drank x) (drank y) (drank z)). naive_solver.
  - intros x y z Hy. rewrite !dltb_rank.
    pose proof (rank_lt_split (drank x) (drank y) (drank z)). naive_solver.
Qed.

#[export] Instance dgtb_swo : StrictWeakOrder dgtb num.
Proof.
  split; unfold dgtb.
  - intros x. apply swo_irrefl.
  - intros x y z ??. by eapply swo_trans.
  - intros x y z Hy H. apply (swo_split _ y) in H; [|done]. naive_solver.
Qed.

Section swo.
Context {K} {ltb : K → K → bool} {ok : K → Prop} `{!StrictWeakOrder ltb ok}.

(** Two keys that neither precedes the other: one key for the container. *)
Definition equivb (x y : K) : bool := (negb (ltb x y) && negb (ltb y x))%bool.

Lemma swo_asym x y : ltb x y = true → ltb y x = false.
Proof.
  intros H. apply not_true_iff_false. intros H'.
  pose proof (swo_irrefl x). pose proof (swo_trans _ _ _ H H'). congruence.
Qed.

Lemma equivb_true x y : equivb x y = true ↔ ltb x y = false ∧ ltb y x = false.
Proof. unfold equivb. by rewrite andb_true_iff, !negb_true_iff. Qed.

Lemma equivb_refl x : equivb x x = true.
Proof. apply equivb_true. by rewrite swo_irrefl. Qed.

Lemma equivb_sym x y : equivb x y = true → equivb y x = true.
Proof. rewrite !equivb_true. naive_solver. Qed.

Lemma ltb_equivb_r x y z : ok z → ltb x y = true → equivb y z = true → ltb x z = true.
Proof.
  intros Hz Hxy [_ Hzy]%equivb_true. apply (swo_split _ z) in Hxy; [|done].
  destruct Hxy; [done|congruence].
Qed.

Lemma ltb_equivb_l x y z : ok x → ltb y z = true → equivb x y = true → ltb x z = true.
Proof.
  intros Hx Hyz [_ Hyx]%equivb_true. apply (swo_split _ x) in Hyz; [|done].
  destruct Hyz; [congruence|done].
Qed.

Lemma equivb_trans x y z :
  ok y → equivb x y = true → equivb y z = true → equivb x z = true.
Proof.
  intros Hy [Hxy Hyx]%equivb_true [Hyz Hzy]%equivb_true. apply equivb_true.
  split; apply not_true_iff_false; intros H; apply (swo_split _ y) in H; try done;
    destruct H; congruence.
Qed.
End swo.

Arguments equivb {K} ltb x y : assert.
