(* ===== verification/Rounding.v ===== *)
(** Rounded arithmetic: when the result of an operation on doubles is a number, and how
    large it can be.

    [bounded_by D x]: [x] is finite and smaller than 2^D in size.  Rounding a value below
    2^D gives a double that is [bounded_by (D + 1)], so it does not overflow. *)

From stdpp Require Import base list gmap.
From Stdlib Require Import ZArith Lia SpecFloat.
From S2P Require Import Prelude Machine.

Open Scope Z_scope.

Lemma digits2_pos_bounds m :
  2 ^ (Zpos (digits2_pos m) - 1) ≤ Zpos m < 2 ^ Zpos (digits2_pos m).
Proof.
  induction m as [m IH|m IH|]; cbn [digits2_pos]; [| |simpl; lia];
    rewrite Pos2Z.inj_succ;
    replace (Z.succ (Zpos (digits2_pos m)) - 1) with (Z.succ (Zpos (digits2_pos m) - 1)) by lia;
    rewrite !Z.pow_succ_r by lia; lia.
Qed.

(** ** Shifting *)

Lemma shr_1_half mrs : 0 ≤ shr_m mrs → shr_m (shr_1 mrs) = shr_m mrs / 2.
Proof.
  destruct mrs as [m r s]. simpl. intros Hm. destruct m as [|[p|p|]|p]; try done; try lia; simpl.
  - by rewrite Pos2Z.inj_xI, Z.add_comm, Z.mul_comm, Z.div_add by lia.
  - by rewrite Pos2Z.inj_xO, Z.mul_comm, Z.div_mul by lia.
Qed.

Lemma iter_shr_1 p mrs :
  0 ≤ shr_m mrs → shr_m (iter_pos shr_1 p mrs) = shr_m mrs / 2 ^ Zpos p.
Proof.
  revert mrs. induction p as [p IH|p IH|]; intros mrs Hm; cbn [iter_pos].
  - assert (0 ≤ shr_m (shr_1 mrs)) as H1 by (rewrite shr_1_half by done; apply Z.div_pos; lia).
    rewrite IH by (rewrite IH by done; apply Z.div_pos; lia).
    rewrite IH, shr_1_half, !Z.div_div by lia. f_equal.
    by rewrite <-Z.pow_add_r, <-Z.pow_succ_r by lia; f_equal; lia.
  - rewrite IH by (rewrite IH by done; apply Z.div_pos; lia).
    rewrite IH, Z.div_div by lia. f_equal. rewrite <-Z.pow_add_r by lia. f_equal. lia.
  - by apply shr_1_half.
Qed.

Lemma shr_record_of_loc_m m l : shr_m (shr_record_of_loc m l) = m.
Proof. by destruct l as [|[]]. Qed.

(** Shifting a mantissa right: what becomes of it and of the exponent. *)
Lemma shr_fexp_spec m e l :
  0 ≤ m →
  let n := Z.max 0 (fexp 53 1024 (Zdigits2 m + e) - e) in
  let '(mrs, e') := shr_fexp 53 1024 m e l in
  shr_m mrs = m / 2 ^ n ∧ e' = e + n.
Proof.
  intros Hm n. unfold shr_fexp, shr. destruct (fexp _ _ _ - e) as [|p|p] eqn:E; subst n.
  - by rewrite shr_record_of_loc_m, Z.max_id, Z.div_1_r, Z.add_0_r.
  - rewrite iter_shr_1; rewrite shr_record_of_loc_m; [|done]. by rewrite Z.max_r by lia.
  - by rewrite shr_record_of_loc_m, Z.max_l, Z.div_1_r, Z.add_0_r by lia.
Qed.

Lemma round_nearest_even_range m l : m ≤ round_nearest_even m l ≤ m + 1.
Proof. destruct l as [|[]]; simpl; try destruct (Z.even m); lia. Qed.

(** ** Results that are numbers *)

Lemma num_round_aux s m e l : 0 ≤ m → num (binary_round_aux 53 1024 s m e l).
Proof.
  intros Hm. unfold binary_round_aux.
  pose proof (shr_fexp_spec m e l Hm) as H1. destruct (shr_fexp _ _ m e l) as [mrs e1].
  destruct H1 as [H1 _]. assert (0 ≤ shr_m mrs) by (rewrite H1; apply Z.div_pos; lia).
  pose proof (round_nearest_even_range (shr_m mrs) (loc_of_shr_record mrs)).
  pose proof (shr_fexp_spec (round_nearest_even (shr_m mrs) (loc_of_shr_record mrs)) e1 loc_Exact)
    as H2. destruct (shr_fexp _ _ (round_nearest_even _ _) e1 loc_Exact) as [mrs2 e2].
  destruct H2 as [H2 _]; [lia|].
  assert (0 ≤ shr_m mrs2) by (rewrite H2; apply Z.div_pos; lia).
  destruct (shr_m mrs2); [done| |lia]. by destruct (_ <=? _).
Qed.

Lemma num_normalize m e s : num (binary_normalize 53 1024 m e s).
Proof.
  destruct m as [|m|m]; simpl; [done| |]; unfold binary_round;
    destruct (shl_align _ _ _) as [mz ez]; apply num_round_aux; lia.
Qed.

Definition finiteb (x : double) : bool :=
  match x with S754_zero _ | S754_finite _ _ _ => true | _ => false end.

Lemma num_add x y : num x → finiteb y = true → num (dadd x y).
Proof.
  unfold dadd. destruct x as [[]|[]| |[]], y as [[]|[]| |[]]; try done; intros; apply num_normalize.
Qed.

Lemma num_sub x y : num x → finiteb y = true → num (dsub x y).
Proof.
  unfold dsub. destruct x as [[]|[]| |[]], y as [[]|[]| |[]]; try done; intros; apply num_normalize.
Qed.

(** A finite factor other than zero. *)
Definition factorb (x : double) : bool :=
  match x with S754_finite _ _ _ => true | _ => false end.

Lemma num_mul x y : num x → factorb y = true → num (dmul x y).
Proof.
  unfold dmul. destruct x as [[]|[]| |[]], y as [[]|[]| |[]]; try done; intros; apply num_round_aux; lia.
Qed.

Lemma num_div x y : num x → factorb y = true → num (ddiv x y).
Proof.
  unfold ddiv. destruct x as [| | |sx mx ex], y as [| | |sy my ey]; try done; intros _ _.
  unfold SFdiv, SFdiv_core_binary. cbv zeta.
  set (m' := match _ with Z0 => _ | _ => _ end).
  assert (0 ≤ m') as Hm.
  { subst m'. destruct (_ - _ - _); [lia|apply Z.shiftl_nonneg; lia|lia]. }
  clearbody m'. pose proof (Z_div_mod m' (Zpos my) eq_refl) as Hd.
  destruct (Z.div_eucl m' (Zpos my)) as [q r]. apply num_round_aux. nia.
Qed.

Lemma num_round x : num x → num (dround x).
Proof.
  destruct x as [| | |s m e]; try done. intros _. unfold dround, dofZ. destruct (0 <=? e); [done|].
  destruct (_ =? 0); [done|]. set (y := binary_normalize _ _ _ _ _).
  assert (num y) as Hy by apply num_normalize. destruct s; [|done]. by destruct y.
Qed.

Lemma num_max x y : num x → num y → num (dmax x y).
Proof. intros. unfold dmax. by destruct (dltb x y). Qed.

(** ** Results that are finite *)

Definition bounded_by (D : Z) (x : double) : Prop :=
  match x with
  | S754_zero _ => True
  | S754_finite _ m e => e ≤ D ∧ Zpos m < 2 ^ (D - e)
  | _ => False
  end.

Lemma bounded_by_finite D x : bounded_by D x → finiteb x = true.
Proof. by destruct x. Qed.

Lemma Zdigits2_bounds m : 0 < m → 2 ^ (Zdigits2 m - 1) ≤ m < 2 ^ Zdigits2 m.
Proof. destruct m as [|p|p]; try lia. intros _. apply digits2_pos_bounds. Qed.

Lemma Zdigits2_le m k : 0 < m < 2 ^ k → 0 ≤ k → Zdigits2 m ≤ k.
Proof.
  intros [Hm Hk] Hk0. destruct (Zdigits2_bounds m Hm) as [H _].
  assert (Zdigits2 m - 1 < k); [|lia]. apply (Z.pow_lt_mono_r_iff 2); lia.
Qed.

Lemma div_pow2_lt m n k : 0 ≤ m < 2 ^ (n + k) → 0 ≤ n → 0 ≤ k → m / 2 ^ n < 2 ^ k.
Proof.
  intros Hm Hn Hk. apply Z.div_lt_upper_bound; [lia|]. rewrite <-Z.pow_add_r by lia. lia.
Qed.

(** Rounding a value below 2^D. *)
Lemma bounded_round_aux s m e l D :
  0 ≤ m < 2 ^ (D - e) → e ≤ D → -1000 ≤ D ≤ 900 →
  bounded_by (D + 1) (binary_round_aux 53 1024 s m e l).
Proof.
  intros Hm He HD. unfold binary_round_aux.
  assert (Zdigits2 m ≤ D - e) as Hd.
  { destruct (decide (m = 0)) as [->|]; [simpl; lia|]. apply Zdigits2_le; lia. }
  pose proof (shr_fexp_spec m e l) as H1. destruct (shr_fexp _ _ m e l) as [mrs e1].
  destruct H1 as [H1 He1]; [lia|]. set (n1 := Z.max 0 _) in *.
  assert (e1 ≤ D) as He1D by (unfold fexp, SpecFloat.emin in n1; lia).
  assert (0 ≤ shr_m mrs < 2 ^ (D - e1)) as Hm1.
  { rewrite H1. split; [apply Z.div_pos; lia|]. apply div_pow2_lt; [|lia..].
    replace (n1 + (D - e1)) with (D - e) by lia. lia. }
  pose proof (round_nearest_even_range (shr_m mrs) (loc_of_shr_record mrs)) as Hr.
  set (m1 := round_nearest_even _ _) in *. clearbody m1 n1.
  pose proof (shr_fexp_spec m1 e1 loc_Exact) as H2. destruct (shr_fexp _ _ m1 e1 loc_Exact) as [mrs2 e2].
  destruct H2 as [H2 He2]; [lia|]. set (n2 := Z.max 0 _) in *.
  assert (0 ≤ m1 < 2 ^ (D + 1 - e1)) as Hm1'.
  { replace (D + 1 - e1) with (Z.succ (D - e1)) by lia. rewrite Z.pow_succ_r by lia. lia. }
  assert (Zdigits2 m1 ≤ D + 1 - e1) as Hd1.
  { destruct (decide (m1 = 0)) as [->|]; [simpl; lia|]. apply Zdigits2_le; lia. }
  assert (e2 ≤ D + 1) as He2D by (unfold fexp, SpecFloat.emin in n2; lia).
  assert (shr_m mrs2 < 2 ^ (D + 1 - e2)) as Hm2.
  { rewrite H2. apply div_pow2_lt; [|lia..].
    replace (n2 + (D + 1 - e2)) with (D + 1 - e1) by lia. lia. }
  assert (0 ≤ shr_m mrs2) by (rewrite H2; apply Z.div_pos; lia).
  destruct (shr_m mrs2) as [|p|p]; [done| |lia].
  rewrite (proj2 (Z.leb_le _ _)) by lia. simpl. lia.
Qed.

Lemma iter_xO m d : Zpos (Pos.iter xO m d) = Zpos m * 2 ^ Zpos d.
Proof.
  induction d as [|d IH] using Pos.peano_ind; [simpl; lia|].
  rewrite Pos.iter_succ, Pos2Z.inj_xO, IH, Pos2Z.inj_succ, Z.pow_succ_r by lia. lia.
Qed.

Lemma shl_align_bound m e e' D mz ez :
  shl_align m e e' = (mz, ez) → Zpos m < 2 ^ (D - e) → e ≤ D →
  Zpos mz < 2 ^ (D - ez) ∧ ez ≤ D.
Proof.
  unfold shl_align. destruct (e' - e) as [|d|d] eqn:E; intros [= <- <-] Hm He; try done.
  replace (D - e') with (D - e + Zpos d) by lia. rewrite Z.pow_add_r, iter_xO by lia.
  split; [|lia]. apply Z.mul_lt_mono_pos_r; lia.
Qed.

(** The conversion of an integer below 2^k. *)
Lemma bounded_dofZ z k : Z.abs z < 2 ^ k → 0 ≤ k ≤ 900 → bounded_by (k + 1) (dofZ z).
Proof.
  intros Hz Hk. unfold dofZ. destruct z as [|p|p]; simpl; [done| |]; unfold binary_round;
    destruct (shl_align _ _ _) as [mz ez] eqn:E;
    destruct (shl_align_bound _ _ _ k _ _ E) as [H1 H2]; rewrite ?Z.sub_0_r; try lia;
    apply bounded_round_aux; lia.
Qed.

Lemma bounded_mul x y Dx Dy :
  bounded_by Dx x → bounded_by Dy y → -1000 ≤ Dx + Dy ≤ 900 → bounded_by (Dx + Dy + 1) (dmul x y).
Proof.
  destruct x as [| | |sx mx ex], y as [| | |sy my ey]; try done; simpl.
  intros [Hex Hx] [Hey Hy] HD. unfold dmul. simpl. apply bounded_round_aux; [|lia..].
  replace (Dx + Dy - (ex + ey)) with ((Dx - ex) + (Dy - ey)) by lia. rewrite Z.pow_add_r by lia.
  split; [lia|]. rewrite Pos2Z.inj_mul. apply Z.mul_lt_mono_nonneg; lia.
Qed.

(** ** How close the rounding of a quotient is *)

Lemma Zdigits2_unique m k : 2 ^ (k - 1) ≤ m < 2 ^ k → 0 < k → Zdigits2 m = k.
Proof.
  intros Hm Hk. assert (0 < m) as H0 by (pose proof (Z.pow_pos_nonneg 2 (k - 1)); lia).
  pose proof (Zdigits2_le m k) as H1. destruct (Zdigits2_bounds m H0) as [_ H2].
  assert (k - 1 < Zdigits2 m); [|lia]. apply (Z.pow_lt_mono_r_iff 2); [lia| |lia].
  destruct m; simpl in *; lia.
Qed.

(** A mantissa of 53 or 54 bits becomes one of 53, changed by at most 2. *)
Lemma round_aux_close s q e l :
  2 ^ 52 ≤ q < 2 ^ 54 → -1000 ≤ e ≤ 900 →
  ∃ m n, binary_round_aux 53 1024 s q e l = S754_finite s m (e + n) ∧ 0 ≤ n ≤ 2 ∧
    2 ^ 52 ≤ Zpos m < 2 ^ 53 ∧ Z.abs (Zpos m * 2 ^ n - q) ≤ 2.
Proof.
  intros Hq He. unfold binary_round_aux.
  pose proof (shr_fexp_spec q e l) as H1. destruct (shr_fexp _ _ q e l) as [mrs e1].
  destruct H1 as [H1 He1]; [lia|].
  assert (∃ n1, e1 = e + n1 ∧ 0 ≤ n1 ≤ 1 ∧ 2 ^ 52 ≤ shr_m mrs < 2 ^ 53 ∧
    q - 1 ≤ shr_m mrs * 2 ^ n1 ≤ q ∧ (n1 = 0 → shr_m mrs = q)) as (n1 & -> & Hn1 & Hm1 & Hc1 & _).
  { unfold fexp, SpecFloat.emin in *. destruct (decide (q < 2 ^ 53)).
    - rewrite (Zdigits2_unique q 53) in H1, He1 by lia. rewrite Z.max_l in H1, He1 by lia.
      exists 0. rewrite H1, Z.div_1_r. lia.
    - rewrite (Zdigits2_unique q 54) in H1, He1 by lia. rewrite Z.max_r in H1, He1 by lia.
      exists 1. replace (Z.max _ _ - e) with 1 in H1, He1 by lia. rewrite H1.
      change (2 ^ 1) with 2. pose proof (Z.div_mod q 2). pose proof (Z.mod_pos_bound q 2). lia. }
  pose proof (round_nearest_even_range (shr_m mrs) (loc_of_shr_record mrs)) as Hr.
  set (r := round_nearest_even _ _) in *. clearbody r. clear H1 He1.
  pose proof (shr_fexp_spec r (e + n1) loc_Exact) as H2.
  destruct (shr_fexp _ _ r (e + n1) loc_Exact) as [mrs2 e2]. destruct H2 as [H2 He2]; [lia|].
  assert (∃ n2, e2 = e + n1 + n2 ∧ 0 ≤ n2 ≤ 1 ∧ 2 ^ 52 ≤ shr_m mrs2 < 2 ^ 53 ∧ shr_m mrs2 * 2 ^ n2 = r)
    as (n2 & -> & Hn2 & Hm2 & Hc2).
  { unfold fexp, SpecFloat.emin in *. destruct (decide (r < 2 ^ 53)).
    - rewrite (Zdigits2_unique r 53) in H2, He2 by lia. rewrite Z.max_l in H2, He2 by lia.
      exists 0. rewrite H2, Z.div_1_r. lia.
    - assert (r = 2 ^ 53) as -> by lia. rewrite (Zdigits2_unique (2 ^ 53) 54) in H2, He2 by lia.
      rewrite Z.max_r in H2, He2 by lia. exists 1. replace (Z.max _ _ - (e + n1)) with 1 in H2, He2 by lia.
      rewrite H2. change (2 ^ 53 / 2 ^ 1) with (2 ^ 52). lia. }
  destruct (shr_m mrs2) as [|m|m]; [lia| |lia].
  rewrite (proj2 (Z.leb_le _ _)) by lia. exists m, (n1 + n2). split; [by rewrite Z.add_assoc|].
  split; [lia|]. split; [lia|]. rewrite Z.pow_add_r, (Z.mul_comm (2 ^ n1)), Z.mul_assoc, Hc2 by lia.
  assert (n1 = 0 ∨ n1 = 1) as [-> | ->]; lia.
Qed.

(** The size of a scaled quotient. *)
Lemma quotient_bits A X Y c d q r :
  0 < A → 0 < X ≤ c → c < 2 * X → 0 < Y ≤ d → d < 2 * Y →
  c * (A * (2 * Y)) = d * q + r → 0 ≤ r < d → A * X ≤ q < 4 * (A * X).
Proof.
  intros HA HX HX2 HY HY2 E Hr. split.
  - assert (A * X * d ≤ A * c * (2 * Y)) by (apply Z.mul_le_mono_nonneg; nia).
    assert (A * X * d < d * (q + 1)) by lia. assert (A * X < q + 1); [|lia].
    apply (Z.mul_lt_mono_pos_l d); lia.
  - assert (A * c * (2 * Y) < A * (2 * X) * (2 * d)).
    { apply Z.le_lt_trans with (A * c * (2 * d)); [apply Z.mul_le_mono_nonneg_l; nia|].
      apply Z.mul_lt_mono_pos_r; [lia|]. apply Z.mul_lt_mono_pos_l; lia. }
    apply (Z.mul_lt_mono_pos_l d); lia.
Qed.

(** The double nearest to [c / d], for operands of ordinary size. *)
Lemma division_close c d :
  0 < c < 2 ^ 50 → 0 < d < 2 ^ 900 →
  let '(q, e, l) := SFdiv_core_binary 53 1024 c 0 d 0 in
  6 * d < 2 ^ (- e) ∧
  ∃ m n, binary_round_aux 53 1024 false q e l = S754_finite false m (e + n) ∧ 0 ≤ n ≤ 2 ∧
    2 ^ 52 ≤ Zpos m < 2 ^ 53 ∧ Z.abs (Zpos m * 2 ^ n * d - c * 2 ^ (- e)) ≤ 3 * d.
Proof.
  intros Hc Hd. unfold SFdiv_core_binary. rewrite !Z.add_0_r, Z.sub_diag.
  destruct (Zdigits2_bounds c) as [Hc1 Hc2]; [lia|]. destruct (Zdigits2_bounds d) as [Hd1 Hd2]; [lia|].
  pose proof (Zdigits2_le c 50) as Hlc. pose proof (Zdigits2_le d 900) as Hld.
  assert (0 < Zdigits2 c ∧ 0 < Zdigits2 d) as [Hpc Hpd] by (destruct c, d; simpl; lia).
  set (x := Zdigits2 c) in *. set (y := Zdigits2 d) in *. clearbody x y.
  assert (Z.min (fexp 53 1024 (x - y)) 0 = x - y - 53) as -> by (unfold fexp, SpecFloat.emin; lia).
  set (k := 0 - (x - y - 53)).
  assert (match k with Z0 => c | Zpos _ => Z.shiftl c k | Zneg _ => 0 end = c * 2 ^ k) as ->.
  { destruct k eqn:E; [lia| |lia]. apply Z.shiftl_mul_pow2. lia. }
  assert (2 ^ k = 2 ^ (53 - x) * 2 ^ y) as Hk by (rewrite <-Z.pow_add_r by lia; f_equal; lia).
  assert (2 ^ 53 = 2 ^ (53 - x) * 2 ^ x) as H53 by (rewrite <-Z.pow_add_r by lia; f_equal; lia).
  assert (2 ^ 3 ≤ 2 ^ (53 - x)) as H8 by (apply Z.pow_le_mono_r; lia).
  assert (2 ^ x = 2 * 2 ^ (x - 1) ∧ 2 ^ y = 2 * 2 ^ (y - 1)) as [Hx Hy].
  { split; rewrite <-Z.pow_succ_r by lia; f_equal; lia. }
  pose proof (Z.pow_pos_nonneg 2 (x - 1)). pose proof (Z.pow_pos_nonneg 2 (y - 1)).
  pose proof (Z_div_mod (c * 2 ^ k) d) as Hdiv. destruct (Z.div_eucl (c * 2 ^ k) d) as [q r].
  destruct Hdiv as [Hdiv Hr]; [lia|]. assert (- (x - y - 53) = k) as -> by lia.
  rewrite Hk, Hy in Hdiv |- *.
  assert (2 ^ (53 - x) * 2 ^ (x - 1) = 2 ^ 52) as H52 by lia.
  destruct (quotient_bits (2 ^ (53 - x)) (2 ^ (x - 1)) (2 ^ (y - 1)) c d q r) as [Hq1 Hq2]; try lia.
  split.
  { apply Z.lt_le_trans with (8 * (2 * 2 ^ (y - 1))); [lia|]. apply Z.mul_le_mono_nonneg_r; lia. }
  rewrite H52 in Hq1, Hq2.
  destruct (round_aux_close false q (x - y - 53) (new_location d r)) as (m & n & Hm & Hn & Hmb & Hclose); [lia..|].
  exists m, n. split; [exact Hm|]. split; [done|]. split; [done|].
  rewrite Hdiv. clear -Hclose Hr. nia.
Qed.

(** The conversion of a positive integer that a double can hold exactly is at least 1. *)
Lemma dofZ_pos z :
  0 < z < 2 ^ 53 → ∃ m e, dofZ z = S754_finite false m e ∧ 2 ^ 52 ≤ Zpos m ∧ -52 ≤ e.
Proof.
  intros Hz. destruct z as [|p|p]; [lia| |lia]. unfold dofZ. simpl. unfold binary_round.
  pose proof (digits2_pos_bounds p) as Hp. pose proof (Zdigits2_le (Zpos p) 53) as Hd. simpl in Hd.
  set (d := Zpos (digits2_pos p)) in *.
  assert (fexp 53 1024 (d + 0) = d - 53) as -> by (unfold fexp, SpecFloat.emin; lia).
  assert (∃ mz ez, shl_align p 0 (d - 53) = (mz, ez) ∧ ez = d - 53 ∧ Zpos mz = Zpos p * 2 ^ (53 - d))
    as (mz & ez & -> & -> & Hmz).
  { unfold shl_align. rewrite Z.sub_0_r. destruct (d - 53) as [|k|k] eqn:E; [|lia|].
    - exists p, 0. split; [done|]. split; [done|]. replace (53 - d) with 0 by lia. lia.
    - eexists _, _. split; [done|]. split; [done|]. rewrite iter_xO. do 2 f_equal. lia. }
  assert (2 ^ 52 = 2 ^ (d - 1) * 2 ^ (53 - d) ∧ 2 ^ 53 = 2 ^ d * 2 ^ (53 - d)) as [H52 H53].
  { split; rewrite <-Z.pow_add_r by lia; f_equal; lia. }
  pose proof (Z.pow_pos_nonneg 2 (53 - d)).
  destruct (round_aux_close false (Zpos mz) (d - 53) loc_Exact) as (m & n & Hm & Hn & Hmb & _); [nia|lia|].
  exists m, (d - 53 + n). split; [done|]. lia.
Qed.

(** Dividing by such a number. *)
Lemma bounded_div x y my ey D :
  bounded_by D x → y = S754_finite false my ey → 2 ^ 52 ≤ Zpos my → -52 ≤ ey ≤ 1000 →
  -100 ≤ D ≤ 800 → bounded_by (D + 1) (ddiv x y).
Proof.
  intros Hx -> Hmy Hey HD. destruct x as [s|s| |s mx ex]; try done. simpl in Hx. destruct Hx as [Hex Hx].
  unfold ddiv. cbn [SFdiv]. unfold SFdiv_core_binary. set (e' := Z.min _ _).
  assert (Zdigits2 (Zpos mx) ≤ D - ex) as Hdx by (apply Zdigits2_le; lia).
  assert (0 < Zdigits2 (Zpos my)) as Hdy by done.
  assert (e' ≤ ex - ey ∧ e' ≤ D) as [He' HeD] by (unfold e', fexp, SpecFloat.emin; lia).
  clearbody e'. set (k := ex - ey - e').
  assert (match k with Z0 => Zpos mx | Zpos _ => Z.shiftl (Zpos mx) k | Zneg _ => 0 end = Zpos mx * 2 ^ k) as ->.
  { destruct k eqn:E; [lia| |lia]. apply Z.shiftl_mul_pow2. lia. }
  pose proof (Z_div_mod (Zpos mx * 2 ^ k) (Zpos my)) as Hdiv.
  destruct (Z.div_eucl _ _) as [q r]. destruct Hdiv as [Hdiv Hr]; [lia|].
  assert (Zpos mx * 2 ^ k < 2 ^ (D - e' - ey)) as Hlt.
  { replace (D - e' - ey) with (D - ex + k) by lia. rewrite Z.pow_add_r by lia.
    apply Z.mul_lt_mono_pos_r; [apply Z.pow_pos_nonneg; lia|done]. }
  assert (2 ^ (D - e' - ey) ≤ 2 ^ (D - e') * 2 ^ 52) as Hle.
  { rewrite <-Z.pow_add_r by lia. apply Z.pow_le_mono_r; lia. }
  assert (0 ≤ Zpos mx * 2 ^ k) as H0 by (apply Z.mul_nonneg_nonneg; [lia|]; apply Z.pow_nonneg; lia).
  apply bounded_round_aux; [|lia..]. split; [nia|].
  assert (0 < 2 ^ (D - e')) by (apply Z.pow_pos_nonneg; lia). nia.
Qed.
