(* ===== verification/StdMap.v ===== *)
(** [std::map] with a comparator: a list of key and value pairs in the order of
    the comparator, one pair per class of equivalent keys.  The operations are
    the ones the order book uses ([find], [operator\[\]] followed by an in-place
    update, [erase] of a key, [begin]).  An in-place update may itself be
    undefined (erasing an iterator that is not of that list), so the updating
    operation returns an option.

    [flat m] is the concatenation of the values in key order, each element
    paired with the key of its level: for the order book, the queue of all
    resting orders of one side in matching order. *)

From stdpp Require Import base list gmap sorting.
From Stdlib Require Import ZArith Lia.
From S2P Require Import Prelude Machine.

Section std_map.
Context {K V : Type} (ltb : K → K → bool).

Implicit Types (m : list (K * V)).

Fixpoint map_find (k : K) m : option V :=
  match m with
  | [] => None
  | (k', v) :: m' =>
      if ltb k k' then None else if ltb k' k then map_find k m' else Some v
  end.

(** [m\[k\]], created as [d] when there is no such key, then updated by [f]. *)
Fixpoint map_subscript (k : K) (d : V) (f : V → option V) m : option (list (K * V)) :=
  match m with
  | [] => v ← f d; Some [(k, v)]
  | (k', v) :: m' =>
      if ltb k k' then v' ← f d; Some ((k, v') :: m)
      else if ltb k' k then m'' ← map_subscript k d f m'; Some ((k', v) :: m'')
      else v' ← f v; Some ((k', v') :: m')
  end.

Fixpoint map_erase (k : K) m : list (K * V) :=
  match m with
  | [] => []
  | (k', v) :: m' =>
      if ltb k k' then m else if ltb k' k then (k', v) :: map_erase k m' else m'
  end.

(** The comparator's order between successive keys. *)
Definition keys_sorted m : Prop := StronglySorted (λ x y, ltb x.1 y.1 = true) m.
End std_map.

(** [std::list::erase] of an iterator: undefined when the node is not in the list. *)
Fixpoint list_erase {A} `{EqDecision A} (a : A) (l : list A) : option (list A) :=
  match l with
  | [] => None
  | b :: l' => if decide (a = b) then Some l' else l'' ← list_erase a l'; Some (b :: l'')
  end.

Lemma list_erase_split {A} `{EqDecision A} (a : A) (l : list A) :
  a ∈ l → ∃ l1 l2, l = l1 ++ a :: l2 ∧ list_erase a l = Some (l1 ++ l2).
Proof.
  induction l as [|b l IH]; [by intros ?%not_elem_of_nil|]. simpl.
  destruct (decide (a = b)) as [->|Hne]; [by exists [], l|].
  intros [?|Hin]%elem_of_cons; [done|].
  destruct (IH Hin) as (l1 & l2 & -> & ->). by exists (b :: l1), l2.
Qed.

Section levels.
Context {K A : Type} (ltb : K → K → bool) (ok : K → Prop).
Context `{!StrictWeakOrder ltb ok}.

Implicit Types (m : list (K * list A)) (k : K) (l : list A).

Definition flat m : list (K * A) := m ≫= λ '(k, l), (λ a, (k, a)) <$> l.
#[local] Arguments flat : simpl never.

(** Sorted, keyed by acceptable keys and without empty levels. *)
Record levels_ok m : Prop := {
  lv_sorted : keys_sorted ltb m;
  lv_keys : Forall (λ x, ok x.1) m;
  lv_nonempty : Forall (λ x, x.2 ≠ []) m;
}.

Lemma levels_ok_nil : levels_ok [].
Proof. split; constructor. Qed.

Lemma levels_ok_cons k l m :
  levels_ok ((k, l) :: m) ↔
  levels_ok m ∧ ok k ∧ l ≠ [] ∧ Forall (λ x, ltb k x.1 = true) m.
Proof.
  split.
  - intros [Hs Hk Hn]. apply StronglySorted_inv in Hs as [Hs ?].
    apply Forall_cons in Hk as [??]. apply Forall_cons in Hn as [??].
    by split_and!.
  - intros ([] & ? & ? & ?). split; by constructor.
Qed.

Lemma flat_cons k l m : flat ((k, l) :: m) = ((λ a, (k, a)) <$> l) ++ flat m.
Proof. done. Qed.

Lemma flat_key_elem m k a : (k, a) ∈ flat m → ∃ l, (k, l) ∈ m ∧ a ∈ l.
Proof.
  unfold flat. intros ([k' l] & Hin & Hkl)%list_elem_of_bind.
  apply list_elem_of_fmap in Hin as (a' & ? & ?). simplify_eq. by exists l.
Qed.

Lemma flat_elem_intro m k l a : (k, l) ∈ m → a ∈ l → (k, a) ∈ flat m.
Proof.
  intros Hkl Ha. unfold flat. apply list_elem_of_bind. exists (k, l).
  split; [|done]. apply list_elem_of_fmap. by exists a.
Qed.

Lemma Forall_flat (P : K → Prop) m :
  Forall (λ x, P x.1) m → Forall (λ x, P x.1) (flat m).
Proof.
  rewrite !Forall_forall. intros H [k a] (l & Hl & _)%flat_key_elem. by apply (H _ Hl).
Qed.

Lemma flat_nil_iff m : levels_ok m → flat m = [] ↔ m = [].
Proof.
  destruct m as [|[k l] m]; [done|]. intros (_ & _ & Hl & _)%levels_ok_cons.
  rewrite flat_cons. by destruct l.
Qed.

(** The keys of [flat] are in order, equal keys next to each other. *)
Lemma flat_sorted m :
  levels_ok m → StronglySorted (λ x y, ltb y.1 x.1 = false) (flat m).
Proof.
  induction m as [|[k l] m IH]; [constructor|].
  intros (Hm & Hk & Hl & Hlt)%levels_ok_cons. rewrite flat_cons, StronglySorted_app.
  split_and!.
  - intros [k1 a1] [k2 a2] (? & ? & ?)%list_elem_of_fmap (l2 & Hl2 & _)%flat_key_elem.
    simplify_eq/=. rewrite Forall_forall in Hlt. eapply swo_asym, (Hlt _ Hl2).
  - clear -StrictWeakOrder0. induction l as [|a l IH]; [constructor|]. constructor; [done|].
    apply Forall_fmap, Forall_true. intros. apply swo_irrefl.
  - by apply IH.
Qed.

(** *** Appending to the level of a key *)

(** [operator\[\]] and [push_back]: the element goes behind every element whose
    key does not come after [k], in front of every element whose key does. *)
Lemma subscript_push m k (a : A) :
  levels_ok m → ok k →
  ∃ m' k' (l1 l2 : list (K * A)),
    map_subscript ltb k [] (λ l, Some (l ++ [a])) m = Some m' ∧
    levels_ok m' ∧ ok k' ∧
    flat m = l1 ++ l2 ∧ flat m' = l1 ++ (k', a) :: l2 ∧
    equivb ltb k' k = true ∧
    Forall (λ x, ltb k x.1 = false) l1 ∧ Forall (λ x, ltb k x.1 = true) l2.
Proof.
  intros Hm Hk. induction m as [|[k0 l0] m IH]; simpl.
  { exists [(k, [a])], k, [], []. split_and!; try done; [|by eapply equivb_refl].
    apply levels_ok_cons. split_and!; try done. }
  pose proof Hm as (Hm' & Hk0 & Hl0 & Hlt)%levels_ok_cons.
  destruct (ltb k k0) eqn:E1; [|destruct (ltb k0 k) eqn:E2].
  - exists ((k, [a]) :: (k0, l0) :: m), k, [], (flat ((k0, l0) :: m)).
    split_and!; try done; [|by eapply equivb_refl|].
    + apply levels_ok_cons. split_and!; try done. constructor; [done|].
      eapply Forall_impl; [exact Hlt|]. intros x Hx. by eapply swo_trans.
    + rewrite flat_cons. apply Forall_app. split.
      * by apply Forall_fmap, Forall_true.
      * apply (Forall_flat (λ x, ltb k x = true)).
        eapply Forall_impl; [exact Hlt|]. intros x Hx. by eapply swo_trans.
  - destruct (IH Hm') as (m' & k' & l1 & l2 & Hsub & Hm'' & Hk' & Hf & Hf' & He & H1 & H2).
    exists ((k0, l0) :: m'), k', (((λ a, (k0, a)) <$> l0) ++ l1), l2.
    rewrite Hsub. split_and!; try done.
    + apply levels_ok_cons. split_and!; try done.
      apply Forall_forall. intros [kx lx] Hx.
      assert (∀ b, b ∈ lx → (kx, b) ∈ l1 ++ (k', a) :: l2) as Hb.
      { intros b Hb. rewrite <-Hf'. by eapply flat_elem_intro. }
      assert (lx ≠ []) as Hne.
      { destruct Hm'' as [_ _ Hne]. rewrite Forall_forall in Hne. by apply (Hne _ Hx). }
      destruct lx as [|b lx]; [done|]. specialize (Hb b (list_elem_of_here _ _)).
      rewrite elem_of_app, elem_of_cons in Hb. simpl.
      assert ((kx, b) ∈ flat m ∨ kx = k') as [Hfl| ->].
      { rewrite Hf, elem_of_app. naive_solver. }
      * apply flat_key_elem in Hfl as (l & Hl & _). rewrite Forall_forall in Hlt.
        by apply (Hlt _ Hl).
      * eapply ltb_equivb_r; [exact Hk'|exact E2|]. by apply equivb_sym.
    + by rewrite flat_cons, Hf, app_assoc.
    + by rewrite flat_cons, Hf', app_assoc.
    + apply Forall_app. split; [|done]. by apply Forall_fmap, Forall_true.
  - exists ((k0, l0 ++ [a]) :: m), k0, ((λ a, (k0, a)) <$> l0), (flat m).
    split_and!; try done.
    + apply levels_ok_cons. split_and!; try done. by destruct l0.
    + rewrite flat_cons, fmap_app, <-app_assoc. done.
    + by apply equivb_true.
    + by apply Forall_fmap, Forall_true.
    + apply (Forall_flat (λ x, ltb k x = true)). eapply Forall_impl; [exact Hlt|].
      intros x Hx. eapply ltb_equivb_l; [exact Hk|exact Hx|]. by apply equivb_true.
Qed.

(** *** Erasing an element of the level of a key *)

(** The level of [k], removed when it is empty. *)
Definition level_cleanup k m : list (K * list A) :=
  match map_find ltb k m with
  | Some [] => map_erase ltb k m
  | _ => m
  end.

Lemma level_cleanup_skip k k0 l0 m :
  ltb k k0 = false → ltb k0 k = true →
  level_cleanup k ((k0, l0) :: m) = (k0, l0) :: level_cleanup k m.
Proof.
  intros E1 E2. unfold level_cleanup. simpl. rewrite E1, E2.
  by destruct (map_find ltb k m) as [[]|].
Qed.

Lemma level_cleanup_here k k0 l0 m :
  equivb ltb k0 k = true →
  level_cleanup k ((k0, l0) :: m) = if decide (l0 = []) then m else (k0, l0) :: m.
Proof.
  intros [E1 E2]%equivb_true. unfold level_cleanup. simpl. rewrite E1, E2.
  by destruct l0.
Qed.

Lemma level_of_key k k' k0 (a : A) l0 m :
  levels_ok ((k0, l0) :: m) → equivb ltb k' k = true → ok k →
  (k', a) ∈ flat ((k0, l0) :: m) →
  (k' = k0 ∧ a ∈ l0) ∨ ((k', a) ∈ flat m ∧ ltb k k0 = false ∧ ltb k0 k = true).
Proof.
  intros (Hm & Hk0 & _ & Hlt)%levels_ok_cons He Hk.
  rewrite flat_cons, elem_of_app, list_elem_of_fmap.
  intros [(?&?&?)|Hin]; simplify_eq; [by left|].
  right. pose proof Hin as (l & Hl & _)%flat_key_elem. rewrite Forall_forall in Hlt.
  specialize (Hlt _ Hl). simpl in Hlt.
  assert (ltb k0 k = true) by (by eapply ltb_equivb_r).
  split_and!; try done. by eapply swo_asym.
Qed.

Lemma level_cleanup_keys k k0 l0 m :
  (k0, l0) ∈ level_cleanup k m → (k0, l0) ∈ m.
Proof.
  unfold level_cleanup. destruct (map_find ltb k m) as [[|]|]; try done.
  induction m as [|[k1 l1] m IH]; simpl; [done|].
  destruct (ltb k k1); [done|]. destruct (ltb k1 k); [|by right].
  rewrite !elem_of_cons. naive_solver.
Qed.

Context `{EqDecision A}.

(** [operator\[\]] and [erase] of a node of that level, then the removal of the
    level when it became empty: exactly that element leaves the queue. *)
Lemma subscript_erase m k k' (a : A) :
  levels_ok m → ok k → equivb ltb k' k = true → (k', a) ∈ flat m →
  ∃ m' (l1 l2 : list (K * A)),
    map_subscript ltb k [] (list_erase a) m = Some m' ∧
    levels_ok (level_cleanup k m') ∧
    flat m = l1 ++ (k', a) :: l2 ∧ flat (level_cleanup k m') = l1 ++ l2 ∧
    m'.*1 = m.*1.
Proof.
  intros Hm Hk He. induction m as [|[k0 l0] m IH]; [by intros ?%not_elem_of_nil|].
  intros Hin. pose proof Hm as (Hm' & Hk0 & Hl0 & Hlt)%levels_ok_cons.
  destruct (level_of_key _ _ _ _ _ _ Hm He Hk Hin) as [[-> Ha]|(Hin' & E1 & E2)]; simpl.
  - pose proof He as [E1 E2]%equivb_true. rewrite E1, E2.
    destruct (list_erase_split a l0 Ha) as (la & lb & -> & ->).
    exists ((k0, la ++ lb) :: m), ((λ a, (k0, a)) <$> la), (((λ a, (k0, a)) <$> lb) ++ flat m).
    rewrite level_cleanup_here by done. split_and!.
    + done.
    + case_decide; [done|]. by apply levels_ok_cons.
    + by rewrite flat_cons, fmap_app, <-app_assoc.
    + case_decide as Hnil; [|by rewrite flat_cons, fmap_app, <-app_assoc].
      by apply app_eq_nil in Hnil as [-> ->].
    + done.
  - destruct (IH Hm' Hin') as (m' & l1 & l2 & Hs & Hok & Hf & Hf' & Hkeys).
    exists ((k0, l0) :: m'), (((λ a, (k0, a)) <$> l0) ++ l1), l2.
    rewrite E1, E2, Hs, level_cleanup_skip by done. split_and!; try done.
    + apply levels_ok_cons. split_and!; try done.
      rewrite Forall_forall in Hlt. apply Forall_forall.
      intros [kx lx] Hx%level_cleanup_keys.
      destruct (list_elem_of_fmap_1 fst m kx) as ([ky ly] & -> & Hy).
      { rewrite <-Hkeys. apply list_elem_of_fmap. by exists (kx, lx). }
      apply (Hlt _ Hy).
    + by rewrite flat_cons, Hf, <-app_assoc.
    + by rewrite flat_cons, Hf', <-app_assoc.
    + csimpl. by rewrite Hkeys.
Qed.

(** The first element of the queue is the front of the first level. *)
Lemma flat_head m :
  levels_ok m →
  match m with
  | [] => flat m = []
  | (k, l) :: m' => ∃ a l', l = a :: l' ∧ flat m = (k, a) :: ((λ a, (k, a)) <$> l') ++ flat m'
  end.
Proof.
  destruct m as [|[k l] m]; [done|]. intros (_ & _ & Hl & _)%levels_ok_cons.
  destruct l as [|a l]; [done|]. by exists a, l.
Qed.
End levels.

Arguments flat : simpl never.
