(* ===== verification/Types.v ===== *)
(** The vocabulary of the exchange: include/core/Types.h and include/core/Order.h.

    [OrderId], [Quantity] and [Timestamp] are integers of [Z] kept in the range of
    their C++ width; [Price] is a [double].  The three enumerations have a fixed
    underlying type ([uint8_t]), so a value read from the wire may name no
    enumerator: such a value is a legal value of the C++ type and has its own
    constructor here, with the byte it holds.  The source only ever compares an
    enumeration with its enumerators, so such a value takes the final [else]. *)

From stdpp Require Import base list gmap strings.
From Stdlib Require Import ZArith Lia.
From S2P Require Import Prelude Machine.

Open Scope Z_scope.

Abbreviation OrderId := Z (only parsing).
Abbreviation Price := double (only parsing).
Abbreviation Quantity := Z (only parsing).
Abbreviation Timestamp := Z (only parsing).

(** ** Enumerations *)

Inductive Side := Buy | Sell | Side_byte (b : Z).

Inductive OrderType := Limit | Market | IOC | OrderType_byte (b : Z).

Inductive OrderStatus :=
  Accepted | Filled | PartiallyFilled | Cancelled | Rejected | OrderStatus_byte (b : Z).

#[export] Instance Side_eq_dec : EqDecision Side.
Proof. solve_decision. Defined.
#[export] Instance OrderType_eq_dec : EqDecision OrderType.
Proof. solve_decision. Defined.
#[export] Instance OrderStatus_eq_dec : EqDecision OrderStatus.
Proof. solve_decision. Defined.

(** The comparison [side == Side::Buy], the only test the source makes on a side. *)
Definition is_buy (s : Side) : bool := bool_decide (s = Buy).
Definition is_limit (t : OrderType) : bool := bool_decide (t = Limit).
Definition is_market (t : OrderType) : bool := bool_decide (t = Market).
Definition is_ioc (t : OrderType) : bool := bool_decide (t = IOC).

Definition side_to_string (s : Side) : string := if is_buy s then "BUY" else "SELL".

Definition type_to_string (t : OrderType) : string :=
  match t with
  | Limit => "LIMIT" | Market => "MARKET" | IOC => "IOC"
  | OrderType_byte _ => "UNKNOWN"
  end.

Definition status_to_string (s : OrderStatus) : string :=
  match s with
  | Accepted => "ACCEPTED" | Filled => "FILLED" | PartiallyFilled => "PARTIAL"
  | Cancelled => "CANCELLED" | Rejected => "REJECTED"
  | OrderStatus_byte _ => "UNKNOWN"
  end.

(** ** Orders *)

Record Order := mk_order {
  id : OrderId;
  price : Price;
  quantity : Quantity;
  remaining_qty : Quantity;
  timestamp : Timestamp;
  side : Side;
  type : OrderType;
  status : OrderStatus;
}.

#[export] Instance Order_eq_dec : EqDecision Order.
Proof. solve_decision. Defined.

(** The constructor [Order(id, side, type, price, quantity)]; [now] is what its
    call of [now_ns()] returns. *)
Definition Order_new (now : Timestamp) (oid : OrderId) (s : Side) (t : OrderType)
    (p : Price) (q : Quantity) : Order :=
  {| id := oid; price := p; quantity := q; remaining_qty := q; timestamp := now;
     side := s; type := t; status := Accepted |}.

Definition filled_qty (o : Order) : Quantity := u32 (quantity o - remaining_qty o).
Definition is_filled (o : Order) : bool := remaining_qty o =? 0.

(** Assignments to a field of an order. *)
Definition set_remaining (q : Quantity) (o : Order) : Order :=
  {| id := id o; price := price o; quantity := quantity o; remaining_qty := q;
     timestamp := timestamp o; side := side o; type := type o; status := status o |}.

Definition set_status (st : OrderStatus) (o : Order) : Order :=
  {| id := id o; price := price o; quantity := quantity o;
     remaining_qty := remaining_qty o; timestamp := timestamp o; side := side o;
     type := type o; status := st |}.

(** Two states of one order: everything fixed at construction agrees. *)
Definition same_order (o o' : Order) : Prop :=
  id o' = id o ∧ price o' = price o ∧ side o' = side o.

Lemma same_order_refl o : same_order o o.
Proof. done. Qed.
Lemma same_order_set_remaining q o : same_order o (set_remaining q o).
Proof. done. Qed.
Lemma same_order_set_status st o : same_order o (set_status st o).
Proof. done. Qed.
#[export] Hint Resolve same_order_refl same_order_set_remaining same_order_set_status : exch.

(** ** Trades *)

Record Trade := mk_trade {
  buy_order_id : OrderId;
  sell_order_id : OrderId;
  trade_price : Price;
  trade_quantity : Quantity;
  trade_timestamp : Timestamp;
}.

#[export] Instance Trade_eq_dec : EqDecision Trade.
Proof. solve_decision. Defined.
