(* ===== verification/ObjectPool.v ===== *)
(** The object pool of include/core/ObjectPool.h.

    [storage_] is a [std::deque<T>]: it only ever grows at the back, which leaves
    every element where it is, so a [T*] into it is the index of the element and
    stays valid for the life of the pool.  A cell that was never written holds the
    value-initialised [T()]; such cells are not stored in [dq_cells].  [free_list_]
    is a [std::vector<T*>] used as a stack; the list here has its [back()] first.

    The class [PoolLaws] is the promise of the pool to its client: a pool owns a
    set of live addresses, hands out addresses that are not live, and neither an
    acquisition nor a release changes an object that is. *)

From stdpp Require Import base list gmap.
From Stdlib Require Import ZArith Lia.
From S2P Require Import Prelude Machine.

(** The value [T()] of a value-initialised object. *)
Class ValueInit (T : Type) := value_init : T.

Abbreviation ptr := N (only parsing).

Record deque (T : Type) := mk_deque { dq_size : N; dq_cells : gmap N T }.
Arguments mk_deque {T}.
Arguments dq_size {T}.
Arguments dq_cells {T}.

Record ObjectPool (T : Type) := mk_pool { storage_ : deque T; free_list_ : list N }.
Arguments mk_pool {T}.
Arguments storage_ {T}.
Arguments free_list_ {T}.

Section pool.
Context {T : Type} `{!ValueInit T}.
Implicit Types (P : ObjectPool T) (p : ptr).

(** [storage_.emplace_back()] *)
Definition dq_emplace_back (d : deque T) : deque T :=
  mk_deque (dq_size d + 1) (dq_cells d).

(** The loop of the constructor: after [n] rounds the storage has [n] cells and
    the free list their addresses. *)
Fixpoint pool_fill (n : nat) (P : ObjectPool T) : ObjectPool T :=
  match n with
  | O => P
  | S n =>
      pool_fill n
        (mk_pool (dq_emplace_back (storage_ P))
           (dq_size (storage_ P) :: free_list_ P))
  end.

(** The state the constructor leaves, in closed form ([pool_new_loop] shows that
    it is what the loop computes): [n] value-initialised cells, and their
    addresses in the free list, the last one on top. *)
Fixpoint addresses_below (n : nat) (i : N) : list N :=
  match n with
  | O => []
  | S n => N.pred i :: addresses_below n (N.pred i)
  end.

Definition pool_new (initial_capacity : N) : ObjectPool T :=
  mk_pool (mk_deque initial_capacity ∅)
    (addresses_below (N.to_nat initial_capacity) initial_capacity).

Definition acquire P : ptr * ObjectPool T :=
  match free_list_ P with
  | [] => (dq_size (storage_ P), mk_pool (dq_emplace_back (storage_ P)) [])
  | obj :: rest => (obj, mk_pool (storage_ P) rest)
  end.

Definition release (p : ptr) P : ObjectPool T :=
  mk_pool (storage_ P) (p :: free_list_ P).

Definition active_count P : Z :=
  u64 (Z.of_N (dq_size (storage_ P)) - Z.of_nat (length (free_list_ P))).

Definition capacity P : Z := Z.of_N (dq_size (storage_ P)).

(** Reading and writing [*p]: undefined when [p] is not an element of the
    storage. *)
Definition load P (p : ptr) : option T :=
  if (p <? dq_size (storage_ P))%N then
    Some (default value_init (dq_cells (storage_ P) !! p))
  else None.

Definition store P (p : ptr) (v : T) : option (ObjectPool T) :=
  if (p <? dq_size (storage_ P))%N then
    Some (mk_pool (mk_deque (dq_size (storage_ P)) (<[p := v]> (dq_cells (storage_ P))))
            (free_list_ P))
  else None.

(** The pool owns exactly the addresses of [live]: with the free list they are
    the cells of the storage, each once. *)
Definition pool_owns P (live : list ptr) : Prop :=
  NoDup (live ++ free_list_ P) ∧
  Forall (λ p, p < dq_size (storage_ P))%N (live ++ free_list_ P) ∧
  N.of_nat (length (live ++ free_list_ P)) = dq_size (storage_ P).
End pool.

(** What a client of a pool relies on. *)
Class PoolLaws {T PT : Type} (acq : PT → ptr * PT) (rel : ptr → PT → PT)
    (ld : PT → ptr → option T) (st : PT → ptr → T → option PT)
    (owns : PT → list ptr → Prop) : Prop := {
  owns_proper :: Proper (eq ==> (≡ₚ) ==> iff) owns;
  owns_NoDup P live : owns P live → NoDup live;
  acquire_spec P live p P' :
    owns P live → acq P = (p, P') →
    owns P' (p :: live) ∧ ∀ q, q ∈ live → ld P' q = ld P q;
  release_spec P live p :
    owns P (p :: live) → owns (rel p P) live ∧ ∀ q, ld (rel p P) q = ld P q;
  load_spec P live p : owns P live → p ∈ live → is_Some (ld P p);
  store_spec P live p v :
    owns P live → p ∈ live →
    ∃ P', st P p v = Some P' ∧ owns P' live ∧ ld P' p = Some v ∧
          ∀ q, q ≠ p → ld P' q = ld P q;
}.

Section pool_laws.
Context {T : Type} `{!ValueInit T}.
Implicit Types (P : ObjectPool T).

Lemma load_in_range P p : is_Some (load P p) ↔ (p < dq_size (storage_ P))%N.
Proof.
  unfold load. destruct (N.ltb_spec p (dq_size (storage_ P))) as [H|H].
  - split; [done|]. intros _. by eexists.
  - split; [by intros [? ?]|lia].
Qed.

Lemma pool_owns_perm P l1 l2 : l1 ≡ₚ l2 → pool_owns P l1 → pool_owns P l2.
Proof.
  intros Hl (Hnd & Hf & Hlen).
  assert (l1 ++ free_list_ P ≡ₚ l2 ++ free_list_ P) as Hp by (by apply Permutation_app_tail).
  unfold pool_owns. split_and!.
  - by rewrite <-Hp.
  - by rewrite <-Hp.
  - by rewrite <-(Permutation_length Hp).
Qed.

#[export] Instance ObjectPool_laws :
  PoolLaws (T:=T) acquire release load store pool_owns.
Proof.
  split.
  - intros P ? <- l1 l2 Hl. split; by apply pool_owns_perm.
  - intros P live (Hnd & _). by apply NoDup_app in Hnd as (? & _).
  - intros [[n c] [|f fs]] live p P' (Hnd & Hlt & Hlen) Ha; unfold acquire in Ha;
      simplify_eq/=.
    + rewrite app_nil_r in *. split.
      * unfold pool_owns; simpl. rewrite app_nil_r. split_and!.
        -- constructor; [|done]. intros Hin. rewrite Forall_forall in Hlt.
           specialize (Hlt _ Hin). simpl in *. lia.
        -- constructor; [lia|]. eapply Forall_impl; [exact Hlt|]. simpl. lia.
        -- simpl. lia.
      * intros q Hq. rewrite Forall_forall in Hlt. specialize (Hlt _ Hq).
        unfold load. simpl in *. by rewrite !(proj2 (N.ltb_lt _ _)) by lia.
    + split; [|done]. unfold pool_owns; simpl in *.
      assert (p :: live ++ fs ≡ₚ live ++ p :: fs) as Hp by solve_Permutation.
      split_and!; [by rewrite Hp..|]. rewrite !length_app. simpl. lia.
  - intros [[n c] fs] live p (Hnd & Hlt & Hlen). split; [|done].
    unfold pool_owns; simpl in *.
    assert (live ++ p :: fs ≡ₚ p :: live ++ fs) as Hp by solve_Permutation.
    split_and!; [by rewrite Hp..|]. rewrite (Permutation_length Hp). done.
  - intros P live p (Hnd & Hlt & Hlen) Hp. apply load_in_range.
    rewrite Forall_forall in Hlt. apply Hlt, elem_of_app. by left.
  - intros [[n c] fs] live p v (Hnd & Hlt & Hlen) Hp.
    assert (p < n)%N as Hpn.
    { rewrite Forall_forall in Hlt. apply Hlt, elem_of_app. by left. }
    unfold store, load; simpl. rewrite (proj2 (N.ltb_lt _ _) Hpn).
    eexists. split_and!; [done| | |]; simpl.
    + by split_and!.
    + by rewrite (proj2 (N.ltb_lt _ _) Hpn), lookup_insert_eq.
    + intros q Hq. by rewrite lookup_insert_ne.
Qed.

Lemma pool_fill_spec n P :
  pool_owns P [] →
  pool_owns (pool_fill n P) [] ∧
  dq_size (storage_ (pool_fill n P)) = (dq_size (storage_ P) + N.of_nat n)%N.
Proof.
  revert P. induction n as [|n IH]; intros P HP; simpl; [split; [done|lia]|].
  destruct (IH
    (mk_pool (dq_emplace_back (storage_ P)) (dq_size (storage_ P) :: free_list_ P)))
    as [H1 H2].
  - destruct HP as (Hnd & Hlt & Hlen). unfold pool_owns in *; simpl in *. split_and!.
    + constructor; [|done]. intros Hin. rewrite Forall_forall in Hlt.
      specialize (Hlt _ Hin). simpl in *. lia.
    + constructor; [lia|]. eapply Forall_impl; [exact Hlt|]. simpl. lia.
    + lia.
  - split; [done|]. rewrite H2. simpl. lia.
Qed.

Lemma pool_fill_closed n i fs :
  pool_fill n (mk_pool (mk_deque i ∅) fs) =
  mk_pool (T:=T) (mk_deque (i + N.of_nat n) ∅) (addresses_below n (i + N.of_nat n) ++ fs).
Proof.
  revert i fs. induction n as [|n IH]; intros i fs; simpl; [by rewrite N.add_0_r|].
  unfold dq_emplace_back; simpl. rewrite IH.
  replace (i + 1 + N.of_nat n)%N with (i + N.pos (Pos.of_succ_nat n))%N by lia.
  f_equal. clear IH. revert i. induction n as [|n IH]; intros i; simpl.
  - f_equal. lia.
  - f_equal. specialize (IH i). simpl in IH.
    replace (N.pred (N.pred (i + N.of_nat (S (S n)))))
      with (N.pred (i + N.of_nat (S n))) by lia.
    replace (N.pred (i + N.pos (Pos.succ (Pos.of_succ_nat n))))
      with (i + N.pos (Pos.of_succ_nat n))%N by lia.
    done.
Qed.

Lemma pool_new_loop n :
  pool_new n = pool_fill (N.to_nat n) (mk_pool (T:=T) (mk_deque 0 ∅) []).
Proof.
  rewrite pool_fill_closed, N2Nat.id, N.add_0_l, app_nil_r. done.
Qed.

Lemma pool_new_owns n : pool_owns (T:=T) (pool_new n) [].
Proof.
  rewrite pool_new_loop. apply pool_fill_spec. unfold pool_owns; simpl. split_and!; [constructor..|done].
Qed.
End pool_laws.
