(* ===== verification/OrderBook.v ===== *)
(** The order book: include/core/OrderBook.h and src/core/OrderBook.cpp.

    A book is two [std::map]s of price levels, an index from order id to the place
    of the order, and the pool that stores the orders.  A price level is a
    [std::list<Order*>]: its nodes have an identity (their address, drawn from
    [next_node_], which stands for the allocator of list nodes), so that an
    [OrderIterator] kept in the index denotes one node and is invalid once that
    node is erased.

    The operations run in the option monad.  [None] is undefined behaviour of the
    C++ code: following a pointer out of the pool's storage, using an iterator of
    an erased node, or using a map with keys among which the comparator is not a
    strict weak order (a NaN next to a number). *)

From stdpp Require Import base list gmap strings.
From Stdlib Require Import ZArith Lia.
From S2P Require Import Prelude Machine StdMap Types ObjectPool.

Open Scope Z_scope.

(** ** Data *)

(** A node of a [PriceLevel], which is also what an [OrderIterator] denotes. *)
Record node := mk_node { node_addr : N; node_order : ptr }.

#[export] Instance node_eq_dec : EqDecision node.
Proof. solve_decision. Defined.

Abbreviation PriceLevel := (list node).
Abbreviation Levels := (list (Price * PriceLevel)).

Record OrderLocation := mk_loc {
  loc_side : Side;
  loc_price : Price;
  loc_iterator : node;
}.

Record OrderBook := mk_book {
  symbol_ : string;
  bids_ : Levels;
  asks_ : Levels;
  order_lookup_ : gmap OrderId OrderLocation;
  order_pool_ : ObjectPool Order;
  next_order_id_ : OrderId;
  next_node_ : N;
}.

#[export] Instance Order_value_init : ValueInit Order :=
  {| id := 0; price := dzero; quantity := 0; remaining_qty := 0; timestamp := 0;
     side := Buy; type := Limit; status := Accepted |}.

(** Field assignments. *)
Definition set_pool (P : ObjectPool Order) (b : OrderBook) : OrderBook :=
  mk_book (symbol_ b) (bids_ b) (asks_ b) (order_lookup_ b) P (next_order_id_ b) (next_node_ b).
Definition set_lookup (m : gmap OrderId OrderLocation) (b : OrderBook) : OrderBook :=
  mk_book (symbol_ b) (bids_ b) (asks_ b) m (order_pool_ b) (next_order_id_ b) (next_node_ b).
Definition set_next_id (i : OrderId) (b : OrderBook) : OrderBook :=
  mk_book (symbol_ b) (bids_ b) (asks_ b) (order_lookup_ b) (order_pool_ b) i (next_node_ b).
Definition set_next_node (n : N) (b : OrderBook) : OrderBook :=
  mk_book (symbol_ b) (bids_ b) (asks_ b) (order_lookup_ b) (order_pool_ b) (next_order_id_ b) n.

(** The map a side selects: [bids_] for a buy, [asks_] otherwise. *)
Definition side_levels (buy : bool) (b : OrderBook) : Levels :=
  if buy then bids_ b else asks_ b.
Definition set_side_levels (buy : bool) (m : Levels) (b : OrderBook) : OrderBook :=
  mk_book (symbol_ b) (if buy then m else bids_ b) (if buy then asks_ b else m)
    (order_lookup_ b) (order_pool_ b) (next_order_id_ b) (next_node_ b).

(** The comparator of that map: [std::greater<Price>] for the bids, [std::less]
    for the asks. *)
Definition price_before (buy : bool) : Price → Price → bool :=
  if buy then dgtb else dltb.

(** Keys on which both comparators are strict weak orders: numbers only, or NaNs
    only. *)
Definition comparable (ks : list Price) : bool :=
  forallb (λ k, negb (is_nanb k)) ks || forallb is_nanb ks.

(** [m\[k\]] followed by an update of the level. *)
Definition level_update (buy : bool) (k : Price) (f : PriceLevel → option PriceLevel)
    (m : Levels) : option Levels :=
  if comparable (k :: m.*1) then map_subscript (price_before buy) k [] f m else None.

(** ** Construction *)

Definition OrderBook_new (sym : string) (pool_size : N) : OrderBook :=
  mk_book sym [] [] ∅ (pool_new pool_size) 1 0.

(** The default of the second constructor argument. *)
Definition default_pool_size : N := 100000.

(** ** Pointers and iterators *)

Definition book_nodes (b : OrderBook) : list node :=
  (flat (bids_ b)).*2 ++ (flat (asks_ b)).*2.

(** [*it]: undefined once the node is erased. *)
Definition deref_iterator (it : node) (b : OrderBook) : option ptr :=
  if decide (it ∈ book_nodes b) then Some (node_order it) else None.

(** [*order] as a value and as the target of an assignment. *)
Definition get_order (p : ptr) (b : OrderBook) : option Order := load (order_pool_ b) p.
Definition put_order (p : ptr) (o : Order) (b : OrderBook) : option OrderBook :=
  P ← store (order_pool_ b) p o; Some (set_pool P b).

(** ** Operations *)

Definition add_order (now : Timestamp) (s : Side) (t : OrderType) (p : Price)
    (q : Quantity) (b : OrderBook) : option (ptr * OrderBook) :=
  let '(order, P) := acquire (order_pool_ b) in
  let oid := next_order_id_ b in
  b ← put_order order (Order_new now oid s t p q)
        (set_next_id (u64 (next_order_id_ b + 1)) (set_pool P b));
  let it := mk_node (next_node_ b) order in
  m ← level_update (is_buy s) p (λ l, Some (l ++ [it])) (side_levels (is_buy s) b);
  let b := set_next_node (next_node_ b + 1)%N (set_side_levels (is_buy s) m b) in
  Some (order, set_lookup (<[oid := mk_loc s p it]> (order_lookup_ b)) b).

Definition cleanup_price_level (s : Side) (p : Price) (b : OrderBook) : option OrderBook :=
  let m := side_levels (is_buy s) b in
  if comparable (p :: m.*1) then
    Some (match map_find (price_before (is_buy s)) p m with
          | Some [] =>
              set_side_levels (is_buy s) (map_erase (price_before (is_buy s)) p m) b
          | _ => b
          end)
  else None.

(** [bids_\[loc.price\].erase(loc.iterator)], or the same on [asks_]. *)
Definition erase_node (loc : OrderLocation) (b : OrderBook) : option OrderBook :=
  let buy := is_buy (loc_side loc) in
  m ← level_update buy (loc_price loc) (list_erase (loc_iterator loc)) (side_levels buy b);
  Some (set_side_levels buy m b).

(** [order_lookup_.erase(it); order_pool_.release(order)] *)
Definition forget_order (oid : OrderId) (order : ptr) (b : OrderBook) : OrderBook :=
  set_pool (release order (order_pool_ b)) (set_lookup (delete oid (order_lookup_ b)) b).

Definition cancel_order (order_id : OrderId) (b : OrderBook) : option (bool * OrderBook) :=
  match order_lookup_ b !! order_id with
  | None => Some (false, b)
  | Some loc =>
      order ← deref_iterator (loc_iterator loc) b;
      o ← get_order order b;
      b ← put_order order (set_status Cancelled o) b;
      b ← erase_node loc b;
      b ← cleanup_price_level (loc_side loc) (loc_price loc) b;
      Some (true, forget_order order_id order b)
  end.

Definition reduce_order (order_id : OrderId) (new_quantity : Quantity) (b : OrderBook)
    : option (bool * OrderBook) :=
  match order_lookup_ b !! order_id with
  | None => Some (false, b)
  | Some loc =>
      order ← deref_iterator (loc_iterator loc) b;
      o ← get_order order b;
      if new_quantity >=? remaining_qty o then Some (false, b)
      else if new_quantity =? 0 then cancel_order order_id b
      else b ← put_order order (set_remaining new_quantity o) b; Some (true, b)
  end.

Definition remove_order (order : ptr) (b : OrderBook) : option OrderBook :=
  o ← get_order order b;
  match order_lookup_ b !! id o with
  | None => Some b
  | Some loc =>
      b ← erase_node loc b;
      b ← cleanup_price_level (loc_side loc) (loc_price loc) b;
      Some (forget_order (id o) order b)
  end.

(** [next_order_id()], the accessor that draws an id. *)
Definition next_order_id (b : OrderBook) : OrderId * OrderBook :=
  (next_order_id_ b, set_next_id (u64 (next_order_id_ b + 1)) b).

(** ** Accessors *)

Definition best_bid (b : OrderBook) : Price :=
  match bids_ b with [] => dzero | (p, _) :: _ => p end.
Definition best_ask (b : OrderBook) : Price :=
  match asks_ b with [] => dzero | (p, _) :: _ => p end.

Definition spread (b : OrderBook) : Price :=
  let bid := best_bid b in
  let ask := best_ask b in
  if deqb bid dzero || deqb ask dzero then dzero else dsub ask bid.

Definition mid_price (b : OrderBook) : Price :=
  let bid := best_bid b in
  let ask := best_ask b in
  if deqb bid dzero || deqb ask dzero then dzero else ddiv (dadd bid ask) (dofZ 2).

(** The nested loops of [total_bid_quantity] and [total_ask_quantity]. *)
Fixpoint level_total (l : PriceLevel) (total : Quantity) (b : OrderBook) : option Quantity :=
  match l with
  | [] => Some total
  | nd :: l => o ← get_order (node_order nd) b; level_total l (u32 (total + remaining_qty o)) b
  end.

Fixpoint levels_total (m : Levels) (total : Quantity) (b : OrderBook) : option Quantity :=
  match m with
  | [] => Some total
  | (_, l) :: m => t ← level_total l total b; levels_total m t b
  end.

Definition total_bid_quantity (b : OrderBook) : option Quantity := levels_total (bids_ b) 0 b.
Definition total_ask_quantity (b : OrderBook) : option Quantity := levels_total (asks_ b) 0 b.

Definition bid_depth (b : OrderBook) : nat := length (bids_ b).
Definition ask_depth (b : OrderBook) : nat := length (asks_ b).
Definition order_count (b : OrderBook) : nat := size (order_lookup_ b).

Definition best_bid_level (b : OrderBook) : option PriceLevel := snd <$> head (bids_ b).
Definition best_ask_level (b : OrderBook) : option PriceLevel := snd <$> head (asks_ b).

(** The resting orders of one side in the order of the book: by level, and by
    arrival within a level. *)
Definition side_orders (buy : bool) (b : OrderBook) : list Order :=
  omap (λ x, get_order (node_order x.2) b) (flat (side_levels buy b)).
