(* ===== verification/PriceTime.v ===== *)
(** Price-time priority: the specification of the exchange.

    A side of the market is the list of its resting orders in matching order.
    The operations of this file work on such lists only, with no price levels, no
    index and no pool: [enqueue] an arriving order, [dequeue] an order by id,
    [match_queue] an incoming order against the opposite side.  BookInv and
    MatchRefine show that the book and the engine implement them. *)

From stdpp Require Import base list gmap strings sorting.
From Stdlib Require Import ZArith Lia.
From S2P Require Import Prelude Machine StdMap Types ObjectPool OrderBook.

Open Scope Z_scope.

#[export] Instance price_before_swo buy : StrictWeakOrder (price_before buy) num.
Proof. destruct buy; apply _. Qed.

(** ** Price-time priority *)

(** [o1] is matched before [o2]: at a better price, or at the same price with an
    earlier id. *)
Definition ahead (buy : bool) (o1 o2 : Order) : Prop :=
  price_before buy (price o1) (price o2) = true ∨
  price_before buy (price o2) (price o1) = false ∧ id o1 < id o2.

(** The queue of one side after the arrival of [o]: behind every order at its
    price or a better one. *)
Fixpoint enqueue (buy : bool) (o : Order) (l : list Order) : list Order :=
  match l with
  | [] => [o]
  | x :: l' => if price_before buy (price o) (price x) then o :: l else x :: enqueue buy o l'
  end.

(** The queue without the order with a given id. *)
Definition dequeue (oid : OrderId) (l : list Order) : list Order :=
  filter (λ x, id x ≠ oid) l.

(** The queue in which the order with the id of [o] is [o]. *)
Definition replace_order (o : Order) (l : list Order) : list Order :=
  (λ x, if decide (id x = id o) then o else x) <$> l.

Lemma enqueue_app buy o l1 l2 :
  Forall (λ x, price_before buy (price o) (price x) = false) l1 →
  Forall (λ x, price_before buy (price o) (price x) = true) l2 →
  enqueue buy o (l1 ++ l2) = l1 ++ o :: l2.
Proof.
  induction 1 as [|x l1 Hx _ IH]; simpl; intros Hl2.
  - destruct Hl2 as [|y l2 Hy _]; simpl; [done|]. by rewrite Hy.
  - rewrite Hx. by rewrite IH.
Qed.

Lemma dequeue_app oid l1 l2 : dequeue oid (l1 ++ l2) = dequeue oid l1 ++ dequeue oid l2.
Proof. apply filter_app. Qed.

Lemma dequeue_absent oid l : oid ∉ (id <$> l) → dequeue oid l = l.
Proof.
  intros Hni. apply filter_all, Forall_forall. intros x Hx <-.
  apply Hni, list_elem_of_fmap. by exists x.
Qed.

Lemma dequeue_mid o l1 l2 :
  id o ∉ (id <$> l1) → id o ∉ (id <$> l2) → dequeue (id o) (l1 ++ o :: l2) = l1 ++ l2.
Proof.
  intros H1 H2. rewrite dequeue_app. unfold dequeue at 2. rewrite filter_cons_False by naive_solver.
  fold (dequeue (id o) l2). by rewrite !dequeue_absent.
Qed.

Lemma replace_absent o l : id o ∉ (id <$> l) → replace_order o l = l.
Proof.
  intros Hni. unfold replace_order. induction l as [|x l IH]; [done|]. csimpl in *.
  apply not_elem_of_cons in Hni as [? ?]. rewrite decide_False by done. by rewrite IH.
Qed.

Lemma replace_mid o o' l1 l2 :
  id o' = id o → id o ∉ (id <$> l1) → id o ∉ (id <$> l2) →
  replace_order o' (l1 ++ o :: l2) = l1 ++ o' :: l2.
Proof.
  intros Hid H1 H2. unfold replace_order. rewrite fmap_app. csimpl.
  rewrite decide_True by done. fold (replace_order o' l1) (replace_order o' l2).
  by rewrite !replace_absent by (by rewrite Hid).
Qed.

Lemma ahead_same buy o1 o2 o1' o2' :
  id o1' = id o1 → price o1' = price o1 → id o2' = id o2 → price o2' = price o2 →
  ahead buy o1 o2 → ahead buy o1' o2'.
Proof. unfold ahead. by intros -> -> -> ->. Qed.

Lemma StronglySorted_replace buy o l :
  (∀ x, x ∈ l → id x = id o → price x = price o) →
  StronglySorted (ahead buy) l → StronglySorted (ahead buy) (replace_order o l).
Proof.
  intros Hsame. induction 1 as [|x l Hs IH Hx]; [constructor|]. csimpl. constructor.
  - apply IH. intros y Hy. apply Hsame. by right.
  - unfold replace_order. apply Forall_fmap. rewrite Forall_forall in Hx |- *.
    intros y Hy. simpl. eapply ahead_same; [..|by apply Hx];
      case_decide; try done; symmetry; apply Hsame; try done; by constructor.
Qed.

Lemma dequeue_replace o l : dequeue (id o) (replace_order o l) = dequeue (id o) l.
Proof.
  unfold dequeue, replace_order. induction l as [|x l IH]; [done|]. csimpl.
  rewrite !filter_cons. repeat case_decide; simplify_eq/=; try done. by rewrite IH.
Qed.

Lemma replace_twice o o' l :
  id o = id o' → replace_order o' (replace_order o l) = replace_order o' l.
Proof.
  intros Hid. unfold replace_order. rewrite <-list_fmap_compose. apply list_fmap_ext.
  intros i x _. simpl. repeat case_decide; congruence.
Qed.

Lemma elem_of_enqueue buy o x l : x ∈ enqueue buy o l ↔ x = o ∨ x ∈ l.
Proof. induction l as [|y l IH]; simpl; [|case_match]; set_solver. Qed.

Lemma enqueue_perm buy o l : enqueue buy o l ≡ₚ o :: l.
Proof. induction l as [|y l IH]; simpl; [done|]. case_match; [done|]. rewrite IH. constructor. Qed.

Lemma dequeue_enqueue buy o l : id o ∉ (id <$> l) → dequeue (id o) (enqueue buy o l) = l.
Proof.
  intros Hni. unfold dequeue. induction l as [|x l IH]; simpl.
  - rewrite filter_cons_False by naive_solver. done.
  - csimpl in Hni. apply not_elem_of_cons in Hni as [Hx Hni]. case_match.
    + rewrite filter_cons_False by naive_solver. rewrite filter_cons_True by done.
      f_equal. by apply dequeue_absent.
    + rewrite filter_cons_True by done. by rewrite IH.
Qed.

Lemma replace_enqueue buy o o' l :
  id o' = id o → price o' = price o → id o ∉ (id <$> l) →
  replace_order o' (enqueue buy o l) = enqueue buy o' l.
Proof.
  intros Hid Hpr Hni. induction l as [|x l IH].
  - apply (replace_mid o o' [] []); [done|apply not_elem_of_nil..].
  - csimpl in Hni. pose proof Hni as [Hx Hl]%not_elem_of_cons. simpl. rewrite Hpr. case_match.
    + by apply (replace_mid o o' [] (x :: l)); [|apply not_elem_of_nil|].
    + unfold replace_order. csimpl. rewrite decide_False by congruence.
      f_equal. by apply IH.
Qed.

(** ** Matching *)

(** An incoming order at price [p] may trade with the resting order [r]. *)
Definition crosses (buy : bool) (p : Price) (r : Order) : bool :=
  if buy then dgeb p (price r) else dleb p (price r).

(** The trade of [q] shares between an incoming and a resting order, at the price
    of the resting one. *)
Definition trade_of (buy : bool) (inc r : Order) (q : Quantity) (now : Timestamp) : Trade :=
  {| buy_order_id := if buy then id inc else id r;
     sell_order_id := if buy then id r else id inc;
     trade_price := price r; trade_quantity := q; trade_timestamp := now |}.

(** Match [inc] against the queue [opp] of the other side: the trades, the
    incoming order afterwards and the queue afterwards.  [clock i] is the time of
    the [i]-th trade. *)
Fixpoint match_queue (buy : bool) (clock : nat → Timestamp) (inc : Order)
    (opp : list Order) : list Trade * Order * list Order :=
  match opp with
  | [] => ([], inc, [])
  | r :: rest =>
      if (remaining_qty inc >? 0) && crosses buy (price inc) r then
        let q := Z.min (remaining_qty inc) (remaining_qty r) in
        let t := trade_of buy inc r q (clock O) in
        let inc' := set_remaining (remaining_qty inc - q) inc in
        if remaining_qty r - q =? 0 then
          let '(ts, inc'', opp') := match_queue buy (λ n, clock (S n)) inc' rest in
          (t :: ts, inc'', opp')
        else ([t], inc', set_remaining (remaining_qty r - q) r :: rest)
      else ([], inc, opp)
  end.

(** An order that may rest: something is left of it, no more than was ordered. *)
Definition live (o : Order) : Prop :=
  0 < remaining_qty o ≤ quantity o ∧ quantity o < 2 ^ 32.

Definition filled_by (ts : list Trade) : Z := sum_list_Z (trade_quantity <$> ts).

Lemma trade_of_set_remaining buy inc r q x now :
  trade_of buy (set_remaining x inc) r q now = trade_of buy inc r q now.
Proof. done. Qed.

Lemma set_remaining_twice q q' o : set_remaining q (set_remaining q' o) = set_remaining q o.
Proof. done. Qed.

Lemma set_remaining_id o : set_remaining (remaining_qty o) o = o.
Proof. by destruct o. Qed.

(** The trades that fill the orders of [l] completely. *)
Definition full_fills (buy : bool) (clock : nat → Timestamp) (inc : Order) (l : list Order)
    : list Trade :=
  imap (λ i r, trade_of buy inc r (remaining_qty r) (clock i)) l.

(** The outcome of a match in closed form: a prefix [full] of the queue is filled
    and gone; then either matching stops in front of the next order, or the
    incoming order is exhausted inside it. *)
Inductive match_outcome (buy : bool) (clock : nat → Timestamp) (inc : Order)
    (opp : list Order) (ts : list Trade) (inc' : Order) (opp' : list Order) : Prop :=
  | outcome_stop full rem :
      opp = full ++ opp' →
      ts = full_fills buy clock inc full →
      inc' = set_remaining rem inc →
      rem = remaining_qty inc - sum_list_Z (remaining_qty <$> full) → 0 ≤ rem →
      Forall (λ r, crosses buy (price inc) r = true) full →
      (rem = 0 ∨ match opp' with [] => True | r :: _ => crosses buy (price inc) r = false end) →
      match_outcome buy clock inc opp ts inc' opp'
  | outcome_partial full r rest q :
      opp = full ++ r :: rest →
      ts = full_fills buy clock inc full ++ [trade_of buy inc r q (clock (length full))] →
      inc' = set_remaining 0 inc →
      opp' = set_remaining (remaining_qty r - q) r :: rest →
      q = remaining_qty inc - sum_list_Z (remaining_qty <$> full) →
      0 < q < remaining_qty r →
      Forall (λ r, crosses buy (price inc) r = true) (full ++ [r]) →
      match_outcome buy clock inc opp ts inc' opp'.

(** A completely filled head in front of an outcome. *)
Lemma match_outcome_cons buy clock inc r opp ts inc' opp' :
  crosses buy (price inc) r = true → remaining_qty r ≤ remaining_qty inc →
  match_outcome buy (λ n, clock (S n))
    (set_remaining (remaining_qty inc - remaining_qty r) inc) opp ts inc' opp' →
  match_outcome buy clock inc (r :: opp)
    (trade_of buy inc r (remaining_qty r) (clock O) :: ts) inc' opp'.
Proof.
  intros Hc Hle [full rem -> -> -> -> Hge Hf Hstop|full x rest q -> -> -> -> -> Hq Hf]; simpl in *.
  - eapply (outcome_stop _ _ _ _ _ _ _ (r :: full)); csimpl; try done; try lia.
    by constructor.
  - eapply (outcome_partial _ _ _ _ _ _ _ (r :: full)); csimpl; try done; try lia.
    by constructor.
Qed.

Lemma match_queue_outcome buy clock inc opp ts inc' opp' :
  Forall live opp → 0 ≤ remaining_qty inc →
  match_queue buy clock inc opp = (ts, inc', opp') →
  match_outcome buy clock inc opp ts inc' opp'.
Proof.
  assert (∀ clock inc opp, 0 ≤ remaining_qty inc →
    (remaining_qty inc = 0 ∨ match opp with [] => True | r :: _ => crosses buy (price inc) r = false end) →
    match_outcome buy clock inc opp [] inc opp) as Hnone.
  { intros clock0 inc0 opp0 ??. apply (outcome_stop _ _ _ _ _ _ _ [] (remaining_qty inc0));
      simpl; try done; [by rewrite set_remaining_id|lia]. }
  revert clock inc ts inc' opp'. induction opp as [|r rest IH];
    intros clock inc ts inc' opp' Hlive Hrem; simpl.
  { intros; simplify_eq. apply Hnone; auto. }
  apply Forall_cons in Hlive as [[Hr _] Hlive].
  destruct (Z.gtb_spec (remaining_qty inc) 0); simpl; cycle 1.
  { intros; simplify_eq. apply Hnone; auto with lia. }
  destruct (crosses buy (price inc) r) eqn:Hc; cycle 1.
  { intros; simplify_eq. apply Hnone; auto. }
  destruct (Z.eqb_spec (remaining_qty r - Z.min (remaining_qty inc) (remaining_qty r)) 0) as [E|E].
  - destruct (match_queue _ _ _ rest) as [[ts' inc''] opp''] eqn:Hm. intros; simplify_eq.
    assert (Z.min (remaining_qty inc) (remaining_qty r) = remaining_qty r) as Hmin by lia.
    rewrite Hmin in *. apply match_outcome_cons; [done|lia|]. apply IH; [done|simpl; lia|done].
  - intros; simplify_eq.
    assert (Z.min (remaining_qty inc) (remaining_qty r) = remaining_qty inc) as -> by lia.
    rewrite Z.sub_diag.
    eapply (outcome_partial _ _ _ _ _ _ _ [] r rest); simpl; try done; try lia.
    by repeat constructor.
Qed.

(** ** Consequences of a match *)

Lemma filled_by_app ts ts' : filled_by (ts ++ ts') = filled_by ts + filled_by ts'.
Proof. unfold filled_by. by rewrite fmap_app, sum_list_Z_app. Qed.

Lemma full_fills_quantity buy clock inc l :
  filled_by (full_fills buy clock inc l) = sum_list_Z (remaining_qty <$> l).
Proof.
  unfold full_fills, filled_by. revert clock.
  induction l as [|r l IH]; intros clock; [done|]. csimpl. f_equal. apply IH.
Qed.

Lemma full_fills_length buy clock inc l :
  length (full_fills buy clock inc l) = length l.
Proof. apply length_imap. Qed.

(** Every trade is with an order of the queue that crosses, at its price and for no
    more than it has left. *)
Definition trade_with (buy : bool) (inc : Order) (opp : list Order) (t : Trade) : Prop :=
  ∃ r q now, t = trade_of buy inc r q now ∧ r ∈ opp ∧
             crosses buy (price inc) r = true ∧ 0 < q ≤ remaining_qty r.

(** Two states of one order that differ in the remaining quantity only. *)
Definition refilled (o o' : Order) : Prop := o' = set_remaining (remaining_qty o') o.

Lemma Forall_refilled (P : Order → Prop) l l' :
  (∀ o q, P o → P (set_remaining q o)) → Forall2 refilled l l' → Forall P l → Forall P l'.
Proof.
  intros HP. induction 1 as [|x y l l' Hxy _ IH]; [done|].
  intros [Hx Hl]%Forall_cons. constructor; [|by apply IH]. rewrite Hxy. by apply HP.
Qed.

Section outcome.
Context (buy : bool) (clock : nat → Timestamp) (inc inc' : Order).
Context (opp opp' : list Order) (ts : list Trade).
Context (Hlive : Forall live opp) (Hrem : 0 ≤ remaining_qty inc).
Context (Hm : match_queue buy clock inc opp = (ts, inc', opp')).

Lemma match_queue_out : match_outcome buy clock inc opp ts inc' opp'.
Proof. by apply match_queue_outcome. Qed.

(** Only the remaining quantity of the incoming order changes. *)
Lemma match_incoming : inc' = set_remaining (remaining_qty inc') inc.
Proof. by destruct match_queue_out; subst. Qed.

Lemma match_incoming_range : 0 ≤ remaining_qty inc' ≤ remaining_qty inc.
Proof.
  assert (∀ l, l ⊆ opp → 0 ≤ sum_list_Z (remaining_qty <$> l)) as Hpos.
  { intros l Hl. rewrite Forall_forall in Hlive.
    induction l as [|x l IH]; csimpl; [lia|].
    assert (live x) as [? _] by (apply Hlive, Hl; left).
    assert (0 ≤ sum_list_Z (remaining_qty <$> l)) by (apply IH; set_solver). lia. }
  destruct match_queue_out as [full rem ? ? -> ? ? _ _|? ? ? ? ? ? -> ? ? ? _]; simpl; [|lia].
  assert (0 ≤ sum_list_Z (remaining_qty <$> full)) by (apply Hpos; set_solver). lia.
Qed.

(** What the incoming order got is what the trades say ... *)
Lemma match_filled : filled_by ts = remaining_qty inc - remaining_qty inc'.
Proof.
  destruct match_queue_out; subst; rewrite ?filled_by_app, full_fills_quantity; simpl; [lia|].
  unfold filled_by; simpl. lia.
Qed.

(** ... and what the other side gave. *)
Lemma match_conserved :
  sum_list_Z (remaining_qty <$> opp) = filled_by ts + sum_list_Z (remaining_qty <$> opp').
Proof.
  destruct match_queue_out; subst; rewrite ?filled_by_app, full_fills_quantity, fmap_app, sum_list_Z_app;
    csimpl; [lia|]. unfold filled_by; simpl. lia.
Qed.

Lemma match_live : Forall live opp'.
Proof.
  destruct match_queue_out; subst; apply Forall_app in Hlive as [? Hl2]; [done|].
  apply Forall_cons in Hl2 as [Hr ?]. constructor; [|done]. unfold live in *; simpl. lia.
Qed.

Lemma match_trades : Forall (trade_with buy inc opp) ts.
Proof.
  assert (∀ full, full ⊆ opp → Forall (λ r, crosses buy (price inc) r = true) full →
    Forall (trade_with buy inc opp) (full_fills buy clock inc full)) as Hfull.
  { intros full Hsub Hcr. apply Forall_forall. intros t Ht.
    apply elem_of_lookup_imap in Ht as (i & r & -> & Hr%list_elem_of_lookup_2).
    rewrite Forall_forall in Hcr. rewrite Forall_forall in Hlive.
    assert (live r) as [? _] by (apply Hlive, Hsub, Hr).
    exists r, (remaining_qty r), (clock i). split_and!; auto; lia. }
  destruct match_queue_out as [full rem ? ? -> ? ? Hcr _|full r rest q ? ? -> ? ? ? Hcr]; subst.
  - apply Hfull; [set_solver|done].
  - apply Forall_app in Hcr as [Hcr [Hr _]%Forall_cons].
    apply Forall_app. split; [apply Hfull; [set_solver|done]|].
    apply Forall_singleton. eexists r, _, _. split; [done|]. split; [set_solver|].
    split; [done|lia].
Qed.

(** The queue that is left is the end of the old one; only its first order may
    have changed, and only in its remaining quantity. *)
Lemma match_rest :
  ∃ full tail, opp = full ++ tail ∧ Forall2 refilled tail opp'.
Proof.
  assert (∀ l, Forall2 refilled l l) as Hrefl.
  { intros l. induction l; constructor; [|done]. symmetry. apply set_remaining_id. }
  destruct match_queue_out as [full rem|full r rest q]; subst.
  - by exists full, opp'.
  - exists full, (r :: rest). split; [done|]. by constructor; [|apply Hrefl].
Qed.

(** A property of orders that does not depend on the remaining quantity. *)
Lemma match_rest_Forall (P : Order → Prop) :
  (∀ o q, P o → P (set_remaining q o)) → Forall P opp → Forall P opp'.
Proof.
  intros HP. destruct match_rest as (full & tail & -> & H2).
  rewrite Forall_app. intros [_ Ht]. by eapply Forall_refilled.
Qed.

(** The trades come in the order of the queue, each order being filled before the
    next one is reached. *)
Lemma match_counterparties :
  (if buy then sell_order_id else buy_order_id) <$> ts = id <$> take (length ts) opp.
Proof.
  assert (∀ clock full, (if buy then sell_order_id else buy_order_id) <$>
    full_fills buy clock inc full = id <$> full) as Hfull.
  { intros clock0 full. unfold full_fills. revert clock0.
    induction full as [|r full IH]; intros clock0; [done|]. csimpl. f_equal.
    - by destruct buy.
    - apply (IH (λ n, clock0 (S n))). }
  destruct match_queue_out as [full rem|full r rest q]; subst.
  - by rewrite full_fills_length, take_app_length, Hfull.
  - rewrite fmap_app, Hfull, length_app, full_fills_length. simpl.
    rewrite take_app_add. csimpl. rewrite fmap_app. csimpl. f_equal. by destruct buy.
Qed.
End outcome.

(** Crossing is "not before" in the order of the other side. *)
Lemma crosses_before buy p r :
  num p → num (price r) → crosses buy p r = negb (price_before (negb buy) p (price r)).
Proof.
  intros Hp Hr. unfold crosses, dgeb, price_before, dgtb.
  destruct buy; simpl; by rewrite dleb_ltb.
Qed.

(** If the first order of a queue does not cross, none does. *)
Lemma not_crossing_tail buy p r x :
  num p → num (price r) → num (price x) →
  crosses buy p r = false → ahead (negb buy) r x → crosses buy p x = false.
Proof.
  intros Hp Hr Hx. rewrite !crosses_before by done. rewrite !negb_false_iff.
  intros Hb [Ha|[Ha _]].
  - by eapply swo_trans.
  - apply (swo_split _ (price x)) in Hb as [?|?]; [done|congruence|done].
Qed.

(** Whatever is left of an incoming order after matching crosses nothing that
    rests. *)
Lemma match_complete buy clock inc opp ts inc' opp' :
  Forall live opp → 0 ≤ remaining_qty inc →
  num (price inc) → Forall (λ r, num (price r)) opp → StronglySorted (ahead (negb buy)) opp →
  match_queue buy clock inc opp = (ts, inc', opp') → remaining_qty inc' ≠ 0 →
  Forall (λ r, crosses buy (price inc) r = false) opp'.
Proof.
  intros Hlive Hrem Hp Hnum Hs Hm Hne. apply match_queue_outcome in Hm; try done.
  destruct Hm as [full rem -> ? -> ? ? _ Hstop|? ? ? ? ? ? -> ? ? ? _]; [|by destruct Hne].
  simpl in Hne. destruct Hstop as [?|Hstop]; [lia|]. destruct opp' as [|r rest]; [constructor|].
  apply StronglySorted_app in Hs as (_ & _ & [Hr Hs]%StronglySorted_cons).
  apply Forall_app in Hnum as [_ [Hnr Hnum]%Forall_cons]. constructor; [done|].
  rewrite Forall_forall in Hr. rewrite Forall_forall in Hnum. apply Forall_forall.
  intros x Hx. eapply (not_crossing_tail buy _ r); auto.
Qed.

(** An order that crosses the whole queue gets all it wants or all there is. *)
Lemma match_all buy clock inc opp ts inc' opp' :
  Forall live opp → 0 ≤ remaining_qty inc →
  Forall (λ r, crosses buy (price inc) r = true) opp →
  match_queue buy clock inc opp = (ts, inc', opp') →
  filled_by ts = Z.min (remaining_qty inc) (sum_list_Z (remaining_qty <$> opp)).
Proof.
  intros Hlive Hrem Hc Hm. pose proof (match_live _ _ _ _ _ _ _ Hlive Hrem Hm) as Hlive'.
  rewrite (match_filled _ _ _ _ _ _ _ Hlive Hrem Hm).
  pose proof (match_conserved _ _ _ _ _ _ _ Hlive Hrem Hm) as Hcons.
  rewrite (match_filled _ _ _ _ _ _ _ Hlive Hrem Hm) in Hcons.
  assert (0 ≤ sum_list_Z (remaining_qty <$> opp')) as Hpos.
  { clear -Hlive'. induction Hlive' as [|x l [? _] _ IH]; csimpl; lia. }
  apply match_queue_outcome in Hm; try done.
  destruct Hm as [full rem -> _ -> Hr Hge _ Hstop|full r rest q -> _ -> -> Hq ? _];
    simpl in *; [|lia].
  destruct Hstop as [->|Hstop]; [lia|]. destruct opp' as [|r rest]; [simpl in *; lia|].
  apply Forall_app in Hc as [_ [Hcr _]%Forall_cons]. congruence.
Qed.

(** The trades are at the prices of the orders they hit. *)
Lemma match_trade_prices buy clock inc opp ts inc' opp' :
  Forall live opp → 0 ≤ remaining_qty inc →
  match_queue buy clock inc opp = (ts, inc', opp') →
  trade_price <$> ts = price <$> take (length ts) opp.
Proof.
  intros Hlive Hrem Hm. apply match_queue_outcome in Hm; try done.
  assert (∀ clock full, trade_price <$> full_fills buy clock inc full = price <$> full) as Hfull.
  { intros clock0 full. unfold full_fills. revert clock0.
    induction full as [|r full IH]; intros clock0; [done|]. csimpl. f_equal.
    apply (IH (λ n, clock0 (S n))). }
  destruct Hm as [full rem|full r rest q]; subst.
  - by rewrite full_fills_length, take_app_length, Hfull.
  - rewrite fmap_app, Hfull, length_app, full_fills_length. simpl.
    rewrite take_app_add. csimpl. by rewrite fmap_app.
Qed.

(** Every counterparty but the last is gone, and the orders behind the last are
    untouched. *)
Lemma match_front_filled buy clock inc opp ts inc' opp' :
  Forall live opp → 0 ≤ remaining_qty inc →
  match_queue buy clock inc opp = (ts, inc', opp') →
  opp' = drop (length ts) opp ∨
  ∃ r q, opp !! pred (length ts) = Some r ∧ 0 < q < remaining_qty r ∧
         remaining_qty inc' = 0 ∧ opp' = set_remaining q r :: drop (length ts) opp.
Proof.
  intros Hlive Hrem Hm. apply match_queue_outcome in Hm; try done.
  destruct Hm as [full rem|full r rest q]; subst.
  - left. by rewrite full_fills_length, drop_app_length.
  - right. exists r. eexists. rewrite length_app, full_fills_length. simpl.
    rewrite Nat.add_1_r. simpl. rewrite lookup_app_r, Nat.sub_diag by done. simpl.
    split; [done|]. split; [|split; [done|]]; [|f_equal]; [lia|].
    by rewrite <-Nat.add_1_r, drop_app_add.
Qed.
