(* ===== verification/BookInv.v ===== *)
(** The invariant of the order book and what its operations do to it.

    [book_wf] relates the four structures of a book: the two maps of price levels,
    the index and the pool.  Every operation is shown to be defined (no invalid
    pointer, no invalid iterator) on a book that satisfies it, to preserve it, and
    its effect is stated on [side_orders], the queue of resting orders of a side. *)

From stdpp Require Import base list gmap strings sorting.
From Stdlib Require Import ZArith Lia.
From S2P Require Import Prelude Machine StdMap Types ObjectPool OrderBook PriceTime.

Open Scope Z_scope.

(** ** The invariant *)

(** What holds of the order a node points to. *)
Definition order_at (b : OrderBook) (buy : bool) (k : Price) (nd : node) (o : Order) : Prop :=
  get_order (node_order nd) b = Some o ∧
  is_buy (side o) = buy ∧
  num (price o) ∧ equivb (price_before buy) k (price o) = true ∧
  1 ≤ id o < next_order_id_ b ∧
  order_lookup_ b !! id o = Some (mk_loc (side o) (price o) nd).

Record book_wf (b : OrderBook) : Prop := {
  wf_levels buy : levels_ok (price_before buy) num (side_levels buy b);
  wf_addrs : NoDup (node_addr <$> book_nodes b);
  wf_fresh : Forall (λ nd, node_addr nd < next_node_ b)%N (book_nodes b);
  wf_pool : pool_owns (order_pool_ b) (node_order <$> book_nodes b);
  wf_entry buy k nd :
    (k, nd) ∈ flat (side_levels buy b) → ∃ o, order_at b buy k nd o;
  wf_index oid loc :
    order_lookup_ b !! oid = Some loc →
    ∃ k o, (k, loc_iterator loc) ∈ flat (side_levels (is_buy (loc_side loc)) b) ∧
           get_order (node_order (loc_iterator loc)) b = Some o ∧ id o = oid;
  wf_next : 1 ≤ next_order_id_ b < 2 ^ 64;
  wf_priority buy : StronglySorted (ahead buy) (side_orders buy b);
}.

(** A node of the book that holds the order [o]. *)
Definition rests (b : OrderBook) (buy : bool) (nd : node) (o : Order) : Prop :=
  ∃ k, (k, nd) ∈ flat (side_levels buy b) ∧ order_at b buy k nd o.

Section nodes.
Context (b : OrderBook) (Hwf : book_wf b).

Lemma elem_of_book_nodes nd :
  nd ∈ book_nodes b ↔ ∃ buy k, (k, nd) ∈ flat (side_levels buy b).
Proof.
  unfold book_nodes. rewrite elem_of_app, !list_elem_of_fmap. split.
  - intros [([k ?] & -> & ?)|([k ?] & -> & ?)]; [by exists true, k|by exists false, k].
  - intros ([] & k & ?); [left|right]; by exists (k, nd).
Qed.

Lemma rests_node buy nd o : rests b buy nd o → nd ∈ book_nodes b.
Proof. intros (k & ? & _). apply elem_of_book_nodes. eauto. Qed.

Lemma rests_get buy nd o : rests b buy nd o → get_order (node_order nd) b = Some o.
Proof. by intros (k & _ & ? & _). Qed.

Lemma rests_lookup buy nd o :
  rests b buy nd o → order_lookup_ b !! id o = Some (mk_loc (side o) (price o) nd).
Proof. by intros (k & _ & _ & _ & _ & _ & _ & ?). Qed.

Lemma rests_side buy nd o : rests b buy nd o → is_buy (side o) = buy.
Proof. by intros (k & _ & _ & ? & _). Qed.

(** Ids identify the resting orders. *)
Lemma rests_inj buy buy' nd nd' o o' :
  rests b buy nd o → rests b buy' nd' o' → id o = id o' →
  nd = nd' ∧ o = o' ∧ buy = buy'.
Proof.
  intros H H' Hid. pose proof (rests_lookup _ _ _ H) as Hl.
  rewrite Hid, (rests_lookup _ _ _ H') in Hl. simplify_eq.
  pose proof (rests_get _ _ _ H) as Hg. rewrite (rests_get _ _ _ H') in Hg. simplify_eq.
  split_and!; try done. by rewrite <-(rests_side _ _ _ H), <-(rests_side _ _ _ H').
Qed.

(** Addresses of orders identify the nodes. *)
Lemma nodes_ptr_inj nd nd' :
  nd ∈ book_nodes b → nd' ∈ book_nodes b → node_order nd = node_order nd' → nd = nd'.
Proof. apply NoDup_fmap_inj. eapply owns_NoDup, wf_pool, Hwf. Qed.

Lemma elem_of_side_orders buy o :
  o ∈ side_orders buy b ↔ ∃ nd, rests b buy nd o.
Proof.
  unfold side_orders. rewrite list_elem_of_omap. split.
  - intros ([k nd] & Hin & Hg). exists nd, k. split; [done|].
    destruct (wf_entry b Hwf buy k nd Hin) as (o' & Ho'). pose proof Ho' as (Hg' & _).
    simpl in Hg. rewrite Hg in Hg'. by simplify_eq.
  - intros (nd & k & Hin & Hg & _). by exists (k, nd).
Qed.

Lemma resting_id_range buy o :
  o ∈ side_orders buy b → 1 ≤ id o < next_order_id_ b.
Proof. by intros (nd & k & _ & _ & _ & _ & _ & ? & _)%elem_of_side_orders. Qed.

Lemma lookup_rests oid loc :
  order_lookup_ b !! oid = Some loc →
  ∃ o, rests b (is_buy (loc_side loc)) (loc_iterator loc) o ∧ id o = oid ∧
       loc = mk_loc (side o) (price o) (loc_iterator loc).
Proof.
  intros Hl. destruct (wf_index b Hwf oid loc Hl) as (k & o & Hin & Hg & Hid).
  destruct (wf_entry b Hwf _ _ _ Hin) as (o' & Ho'). pose proof Ho' as (Hg' & _).
  assert (o' = o) as -> by congruence.
  assert (rests b (is_buy (loc_side loc)) (loc_iterator loc) o) as Hr by (exists k; eauto).
  exists o. split_and!; try done.
  pose proof (rests_lookup _ _ _ Hr) as Hl'. rewrite Hid in Hl'. congruence.
Qed.

(** An order rests exactly when its id is in the index. *)
Lemma lookup_side_orders oid :
  is_Some (order_lookup_ b !! oid) ↔
  oid ∈ (id <$> side_orders true b) ∨ oid ∈ (id <$> side_orders false b).
Proof.
  rewrite !list_elem_of_fmap. split.
  - intros [loc (o & Hr & Hid & _)%lookup_rests].
    destruct (is_buy (loc_side loc)) eqn:E; [left|right]; exists o;
      (split; [done|]); apply elem_of_side_orders; eauto.
  - intros [(o & -> & Ho)|(o & -> & Ho)]; apply elem_of_side_orders in Ho as (nd & Hr);
      rewrite (rests_lookup _ _ _ Hr); eauto.
Qed.
End nodes.

(** ** Shared facts about queues and nodes *)

Lemma comparable_num (ks : list Price) : Forall num ks → comparable ks = true.
Proof.
  intros H. unfold comparable. apply orb_true_iff. left. apply forallb_forall.
  intros k Hk%list_elem_of_In. rewrite Forall_forall in H. by rewrite (H k Hk).
Qed.

Lemma level_keys_num buy (m : Levels) :
  levels_ok (price_before buy) num m → Forall num m.*1.
Proof. intros [_ H _]. by apply Forall_fmap. Qed.

Lemma side_levels_set buy s m b :
  side_levels s (set_side_levels buy m b) = if decide (s = buy) then m else side_levels s b.
Proof. by destruct buy, s. Qed.

Lemma book_nodes_sides buy b :
  book_nodes b ≡ₚ (flat (side_levels buy b)).*2 ++ (flat (side_levels (negb buy) b)).*2.
Proof. destruct buy; [done|]. unfold book_nodes; simpl. apply Permutation_app_comm. Qed.

(** ** Writing to a resting order *)

(** An assignment to the fields that are not fixed at construction. *)
Lemma put_order_spec b buy nd o o' :
  book_wf b → rests b buy nd o → same_order o o' →
  ∃ P, put_order (node_order nd) o' b = Some (set_pool P b) ∧
       book_wf (set_pool P b) ∧ rests (set_pool P b) buy nd o' ∧
       (∀ nd', nd' ∈ book_nodes b → nd' ≠ nd →
          get_order (node_order nd') (set_pool P b) = get_order (node_order nd') b) ∧
       (∀ s, side_orders s (set_pool P b) = replace_order o' (side_orders s b)).
Proof.
  intros Hwf Hr (Hid & Hpr & Hsd). pose proof (rests_node _ _ _ _ Hr) as Hnd.
  destruct (store_spec (order_pool_ b) (node_order <$> book_nodes b) (node_order nd) o')
    as (P & Hst & Hown & Hld & Hldn).
  { apply Hwf. } { apply list_elem_of_fmap. by exists nd. }
  exists P. split; [unfold put_order; by rewrite Hst|].
  assert (∀ nd', nd' ∈ book_nodes b → nd' ≠ nd →
    get_order (node_order nd') (set_pool P b) = get_order (node_order nd') b) as Hother.
  { intros nd' Hnd' Hne. apply Hldn. intros Heq. apply Hne.
    by apply (nodes_ptr_inj b). }
  assert (∀ s k nd' x, (k, nd') ∈ flat (side_levels s b) → order_at b s k nd' x →
    order_at (set_pool P b) s k nd' (if decide (id x = id o') then o' else x)) as Hat.
  { intros s k nd' x Hin Hx. assert (rests b s nd' x) as Hrx by (exists k; eauto).
    rewrite Hid. case_decide as Heq.
    - destruct (rests_inj b _ _ _ _ _ _ Hrx Hr Heq) as (-> & -> & ->).
      destruct Hx as (? & ? & ? & ? & ? & ?). unfold order_at. rewrite Hid, Hpr, Hsd.
      simpl. split_and!; try done; lia.
    - destruct Hx as (Hg & ?). split; [|done]. rewrite Hother; [done|..].
      + apply elem_of_book_nodes. eauto.
      + intros ->. apply Heq. rewrite (rests_get _ _ _ _ Hr) in Hg. by simplify_eq. }
  assert (∀ s, side_orders s (set_pool P b) = replace_order o' (side_orders s b)) as Hso.
  { intros s. unfold side_orders, replace_order. apply omap_fmap_pointwise.
    intros [k nd'] Hin. destruct (wf_entry b Hwf _ _ _ Hin) as (x & Hx).
    simpl. rewrite (proj1 Hx). simpl. apply (Hat _ _ _ _ Hin Hx). }
  split_and!; try done.
  - split; try apply Hwf; try done.
    + intros s k nd' Hin. destruct (wf_entry b Hwf _ _ _ Hin) as (x & Hx).
      eexists. by eapply Hat.
    + intros oid loc Hl. destruct (wf_index b Hwf _ _ Hl) as (k & x & Hin & Hg & Hx).
      exists k. destruct (wf_entry b Hwf _ _ _ Hin) as (x' & Hx').
      assert (x' = x) as -> by (destruct Hx'; congruence).
      eexists. split; [done|]. split; [apply (Hat _ _ _ _ Hin Hx')|].
      rewrite <-Hx. by case_decide.
    + intros s. rewrite Hso. apply StronglySorted_replace; [|apply Hwf].
      intros x Hx Hidx. apply (elem_of_side_orders b) in Hx as (nd' & Hrx); [|done].
      rewrite Hid in Hidx. by destruct (rests_inj b _ _ _ _ _ _ Hrx Hr Hidx) as (_ & -> & _).
  - destruct Hr as (k & Hin & Hx). exists k. split; [done|].
    specialize (Hat _ _ _ _ Hin Hx). by rewrite decide_True in Hat.
Qed.

(** ** Unlinking a resting order *)

Lemma set_side_levels_same buy b : set_side_levels buy (side_levels buy b) b = b.
Proof. by destruct b, buy. Qed.

Lemma cleanup_eq s p b :
  comparable (p :: (side_levels (is_buy s) b).*1) = true →
  cleanup_price_level s p b =
  Some (set_side_levels (is_buy s)
          (level_cleanup (price_before (is_buy s)) p (side_levels (is_buy s) b)) b).
Proof.
  intros Hc. unfold cleanup_price_level, level_cleanup. rewrite Hc.
  destruct (map_find _ _ _) as [[|]|]; try done; by rewrite set_side_levels_same.
Qed.

(** The state after the node [nd] of side [buy] left its level: [m] is the map of
    that side. *)
Definition unlinked (buy : bool) (m : Levels) (oid : OrderId) (nd : node) (b : OrderBook)
    : OrderBook :=
  forget_order oid (node_order nd) (set_side_levels buy m b).

(** The queue of a side is split by any of its nodes. *)
Lemma side_orders_split b buy k nd o l1 l2 :
  book_wf b → order_at b buy k nd o → flat (side_levels buy b) = l1 ++ (k, nd) :: l2 →
  side_orders buy b =
    omap (λ x, get_order (node_order x.2) b) l1 ++ o ::
    omap (λ x, get_order (node_order x.2) b) l2 ∧
  id o ∉ (id <$> omap (λ x, get_order (node_order x.2) b) l1) ∧
  id o ∉ (id <$> omap (λ x, get_order (node_order x.2) b) l2).
Proof.
  intros Hwf Hat Hfl.
  assert (rests b buy nd o) as Hr.
  { exists k. split; [|done]. rewrite Hfl. set_solver. }
  assert (∀ k' nd', (k', nd') ∈ l1 ++ l2 → nd' ≠ nd) as Hne.
  { intros k' nd' Hin ->. pose proof (wf_addrs b Hwf) as Hnd.
    rewrite (book_nodes_sides buy), Hfl, !fmap_app, fmap_cons in Hnd. csimpl in Hnd.
    apply NoDup_app in Hnd as (Hnd & _ & _). rewrite <-Permutation_middle in Hnd.
    apply NoDup_cons in Hnd as [Hnd _]. apply Hnd.
    rewrite <-!fmap_app, <-list_fmap_compose. apply list_elem_of_fmap.
    by exists (k', nd). }
  assert (∀ l, l ⊆ l1 ++ l2 →
    id o ∉ (id <$> omap (λ x, get_order (node_order x.2) b) l)) as Hni.
  { intros l Hl Hin. apply list_elem_of_fmap in Hin as (x & Hid & Hx).
    apply list_elem_of_omap in Hx as ([k' nd'] & Hin & Hg). specialize (Hl _ Hin).
    assert ((k', nd') ∈ flat (side_levels buy b)) as Hin' by (rewrite Hfl; set_solver).
    destruct (wf_entry b Hwf _ _ _ Hin') as (x' & Hx').
    assert (x' = x) as -> by (destruct Hx'; simpl in Hg; congruence).
    eapply (Hne k' nd'); [done|].
    by eapply (rests_inj b) with (o:=x) (o':=o); [exists k'; eauto|exact Hr|]. }
  split_and!; [|apply Hni; set_solver..].
  unfold side_orders. rewrite Hfl, omap_app. csimpl. by rewrite (proj1 Hat).
Qed.

Section unlinked.
Context (b : OrderBook) (buy : bool) (k : Price) (nd : node) (o : Order).
Context (m : Levels) (l1 l2 : list (Price * node)).
Context (Hwf : book_wf b) (Hat : order_at b buy k nd o).
Context (Hfl : flat (side_levels buy b) = l1 ++ (k, nd) :: l2).
Context (Hm : levels_ok (price_before buy) num m) (Hflm : flat m = l1 ++ l2).

Let b' := unlinked buy m (id o) nd b.

Lemma unlinked_rests : rests b buy nd o.
Proof. exists k. split; [|done]. rewrite Hfl. set_solver. Qed.

Lemma unlinked_nodes : book_nodes b ≡ₚ nd :: book_nodes b'.
Proof.
  rewrite (book_nodes_sides buy b), (book_nodes_sides buy b').
  subst b'. unfold unlinked, forget_order.
  change (side_levels ?s (set_pool _ (set_lookup _ (set_side_levels buy m b))))
    with (side_levels s (set_side_levels buy m b)).
  rewrite !side_levels_set, decide_True, decide_False by (by destruct buy).
  rewrite Hfl, Hflm, !fmap_app. csimpl. solve_Permutation.
Qed.

Lemma unlinked_entry s k' nd' :
  (k', nd') ∈ flat (side_levels s b') ↔ (k', nd') ∈ flat (side_levels s b) ∧ nd' ≠ nd.
Proof.
  pose proof (wf_addrs b Hwf) as Hnd. rewrite unlinked_nodes in Hnd. csimpl in Hnd.
  apply NoDup_cons in Hnd as [Hnd _].
  assert ((k', nd') ∈ flat (side_levels s b') → nd' ≠ nd) as Hne.
  { intros Hin ->. apply Hnd. apply list_elem_of_fmap. exists nd. split; [done|].
    apply elem_of_book_nodes. eauto. }
  assert (side_levels s b' = if decide (s = buy) then m else side_levels s b) as Hs.
  { subst b'. rewrite <-side_levels_set. done. }
  split.
  - intros Hin. split; [|by apply Hne]. rewrite Hs in Hin. case_decide; [subst s|done].
    rewrite Hflm in Hin. rewrite Hfl. set_solver.
  - intros [Hin Hneq]. rewrite Hs. case_decide; [subst s|done].
    rewrite Hfl in Hin. rewrite Hflm. set_solver.
Qed.

Lemma unlinked_pool :
  pool_owns (order_pool_ b') (node_order <$> book_nodes b') ∧
  ∀ p, get_order p b' = get_order p b.
Proof.
  apply (release_spec (order_pool_ b) _ (node_order nd)).
  rewrite <-fmap_cons, <-unlinked_nodes. apply Hwf.
Qed.

Lemma unlinked_order_at s k' nd' x :
  order_at b s k' nd' x → (k', nd') ∈ flat (side_levels s b) → nd' ≠ nd →
  order_at b' s k' nd' x.
Proof.
  intros Hx Hin Hne. assert (id x ≠ id o) as Hid.
  { intros Hid. apply Hne. eapply (rests_inj b); [|exact unlinked_rests|exact Hid].
    exists k'. eauto. }
  destruct Hx as (Hg & ? & ? & ? & ? & Hl). unfold order_at.
  rewrite (proj2 unlinked_pool). split_and!; try done; [simpl; lia..|].
  simpl. by rewrite lookup_delete_ne.
Qed.

Lemma unlinked_orders s : side_orders s b' = dequeue (id o) (side_orders s b).
Proof.
  destruct (side_orders_split b buy k nd o l1 l2 Hwf Hat Hfl) as (Hso & H1 & H2).
  assert (side_orders s b' = omap (λ x, get_order (node_order x.2) b)
    (flat (if decide (s = buy) then m else side_levels s b))) as ->.
  { unfold side_orders. rewrite (omap_ext_in _ (λ x, get_order (node_order x.2) b));
      [|intros; apply unlinked_pool]. subst b'. by rewrite <-side_levels_set. }
  case_decide as Hs; [subst s|].
  - rewrite Hso, dequeue_mid by done. by rewrite Hflm, omap_app.
  - symmetry. apply dequeue_absent. intros (x & Hid & Hx)%list_elem_of_fmap.
    apply (elem_of_side_orders b Hwf) in Hx as (nd' & Hr).
    destruct (rests_inj b _ _ _ _ _ _ Hr unlinked_rests) as (_ & _ & ?); done.
Qed.

Lemma unlinked_wf : book_wf b'.
Proof.
  pose proof unlinked_nodes as Hperm. split.
  - intros s. assert (side_levels s b' = if decide (s = buy) then m else side_levels s b) as ->.
    { subst b'. rewrite <-side_levels_set. done. }
    case_decide; [by subst s|apply Hwf].
  - pose proof (wf_addrs b Hwf) as Hnd. rewrite Hperm in Hnd. csimpl in Hnd.
    by apply NoDup_cons in Hnd as [_ ?].
  - pose proof (wf_fresh b Hwf) as Hfr. rewrite Hperm in Hfr.
    by apply Forall_cons in Hfr as [_ ?].
  - apply unlinked_pool.
  - intros s k' nd' [Hin Hne]%unlinked_entry.
    destruct (wf_entry b Hwf _ _ _ Hin) as (x & Hx). exists x. by apply unlinked_order_at.
  - intros oid loc Hl. simpl in Hl. apply lookup_delete_Some in Hl as [Hne Hl].
    destruct (wf_index b Hwf _ _ Hl) as (k' & x & Hin & Hg & Hid).
    exists k', x. rewrite (proj2 unlinked_pool). split_and!; try done.
    apply unlinked_entry. split; [done|]. intros Heq.
    rewrite Heq, (proj1 Hat) in Hg. naive_solver.
  - apply Hwf.
  - intros s. rewrite unlinked_orders. apply StronglySorted_filter, Hwf.
Qed.
End unlinked.

(** [erase_node], [cleanup_price_level] and [forget_order] in a row, as in
    [cancel_order] and [remove_order]. *)
Lemma unlink_spec b buy nd o :
  book_wf b → rests b buy nd o →
  ∃ m b1 b2,
    erase_node (mk_loc (side o) (price o) nd) b = Some b1 ∧
    cleanup_price_level (side o) (price o) b1 = Some b2 ∧
    let b' := forget_order (id o) (node_order nd) b2 in
    b' = unlinked buy m (id o) nd b ∧
    book_wf b' ∧ (∀ s, side_orders s b' = dequeue (id o) (side_orders s b)) ∧
    (∀ p, get_order p b' = get_order p b) ∧
    (∀ s nd' x, rests b s nd' x → nd' ≠ nd → rests b' s nd' x).
Proof.
  intros Hwf (k & Hin & Hat). pose proof Hat as (_ & Hbuy & Hnum & Heq & _).
  destruct (subscript_erase (price_before buy) num (side_levels buy b) (price o) k nd)
    as (m & l1 & l2 & Hsub & Hok & Hfl & Hflm & Hkeys); [apply Hwf|done..|].
  pose proof (level_keys_num buy _ (wf_levels b Hwf buy)) as Hks.
  exists (level_cleanup (price_before buy) (price o) m), (set_side_levels buy m b).
  eexists. unfold erase_node, level_update. simpl. rewrite Hbuy, comparable_num by (by constructor).
  rewrite Hsub. simpl. split; [done|].
  rewrite cleanup_eq, Hbuy; rewrite side_levels_set, decide_True by done; cycle 1.
  { rewrite Hkeys. apply comparable_num. by constructor. }
  split; [done|]. simpl.
  assert (forget_order (id o) (node_order nd)
    (set_side_levels buy (level_cleanup (price_before buy) (price o) m) (set_side_levels buy m b)) =
    unlinked buy (level_cleanup (price_before buy) (price o) m) (id o) nd b) as ->
    by (by destruct buy).
  split_and!; [done| | | |].
  - by eapply unlinked_wf.
  - intros s. by eapply unlinked_orders.
  - by eapply unlinked_pool.
  - intros s nd' x (k' & Hin' & Hx) Hne. exists k'. split.
    + by eapply unlinked_entry.
    + by eapply unlinked_order_at.
Qed.

(** ** Linking a new order *)

(** The state after a node [nd] for a new order entered the map [m] of its side. *)
Definition linked (s : Side) (p : Price) (nd : node) (P : ObjectPool Order) (m : Levels)
    (b : OrderBook) : OrderBook :=
  mk_book (symbol_ b) (if is_buy s then m else bids_ b) (if is_buy s then asks_ b else m)
    (<[next_order_id_ b := mk_loc s p nd]> (order_lookup_ b)) P
    (next_order_id_ b + 1) (next_node_ b + 1)%N.

Section linked.
Context (b : OrderBook) (now : Timestamp) (s : Side) (t : OrderType) (p : Price) (q : Quantity).
Context (Hwf : book_wf b) (Hp : num p) (Hnext : next_order_id_ b + 1 < 2 ^ 64).

Let buy := is_buy s.
Let o := Order_new now (next_order_id_ b) s t p q.

Context (order : ptr) (P P' : ObjectPool Order).
Context (Hacq : acquire (order_pool_ b) = (order, P)) (Hst : store P order o = Some P').
Context (m : Levels) (k : Price) (l1 l2 : list (Price * node)).

Let nd := mk_node (next_node_ b) order.

Context (Hm : levels_ok (price_before buy) num m) (Hk : num k).
Context (Hfl : flat (side_levels buy b) = l1 ++ l2) (Hflm : flat m = l1 ++ (k, nd) :: l2).
Context (Heq : equivb (price_before buy) k p = true).
Context (H1 : Forall (λ x, price_before buy p x.1 = false) l1).
Context (H2 : Forall (λ x, price_before buy p x.1 = true) l2).

Let b' := linked s p nd P' m b.

Lemma linked_levels s' : side_levels s' b' = if decide (s' = buy) then m else side_levels s' b.
Proof. subst b' buy. unfold linked. by destruct (is_buy s), s'. Qed.

Lemma linked_nodes : book_nodes b' ≡ₚ nd :: book_nodes b.
Proof.
  rewrite (book_nodes_sides buy b), (book_nodes_sides buy b'), !linked_levels.
  rewrite decide_True, decide_False by (by destruct buy).
  rewrite Hfl, Hflm, !fmap_app. csimpl. solve_Permutation.
Qed.

Lemma linked_fresh nd' : nd' ∈ book_nodes b → node_addr nd' ≠ next_node_ b.
Proof.
  intros Hin. pose proof (wf_fresh b Hwf) as Hf. rewrite Forall_forall in Hf.
  specialize (Hf _ Hin). simpl in Hf. lia.
Qed.

Lemma linked_entry s' k' nd' :
  (k', nd') ∈ flat (side_levels s' b') ↔
  (k', nd') ∈ flat (side_levels s' b) ∨ s' = buy ∧ k' = k ∧ nd' = nd.
Proof.
  rewrite linked_levels. case_decide as Hs; [subst s'|naive_solver].
  rewrite Hfl, Hflm. set_solver.
Qed.

Lemma linked_pool :
  pool_owns P' (node_order <$> book_nodes b') ∧ get_order order b' = Some o ∧
  ∀ nd', nd' ∈ book_nodes b → get_order (node_order nd') b' = get_order (node_order nd') b.
Proof.
  destruct (acquire_spec _ _ _ _ (wf_pool b Hwf) Hacq) as [Hown Hld].
  destruct (store_spec P _ order o Hown) as (P2 & HP2 & Hown' & Ho & Hne); [by left|].
  assert (P2 = P') as -> by congruence. split_and!.
  - by rewrite linked_nodes.
  - done.
  - intros nd' Hnd'. assert (node_order nd' ∈ node_order <$> book_nodes b) as Hin
      by (apply list_elem_of_fmap; by exists nd').
    unfold get_order. rewrite <-(Hld _ Hin). apply Hne. intros Heq'.
    apply owns_NoDup in Hown. rewrite Heq' in Hin. by apply NoDup_cons in Hown as [? _].
Qed.

Lemma linked_order_at_new : order_at b' buy k nd o.
Proof.
  unfold order_at. split_and!; try done; [apply linked_pool| | |]; simpl.
  - pose proof (wf_next b Hwf). lia.
  - lia.
  - by rewrite lookup_insert_eq.
Qed.

Lemma linked_order_at_old s' k' nd' x :
  (k', nd') ∈ flat (side_levels s' b) → order_at b s' k' nd' x → order_at b' s' k' nd' x.
Proof.
  intros Hin (Hg & ? & ? & ? & ? & Hl). unfold order_at.
  rewrite (proj2 (proj2 linked_pool)) by (apply elem_of_book_nodes; eauto).
  simpl. split_and!; try done; try lia. rewrite lookup_insert_ne; [done|lia].
Qed.

Lemma linked_queue l :
  l ⊆ flat (side_levels buy b) →
  omap (λ x, get_order (node_order x.2) b') l = omap (λ x, get_order (node_order x.2) b) l.
Proof.
  intros Hl. apply omap_ext_in. intros [k' nd'] Hin. apply linked_pool.
  apply elem_of_book_nodes. eauto.
Qed.

(** The orders before and behind the insertion point. *)
Lemma linked_prices c l :
  Forall (λ x, price_before buy p x.1 = c) l → l ⊆ flat (side_levels buy b) →
  Forall (λ x, price_before buy p (price x) = c)
    (omap (λ x, get_order (node_order x.2) b) l).
Proof.
  intros Hl Hsub. apply Forall_forall. intros x ([k' nd'] & Hin & Hg)%list_elem_of_omap.
  rewrite Forall_forall in Hl. specialize (Hl _ Hin). simpl in *.
  destruct (wf_entry b Hwf buy k' nd') as (x' & Hg' & _ & Hnum & He & _); [by apply Hsub|].
  assert (x' = x) as -> by congruence. destruct c.
  - by eapply ltb_equivb_r.
  - apply not_true_iff_false. intros Hc. apply equivb_sym in He.
    pose proof (wf_levels b Hwf buy) as [_ Hks _].
    assert (num k') as Hnk.
    { apply Hsub, flat_key_elem in Hin as (l' & Hl' & _).
      rewrite Forall_forall in Hks. apply (Hks _ Hl'). }
    pose proof (ltb_equivb_r (ltb:=price_before buy) _ _ _ Hnk Hc He). congruence.
Qed.

Lemma linked_orders s' :
  side_orders s' b' =
  if decide (s' = buy) then enqueue buy o (side_orders s' b) else side_orders s' b.
Proof.
  unfold side_orders. rewrite linked_levels. case_decide as Hs; [subst s'|].
  - rewrite Hfl, Hflm, !omap_app. csimpl. change (node_order nd) with order.
    rewrite (proj1 (proj2 linked_pool)), !linked_queue by (rewrite Hfl; set_solver).
    rewrite enqueue_app; [done|apply linked_prices..]; try done; rewrite Hfl; set_solver.
  - apply omap_ext_in. intros [k' nd'] Hin. apply linked_pool.
    apply elem_of_book_nodes. eauto.
Qed.

Lemma linked_priority : StronglySorted (ahead buy) (enqueue buy o (side_orders buy b)).
Proof.
  pose proof (wf_priority b Hwf buy) as Hs. unfold side_orders in *.
  rewrite Hfl, omap_app in *.
  assert (l1 ⊆ flat (side_levels buy b) ∧ l2 ⊆ flat (side_levels buy b)) as [Hs1 Hs2].
  { rewrite Hfl. set_solver. }
  pose proof (linked_prices _ _ H1 Hs1) as Hp1. pose proof (linked_prices _ _ H2 Hs2) as Hp2.
  rewrite enqueue_app by done. apply StronglySorted_mid. split_and!; [done| |].
  - rewrite Forall_forall in Hp1 |- *. intros x Hx. right. split; [by apply Hp1|].
    apply list_elem_of_omap in Hx as ([k' nd'] & Hin & Hg).
    destruct (wf_entry b Hwf buy k' nd') as (x' & Hg' & _ & _ & _ & ? & _); [by apply Hs1|].
    simpl in *. assert (x' = x) as -> by congruence. lia.
  - eapply Forall_impl; [exact Hp2|]. intros x Hx. by left.
Qed.

Lemma linked_wf : book_wf b'.
Proof.
  pose proof linked_nodes as Hperm. split.
  - intros s'. rewrite linked_levels. case_decide; [by subst|apply Hwf].
  - rewrite Hperm. csimpl. constructor; [|apply Hwf].
    intros (nd' & Ha & Hnd')%list_elem_of_fmap. by apply (linked_fresh nd').
  - rewrite Hperm. constructor; [simpl; lia|].
    eapply Forall_impl; [apply Hwf|]. simpl. lia.
  - apply linked_pool.
  - intros s' k' nd' [Hin|(-> & -> & ->)]%linked_entry.
    + destruct (wf_entry b Hwf _ _ _ Hin) as (x & Hx). exists x. by apply linked_order_at_old.
    + exists o. apply linked_order_at_new.
  - intros oid loc Hl. simpl in Hl. apply lookup_insert_Some in Hl as [[<- <-]|[Hne Hl]].
    + exists k, o. split_and!; [|apply linked_pool|done]. apply linked_entry. by right.
    + destruct (wf_index b Hwf _ _ Hl) as (k' & x & Hin & Hg & Hid).
      exists k', x. split_and!; [|rewrite (proj2 (proj2 linked_pool))|]; try done.
      * apply linked_entry. by left.
      * apply elem_of_book_nodes. eauto.
  - simpl. pose proof (wf_next b Hwf). lia.
  - intros s'. rewrite linked_orders. case_decide; [subst s'; apply linked_priority|apply Hwf].
Qed.
End linked.

(** [add_order] on a book whose ids are not exhausted, at a price that is a
    number: defined, and the new order is queued by price and arrival. *)
Lemma add_order_spec b now s t p q :
  book_wf b → num p → next_order_id_ b + 1 < 2 ^ 64 →
  let o := Order_new now (next_order_id_ b) s t p q in
  ∃ nd b',
    add_order now s t p q b = Some (node_order nd, b') ∧
    book_wf b' ∧ rests b' (is_buy s) nd o ∧
    side_orders (is_buy s) b' = enqueue (is_buy s) o (side_orders (is_buy s) b) ∧
    side_orders (negb (is_buy s)) b' = side_orders (negb (is_buy s)) b ∧
    next_order_id_ b' = next_order_id_ b + 1 ∧
    symbol_ b' = symbol_ b.
Proof.
  intros Hwf Hp Hnext o. destruct (acquire (order_pool_ b)) as [order P] eqn:Hacq.
  destruct (acquire_spec _ _ _ _ (wf_pool b Hwf) Hacq) as [Hown _].
  destruct (store_spec P _ order o Hown) as (P' & Hst & _); [by left|].
  destruct (subscript_push (price_before (is_buy s)) num (side_levels (is_buy s) b) p
    (mk_node (next_node_ b) order)) as (m & k & l1 & l2 & Hsub & Hm & Hk & Hfl & Hflm & He & H1 & H2);
    [apply Hwf|done|].
  pose proof (level_keys_num _ _ (wf_levels b Hwf (is_buy s))) as Hks.
  exists (mk_node (next_node_ b) order), (linked s p (mk_node (next_node_ b) order) P' m b).
  unfold add_order, put_order. rewrite Hacq. simpl. subst o. rewrite Hst. simpl.
  unfold level_update. change (side_levels (is_buy s) (set_pool P' _)) with (side_levels (is_buy s) b).
  rewrite comparable_num, Hsub by (by constructor). simpl. rewrite u64_small; cycle 1.
  { pose proof (wf_next b Hwf). lia. }
  split; [reflexivity|]. split_and!; try done.
  - by eapply (linked_wf b now s t p q).
  - exists k. split; [eapply (linked_entry b now s t p q); eauto|].
    by eapply (linked_order_at_new b now s t p q).
  - erewrite (linked_orders b now s t p q) by done. by rewrite decide_True.
  - erewrite (linked_orders b now s t p q) by done.
    rewrite decide_False; [done|]. by destruct (is_buy s).
Qed.
