(* ===== verification/BookOps.v ===== *)
(** What the entry points of the order book do to the two queues: cancellation,
    reduction, removal, the best levels and the totals. *)

From stdpp Require Import base list gmap strings sorting.
From Stdlib Require Import ZArith Lia.
From S2P Require Import Prelude Machine StdMap Types ObjectPool OrderBook PriceTime.
From S2P Require Import BookInv.

Open Scope Z_scope.

Lemma OrderBook_new_wf sym n : book_wf (OrderBook_new sym n).
Proof.
  split; simpl.
  - intros []; apply levels_ok_nil.
  - constructor.
  - constructor.
  - apply pool_new_owns.
  - intros [] k nd Hin; by apply not_elem_of_nil in Hin.
  - intros oid loc Hl. by rewrite lookup_empty in Hl.
  - done.
  - intros []; constructor.
Qed.

(** ** Removal and cancellation *)

Lemma remove_order_spec b buy nd o :
  book_wf b → rests b buy nd o →
  ∃ b', remove_order (node_order nd) b = Some b' ∧ book_wf b' ∧
        (∀ s, side_orders s b' = dequeue (id o) (side_orders s b)) ∧
        (∀ s nd' x, rests b s nd' x → nd' ≠ nd → rests b' s nd' x) ∧
        next_order_id_ b' = next_order_id_ b ∧ symbol_ b' = symbol_ b.
Proof.
  intros Hwf Hr. destruct (unlink_spec b buy nd o Hwf Hr)
    as (m & b1 & b2 & He & Hc & Heq & Hwf' & Hso & _ & Hrest).
  unfold remove_order. rewrite (rests_get _ _ _ _ Hr). simpl.
  rewrite (rests_lookup _ _ _ _ Hr), He. simpl. rewrite Hc. simpl.
  eexists. split; [done|]. split_and!; try done; by rewrite Heq.
Qed.

(** Cancelling an id: true exactly when such an order rests, and that order leaves
    its queue while all others keep their place. *)
Lemma cancel_order_spec b oid :
  book_wf b →
  ∃ r b', OrderBook.cancel_order oid b = Some (r, b') ∧ book_wf b' ∧
    (r = true ↔ is_Some (order_lookup_ b !! oid)) ∧
    (∀ s, side_orders s b' = dequeue oid (side_orders s b)) ∧
    next_order_id_ b' = next_order_id_ b ∧ symbol_ b' = symbol_ b.
Proof.
  intros Hwf. unfold OrderBook.cancel_order.
  destruct (order_lookup_ b !! oid) as [loc|] eqn:Hl; cycle 1.
  { exists false, b. split_and!; try done. intros s. symmetry. apply dequeue_absent. intros Hin.
    assert (is_Some (order_lookup_ b !! oid)) as [? ?]; [|congruence].
    apply lookup_side_orders; [done|]. destruct s; eauto. }
  destruct (lookup_rests b Hwf _ _ Hl) as (o & Hr & Hid & Hloc).
  destruct loc as [sd pr nd]. simpl in *. injection Hloc as -> ->.
  unfold deref_iterator. rewrite decide_True by (by eapply rests_node). simpl.
  rewrite (rests_get _ _ _ _ Hr). simpl.
  destruct (put_order_spec b _ _ o (set_status Cancelled o) Hwf Hr)
    as (P & Hput & Hwf1 & Hr1 & _ & Hso1); [by auto with exch|].
  rewrite Hput. simpl.
  destruct (unlink_spec _ _ _ _ Hwf1 Hr1)
    as (m & b1 & b2 & He & Hc & Heq & Hwf' & Hso & _). simpl in *.
  rewrite He. simpl. rewrite Hc. simpl. rewrite <-Hid. eexists true, _. split; [done|]. split_and!; try done.
  - intros s. rewrite Hso, Hso1. apply (dequeue_replace (set_status Cancelled o)).
  - by rewrite Heq.
  - by rewrite Heq.
Qed.

(** ** Reduction *)

(** The queue after the order [oid] was reduced to [q] shares in place. *)
Definition reduce_queue (oid : OrderId) (q : Quantity) (l : list Order) : list Order :=
  if q =? 0 then dequeue oid l
  else (λ x, if decide (id x = oid) then set_remaining q x else x) <$> l.

(** Reduction succeeds exactly on a resting order with more than [q] shares left,
    and then shrinks it without moving it (or cancels it, for zero). *)
Lemma reduce_order_spec b oid q :
  book_wf b →
  ∃ r b', reduce_order oid q b = Some (r, b') ∧ book_wf b' ∧
    (r = true ↔ ∃ s o, o ∈ side_orders s b ∧ id o = oid ∧ q < remaining_qty o) ∧
    (∀ s, side_orders s b' = if r then reduce_queue oid q (side_orders s b) else side_orders s b) ∧
    next_order_id_ b' = next_order_id_ b ∧ symbol_ b' = symbol_ b.
Proof.
  intros Hwf. unfold reduce_order.
  destruct (order_lookup_ b !! oid) as [loc|] eqn:Hl; cycle 1.
  { exists false, b. split_and!; try done. split; [done|]. intros (s & o & Ho & Hid & _).
    apply (elem_of_side_orders b Hwf) in Ho as (nd & Hr).
    pose proof (rests_lookup _ _ _ _ Hr). congruence. }
  destruct (lookup_rests b Hwf _ _ Hl) as (o & Hr & Hid & Hloc).
  destruct loc as [sd pr nd]. simpl in *. injection Hloc as -> ->.
  unfold deref_iterator. rewrite decide_True by (by eapply rests_node). simpl.
  rewrite (rests_get _ _ _ _ Hr). simpl.
  assert (o ∈ side_orders (is_buy (side o)) b) as Ho by (apply elem_of_side_orders; eauto).
  assert (∀ s x, x ∈ side_orders s b → id x = oid → x = o) as Huniq.
  { intros s x (nd' & Hx)%elem_of_side_orders Hidx; [|done].
    by destruct (rests_inj b _ _ _ _ _ _ Hx Hr) as (_ & -> & _); [congruence|]. }
  destruct (Z.geb_spec q (remaining_qty o)) as [Hge|Hlt].
  { exists false, b. split_and!; try done. split; [done|]. intros (s & x & Hx & Hidx & ?).
    rewrite (Huniq s x) in * by done. lia. }
  unfold reduce_queue. destruct (Z.eqb_spec q 0) as [->|Hq].
  - destruct (cancel_order_spec b oid Hwf) as (r & b' & Hc & Hwf' & Hr' & Hso & ?).
    assert (r = true) as -> by (apply Hr'; rewrite Hl; eauto).
    rewrite Hc. exists true, b'. split_and!; try done; [|naive_solver..]. split; eauto.
  - destruct (put_order_spec b _ _ o (set_remaining q o) Hwf Hr)
      as (P & Hput & Hwf1 & Hr1 & _ & Hso1); [by auto with exch|].
    rewrite Hput. simpl. eexists true, _. split; [done|]. split_and!; try done.
    + split; eauto 10.
    + intros s. rewrite Hso1. unfold replace_order. apply list_fmap_ext.
      intros i x Hx%list_elem_of_lookup_2. simpl. rewrite Hid. case_decide; [|done].
      by rewrite (Huniq s x).
Qed.

(** ** The best level and the totals *)

(** The level a side offers for matching. *)
Definition best_level (buy : bool) (b : OrderBook) : option PriceLevel :=
  if buy then best_bid_level b else best_ask_level b.

(** The front of the best level holds the first order of the queue. *)
Lemma best_level_spec b buy :
  book_wf b →
  match side_orders buy b with
  | [] => best_level buy b = None
  | r :: _ => ∃ nd l, best_level buy b = Some (nd :: l) ∧ rests b buy nd r
  end.
Proof.
  intros Hwf. pose proof (flat_head _ _ _ (wf_levels b Hwf buy)) as Hh.
  assert (best_level buy b = snd <$> head (side_levels buy b)) as -> by (by destruct buy).
  destruct (side_levels buy b) as [|[k l] m] eqn:Hs.
  { unfold side_orders. by rewrite Hs, Hh. }
  destruct Hh as (nd & l' & -> & Hfl).
  destruct (wf_entry b Hwf buy k nd) as (o & Ho); [rewrite Hs, Hfl; left|].
  unfold side_orders. rewrite Hs, Hfl. csimpl. rewrite (proj1 Ho).
  exists nd, l'. split; [done|]. exists k. split; [|done]. rewrite Hs, Hfl. left.
Qed.

Lemma level_total_spec b l total :
  (∀ nd, nd ∈ l → is_Some (get_order (node_order nd) b)) → total = u32 total →
  level_total l total b =
  Some (u32 (total + sum_list_Z (remaining_qty <$> omap (λ nd, get_order (node_order nd) b) l))).
Proof.
  revert total. induction l as [|nd l IH]; intros total Hl Ht; csimpl.
  { by rewrite Z.add_0_r, <-Ht. }
  destruct (Hl nd) as [o Ho]; [left|]. rewrite Ho. csimpl.
  rewrite IH; [|intros; apply Hl; by right|unfold u32; by rewrite Zmod_mod].
  autorewrite with exch. do 2 f_equal. lia.
Qed.

Lemma levels_total_spec b m total :
  (∀ x, x ∈ flat m → is_Some (get_order (node_order x.2) b)) → total = u32 total →
  levels_total m total b =
  Some (u32 (total + sum_list_Z (remaining_qty <$> omap (λ x, get_order (node_order x.2) b) (flat m)))).
Proof.
  revert total. induction m as [|[k l] m IH]; intros total Hl Ht.
  { simpl. by rewrite Z.add_0_r, <-Ht. }
  simpl. rewrite flat_cons in *. rewrite level_total_spec; [|..|done].
  - simpl. rewrite IH; [|intros; apply Hl; set_solver|unfold u32; by rewrite Zmod_mod].
    autorewrite with exch. rewrite omap_app, fmap_app, sum_list_Z_app, omap_of_fmap.
    cbn [snd]. do 2 f_equal. lia.
  - intros nd Hnd. apply (Hl (k, nd)), elem_of_app. left. apply list_elem_of_fmap. eauto.
Qed.

(** The resting orders of both sides have pairwise different ids. *)
Lemma side_orders_NoDup b buy : book_wf b → NoDup (side_orders buy b).
Proof.
  intros Hwf. pose proof (wf_priority b Hwf buy) as Hs.
  induction Hs as [|x l Hs IH Hx]; constructor; [|done].
  intros Hin. rewrite Forall_forall in Hx. apply Hx in Hin.
  destruct Hin as [H|[_ H]]; [|lia]. by rewrite (swo_irrefl (price x)) in H.
Qed.

Lemma order_ids_NoDup b :
  book_wf b → NoDup (id <$> (side_orders true b ++ side_orders false b)).
Proof.
  intros Hwf. apply NoDup_fmap_2_strong.
  - intros x y Hx Hy Hid. apply elem_of_app in Hx, Hy.
    assert (∃ s nd, rests b s nd x) as (s & nd & Hrx).
    { destruct Hx as [H|H]; apply (elem_of_side_orders b Hwf) in H as [? ?]; eauto. }
    assert (∃ s nd, rests b s nd y) as (s' & nd' & Hry).
    { destruct Hy as [H|H]; apply (elem_of_side_orders b Hwf) in H as [? ?]; eauto. }
    by destruct (rests_inj b _ _ _ _ _ _ Hrx Hry Hid) as (_ & -> & _).
  - apply NoDup_app. split_and!; try (by apply side_orders_NoDup).
    intros x (nd & Hx)%elem_of_side_orders (nd' & Hx')%elem_of_side_orders; try done.
    by destruct (rests_inj b _ _ _ _ _ _ Hx Hx' eq_refl) as (_ & _ & ?).
Qed.

(** The number of orders is the number of resting orders of both sides. *)
Lemma order_count_spec b :
  book_wf b → order_count b = (length (side_orders true b) + length (side_orders false b))%nat.
Proof.
  intros Hwf. rewrite <-length_app, <-(length_fmap id).
  unfold order_count. rewrite <-length_map_to_list, <-(length_fmap fst).
  apply Permutation_length, NoDup_Permutation.
  - apply NoDup_fst_map_to_list.
  - by apply order_ids_NoDup.
  - intros oid. rewrite fmap_app, elem_of_app, <-lookup_side_orders by done.
    rewrite list_elem_of_fmap. split.
    + intros ([i loc] & -> & Hin%elem_of_map_to_list). by exists loc.
    + intros [loc Hl]. exists (oid, loc). by rewrite elem_of_map_to_list.
Qed.

Lemma side_orders_length b buy :
  book_wf b → length (side_orders buy b) = length (flat (side_levels buy b)).
Proof.
  intros Hwf. unfold side_orders. pose proof (wf_entry b Hwf buy) as He.
  induction (flat (side_levels buy b)) as [|[k nd] l IH]; [done|]. csimpl.
  destruct (He k nd) as (o & Ho); [left|]. rewrite (proj1 Ho). csimpl.
  f_equal. apply IH. intros k' nd' ?. apply He. by right.
Qed.

(** No slot of the pool leaks: the objects in use are the resting orders. *)
Lemma active_count_spec b :
  book_wf b → Z.of_N (dq_size (storage_ (order_pool_ b))) < 2 ^ 64 →
  active_count (order_pool_ b) = Z.of_nat (order_count b).
Proof.
  intros Hwf Hsz. destruct (wf_pool b Hwf) as (_ & _ & Hlen).
  rewrite length_app, length_fmap in Hlen. unfold book_nodes in Hlen.
  rewrite length_app, !length_fmap in Hlen.
  rewrite order_count_spec, !side_orders_length by done. unfold active_count.
  rewrite u64_small; simpl; lia.
Qed.

(** The key of the best level is the price of the first order of the queue. *)
Lemma best_price_spec b buy k l m :
  book_wf b → side_levels buy b = (k, l) :: m →
  ∃ o, head (side_orders buy b) = Some o ∧ num k ∧ equivb (price_before buy) k (price o) = true.
Proof.
  intros Hwf Hs. pose proof (flat_head _ _ _ (wf_levels b Hwf buy)) as Hh. rewrite Hs in Hh.
  destruct Hh as (nd & l' & -> & Hfl). rewrite <-Hs in Hfl.
  destruct (wf_entry b Hwf buy k nd) as (o & Ho); [rewrite Hfl; left|].
  pose proof (level_keys_num buy _ (wf_levels b Hwf buy)) as Hk. rewrite Hs in Hk.
  apply Forall_cons in Hk as [Hk _].
  exists o. split_and!; [|done|by apply Ho].
  unfold side_orders. rewrite Hfl. csimpl. by rewrite (proj1 Ho).
Qed.
