(* ===== verification/MatchingEngine.v ===== *)
(** The matching engine: include/core/MatchingEngine.h and
    src/core/MatchingEngine.cpp.

    The engine maps symbols to books and keeps statistics.  The mutex serialises
    every entry point, so an entry point is one function from state to state.
    [clock] gives the successive values that [now_ns()] returns during a call, in
    the order of the calls.  The trade callback is a function on the state [CS] of
    whoever installed it; it runs inside [submit_order], once per trade.

    As in OrderBook, [None] is undefined behaviour; the matching loop also returns
    [None] if its fuel runs out, and MatchRefine shows that it never does. *)

From stdpp Require Import base list gmap strings.
From Stdlib Require Import ZArith Lia.
From S2P Require Import Prelude Machine StdMap Types ObjectPool OrderBook.

Open Scope Z_scope.

(** ** State *)

Record EngineStats := mk_stats {
  total_orders : Z;
  total_trades : Z;
  total_cancels : Z;
  total_rejects : Z;
  total_volume : Z;
  total_notional : double;
  total_latency_ns : Z;
  min_latency_ns : Z;
  max_latency_ns : Z;
}.

Definition EngineStats_new : EngineStats :=
  {| total_orders := 0; total_trades := 0; total_cancels := 0; total_rejects := 0;
     total_volume := 0; total_notional := dzero; total_latency_ns := 0;
     min_latency_ns := 2 ^ 64 - 1; max_latency_ns := 0 |}.

Definition avg_latency_ns (st : EngineStats) : double :=
  if total_orders st >? 0
  then ddiv (dofZ (total_latency_ns st)) (dofZ (total_orders st))
  else dzero.

Record MatchingEngine := mk_engine {
  books_ : gmap string OrderBook;
  stats_ : EngineStats;
}.

Definition MatchingEngine_new : MatchingEngine := mk_engine ∅ EngineStats_new.

Definition set_stats (st : EngineStats) (e : MatchingEngine) : MatchingEngine :=
  mk_engine (books_ e) st.
Definition set_book (sym : string) (b : OrderBook) (e : MatchingEngine) : MatchingEngine :=
  mk_engine (<[sym := b]> (books_ e)) (stats_ e).

Definition reset_stats (e : MatchingEngine) : MatchingEngine := set_stats EngineStats_new e.

(** Increments of the counters. *)
Definition count_order (st : EngineStats) : EngineStats :=
  mk_stats (u64 (total_orders st + 1)) (total_trades st) (total_cancels st)
    (total_rejects st) (total_volume st) (total_notional st) (total_latency_ns st)
    (min_latency_ns st) (max_latency_ns st).
Definition count_reject (st : EngineStats) : EngineStats :=
  mk_stats (total_orders st) (total_trades st) (total_cancels st)
    (u64 (total_rejects st + 1)) (total_volume st) (total_notional st) (total_latency_ns st)
    (min_latency_ns st) (max_latency_ns st).
Definition count_cancel (st : EngineStats) : EngineStats :=
  mk_stats (total_orders st) (total_trades st) (u64 (total_cancels st + 1))
    (total_rejects st) (total_volume st) (total_notional st) (total_latency_ns st)
    (min_latency_ns st) (max_latency_ns st).
Definition count_trade (t : Trade) (st : EngineStats) : EngineStats :=
  mk_stats (total_orders st) (u64 (total_trades st + 1)) (total_cancels st)
    (total_rejects st) (u64 (total_volume st + trade_quantity t))
    (dadd (total_notional st) (dmul (trade_price t) (dofZ (trade_quantity t))))
    (total_latency_ns st) (min_latency_ns st) (max_latency_ns st).
Definition count_latency (latency : Z) (st : EngineStats) : EngineStats :=
  mk_stats (total_orders st) (total_trades st) (total_cancels st) (total_rejects st)
    (total_volume st) (total_notional st) (u64 (total_latency_ns st + latency))
    (Z.min (min_latency_ns st) latency) (Z.max (max_latency_ns st) latency).

(** [books_.try_emplace(symbol, symbol)] *)
Definition get_order_book (sym : string) (e : MatchingEngine) : OrderBook * MatchingEngine :=
  match books_ e !! sym with
  | Some b => (b, e)
  | None =>
      let b := OrderBook_new sym default_pool_size in
      (b, set_book sym b e)
  end.

(** ** Matching *)

Definition execute_match (now : Timestamp) (incoming resting : ptr) (b : OrderBook)
    : option (Trade * OrderBook) :=
  inc ← get_order incoming b;
  res ← get_order resting b;
  let fill_qty := Z.min (remaining_qty inc) (remaining_qty res) in
  let fill_price := price res in
  b ← put_order incoming (set_remaining (u32 (remaining_qty inc - fill_qty)) inc) b;
  res ← get_order resting b;
  b ← put_order resting (set_remaining (u32 (remaining_qty res - fill_qty)) res) b;
  inc ← get_order incoming b;
  res ← get_order resting b;
  let trade :=
    if is_buy (side inc) then
      {| buy_order_id := id inc; sell_order_id := id res; trade_price := fill_price;
         trade_quantity := fill_qty; trade_timestamp := now |}
    else
      {| buy_order_id := id res; sell_order_id := id inc; trade_price := fill_price;
         trade_quantity := fill_qty; trade_timestamp := now |} in
  Some (trade, b).

(** The loop of [match_order]; [fuel] bounds its iterations. *)
Fixpoint match_loop (fuel : nat) (clock : nat → Timestamp) (buy : bool) (incoming : ptr)
    (b : OrderBook) : option (list Trade * OrderBook) :=
  match fuel with
  | O => None
  | S fuel =>
      inc ← get_order incoming b;
      if remaining_qty inc >? 0 then
        match (if buy then best_ask_level b else best_bid_level b) with
        | None | Some [] => Some ([], b)
        | Some (front :: _) =>
            let resting := node_order front in
            res ← get_order resting b;
            let price_match :=
              if buy then dgeb (price inc) (price res) else dleb (price inc) (price res) in
            if price_match then
              '(trade, b) ← execute_match (clock O) incoming resting b;
              res ← get_order resting b;
              b ← (if is_filled res then
                     b ← put_order resting (set_status Filled res) b;
                     remove_order resting b
                   else Some b);
              '(trades, b) ← match_loop fuel (λ n, clock (S n)) buy incoming b;
              Some (trade :: trades, b)
            else Some ([], b)
        end
      else Some ([], b)
  end.

(** The status update at the end of [match_order]. *)
Definition match_status (o : Order) : Order :=
  if is_filled o then set_status Filled o
  else if filled_qty o >? 0 then set_status PartiallyFilled o
  else o.

Definition match_order (clock : nat → Timestamp) (incoming : ptr) (b : OrderBook)
    : option (list Trade * OrderBook) :=
  inc ← get_order incoming b;
  '(trades, b) ← match_loop (S (order_count b)) clock (is_buy (side inc)) incoming b;
  inc ← get_order incoming b;
  b ← put_order incoming (match_status inc) b;
  Some (trades, b).

(** ** Entry points *)

Section callback.
Context {CS : Type} (trade_callback_ : option (Trade → CS → CS)).

(** The loop over the trades: statistics, then the callback if there is one. *)
Fixpoint report_trades (trades : list Trade) (st : EngineStats) (cs : CS)
    : EngineStats * CS :=
  match trades with
  | [] => (st, cs)
  | t :: trades =>
      report_trades trades (count_trade t st)
        (match trade_callback_ with Some f => f t cs | None => cs end)
  end.

(** The price given to a market order so that it crosses the other side. *)
Definition effective_price (s : Side) (t : OrderType) (p : Price) : Price :=
  if is_market t then (if is_buy s then dbl_max else dzero) else p.

(** The part of [submit_order] after the trades are reported: what becomes of
    the order. *)
Definition post_match (t : OrderType) (order : ptr) (b : OrderBook) : option OrderBook :=
  o ← get_order order b;
  if is_filled o then remove_order order b
  else if is_market t || is_ioc t then
    b ← put_order order
          (set_status (if filled_qty o >? 0 then PartiallyFilled else Cancelled) o) b;
    remove_order order b
  else Some b.

Definition submit_order (clock : nat → Timestamp) (sym : string) (s : Side)
    (t : OrderType) (p : Price) (q : Quantity) (e : MatchingEngine) (cs : CS)
    : option (OrderId * MatchingEngine * CS) :=
  let start := clock O in
  let '(book, e) := get_order_book sym e in
  let e := set_stats (count_order (stats_ e)) e in
  if q =? 0 then Some (0, set_stats (count_reject (stats_ e)) e, cs)
  else if is_limit t && dleb p dzero then
    Some (0, set_stats (count_reject (stats_ e)) e, cs)
  else
    '(order, book) ← add_order (clock 1%nat) s t (effective_price s t p) q book;
    o ← get_order order book;
    let oid := id o in
    '(trades, book) ← match_order (λ n, clock (2 + n)%nat) order book;
    let '(st, cs) := report_trades trades (stats_ e) cs in
    book ← post_match t order book;
    let latency := u64 (clock (2 + length trades)%nat - start) in
    Some (oid, set_stats (count_latency latency st) (set_book sym book e), cs).

Definition cancel_order (sym : string) (order_id : OrderId) (e : MatchingEngine)
    : option (bool * MatchingEngine) :=
  match books_ e !! sym with
  | None => Some (false, e)
  | Some b =>
      '(cancelled, b) ← OrderBook.cancel_order order_id b;
      let e := set_book sym b e in
      Some (cancelled,
            if (cancelled : bool) then set_stats (count_cancel (stats_ e)) e else e)
  end.
End callback.

(** ** The installed callback

    [trade_callback_] is a member of the engine; the operations above take it as an
    argument, and an engine with its callback passes the one that was installed last. *)

Record CallbackEngine (CS : Type) := mk_callback_engine {
  ce_engine : MatchingEngine;
  trade_callback_ : option (Trade → CS → CS);
}.
Arguments mk_callback_engine {CS} _ _.
Arguments ce_engine {CS} _.
Arguments trade_callback_ {CS} _.

Definition set_trade_callback {CS} (callback : option (Trade → CS → CS)) (e : CallbackEngine CS)
    : CallbackEngine CS :=
  mk_callback_engine (ce_engine e) callback.

Definition callback_submit {CS} (clock : nat → Timestamp) (sym : string) (s : Side) (t : OrderType)
    (p : Price) (q : Quantity) (e : CallbackEngine CS) (cs : CS)
    : option (OrderId * CallbackEngine CS * CS) :=
  '(oid, e', cs) ← submit_order (trade_callback_ e) clock sym s t p q (ce_engine e) cs;
  Some (oid, mk_callback_engine e' (trade_callback_ e), cs).
