(* ===== verification/MatchRefine.v ===== *)
(** The matching loop implements [match_queue].

    On a well-formed book in which the incoming order rests on its own side, the
    loop of [match_order] is defined, ends within its fuel, returns the trades of
    [match_queue] and leaves the opposite queue that [match_queue] leaves. *)

From stdpp Require Import base list gmap strings sorting.
From Stdlib Require Import ZArith Lia.
From S2P Require Import Prelude Machine StdMap Types ObjectPool OrderBook PriceTime.
From S2P Require Import BookInv BookOps MatchingEngine.

Open Scope Z_scope.

(** ** One match *)

(** The two orders of a match are different nodes: they are on different sides. *)
Lemma rests_opposite b buy nd nd' o o' :
  rests b buy nd o → rests b (negb buy) nd' o' → nd ≠ nd' ∧ id o ≠ id o'.
Proof.
  intros Hr Hr'. split.
  - intros ->. pose proof (rests_get _ _ _ _ Hr) as Hg. rewrite (rests_get _ _ _ _ Hr') in Hg.
    simplify_eq. pose proof (rests_side _ _ _ _ Hr). rewrite (rests_side _ _ _ _ Hr') in *.
    by destruct buy.
  - intros Hid. destruct (rests_inj b _ _ _ _ _ _ Hr Hr' Hid) as (_ & _ & ?).
    by destruct buy.
Qed.

(** An order that is not on a side is not touched by a replacement there. *)
Lemma replace_other_side b buy nd o o' :
  book_wf b → rests b buy nd o → id o' = id o →
  replace_order o' (side_orders (negb buy) b) = side_orders (negb buy) b.
Proof.
  intros Hwf Hr Hid. apply replace_absent. rewrite Hid.
  intros (x & Hx & (nd' & Hr')%elem_of_side_orders)%list_elem_of_fmap; [|done].
  by destruct (rests_opposite _ _ _ _ _ _ Hr Hr').
Qed.

Lemma dequeue_other_side b buy nd o :
  book_wf b → rests b buy nd o →
  dequeue (id o) (side_orders (negb buy) b) = side_orders (negb buy) b.
Proof.
  intros Hwf Hr. apply dequeue_absent.
  intros (x & Hx & (nd' & Hr')%elem_of_side_orders)%list_elem_of_fmap; [|done].
  by destruct (rests_opposite _ _ _ _ _ _ Hr Hr').
Qed.

Lemma execute_match_spec b buy ndi ndr inc r now :
  book_wf b → rests b buy ndi inc → rests b (negb buy) ndr r →
  0 ≤ remaining_qty inc < 2 ^ 32 → 0 ≤ remaining_qty r < 2 ^ 32 →
  let q := Z.min (remaining_qty inc) (remaining_qty r) in
  let inc' := set_remaining (remaining_qty inc - q) inc in
  let r' := set_remaining (remaining_qty r - q) r in
  ∃ P, let b' := set_pool P b in
    execute_match now (node_order ndi) (node_order ndr) b = Some (trade_of buy inc r q now, b') ∧
    book_wf b' ∧ rests b' buy ndi inc' ∧ rests b' (negb buy) ndr r' ∧
    side_orders buy b' = replace_order inc' (side_orders buy b) ∧
    side_orders (negb buy) b' = replace_order r' (side_orders (negb buy) b).
Proof.
  intros Hwf Hi Hr Hqi Hqr q inc' r'.
  destruct (rests_opposite _ _ _ _ _ _ Hi Hr) as [Hnd Hid].
  destruct (put_order_spec b buy ndi inc inc' Hwf Hi) as (P1 & Hput1 & Hwf1 & Hi1 & Hoth1 & Hso1);
    [by auto with exch|].
  assert (rests (set_pool P1 b) (negb buy) ndr r) as Hr1.
  { destruct Hr as (k & Hin & Hat). exists k. split; [done|].
    destruct Hat as (Hg & Hat). split; [|done]. rewrite <-Hg. apply Hoth1; [|done].
    apply elem_of_book_nodes. eauto. }
  destruct (put_order_spec _ _ ndr r r' Hwf1 Hr1) as (P2 & Hput2 & Hwf2 & Hr2 & Hoth2 & Hso2);
    [by auto with exch|].
  change (set_pool P2 (set_pool P1 b)) with (set_pool P2 b) in *.
  assert (rests (set_pool P2 b) buy ndi inc') as Hi2.
  { destruct Hi1 as (k & Hin & Hat). exists k. split; [done|].
    destruct Hat as (Hg & Hat). split; [|done]. rewrite <-Hg. apply Hoth2; [|done].
    apply elem_of_book_nodes. eauto. }
  exists P2. simpl. split_and!; try done.
  - unfold execute_match. rewrite (rests_get _ _ _ _ Hi). simpl.
    rewrite (rests_get _ _ _ _ Hr). simpl.
    rewrite (u32_small (remaining_qty inc - _)) by lia. fold q inc'. rewrite Hput1. simpl.
    rewrite (rests_get _ _ _ _ Hr1). simpl.
    rewrite (u32_small (remaining_qty r - _)) by lia. fold q r'. rewrite Hput2. simpl.
    rewrite (rests_get _ _ _ _ Hi2). simpl. rewrite (rests_get _ _ _ _ Hr2). simpl.
    pose proof (rests_side _ _ _ _ Hi) as Hs. rewrite Hs. by destruct buy.
  - rewrite Hso2, <-Hso1.
    pose proof (replace_other_side _ (negb buy) ndr r r' Hwf1 Hr1 eq_refl) as H.
    by rewrite negb_involutive in H.
  - by rewrite Hso2, Hso1, (replace_other_side b buy ndi inc).
Qed.

(** Writing [Filled] to an exhausted resting order and removing it. *)
Lemma fill_and_remove_spec b buy ndi ndr inc r :
  book_wf b → rests b buy ndi inc → rests b (negb buy) ndr r →
  ∃ b1 b', put_order (node_order ndr) (set_status Filled r) b = Some b1 ∧
    remove_order (node_order ndr) b1 = Some b' ∧
    book_wf b' ∧ rests b' buy ndi inc ∧ side_orders buy b' = side_orders buy b ∧
    side_orders (negb buy) b' = dequeue (id r) (side_orders (negb buy) b) ∧
    next_order_id_ b' = next_order_id_ b ∧ symbol_ b' = symbol_ b.
Proof.
  intros Hwf Hi Hr. destruct (rests_opposite _ _ _ _ _ _ Hi Hr) as [Hnd Hid].
  destruct (put_order_spec b _ ndr r (set_status Filled r) Hwf Hr)
    as (P & Hput & Hwf1 & Hr1 & Hoth & Hso1); [by auto with exch|].
  assert (rests (set_pool P b) buy ndi inc) as Hi1.
  { destruct Hi as (k & Hin & Hat). exists k. split; [done|].
    destruct Hat as (Hg & Hat). split; [|done]. rewrite <-Hg. apply Hoth; [|done].
    apply elem_of_book_nodes. eauto. }
  destruct (remove_order_spec _ _ _ _ Hwf1 Hr1) as (b' & Hrm & Hwf' & Hso & Hrest & ? & ?).
  exists (set_pool P b), b'. split_and!; try done.
  - by apply Hrest.
  - rewrite Hso, Hso1. pose proof (dequeue_replace (set_status Filled r)) as Hd. simpl in *.
    rewrite Hd. pose proof (dequeue_other_side b (negb buy) ndr r Hwf Hr) as Hdo.
    by rewrite negb_involutive in Hdo.
  - rewrite Hso, Hso1. apply (dequeue_replace (set_status Filled r)).
Qed.

Lemma replace_self b buy nd o :
  book_wf b → rests b buy nd o → replace_order o (side_orders buy b) = side_orders buy b.
Proof.
  intros Hwf Hr. unfold replace_order. rewrite <-(list_fmap_id (side_orders buy b)) at 2.
  apply list_fmap_ext. intros i x Hx%list_elem_of_lookup_2. simpl.
  case_decide as Hid; [|done]. apply (elem_of_side_orders b Hwf) in Hx as (nd' & Hr').
  by destruct (rests_inj b _ _ _ _ _ _ Hr' Hr Hid) as (_ & -> & _).
Qed.

(** The head of a queue occurs in it once. *)
Lemma head_once b buy r rest :
  book_wf b → side_orders buy b = r :: rest → id r ∉ id <$> rest.
Proof.
  intros Hwf Hs. pose proof (order_ids_NoDup b Hwf) as Hnd. rewrite fmap_app in Hnd.
  assert (NoDup (id <$> side_orders buy b)) as Hb.
  { apply NoDup_app in Hnd as (? & _ & ?). by destruct buy. }
  rewrite Hs in Hb. csimpl in Hb. by apply NoDup_cons in Hb as [? _].
Qed.

Lemma dequeue_head b buy r rest :
  book_wf b → side_orders buy b = r :: rest → dequeue (id r) (r :: rest) = rest.
Proof.
  intros Hwf Hs. apply (dequeue_mid r []); [apply not_elem_of_nil|by eapply head_once].
Qed.

Lemma replace_head b buy r r' rest :
  book_wf b → side_orders buy b = r :: rest → id r' = id r → replace_order r' (r :: rest) = r' :: rest.
Proof.
  intros Hwf Hs Hid. apply (replace_mid r r' []); [done|apply not_elem_of_nil|by eapply head_once].
Qed.

(** ** The loop *)

Lemma match_loop_spec b buy clock ndi inc fuel :
  book_wf b → rests b buy ndi inc → 0 ≤ remaining_qty inc < 2 ^ 32 →
  Forall live (side_orders (negb buy) b) →
  (length (side_orders (negb buy) b) + 1 < fuel)%nat →
  ∃ ts inc' opp' b',
    match_queue buy clock inc (side_orders (negb buy) b) = (ts, inc', opp') ∧
    match_loop fuel clock buy (node_order ndi) b = Some (ts, b') ∧
    book_wf b' ∧ rests b' buy ndi inc' ∧
    side_orders buy b' = replace_order inc' (side_orders buy b) ∧
    side_orders (negb buy) b' = opp' ∧
    next_order_id_ b' = next_order_id_ b ∧ symbol_ b' = symbol_ b.
Proof.
  revert b clock inc. induction fuel as [|fuel IH]; intros b clock inc Hwf Hi Hq Hlive Hfuel; [lia|].
  pose proof (replace_self b buy ndi inc Hwf Hi) as Hsame.
  cbn [match_loop]. run (rests_get _ _ _ _ Hi).
  assert ((if buy then best_ask_level b else best_bid_level b) = best_level (negb buy) b) as ->
    by (by destruct buy).
  pose proof (best_level_spec b (negb buy) Hwf) as Hbest.
  destruct (side_orders (negb buy) b) as [|r rest] eqn:Hopp.
  { rewrite Hbest. exists [], inc, [], b. simpl. split_and!; try done. by case_match. }
  destruct Hbest as (ndr & l & Hbest & Hr). cbn [match_queue].
  destruct (Z.gtb_spec (remaining_qty inc) 0) as [Hpos|Hpos]; simpl; cycle 1.
  { exists [], inc, (r :: rest), b. by split_and!. }
  rewrite Hbest. run (rests_get _ _ _ _ Hr).
  change (if buy then dgeb (price inc) (price r) else dleb (price inc) (price r))
    with (crosses buy (price inc) r).
  destruct (crosses buy (price inc) r) eqn:Hc; cycle 1.
  { exists [], inc, (r :: rest), b. by split_and!. }
  apply Forall_cons in Hlive as [Hlr Hlive]. unfold live in Hlr.
  destruct (execute_match_spec b buy ndi ndr inc r (clock O) Hwf Hi Hr) as
    (P & Hex & Hwf1 & Hi1 & Hr1 & Hso1 & Hopp1); [done|lia|].
  rewrite Hex. cbn [mbind option_bind]. run (rests_get _ _ _ _ Hr1).
  set (q := Z.min (remaining_qty inc) (remaining_qty r)) in *.
  set (inc1 := set_remaining (remaining_qty inc - q) inc) in *.
  unfold is_filled. cbn [remaining_qty set_remaining].
  destruct (Z.eqb_spec (remaining_qty r - q) 0) as [Hz|Hz].
  - destruct (fill_and_remove_spec _ buy ndi ndr _ _ Hwf1 Hi1 Hr1)
      as (b2 & b3 & Hput & Hrm & Hwf3 & Hi3 & Hso3 & Hopp3 & Hid3 & Hsym3).
    simpl in Hid3, Hsym3. run Hput. run Hrm.
    assert (side_orders (negb buy) b3 = rest) as Hrest.
    { rewrite Hopp3, Hopp1, Hopp.
      rewrite (dequeue_replace (set_remaining (remaining_qty r - q) r)).
      exact (dequeue_head b (negb buy) r rest Hwf Hopp). }
    destruct (IH b3 (λ n, clock (S n)) inc1 Hwf3 Hi3)
      as (ts & inc' & opp' & b' & Hmq & Hml & Hwf' & Hi' & Hso' & Hopp' & ? & ?).
    { simpl. lia. } { by rewrite Hrest. } { rewrite Hrest. simpl in Hfuel. lia. }
    rewrite Hrest in Hmq. rewrite Hmq. run Hml.
    eexists _, inc', opp', b'. split_and!; try done; [|congruence..].
    rewrite Hso', Hso3, Hso1. apply replace_twice.
    apply match_incoming in Hmq; [|done|simpl; lia]. by rewrite Hmq.
  - cbn [mbind option_bind]. destruct fuel as [|fuel]; [simpl in Hfuel; lia|].
    cbn [match_loop]. run (rests_get _ _ _ _ Hi1).
    assert (remaining_qty inc1 >? 0 = false) as -> by (simpl; lia).
    cbn [mbind option_bind]. eexists _, inc1, _, _. split_and!; try done.
    rewrite Hopp1, Hopp. by apply (replace_head b (negb buy)).
Qed.

(** Once the loop has enough fuel, more fuel changes nothing. *)
Lemma match_loop_mono n m clock buy ptr b r :
  match_loop n clock buy ptr b = Some r → (n ≤ m)%nat → match_loop m clock buy ptr b = Some r.
Proof.
  revert m clock b r. induction n as [|n IH]; intros m clock b r; [done|].
  destruct m as [|m]; [lia|]. intros H Hle. cbn [match_loop] in *.
  destruct (get_order ptr b) as [inc|]; simpl in *; [|done].
  destruct (remaining_qty inc >? 0); [|done].
  destruct (if buy then best_ask_level b else best_bid_level b) as [[|front l]|]; try done.
  destruct (get_order (node_order front) b) as [res|]; simpl in *; [|done].
  destruct (if buy then _ else _); [|done].
  destruct (execute_match _ _ _ _) as [[tr b1]|]; simpl in *; [|done].
  destruct (get_order (node_order front) b1) as [res1|]; simpl in *; [|done].
  destruct (if is_filled res1 then _ else _) as [b2|]; simpl in *; [|done].
  destruct (match_loop n _ _ _ b2) as [[ts b3]|] eqn:Hl; simpl in *; [|done].
  rewrite (IH m _ _ _ Hl) by lia. done.
Qed.
