(* ===== verification/EngineSpec.v ===== *)
(** The abstract market and the refinement of the engine to it.

    A market is the two queues of a symbol and the next order id.  [spec_submit]
    first matches an incoming order and only then queues what is left of it, where
    the engine first links the order into the book and unlinks it again.  The main
    result is that [submit_order] computes what [spec_submit] says, for every type
    of order, and preserves [book_ok]. *)

From stdpp Require Import base list gmap strings sorting.
From Stdlib Require Import ZArith Lia.
From S2P Require Import Prelude Machine StdMap Types ObjectPool OrderBook PriceTime.
From S2P Require Import BookInv BookOps MatchingEngine MatchRefine.

Open Scope Z_scope.

(** ** Specification *)

Record MarketState := mk_market { bids : list Order; asks : list Order; next_id : OrderId }.

Definition queue (buy : bool) (M : MarketState) : list Order := if buy then bids M else asks M.

Definition set_queue (buy : bool) (l : list Order) (M : MarketState) : MarketState :=
  mk_market (if buy then l else bids M) (if buy then asks M else l) (next_id M).

(** The market a book stands for. *)
Definition market (b : OrderBook) : MarketState :=
  mk_market (side_orders true b) (side_orders false b) (next_order_id_ b).

Definition invalid_order (t : OrderType) (p : Price) (q : Quantity) : bool :=
  (q =? 0) || is_limit t && dleb p dzero.

(** A market or IOC order never rests. *)
Definition immediate (t : OrderType) : bool := is_market t || is_ioc t.

Definition spec_submit (clock : nat → Timestamp) (s : Side) (t : OrderType) (p : Price)
    (q : Quantity) (M : MarketState) : OrderId * list Trade * MarketState :=
  if invalid_order t p q then (0, [], M)
  else
    let buy := is_buy s in
    let o := Order_new (clock 1%nat) (next_id M) s t (effective_price s t p) q in
    let '(ts, inc, opp) := match_queue buy (λ n, clock (2 + n)%nat) o (queue (negb buy) M) in
    let M' := set_queue (negb buy) opp (mk_market (bids M) (asks M) (next_id M + 1)) in
    (next_id M, ts,
     if is_filled inc || immediate t then M'
     else set_queue buy (enqueue buy (match_status inc) (queue buy M)) M').

Definition spec_cancel (oid : OrderId) (M : MarketState) : bool * MarketState :=
  (bool_decide (oid ∈ id <$> (bids M ++ asks M)),
   mk_market (dequeue oid (bids M)) (dequeue oid (asks M)) (next_id M)).

(** ** The invariant of a book between two calls *)

(** An order that may rest between calls. *)
Definition resting (o : Order) : Prop :=
  live o ∧ immediate (type o) = false ∧ (type o = Limit → dltb dzero (price o) = true).

Definition uncrossed (M : MarketState) : Prop :=
  ∀ bid ask, bid ∈ bids M → ask ∈ asks M → dltb (price bid) (price ask) = true.

Record book_ok (b : OrderBook) : Prop := {
  ok_wf : book_wf b;
  ok_resting buy : Forall resting (side_orders buy b);
  ok_uncrossed : uncrossed (market b);
}.

Lemma OrderBook_new_ok sym n : book_ok (OrderBook_new sym n).
Proof.
  split; [apply OrderBook_new_wf|intros []; constructor|].
  intros bid ask H. by apply not_elem_of_nil in H.
Qed.

Lemma resting_live l : Forall resting l → Forall live l.
Proof. intros H. eapply Forall_impl; [exact H|]. by intros x [? _]. Qed.

Lemma queue_market buy b : queue buy (market b) = side_orders buy b.
Proof. by destruct buy. Qed.

(** The prices of resting orders are numbers. *)
Lemma side_orders_num b buy : book_wf b → Forall (λ r, num (price r)) (side_orders buy b).
Proof.
  intros Hwf. apply Forall_forall.
  by intros x (nd & k & _ & _ & _ & ? & _)%elem_of_side_orders.
Qed.

(** ** The matching of an order that is linked in its book *)

Lemma match_status_same o : same_order o (match_status o).
Proof. unfold match_status. repeat case_match; auto with exch. Qed.

Lemma match_order_spec b buy clock nd o :
  book_wf b → rests b buy nd o → 0 ≤ remaining_qty o < 2 ^ 32 →
  Forall live (side_orders (negb buy) b) →
  ∃ ts inc opp b',
    match_queue buy clock o (side_orders (negb buy) b) = (ts, inc, opp) ∧
    match_order clock (node_order nd) b = Some (ts, b') ∧
    book_wf b' ∧ rests b' buy nd (match_status inc) ∧
    side_orders buy b' = replace_order (match_status inc) (side_orders buy b) ∧
    side_orders (negb buy) b' = opp ∧
    next_order_id_ b' = next_order_id_ b ∧ symbol_ b' = symbol_ b.
Proof.
  intros Hwf Hr Hq Hlive. unfold match_order. run (rests_get _ _ _ _ Hr).
  rewrite (rests_side _ _ _ _ Hr).
  destruct (match_loop_spec b buy clock nd o (S (order_count b)) Hwf Hr Hq Hlive)
    as (ts & inc & opp & b1 & Hmq & Hml & Hwf1 & Hr1 & Hso1 & Hopp1 & Hid1 & Hsym1).
  { rewrite order_count_spec by done.
    assert (o ∈ side_orders buy b) as Hin by (apply elem_of_side_orders; eauto).
    destruct (side_orders buy b) as [|x l] eqn:E; [by apply not_elem_of_nil in Hin|].
    destruct buy; rewrite E; simpl; lia. }
  run Hml. run (rests_get _ _ _ _ Hr1).
  destruct (put_order_spec b1 buy nd inc (match_status inc) Hwf1 Hr1 (match_status_same inc))
    as (P & Hput & Hwf2 & Hr2 & _ & Hso2).
  run Hput. eexists ts, inc, opp, _. split_and!; try done.
  - rewrite Hso2, Hso1. apply replace_twice. symmetry. apply (match_status_same inc).
  - by rewrite Hso2, (replace_other_side b1 buy nd inc) by (done || apply (match_status_same inc)).
Qed.

Lemma post_match_spec b t buy nd o :
  book_wf b → rests b buy nd o →
  ∃ b', post_match t (node_order nd) b = Some b' ∧ book_wf b' ∧
    (∀ s, side_orders s b' = if is_filled o || immediate t then dequeue (id o) (side_orders s b)
                             else side_orders s b) ∧
    next_order_id_ b' = next_order_id_ b ∧ symbol_ b' = symbol_ b.
Proof.
  intros Hwf Hr. unfold post_match, immediate. run (rests_get _ _ _ _ Hr).
  destruct (is_filled o); simpl.
  { destruct (remove_order_spec b buy nd o Hwf Hr) as (b' & ? & ? & ? & _ & ? & ?). eauto 10. }
  destruct (is_market t || is_ioc t); [|by eauto 10].
  set (o' := set_status _ o).
  destruct (put_order_spec b buy nd o o' Hwf Hr) as (P & Hput & Hwf1 & Hr1 & _ & Hso1);
    [by auto with exch|].
  run Hput. destruct (remove_order_spec _ buy nd o' Hwf1 Hr1) as (b' & ? & ? & Hso & _ & ? & ?).
  exists b'. split_and!; try done. intros s. rewrite Hso, Hso1. apply (dequeue_replace o').
Qed.

(** ** One submission on a book *)

Lemma next_id_fresh b s : book_wf b → next_order_id_ b ∉ (id <$> side_orders s b).
Proof.
  intros Hwf (x & Hx & (nd & k & _ & _ & _ & _ & _ & ? & _)%elem_of_side_orders)%list_elem_of_fmap;
    [lia|done].
Qed.

Lemma match_status_fields o :
  id (match_status o) = id o ∧ price (match_status o) = price o ∧
  type (match_status o) = type o ∧ quantity (match_status o) = quantity o ∧
  remaining_qty (match_status o) = remaining_qty o.
Proof. unfold match_status. by repeat case_match. Qed.

(** A price that may be given to the book. *)
Definition valid_price (t : OrderType) (p : Price) : Prop := t = Market ∨ num p.

Lemma effective_price_num s t p : valid_price t p → num (effective_price s t p).
Proof.
  unfold effective_price, is_market. intros [->|Hp]; simpl; [by destruct (is_buy s)|].
  repeat case_match; done.
Qed.

Section submit.
Context (clock : nat → Timestamp) (s : Side) (t : OrderType) (p : Price) (q : Quantity).
Context (b : OrderBook) (Hok : book_ok b).
Context (Hvalid : invalid_order t p q = false) (Hp : valid_price t p) (Hq : 0 ≤ q < 2 ^ 32).

Let buy := is_buy s.
Let o := Order_new (clock 1%nat) (next_order_id_ b) s t (effective_price s t p) q.

Context (ts : list Trade) (inc : Order) (opp : list Order).
Context (Hmq : match_queue buy (λ n, clock (2 + n)%nat) o (side_orders (negb buy) b) = (ts, inc, opp)).

Lemma submit_live : Forall live (side_orders (negb buy) b).
Proof. apply resting_live, Hok. Qed.

Lemma submit_inc : inc = set_remaining (remaining_qty inc) o.
Proof. eapply match_incoming; [apply submit_live| |exact Hmq]. simpl. lia. Qed.

Lemma submit_inc_range : 0 ≤ remaining_qty inc ≤ q.
Proof. apply (match_incoming_range _ _ _ _ _ _ _ submit_live) in Hmq; simpl in *; lia. Qed.

Lemma submit_opp_resting : Forall resting opp.
Proof.
  assert (Forall live opp) as Hl.
  { eapply match_live; [apply submit_live| |exact Hmq]. simpl. lia. }
  assert (Forall (λ x, immediate (type x) = false ∧ (type x = Limit → dltb dzero (price x) = true)) opp).
  { eapply (match_rest_Forall buy); [apply submit_live| |exact Hmq|done|]; [simpl; lia|].
    eapply Forall_impl; [apply Hok|]. by intros x [_ ?]. }
  rewrite Forall_forall in Hl. rewrite Forall_forall in H. apply Forall_forall.
  intros x Hx. split; auto.
Qed.

(** What is left of a limit order may rest. *)
Lemma submit_inc_resting :
  is_filled inc = false → immediate t = false → resting (match_status inc).
Proof.
  intros Hf Hi. pose proof submit_inc as Hinc. pose proof submit_inc_range.
  destruct (match_status_fields inc) as (_ & Hpr & Hty & Hqu & Hre).
  unfold is_filled in Hf. apply Z.eqb_neq in Hf. unfold resting, live.
  rewrite Hpr, Hty, Hqu, Hre, Hinc. simpl. split_and!; try lia; [done|].
  intros ->. unfold effective_price, is_market. simpl.
  unfold invalid_order, is_limit in Hvalid. simpl in Hvalid.
  apply orb_false_iff in Hvalid as [_ Hle]. destruct Hp as [?|Hnum]; [done|].
  rewrite dleb_ltb in Hle by done. by apply negb_false_iff in Hle.
Qed.

(** The remainder of an order crosses nothing that is left on the other side. *)
Lemma submit_inc_uncrossed r :
  is_filled inc = false → r ∈ opp → crosses buy (price inc) r = false.
Proof.
  intros Hf Hr. unfold is_filled in Hf. apply Z.eqb_neq in Hf.
  assert (Forall (λ r, crosses buy (price o) r = false) opp) as Hall.
  { eapply match_complete; [apply submit_live| | | | |exact Hmq|done].
    - simpl. lia.
    - by apply effective_price_num.
    - apply side_orders_num, Hok.
    - apply (wf_priority b), Hok. }
  rewrite Forall_forall in Hall. rewrite submit_inc. by apply Hall.
Qed.

(** The market after the submission. *)
Let M' := if is_filled inc || immediate t
  then set_queue (negb buy) opp (mk_market (side_orders true b) (side_orders false b) (next_order_id_ b + 1))
  else set_queue buy (enqueue buy (match_status inc) (side_orders buy b))
    (set_queue (negb buy) opp (mk_market (side_orders true b) (side_orders false b) (next_order_id_ b + 1))).

Lemma submit_uncrossed : uncrossed M'.
Proof.
  assert (∀ x r, x ∈ side_orders buy b → r ∈ opp →
    if buy then dltb (price x) (price r) = true else dltb (price r) (price x) = true) as Hold.
  { intros x r Hx Hr.
    assert (Forall (λ r, if buy then dltb (price x) (price r) = true
                         else dltb (price r) (price x) = true) opp) as Hall.
    { eapply (match_rest_Forall buy); [apply submit_live| |exact Hmq|done|]; [simpl; lia|].
      apply Forall_forall. intros y Hy. pose proof (ok_uncrossed b Hok) as Hu.
      unfold uncrossed in Hu. simpl in Hu. destruct buy; by apply Hu. }
    rewrite Forall_forall in Hall. by apply Hall. }
  assert (is_filled inc = false → ∀ r, r ∈ opp →
    if buy then dltb (price inc) (price r) = true else dltb (price r) (price inc) = true) as Hnew.
  { intros Hf r Hr. pose proof (submit_inc_uncrossed r Hf Hr) as Hc.
    assert (num (price inc)) as Hni by (rewrite submit_inc; by apply effective_price_num).
    assert (num (price r)) as Hnr.
    { assert (Forall (λ r, num (price r)) opp) as Hn.
      { eapply (match_rest_Forall buy); [apply submit_live| |exact Hmq|done|]; [simpl; lia|].
        apply side_orders_num, Hok. }
      rewrite Forall_forall in Hn. by apply Hn. }
    unfold crosses, dgeb in Hc. destruct buy; rewrite dleb_ltb in Hc by done;
      by apply negb_false_iff in Hc. }
  destruct (match_status_fields inc) as (_ & Hpr & _).
  subst M'. unfold uncrossed, set_queue.
  destruct (is_filled inc || immediate t) eqn:Hfi; [|apply orb_false_iff in Hfi as [Hf _]];
    destruct buy; simpl; intros x y Hx Hy; auto.
  - apply elem_of_enqueue in Hx as [->|Hx]; [rewrite Hpr|]; auto.
  - apply elem_of_enqueue in Hy as [->|Hy]; [rewrite Hpr|]; auto.
Qed.

Lemma submit_resting buy' : Forall resting (queue buy' M').
Proof.
  pose proof submit_opp_resting. pose proof (ok_resting b Hok) as Hold.
  subst M'. unfold set_queue.
  destruct (is_filled inc || immediate t) eqn:Hfi; [|apply orb_false_iff in Hfi as [Hf Hi]].
  - by destruct buy, buy'; simpl; try apply Hold.
  - pose proof (submit_inc_resting Hf Hi) as Hinc.
    assert (∀ l, Forall resting l → Forall resting (enqueue buy (match_status inc) l)) as Henq.
    { intros l Hl. rewrite Forall_forall in Hl. apply Forall_forall.
      intros x [->|?]%elem_of_enqueue; auto. }
    destruct buy, buy'; simpl; try done; apply Henq, Hold.
Qed.
End submit.

Lemma book_submit_spec clock s t p q b :
  book_ok b → invalid_order t p q = false → valid_price t p → 0 ≤ q < 2 ^ 32 →
  next_order_id_ b + 1 < 2 ^ 64 →
  ∃ order o b1 ts b2 b3,
    add_order (clock 1%nat) s t (effective_price s t p) q b = Some (order, b1) ∧
    get_order order b1 = Some o ∧ id o = next_order_id_ b ∧
    match_order (λ n, clock (2 + n)%nat) order b1 = Some (ts, b2) ∧
    post_match t order b2 = Some b3 ∧
    spec_submit clock s t p q (market b) = (next_order_id_ b, ts, market b3) ∧
    book_ok b3 ∧ symbol_ b3 = symbol_ b.
Proof.
  intros Hok Hv Hp Hq Hnext. pose proof (ok_wf b Hok) as Hwf.
  pose proof (effective_price_num s t p Hp) as Hnum.
  destruct (add_order_spec b (clock 1%nat) s t (effective_price s t p) q Hwf Hnum Hnext)
    as (nd & b1 & Hadd & Hwf1 & Hr1 & Hso1 & Hopp1 & Hid1 & Hsym1).
  set (o := Order_new _ _ _ _ _ _) in *. set (buy := is_buy s) in *.
  destruct (match_order_spec b1 buy (λ n, clock (2 + n)%nat) nd o Hwf1 Hr1)
    as (ts & inc & opp & b2 & Hmq & Hmo & Hwf2 & Hr2 & Hso2 & Hopp2 & Hid2 & Hsym2).
  { simpl. lia. } { rewrite Hopp1. apply resting_live, Hok. }
  rewrite Hopp1 in Hmq.
  destruct (post_match_spec b2 t buy nd (match_status inc) Hwf2 Hr2)
    as (b3 & Hpm & Hwf3 & Hso3 & Hid3 & Hsym3).
  exists (node_order nd), o, b1, ts, b2, b3.
  pose proof (submit_inc clock s t p q b Hok Hq ts inc opp Hmq) as Hinc.
  destruct (match_status_fields inc) as (Hi & Hpr & _ & _ & Hre).
  assert (id inc = id o) as Hio by (by rewrite Hinc).
  assert (price inc = price o) as Hpo by (by rewrite Hinc).
  assert (is_filled (match_status inc) = is_filled inc) as Hfi by (unfold is_filled; by rewrite Hre).
  pose proof (dequeue_other_side b2 buy nd _ Hwf2 Hr2) as Hdq.
  pose proof (next_id_fresh b buy Hwf) as Hfresh.
  assert (side_orders (negb buy) b3 = opp) as Hopp3.
  { rewrite Hso3, Hdq, Hopp2. by destruct (is_filled _ || _). }
  assert (side_orders buy b3 = if is_filled inc || immediate t then side_orders buy b
    else enqueue buy (match_status inc) (side_orders buy b)) as Hown3.
  { rewrite Hso3, Hfi, Hso2, Hso1. destruct (is_filled inc || immediate t).
    - rewrite dequeue_replace, Hi, Hio. by apply dequeue_enqueue.
    - apply replace_enqueue; [congruence..|done]. }
  assert (market b3 = if is_filled inc || immediate t
    then set_queue (negb buy) opp (mk_market (side_orders true b) (side_orders false b) (next_order_id_ b + 1))
    else set_queue buy (enqueue buy (match_status inc) (side_orders buy b))
      (set_queue (negb buy) opp (mk_market (side_orders true b) (side_orders false b) (next_order_id_ b + 1)))) as HM.
  { unfold market. rewrite Hid3, Hid2, Hid1. destruct buy; simpl in *;
      rewrite Hown3, Hopp3; by destruct (is_filled inc || immediate t). }
  assert (spec_submit clock s t p q (market b) = (next_order_id_ b, ts, market b3)) as Hspec.
  { unfold spec_submit. rewrite Hv, !queue_market. cbv zeta. fold buy.
    change (next_id (market b)) with (next_order_id_ b). fold o. by rewrite Hmq, HM. }
  split_and!; try done; [by apply (rests_get _ _ _ _ Hr1)| |congruence].
  pose proof (submit_resting clock s t p q b Hok Hv Hp Hq ts inc opp Hmq) as Hres.
  pose proof (submit_uncrossed clock s t p q b Hok Hp Hq ts inc opp Hmq) as Hunc.
  fold buy in Hres, Hunc. simpl in Hres, Hunc. rewrite <-HM in *. split; try done.
  intros buy'. rewrite <-queue_market. apply Hres.
Qed.
