(* ===== verification/Exchange.v ===== *)
(** The engine as a whole: every entry point on an engine with any number of
    books, as a refinement of a family of abstract markets.

    [run_op] runs one call against the engine of MatchingEngine and [spec_op] says
    what it does to the market of its symbol.  [sim] relates the two states;
    [run_op_sim] is the simulation step and [run_ops_sim] its extension to
    sequences of calls.  [engine_step] is the corresponding step relation, whose
    reachable states satisfy [engine_ok]. *)

From stdpp Require Import base list gmap strings sorting relations.
From Stdlib Require Import ZArith Lia.
From S2P Require Import Prelude Machine StdMap Types ObjectPool OrderBook PriceTime.
From S2P Require Import BookInv BookOps MatchingEngine MatchRefine EngineSpec.

Open Scope Z_scope.

(** ** Cancellation and reduction of a book that is ok *)

Lemma dequeue_elem oid x l : x ∈ dequeue oid l → x ∈ l.
Proof. by intros [_ ?]%list_elem_of_filter. Qed.

Lemma book_cancel_ok b oid :
  book_ok b →
  ∃ r b', OrderBook.cancel_order oid b = Some (r, b') ∧
    spec_cancel oid (market b) = (r, market b') ∧ book_ok b' ∧ symbol_ b' = symbol_ b.
Proof.
  intros Hok. destruct (cancel_order_spec b oid (ok_wf b Hok))
    as (r & b' & Hc & Hwf' & Hr & Hso & Hid & Hsym).
  exists r, b'. split; [done|]. split; [|split; [split|]]; try done.
  - unfold spec_cancel, market. simpl. rewrite !Hso, Hid. f_equal. symmetry.
    rewrite lookup_side_orders in Hr by apply Hok.
    rewrite fmap_app. destruct r; case_bool_decide as H; try done; exfalso;
      rewrite elem_of_app in H; naive_solver.
  - intros buy. rewrite Hso. pose proof (ok_resting b Hok buy) as Hall.
    rewrite Forall_forall in Hall. apply Forall_forall. eauto using dequeue_elem.
  - intros x y Hx Hy. simpl in *. rewrite Hso in Hx, Hy.
    apply (ok_uncrossed b Hok); simpl; eauto using dequeue_elem.
Qed.

Definition spec_reduce (oid : OrderId) (q : Quantity) (M : MarketState) : bool * MarketState :=
  let hit := existsb (λ o, (id o =? oid) && (q <? remaining_qty o)) (bids M ++ asks M) in
  (hit, if hit then mk_market (reduce_queue oid q (bids M)) (reduce_queue oid q (asks M)) (next_id M)
        else M).

Lemma elem_of_reduce_queue oid q x l :
  x ∈ reduce_queue oid q l →
  ∃ y, y ∈ l ∧ (x = y ∨ q ≠ 0 ∧ id y = oid ∧ x = set_remaining q y).
Proof.
  unfold reduce_queue. destruct (Z.eqb_spec q 0) as [->|Hq].
  { intros H%dequeue_elem. eauto. }
  intros (y & -> & Hy)%list_elem_of_fmap. exists y. case_decide; eauto.
Qed.

Lemma reduce_hit b oid q :
  existsb (λ o, (id o =? oid) && (q <? remaining_qty o)) (side_orders true b ++ side_orders false b) = true ↔
  ∃ s o, o ∈ side_orders s b ∧ id o = oid ∧ q < remaining_qty o.
Proof.
  rewrite existsb_exists. setoid_rewrite <-list_elem_of_In. setoid_rewrite elem_of_app.
  setoid_rewrite andb_true_iff. setoid_rewrite Z.eqb_eq. setoid_rewrite Z.ltb_lt. split.
  - intros (o & [H|H] & ?); eauto.
  - intros ([] & o & ? & ?); eauto.
Qed.

Lemma book_reduce_ok b oid q :
  book_ok b → 0 ≤ q →
  ∃ r b', reduce_order oid q b = Some (r, b') ∧
    spec_reduce oid q (market b) = (r, market b') ∧ book_ok b' ∧ symbol_ b' = symbol_ b.
Proof.
  intros Hok Hq. destruct (reduce_order_spec b oid q (ok_wf b Hok))
    as (r & b' & Hc & Hwf' & Hr & Hso & Hid & Hsym).
  exists r, b'. split; [done|].
  assert (spec_reduce oid q (market b) = (r, market b')) as Hspec.
  { unfold spec_reduce, market. simpl. rewrite !Hso, Hid.
    rewrite <-reduce_hit in Hr. destruct (existsb _ _), r; try done;
      exfalso; by (discriminate (proj1 Hr eq_refl) || discriminate (proj2 Hr eq_refl)). }
  split; [done|]. split; [|done].
  destruct r; cycle 1.
  { assert (market b' = market b) as HM.
    { pose proof (f_equal fst Hspec) as Hf. pose proof (f_equal snd Hspec) as Hs. simpl in Hf, Hs.
      by rewrite Hf in Hs. }
    split; [done|intros buy; rewrite Hso; apply Hok|rewrite HM; apply Hok]. }
  destruct (proj1 Hr eq_refl) as (s0 & o0 & Ho0 & Hid0 & Hlt0).
  split; [done| |].
  - intros buy. rewrite Hso. pose proof (ok_resting b Hok buy) as Hall.
    rewrite Forall_forall in Hall. apply Forall_forall.
    intros x (y & Hy & [->|(Hq0 & Hidy & ->)])%elem_of_reduce_queue; [auto|].
    destruct (Hall y Hy) as ([? ?] & ? & ?).
    assert (y = o0) as ->.
    { apply (elem_of_side_orders b (ok_wf b Hok)) in Hy as (nd & Hry).
      apply (elem_of_side_orders b (ok_wf b Hok)) in Ho0 as (nd' & Hro).
      by destruct (rests_inj b _ _ _ _ _ _ Hry Hro) as (_ & ? & _); [congruence|]. }
    split; [|done]. split; simpl; lia.
  - intros x y Hx Hy. simpl in *. rewrite Hso in Hx, Hy.
    apply elem_of_reduce_queue in Hx as (x' & Hx' & Hxe), Hy as (y' & Hy' & Hye).
    pose proof (ok_uncrossed b Hok x' y' Hx' Hy') as Hu.
    destruct Hxe as [->|(_ & _ & ->)], Hye as [->|(_ & _ & ->)]; done.
Qed.

(** ** The engine and its markets *)

(** The book of a symbol, whether or not it exists yet. *)
Definition book_of (sym : string) (e : MatchingEngine) : OrderBook :=
  default (OrderBook_new sym default_pool_size) (books_ e !! sym).

Definition engine_ok (e : MatchingEngine) : Prop :=
  ∀ sym b, books_ e !! sym = Some b → book_ok b ∧ symbol_ b = sym.

Lemma MatchingEngine_new_ok : engine_ok MatchingEngine_new.
Proof. intros sym b H. simpl in H. by rewrite lookup_empty in H. Qed.

Lemma book_of_ok e sym : engine_ok e → book_ok (book_of sym e) ∧ symbol_ (book_of sym e) = sym.
Proof.
  intros He. unfold book_of. destruct (books_ e !! sym) eqn:E; simpl; [by apply He|].
  split; [apply OrderBook_new_ok|done].
Qed.

Lemma set_stats_ok e st : engine_ok e → engine_ok (set_stats st e).
Proof. done. Qed.

Lemma set_book_ok e sym b :
  engine_ok e → book_ok b → symbol_ b = sym → engine_ok (set_book sym b e).
Proof.
  intros He Hb Hs sym' b'. simpl. destruct (decide (sym = sym')) as [->|Hne].
  - rewrite lookup_insert_eq. by intros; simplify_eq.
  - rewrite lookup_insert_ne by done. apply He.
Qed.
#[export] Hint Resolve set_stats_ok set_book_ok : exch.

Lemma book_of_set_book e sym b sym' :
  book_of sym' (set_book sym b e) = if decide (sym' = sym) then b else book_of sym' e.
Proof.
  unfold book_of. simpl. case_decide as H; [subst; by rewrite lookup_insert_eq|].
  by rewrite lookup_insert_ne.
Qed.

Lemma book_of_set_stats e st sym : book_of sym (set_stats st e) = book_of sym e.
Proof. done. Qed.

(** [get_order_book] returns the book of the symbol and changes no book. *)
Lemma get_order_book_spec sym e :
  ∃ e', get_order_book sym e = (book_of sym e, e') ∧ stats_ e' = stats_ e ∧
    (engine_ok e → engine_ok e') ∧ (∀ sym', book_of sym' e' = book_of sym' e) ∧
    is_Some (books_ e' !! sym).
Proof.
  unfold get_order_book, book_of. destruct (books_ e !! sym) as [b|] eqn:E.
  { exists e. rewrite E. eauto. }
  eexists. split; [done|]. simpl. split; [done|]. rewrite lookup_insert_eq. split_and!; [| |eauto].
  - intros He. apply set_book_ok; [done|apply OrderBook_new_ok|done].
  - intros sym'. destruct (decide (sym = sym')) as [->|Hne].
    + by rewrite lookup_insert_eq, E.
    + by rewrite lookup_insert_ne.
Qed.

(** ** Submission *)

Section callback.
Context {CS : Type} (cb : option (Trade → CS → CS)).

(** What the callback does to the state of its owner over a list of trades. *)
Definition notify_all (ts : list Trade) (cs : CS) : CS :=
  match cb with Some f => foldl (λ cs t, f t cs) cs ts | None => cs end.

Lemma report_trades_spec ts st cs :
  report_trades cb ts st cs = (foldl (λ st t, count_trade t st) st ts, notify_all ts cs).
Proof.
  unfold notify_all. revert st cs. induction ts as [|t ts IH]; intros st cs; simpl.
  - by destruct cb.
  - rewrite IH. by destruct cb.
Qed.

(** The callback has no say in what the engine does. *)
Lemma submit_order_callback clock sym s t p q e cs :
  submit_order cb clock sym s t p q e cs =
  ('(oid, e, ts) ← submit_order (Some (λ t l, l ++ [t])) clock sym s t p q e [];
   Some (oid, e, notify_all ts cs)).
Proof.
  unfold submit_order. destruct (get_order_book sym e) as [b e1].
  assert (notify_all [] cs = cs) as Hnil by (unfold notify_all; by destruct cb).
  destruct (q =? 0); [simpl; by rewrite Hnil|]. destruct (_ && _); [simpl; by rewrite Hnil|].
  destruct (add_order _ _ _ _ _ _) as [[ord b1]|]; [|done]. cbn [mbind option_bind].
  destruct (get_order ord b1) as [o|]; [|done]. cbn [mbind option_bind].
  destruct (match_order _ _ _) as [[ts b2]|]; [|done]. cbn [mbind option_bind].
  assert (∀ l st, MatchingEngine.report_trades (Some (λ t l, l ++ [t])) ts st l =
    (foldl (λ st t, count_trade t st) st ts, l ++ ts)) as Hrec.
  { clear. induction ts as [|t ts IH]; intros l st; simpl; [by rewrite app_nil_r|].
    by rewrite IH, <-app_assoc. }
  rewrite report_trades_spec, Hrec. by destruct (post_match _ _ _).
Qed.

(** The statistics after a submission with trades [ts]. *)
Definition submit_stats (clock : nat → Timestamp) (rejected : bool) (ts : list Trade)
    (st : EngineStats) : EngineStats :=
  if rejected then count_reject (count_order st)
  else count_latency (u64 (clock (2 + length ts)%nat - clock O))
         (foldl (λ st t, count_trade t st) (count_order st) ts).

(** A submission does to the market of its symbol what [spec_submit] says,
    touches no other market, and tells the callback about every trade. *)
Lemma submit_order_spec clock sym s t p q e cs :
  engine_ok e → (invalid_order t p q = false → valid_price t p) → 0 ≤ q < 2 ^ 32 →
  next_order_id_ (book_of sym e) + 1 < 2 ^ 64 →
  ∃ oid ts M' e',
    spec_submit clock s t p q (market (book_of sym e)) = (oid, ts, M') ∧
    submit_order cb clock sym s t p q e cs = Some (oid, e', notify_all ts cs) ∧
    engine_ok e' ∧ market (book_of sym e') = M' ∧
    (∀ sym', sym' ≠ sym → book_of sym' e' = book_of sym' e) ∧
    stats_ e' = submit_stats clock (invalid_order t p q) ts (stats_ e).
Proof.
  intros He Hp Hq Hnext.
  destruct (get_order_book_spec sym e) as (e1 & Hget & Hst1 & Hok1 & Hbk1 & _).
  specialize (Hok1 He). unfold submit_order. rewrite Hget.
  destruct (invalid_order t p q) eqn:Hinv.
  - assert (∀ (A : Type) (x y : A), (if q =? 0 then x else if is_limit t && dleb p dzero then x else y) = x)
      as Hrej.
    { intros A x y. unfold invalid_order in Hinv. apply orb_true_iff in Hinv as [-> | ->]; [done|].
      by destruct (q =? 0). }
    rewrite Hrej. exists 0, [], (market (book_of sym e)). eexists.
    unfold spec_submit. rewrite Hinv. split; [done|].
    assert (notify_all [] cs = cs) as -> by (unfold notify_all; by destruct cb).
    split; [done|]. unfold submit_stats. rewrite <-Hst1.
    split_and!; simpl; auto with exch; intros; by rewrite !book_of_set_stats, Hbk1.
  - destruct (book_of_ok e sym He) as [Hbok Hbsym].
    destruct (book_submit_spec clock s t p q _ Hbok Hinv (Hp eq_refl) Hq Hnext)
      as (ord & o & b1 & ts & b2 & b3 & Hadd & Hgo & Hido & Hmo & Hpm & Hspec & Hok3 & Hsym3).
    exists (next_order_id_ (book_of sym e)), ts, (market b3).
    unfold invalid_order in Hinv. apply orb_false_iff in Hinv as [Hq0 Hlim].
    rewrite Hq0, Hlim. run Hadd. run Hgo. run Hmo. rewrite report_trades_spec. run Hpm.
    eexists. split; [done|]. rewrite Hido. split; [done|]. split_and!.
    + apply set_stats_ok, set_book_ok; auto with exch. congruence.
    + by rewrite book_of_set_stats, book_of_set_book, decide_True.
    + intros sym' Hne. by rewrite book_of_set_stats, book_of_set_book, decide_False, book_of_set_stats, Hbk1.
    + unfold submit_stats. by rewrite <-Hst1.
Qed.
End callback.

(** Installing a callback changes nothing in the engine, and from then on the trades of a
    submission go to it and to no callback that was installed before. *)
Lemma set_trade_callback_submit {CS} cb cb' clock sym s t p q e (cs : CS) :
  callback_submit clock sym s t p q (set_trade_callback cb (mk_callback_engine e cb')) cs =
  ('(oid, e, ts) ← submit_order (Some (λ t l, l ++ [t])) clock sym s t p q e [];
   Some (oid, mk_callback_engine e cb, notify_all cb ts cs)).
Proof.
  unfold callback_submit, set_trade_callback. simpl. rewrite submit_order_callback.
  by destruct (submit_order _ _ _ _ _ _ _ _ _) as [[[oid e'] ts]|].
Qed.

Lemma cancel_order_engine_spec sym oid e :
  engine_ok e →
  ∃ r e', cancel_order sym oid e = Some (r, e') ∧
    spec_cancel oid (market (book_of sym e)) = (r, market (book_of sym e')) ∧
    engine_ok e' ∧ (∀ sym', sym' ≠ sym → book_of sym' e' = book_of sym' e) ∧
    stats_ e' = if r then count_cancel (stats_ e) else stats_ e.
Proof.
  intros He. unfold cancel_order. destruct (book_of_ok e sym He) as [Hok Hsym].
  unfold book_of in Hok, Hsym |- * at 1. destruct (books_ e !! sym) as [b|] eqn:E; simpl in *; cycle 1.
  { exists false, e. split; [done|]. unfold book_of. rewrite E. simpl. by split_and!. }
  destruct (book_cancel_ok b oid Hok) as (r & b' & Hc & Hspec & Hok' & Hsym').
  run Hc. exists r. eexists. split; [done|].
  assert (engine_ok (set_book sym b' e)) by (apply set_book_ok; [done..|congruence]).
  split_and!.
  - rewrite Hspec. destruct r; by rewrite ?book_of_set_stats, book_of_set_book, decide_True.
  - by destruct r.
  - intros sym' Hne. destruct r; by rewrite ?book_of_set_stats, book_of_set_book, decide_False.
  - by destruct r.
Qed.

(** [engine.get_order_book(sym).reduce_order(oid, q)]: a client reaches the
    reduction of an order through the book the engine hands out. *)
Definition engine_reduce (sym : string) (oid : OrderId) (q : Quantity) (e : MatchingEngine)
    : option (bool * MatchingEngine) :=
  let '(b, e) := get_order_book sym e in
  '(r, b) ← reduce_order oid q b;
  Some (r, set_book sym b e).

Lemma engine_reduce_spec sym oid q e :
  engine_ok e → 0 ≤ q →
  ∃ r e', engine_reduce sym oid q e = Some (r, e') ∧
    spec_reduce oid q (market (book_of sym e)) = (r, market (book_of sym e')) ∧
    engine_ok e' ∧ (∀ sym', sym' ≠ sym → book_of sym' e' = book_of sym' e) ∧
    stats_ e' = stats_ e.
Proof.
  intros He Hq. unfold engine_reduce. destruct (book_of_ok e sym He) as [Hok Hsym].
  destruct (get_order_book_spec sym e) as (e1 & -> & Hst1 & Hok1 & Hbk1 & _).
  destruct (book_reduce_ok _ oid q Hok Hq) as (r & b' & Hc & Hspec & Hok' & Hsym').
  run Hc. exists r. eexists. split; [done|]. split_and!; try done.
  - by rewrite Hspec, book_of_set_book, decide_True.
  - apply set_book_ok; [auto|done|congruence].
  - intros sym' Hne. by rewrite book_of_set_book, decide_False, Hbk1.
Qed.

(** ** Sequences of calls *)

Inductive op :=
  | OpSubmit (clock : nat → Timestamp) (sym : string) (s : Side) (t : OrderType)
      (p : Price) (q : Quantity)
  | OpCancel (sym : string) (oid : OrderId)
  | OpReduce (sym : string) (oid : OrderId) (q : Quantity).

Inductive response :=
  | RSubmit (oid : OrderId) (ts : list Trade)
  | RCancel (done : bool)
  | RReduce (done : bool).

Definition op_symbol (o : op) : string :=
  match o with OpSubmit _ sym _ _ _ _ | OpCancel sym _ | OpReduce sym _ _ => sym end.

(** A client that records the trades it is called with. *)
Definition recorder : option (Trade → list Trade → list Trade) := Some (λ t l, l ++ [t]).

Lemma recorder_notify ts l : notify_all recorder ts l = l ++ ts.
Proof.
  unfold notify_all. simpl. revert l. induction ts as [|t ts IH]; intros l; simpl.
  - by rewrite app_nil_r.
  - by rewrite IH, <-app_assoc.
Qed.

Definition run_op (o : op) (e : MatchingEngine) : option (response * MatchingEngine) :=
  match o with
  | OpSubmit clock sym s t p q =>
      '(oid, e, ts) ← submit_order recorder clock sym s t p q e [];
      Some (RSubmit oid ts, e)
  | OpCancel sym oid => '(r, e) ← cancel_order sym oid e; Some (RCancel r, e)
  | OpReduce sym oid q => '(r, e) ← engine_reduce sym oid q e; Some (RReduce r, e)
  end.

Fixpoint run_ops (os : list op) (e : MatchingEngine) : option (list response * MatchingEngine) :=
  match os with
  | [] => Some ([], e)
  | o :: os =>
      '(r, e) ← run_op o e;
      '(rs, e) ← run_ops os e;
      Some (r :: rs, e)
  end.

(** The specification: one market per symbol, a call changes that of its symbol. *)
Definition spec_op (o : op) (M : MarketState) : response * MarketState :=
  match o with
  | OpSubmit clock _ s t p q =>
      let '(oid, ts, M) := spec_submit clock s t p q M in (RSubmit oid ts, M)
  | OpCancel _ oid => let '(r, M) := spec_cancel oid M in (RCancel r, M)
  | OpReduce _ oid q => let '(r, M) := spec_reduce oid q M in (RReduce r, M)
  end.

Definition set_market (sym : string) (M : MarketState) (Ms : string → MarketState)
    : string → MarketState := λ sym', if decide (sym' = sym) then M else Ms sym'.

Fixpoint spec_ops (os : list op) (Ms : string → MarketState)
    : list response * (string → MarketState) :=
  match os with
  | [] => ([], Ms)
  | o :: os =>
      let '(r, M) := spec_op o (Ms (op_symbol o)) in
      let '(rs, Ms) := spec_ops os (set_market (op_symbol o) M Ms) in
      (r :: rs, Ms)
  end.

Definition no_orders : MarketState := mk_market [] [] 1.

(** The arguments a call may have: quantities of 32 bits, and no NaN as the price
    of an order that is not a market order. *)
Definition op_ok (o : op) : Prop :=
  match o with
  | OpSubmit _ _ _ t p q =>
      (invalid_order t p q = false → valid_price t p) ∧ 0 ≤ q < 2 ^ 32
  | OpCancel _ _ => True
  | OpReduce _ _ q => 0 ≤ q < 2 ^ 32
  end.

(** The simulation relation. *)
Definition sim (e : MatchingEngine) (Ms : string → MarketState) : Prop :=
  engine_ok e ∧ ∀ sym, market (book_of sym e) = Ms sym.

Lemma sim_new : sim MatchingEngine_new (λ _, no_orders).
Proof.
  split; [apply MatchingEngine_new_ok|]. intros sym. unfold book_of. simpl.
  by rewrite lookup_empty.
Qed.

Lemma run_op_spec o e :
  engine_ok e → op_ok o → next_order_id_ (book_of (op_symbol o) e) + 1 < 2 ^ 64 →
  ∃ r e', run_op o e = Some (r, e') ∧
    spec_op o (market (book_of (op_symbol o) e)) = (r, market (book_of (op_symbol o) e')) ∧
    engine_ok e' ∧ ∀ sym, sym ≠ op_symbol o → book_of sym e' = book_of sym e.
Proof.
  intros He Hop Hn. destruct o as [clock sym s t p q|sym oid|sym oid q];
    cbn [run_op spec_op op_ok op_symbol] in *.
  - destruct Hop as [Hp Hq].
    destruct (submit_order_spec recorder clock sym s t p q e [] He Hp Hq Hn)
      as (oid & ts & M' & e' & Hspec & Hs & He' & HM & Hoth & _).
    rewrite recorder_notify in Hs. run Hs. rewrite Hspec. eexists _, e'.
    split; [done|]. by rewrite HM.
  - destruct (cancel_order_engine_spec sym oid e He) as (r & e' & Hc & Hspec & He' & Hoth & _).
    run Hc. rewrite Hspec. by eexists _, e'.
  - destruct (engine_reduce_spec sym oid q e He) as (r & e' & Hc & Hspec & He' & Hoth & _); [lia|].
    run Hc. rewrite Hspec. by eexists _, e'.
Qed.

Lemma run_op_sim o e Ms :
  sim e Ms → op_ok o → next_id (Ms (op_symbol o)) + 1 < 2 ^ 64 →
  ∃ r M' e', run_op o e = Some (r, e') ∧ spec_op o (Ms (op_symbol o)) = (r, M') ∧
    sim e' (set_market (op_symbol o) M' Ms).
Proof.
  intros [He HM] Hop Hn. rewrite <-HM in Hn.
  destruct (run_op_spec o e He Hop Hn) as (r & e' & Hr & Hspec & He' & Hoth).
  rewrite HM in Hspec. eexists r, _, e'. split; [done|]. split; [done|]. split; [done|].
  intros sym. unfold set_market. case_decide as Hd; [by rewrite Hd|]. by rewrite Hoth.
Qed.

(** A call draws at most one id. *)
Lemma spec_op_next_id o M r M' :
  spec_op o M = (r, M') → next_id M ≤ next_id M' ≤ next_id M + 1.
Proof.
  destruct o as [clock sym s t p q|sym oid|sym oid q]; simpl.
  - unfold spec_submit. destruct (invalid_order t p q); [intros; simplify_eq; lia|].
    destruct (match_queue _ _ _ _) as [[ts inc] opp]. intros; simplify_eq.
    destruct (is_filled inc || immediate t), (is_buy s); simpl; lia.
  - unfold spec_cancel. intros; simplify_eq/=. lia.
  - unfold spec_reduce. case_match; intros; simplify_eq/=; lia.
Qed.

Lemma run_ops_sim os e Ms n :
  sim e Ms → Forall op_ok os → (∀ sym, next_id (Ms sym) ≤ n) →
  n + Z.of_nat (length os) < 2 ^ 64 →
  ∃ rs Ms' e', run_ops os e = Some (rs, e') ∧ spec_ops os Ms = (rs, Ms') ∧ sim e' Ms' ∧
    ∀ sym, next_id (Ms' sym) ≤ n + Z.of_nat (length os).
Proof.
  revert e Ms n. induction os as [|o os IH]; intros e Ms n Hsim Hok Hn Hlen; simpl.
  { eexists [], Ms, e. split_and!; try done. intros sym. specialize (Hn sym). lia. }
  apply Forall_cons in Hok as [Ho Hok].
  destruct (run_op_sim o e Ms Hsim Ho) as (r & M' & e1 & Hr & Hspec & Hsim1).
  { specialize (Hn (op_symbol o)). simpl in Hlen. lia. }
  destruct (IH e1 (set_market (op_symbol o) M' Ms) (n + 1) Hsim1 Hok) as (rs & Ms' & e' & Hrs & Hs & Hsim' & Hn').
  { intros sym. unfold set_market. specialize (Hn sym). case_decide; [subst|lia].
    apply spec_op_next_id in Hspec. lia. }
  { simpl in Hlen. lia. }
  run Hr. run Hrs. rewrite Hspec, Hs. eexists _, Ms', e'. split_and!; try done.
  intros sym. specialize (Hn' sym). lia.
Qed.

(** ** Reachable states *)

Inductive engine_step (e e' : MatchingEngine) : Prop :=
  | engine_step_op o r :
      op_ok o → next_order_id_ (book_of (op_symbol o) e) + 1 < 2 ^ 64 →
      run_op o e = Some (r, e') → engine_step e e'
  | engine_step_get sym b :
      get_order_book sym e = (b, e') → engine_step e e'
  | engine_step_reset :
      e' = reset_stats e → engine_step e e'.

Definition reachable (e : MatchingEngine) : Prop := rtc engine_step MatchingEngine_new e.

Lemma engine_step_ok e e' : engine_ok e → engine_step e e' → engine_ok e'.
Proof.
  intros He [o r Hop Hn Hr|sym b Hg| -> ].
  - destruct (run_op_spec o e He Hop Hn) as (r' & e1 & Hr' & _ & He1 & _). by simplify_eq.
  - destruct (get_order_book_spec sym e) as (e1 & Hg1 & _ & He1 & _).
    rewrite Hg1 in Hg. simplify_eq. auto.
  - by apply set_stats_ok.
Qed.

Lemma reachable_ok e : reachable e → engine_ok e.
Proof.
  unfold reachable. revert e. apply rtc_ind_r; [apply MatchingEngine_new_ok|].
  intros; by eapply engine_step_ok.
Qed.

(** ** What an accepted submission does, order by order *)

Section accepted.
Context (clock : nat → Timestamp) (sym : string) (s : Side) (t : OrderType).
Context (p : Price) (q : Quantity) (e : MatchingEngine).
Context (He : engine_ok e) (Hop : op_ok (OpSubmit clock sym s t p q)).
Context (Hn : next_order_id_ (book_of sym e) + 1 < 2 ^ 64).
Context (Hv : invalid_order t p q = false).

Let buy := is_buy s.
Let b := book_of sym e.
Let o := Order_new (clock 1%nat) (next_order_id_ b) s t (effective_price s t p) q.

Lemma accepted_live : Forall live (side_orders (negb buy) b).
Proof. apply resting_live, (proj1 (book_of_ok e sym He)). Qed.

Lemma accepted_qty : 0 ≤ remaining_qty o.
Proof. simpl. destruct Hop. lia. Qed.

Lemma accepted_filled ts inc opp :
  match_queue buy (λ n, clock (2 + n)%nat) o (side_orders (negb buy) b) = (ts, inc, opp) →
  filled_by ts = q - remaining_qty inc ∧ 0 ≤ remaining_qty inc ≤ q.
Proof.
  intros Hmq. split.
  - by rewrite (match_filled _ _ _ _ _ _ _ accepted_live accepted_qty Hmq).
  - exact (match_incoming_range _ _ _ _ _ _ _ accepted_live accepted_qty Hmq).
Qed.

Lemma accepted_incoming ts inc opp :
  match_queue buy (λ n, clock (2 + n)%nat) o (side_orders (negb buy) b) = (ts, inc, opp) →
  inc = set_remaining (q - filled_by ts) o.
Proof.
  intros Hmq. destruct (accepted_filled _ _ _ Hmq) as [Hf _].
  rewrite (match_incoming _ _ _ _ _ _ _ accepted_live accepted_qty Hmq) at 1.
  f_equal. lia.
Qed.

Lemma accepted_price : num (effective_price s t p).
Proof. apply effective_price_num. by apply Hop. Qed.

Lemma submit_accepted :
  ∃ e' ts inc opp,
    submit_order recorder clock sym s t p q e [] = Some (next_order_id_ b, e', ts) ∧
    match_queue buy (λ n, clock (2 + n)%nat) o (side_orders (negb buy) b) = (ts, inc, opp) ∧
    engine_ok e' ∧
    side_orders (negb buy) (book_of sym e') = opp ∧
    side_orders buy (book_of sym e') =
      (if is_filled inc || immediate t then side_orders buy b
       else enqueue buy (match_status inc) (side_orders buy b)) ∧
    next_order_id_ (book_of sym e') = next_order_id_ b + 1.
Proof.
  destruct Hop as [Hp Hq].
  destruct (submit_order_spec recorder clock sym s t p q e [] He Hp Hq Hn)
    as (oid & ts & M' & e' & Hspec & Hs & He' & HM & _ & _).
  rewrite recorder_notify in Hs. unfold spec_submit in Hspec. rewrite Hv, !queue_market in Hspec.
  cbv zeta in Hspec. change (next_id (market (book_of sym e))) with (next_order_id_ b) in Hspec.
  fold b buy o in Hspec.
  destruct (match_queue _ _ o _) as [[ts' inc] opp] eqn:Hmq.
  injection Hspec as <- <- <-.
  exists e', ts', inc, opp. split_and!; try done.
  - pose proof (f_equal (queue (negb buy)) HM) as HQ. rewrite queue_market in HQ. rewrite HQ.
    destruct (is_filled inc || immediate t), buy; done.
  - pose proof (f_equal (queue buy) HM) as HQ. rewrite queue_market in HQ. rewrite HQ.
    destruct (is_filled inc || immediate t), buy; done.
  - change (next_order_id_ (book_of sym e')) with (next_id (market (book_of sym e'))). rewrite HM.
    destruct (is_filled inc || immediate t), buy; done.
Qed.
End accepted.

(** ** Runs reach reachable states *)

(** What every call of a run preserves holds after the run; [P] may speak about the
    responses so far. *)
Lemma run_ops_inv (P : list response → MatchingEngine → Prop) os e Ms n rs0 rs e' :
  (∀ o e r e' rs, engine_ok e → op_ok o → next_order_id_ (book_of (op_symbol o) e) + 1 < 2 ^ 64 →
     run_op o e = Some (r, e') → P rs e → P (rs ++ [r]) e') →
  sim e Ms → Forall op_ok os → (∀ sym, next_id (Ms sym) ≤ n) →
  n + Z.of_nat (length os) < 2 ^ 64 → run_ops os e = Some (rs, e') →
  P rs0 e → P (rs0 ++ rs) e'.
Proof.
  intros HP. revert e Ms n rs0 rs. induction os as [|o os IH]; intros e Ms n rs0 rs Hsim Hok Hn Hlen; simpl.
  { intros; simplify_eq. by rewrite app_nil_r. }
  apply Forall_cons in Hok as [Ho Hok].
  assert (next_id (Ms (op_symbol o)) + 1 < 2 ^ 64) as Hb
    by (specialize (Hn (op_symbol o)); simpl in Hlen; lia).
  destruct (run_op_sim o e Ms Hsim Ho Hb) as (r & M' & e1 & Hr & Hspec & Hsim1).
  run Hr. destruct (run_ops os e1) as [[rs' e2]|] eqn:Hrs; simpl; [|done].
  intros Heq HP0. simplify_eq. replace (rs0 ++ r :: rs') with ((rs0 ++ [r]) ++ rs') by (by rewrite <-app_assoc).
  eapply (IH e1 _ (n + 1)); [exact Hsim1|done| |simpl in Hlen; lia|done|].
  - intros sym. unfold set_market. specialize (Hn sym). case_decide; [subst|lia].
    apply spec_op_next_id in Hspec. lia.
  - eapply HP; [apply Hsim|exact Ho| |exact Hr|done].
    change (next_order_id_ (book_of (op_symbol o) e))
      with (next_id (market (book_of (op_symbol o) e))). by rewrite (proj2 Hsim).
Qed.

(** The state after a sequence of calls on a new engine. *)
Definition after (os : list op) : MatchingEngine :=
  default MatchingEngine_new (snd <$> run_ops os MatchingEngine_new).

Lemma after_reachable os :
  Forall op_ok os → Z.of_nat (length os) + 1 < 2 ^ 64 → reachable (after os).
Proof.
  intros Hok Hlen. unfold after. destruct (run_ops os MatchingEngine_new) as [[rs e]|] eqn:E;
    simpl; [|apply rtc_refl].
  eapply (run_ops_inv (λ _ e, reachable e) os _ _ 1 []); [|apply sim_new|done|done|lia|exact E|apply rtc_refl].
  intros o e1 r e2 _ _ Ho Hb Hr He1. eapply rtc_r; [exact He1|by eapply engine_step_op].
Qed.

(** ** Identifiers and statistics over a run *)

(** The identifiers that the submissions for [sym] of a run were given; 0 marks a
    rejected order. *)
Definition accepted_id (sym : string) (x : op * response) : option OrderId :=
  match x with
  | (OpSubmit _ sym' _ _ _ _, RSubmit oid _) =>
      if decide (sym' = sym ∧ oid ≠ 0) then Some oid else None
  | _ => None
  end.

Definition accepted_ids (sym : string) (os : list op) (rs : list response) : list OrderId :=
  omap (accepted_id sym) (zip os rs).

Lemma spec_op_id o M r M' :
  1 ≤ next_id M → spec_op o M = (r, M') →
  match accepted_id (op_symbol o) (o, r) with
  | Some oid => oid = next_id M ∧ next_id M' = next_id M + 1
  | None => next_id M' = next_id M
  end.
Proof.
  intros HM. destruct o as [clock sym s t p q|sym oid|sym oid q]; simpl.
  - unfold spec_submit. destruct (invalid_order t p q).
    { intros; simplify_eq/=. case_decide; naive_solver. }
    destruct (match_queue _ _ _ _) as [[ts inc] opp]. intros; simplify_eq/=.
    rewrite decide_True by (split; [done|lia]). split; [done|].
    destruct (is_filled inc || immediate t), (is_buy s); done.
  - unfold spec_cancel. by intros; simplify_eq/=.
  - unfold spec_reduce. case_match; by intros; simplify_eq/=.
Qed.

Lemma accepted_id_other sym o r : sym ≠ op_symbol o → accepted_id sym (o, r) = None.
Proof. destruct o, r; simpl; try done. intros. by rewrite decide_False by naive_solver. Qed.

Lemma accepted_ids_cons sym o os r rs :
  accepted_ids sym (o :: os) (r :: rs) =
  match accepted_id sym (o, r) with
  | Some oid => oid :: accepted_ids sym os rs
  | None => accepted_ids sym os rs
  end.
Proof. done. Qed.

Lemma spec_ops_ids sym os Ms rs Ms' :
  (∀ sym, 1 ≤ next_id (Ms sym)) → spec_ops os Ms = (rs, Ms') →
  accepted_ids sym os rs =
  seqZ (next_id (Ms sym)) (Z.of_nat (length (accepted_ids sym os rs))).
Proof.
  revert Ms rs Ms'. induction os as [|o os IH]; intros Ms rs Ms' Hge; cbn [spec_ops].
  { by intros; simplify_eq. }
  destruct (spec_op o _) as [r M] eqn:Ho. destruct (spec_ops os _) as [rs' Ms1] eqn:Hos.
  intros; simplify_eq. pose proof (spec_op_id o _ r M (Hge _) Ho) as Hid.
  pose proof (spec_op_next_id _ _ _ _ Ho) as Hn.
  assert (∀ s, 1 ≤ next_id (set_market (op_symbol o) M Ms s)) as Hge'.
  { intros s. unfold set_market. case_decide; [|done]. specialize (Hge (op_symbol o)). lia. }
  specialize (IH _ _ _ Hge' Hos). rewrite accepted_ids_cons. unfold set_market in IH.
  destruct (decide (sym = op_symbol o)) as [->|Hne].
  - destruct (accepted_id (op_symbol o) (o, r)) as [oid|] eqn:Ea; [|by rewrite Hid in IH].
    destruct Hid as [-> Hid]. rewrite Hid in IH. cbn [length]. rewrite seqZ_cons by lia.
    f_equal. rewrite IH at 1. f_equal; lia.
  - rewrite (accepted_id_other _ _ _ Hne). exact IH.
Qed.

(** The counts that a run should leave in the statistics. *)
Record Tally := mk_tally {
  t_orders : Z; t_rejects : Z; t_cancels : Z; t_trades : Z; t_volume : Z;
}.

Definition tally_response (r : response) (c : Tally) : Tally :=
  match r with
  | RSubmit oid ts =>
      mk_tally (t_orders c + 1) (t_rejects c + if oid =? 0 then 1 else 0) (t_cancels c)
        (t_trades c + Z.of_nat (length ts)) (t_volume c + filled_by ts)
  | RCancel r => mk_tally (t_orders c) (t_rejects c) (t_cancels c + if r then 1 else 0)
                   (t_trades c) (t_volume c)
  | RReduce _ => c
  end.

Definition tally (rs : list response) : Tally :=
  foldl (λ c r, tally_response r c) (mk_tally 0 0 0 0 0) rs.

(** The counters of [st] are those of [c] modulo 2^64. *)
Definition counts (st : EngineStats) (c : Tally) : Prop :=
  total_orders st = u64 (t_orders c) ∧ total_rejects st = u64 (t_rejects c) ∧
  total_cancels st = u64 (t_cancels c) ∧ total_trades st = u64 (t_trades c) ∧
  total_volume st = u64 (t_volume c).

Lemma count_trades_counts ts st :
  let st' := foldl (λ st t, count_trade t st) st ts in
  total_orders st' = total_orders st ∧ total_rejects st' = total_rejects st ∧
  total_cancels st' = total_cancels st ∧
  u64 (total_trades st') = u64 (total_trades st + Z.of_nat (length ts)) ∧
  u64 (total_volume st') = u64 (total_volume st + filled_by ts) ∧
  (ts = [] ∨ total_trades st' = u64 (total_trades st') ∧ total_volume st' = u64 (total_volume st')).
Proof.
  revert st. induction ts as [|t ts IH]; intros st; simpl.
  { rewrite !Z.add_0_r. auto 10. }
  destruct (IH (count_trade t st)) as (-> & -> & -> & Ht & Hv & Hu). split_and!; try done.
  - rewrite Ht. simpl. rewrite u64_add_l. f_equal. lia.
  - rewrite Hv. simpl. rewrite u64_add_l. f_equal. unfold filled_by. csimpl. lia.
  - right. destruct Hu as [->|Hu]; [|done]. simpl. unfold u64. by rewrite !Zmod_mod.
Qed.

Lemma submit_stats_counts clock rejected ts st c oid :
  counts st c → (oid =? 0) = rejected → (rejected = true → ts = []) →
  counts (submit_stats clock rejected ts st) (tally_response (RSubmit oid ts) c).
Proof.
  intros (Ho & Hr & Hc & Ht & Hv) <- Hts. unfold counts, submit_stats. simpl.
  destruct (oid =? 0); simpl.
  { rewrite (Hts eq_refl). simpl. rewrite Ho, Hr, Hc, Ht, Hv, !u64_add_l, !Z.add_0_r. done. }
  destruct (count_trades_counts ts (count_order st)) as (-> & -> & -> & Ht' & Hv' & Hu).
  simpl in *. rewrite Ho, Hr, Hc, u64_add_l, !Z.add_0_r. split_and!; try done.
  - destruct Hu as [->|[-> _]]; [simpl; by rewrite Ht, Z.add_0_r|]. by rewrite Ht', Ht, u64_add_l.
  - destruct Hu as [->|[_ ->]]; [simpl; by rewrite Hv, Z.add_0_r|]. by rewrite Hv', Hv, u64_add_l.
Qed.

Lemma run_op_counts o e r e' c :
  engine_ok e → op_ok o → next_order_id_ (book_of (op_symbol o) e) + 1 < 2 ^ 64 →
  run_op o e = Some (r, e') → counts (stats_ e) c → counts (stats_ e') (tally_response r c).
Proof.
  intros He Hop Hn Hr Hc. destruct o as [clock sym s t p q|sym oid|sym oid q]; simpl in Hr.
  - destruct Hop as [Hp Hq].
    destruct (submit_order_spec recorder clock sym s t p q e [] He Hp Hq Hn)
      as (oid & ts & M' & e1 & Hspec & Hs & _ & _ & _ & Hst).
    rewrite recorder_notify in Hs. rewrite Hs in Hr. simplify_eq/=. rewrite Hst.
    pose proof (wf_next _ (ok_wf _ (proj1 (book_of_ok e sym He)))).
    unfold spec_submit in Hspec.
    apply submit_stats_counts; [done|..]; destruct (invalid_order t p q); try (by simplify_eq);
      destruct (match_queue _ _ _ _) as [[? ?] ?]; simplify_eq; (done || (simpl in *; lia)).
  - destruct (cancel_order_engine_spec sym oid e He) as (r' & e1 & Hc' & _ & _ & _ & Hst).
    rewrite Hc' in Hr. simplify_eq/=. rewrite Hst. destruct Hc as (? & ? & Hcan & ? & ?).
    destruct r'; unfold counts; simpl; rewrite ?Z.add_0_r; [rewrite Hcan, u64_add_l|]; by split_and!.
  - destruct (engine_reduce_spec sym oid q e He) as (r' & e1 & Hc' & _ & _ & _ & Hst); [destruct Hop; lia|].
    rewrite Hc' in Hr. simplify_eq/=. by rewrite Hst.
Qed.

(** ** The trades of a submission *)

Lemma submit_trades_range clock s t p q b oid ts M' :
  book_ok b → 0 ≤ q → spec_submit clock s t p q (market b) = (oid, ts, M') →
  Forall (λ x, 0 < trade_quantity x < 2 ^ 32) ts.
Proof.
  intros Hok Hq. unfold spec_submit. destruct (invalid_order t p q); [by intros; simplify_eq|].
  destruct (match_queue _ _ _ _) as [[ts' inc] opp] eqn:Hmq. intros; simplify_eq.
  rewrite queue_market in Hmq. pose proof (resting_live _ (ok_resting b Hok (negb (is_buy s)))) as Hlive.
  eapply match_trades in Hmq; [|exact Hlive|exact Hq].
  eapply Forall_impl; [exact Hmq|]. intros x (r & q' & now & -> & Hr & _ & Hq'). simpl.
  rewrite Forall_forall in Hlive. destruct (Hlive r Hr). lia.
Qed.

(** The identifier of a submission: 0, or the next one of the symbol. *)
Lemma submit_id clock s t p q M oid ts M' :
  spec_submit clock s t p q M = (oid, ts, M') →
  oid = (if invalid_order t p q then 0 else next_id M) ∧
  next_id M' = next_id M + if invalid_order t p q then 0 else 1.
Proof.
  unfold spec_submit. destruct (invalid_order t p q).
  { intros; simplify_eq. by rewrite Z.add_0_r. }
  destruct (match_queue _ _ _ _) as [[? inc] ?]. intros; simplify_eq. split; [done|].
  destruct (is_filled inc || immediate t), (is_buy s); done.
Qed.

(** Who trades with whom: the incoming order with resting ones, for no more in all than
    it asked for. *)
Lemma submit_trades_parties clock s t p q b oid ts M' :
  book_ok b → 0 ≤ q → spec_submit clock s t p q (market b) = (oid, ts, M') →
  filled_by ts ≤ q ∧
  Forall (λ x, ∃ r, r ∈ side_orders (negb (is_buy s)) b ∧
    if is_buy s then buy_order_id x = oid ∧ sell_order_id x = id r
    else sell_order_id x = oid ∧ buy_order_id x = id r) ts.
Proof.
  intros Hok Hq. unfold spec_submit. destruct (invalid_order t p q).
  { intros; simplify_eq. split; [done|constructor]. }
  destruct (match_queue _ _ _ _) as [[ts' inc] opp] eqn:Hmq. intros; simplify_eq.
  rewrite queue_market in Hmq. pose proof (resting_live _ (ok_resting b Hok (negb (is_buy s)))) as Hlive.
  change q with (remaining_qty (Order_new (clock 1%nat) (next_id (market b)) s t
    (effective_price s t p) q)) in Hq.
  split.
  - rewrite (match_filled _ _ _ _ _ _ _ Hlive Hq Hmq).
    pose proof (match_incoming_range _ _ _ _ _ _ _ Hlive Hq Hmq). simpl in *. lia.
  - eapply Forall_impl; [exact (match_trades _ _ _ _ _ _ _ Hlive Hq Hmq)|].
    intros x (r & q' & now & -> & Hr & _). exists r. split; [done|]. simpl. by destruct (is_buy s).
Qed.

(** What rests after a submission rested before, or is the order itself. *)
Lemma submit_resting_ids clock s t p q b oid ts M' buy x :
  book_ok b → 0 ≤ q → spec_submit clock s t p q (market b) = (oid, ts, M') →
  x ∈ queue buy M' →
  (immediate t = false ∧ id x = oid) ∨ ∃ o, o ∈ side_orders buy b ∧ id o = id x.
Proof.
  intros Hok Hq. unfold spec_submit. destruct (invalid_order t p q).
  { intros ? Hx; simplify_eq. rewrite queue_market in Hx. eauto. }
  destruct (match_queue _ _ _ _) as [[ts' inc] opp] eqn:Hmq. intros ? Hx; simplify_eq.
  rewrite queue_market in Hmq. pose proof (resting_live _ (ok_resting b Hok (negb (is_buy s)))) as Hlive.
  change q with (remaining_qty (Order_new (clock 1%nat) (next_id (market b)) s t
    (effective_price s t p) q)) in Hq.
  pose proof (match_incoming _ _ _ _ _ _ _ Hlive Hq Hmq) as Hinc.
  destruct (match_rest _ _ _ _ _ _ _ Hlive Hq Hmq) as (full & tail & Heq & H2).
  assert (∀ y, y ∈ opp → ∃ o, o ∈ side_orders (negb (is_buy s)) b ∧ id o = id y) as Hopp.
  { intros y (i & Hi)%list_elem_of_lookup. destruct (Forall2_lookup_r _ _ _ _ _ H2 Hi) as (o & Ho & Hr).
    exists o. rewrite Heq. split; [|by rewrite Hr]. apply elem_of_app. right.
    by eapply list_elem_of_lookup_2. }
  assert (id (match_status inc) = next_order_id_ b) as Hid.
  { destruct (match_status_fields inc) as (-> & _). by rewrite Hinc. }
  destruct (immediate t) eqn:Ht; [|destruct (is_filled inc)]; rewrite ?orb_true_r, ?orb_false_r in Hx;
    simpl in Hx; destruct (is_buy s), buy; simpl in Hx; eauto.
  - apply elem_of_enqueue in Hx as [->|Hx]; eauto.
  - apply elem_of_enqueue in Hx as [->|Hx]; eauto.
Qed.
