(* ===== verification/Determinism.v ===== *)
(** The clock never decides anything: what the engine does to its markets and what it
    answers is the same whatever the clock says, except for the times themselves.

    [untimed] forgets the time of an order, of a trade, of a market or of an answer.  The
    specification commutes with it ([spec_submit_untimed]), so two engines that agree up
    to times ([same_engine], an equivalence) still do after the same call under any two
    clocks ([submit_same], [cancel_same]). *)

From stdpp Require Import base list gmap strings relations.
From Stdlib Require Import ZArith Lia.
From S2P Require Import Prelude Machine StdMap Types ObjectPool OrderBook PriceTime.
From S2P Require Import BookInv BookOps MatchingEngine MatchRefine EngineSpec Exchange.

Open Scope Z_scope.
Open Scope list_scope.

(** ** Forgetting times *)

Definition no_clock (n : nat) : Timestamp := 0.

Definition untimed (o : Order) : Order :=
  {| id := id o; price := price o; quantity := quantity o; remaining_qty := remaining_qty o;
     timestamp := 0; side := side o; type := type o; status := status o |}.
Definition untimed_trade (t : Trade) : Trade :=
  {| buy_order_id := buy_order_id t; sell_order_id := sell_order_id t; trade_price := trade_price t;
     trade_quantity := trade_quantity t; trade_timestamp := 0 |}.
Definition untimed_market (M : MarketState) : MarketState :=
  mk_market (untimed <$> bids M) (untimed <$> asks M) (next_id M).
Definition untimed_response (r : response) : response :=
  match r with RSubmit oid ts => RSubmit oid (untimed_trade <$> ts) | _ => r end.
Definition untimed_op (o : op) : op :=
  match o with OpSubmit _ sym s t p q => OpSubmit no_clock sym s t p q | _ => o end.
(** The statistics without the latencies. *)
Definition untimed_stats (st : EngineStats) : EngineStats :=
  mk_stats (total_orders st) (total_trades st) (total_cancels st) (total_rejects st)
    (total_volume st) (total_notional st) 0 0 0.

(** ** The specification commutes with it *)

Lemma untimed_ids (l : list Order) : id <$> (untimed <$> l) = id <$> l.
Proof. by rewrite <-list_fmap_compose. Qed.

Lemma enqueue_untimed buy o l : enqueue buy (untimed o) (untimed <$> l) = untimed <$> enqueue buy o l.
Proof. induction l as [|x l IH]; [done|]. csimpl. case_match; [done|]. csimpl. by rewrite IH. Qed.

Lemma dequeue_untimed oid l : dequeue oid (untimed <$> l) = untimed <$> dequeue oid l.
Proof.
  unfold dequeue. induction l as [|x l IH]; [done|]. csimpl. rewrite !filter_cons. simpl.
  case_decide; csimpl; by rewrite IH.
Qed.

Lemma match_queue_untimed buy clock inc l :
  match_queue buy no_clock (untimed inc) (untimed <$> l) =
  let '(ts, inc', opp) := match_queue buy clock inc l in
  (untimed_trade <$> ts, untimed inc', untimed <$> opp).
Proof.
  revert clock inc. induction l as [|r l IH]; intros clock inc; [done|]. csimpl.
  change (crosses buy (price inc) (untimed r)) with (crosses buy (price inc) r).
  destruct ((_ >? 0) && _); [|done]. destruct (_ - _ =? 0); [|done].
  specialize (IH (λ n, clock (S n))
    (set_remaining (remaining_qty inc - Z.min (remaining_qty inc) (remaining_qty r)) inc)).
  change (λ n, no_clock (S n)) with no_clock.
  change (set_remaining ?q (untimed inc)) with (untimed (set_remaining q inc)).
  rewrite IH. by destruct (match_queue _ _ _ l) as [[ts inc'] opp].
Qed.

Lemma match_status_untimed o : match_status (untimed o) = untimed (match_status o).
Proof.
  unfold match_status. change (is_filled (untimed o)) with (is_filled o).
  change (filled_qty (untimed o)) with (filled_qty o). by destruct (is_filled o), (filled_qty o >? 0).
Qed.

Lemma queue_untimed buy M : queue buy (untimed_market M) = untimed <$> queue buy M.
Proof. by destruct buy. Qed.

Lemma set_queue_untimed buy l M :
  set_queue buy (untimed <$> l) (untimed_market M) = untimed_market (set_queue buy l M).
Proof. by destruct buy. Qed.

Lemma spec_submit_untimed clock s t p q M :
  spec_submit no_clock s t p q (untimed_market M) =
  let '(oid, ts, M') := spec_submit clock s t p q M in (oid, untimed_trade <$> ts, untimed_market M').
Proof.
  unfold spec_submit. destruct (invalid_order t p q); [done|].
  rewrite !queue_untimed. change (λ n, no_clock (2 + n)) with no_clock.
  change (Order_new (no_clock 1) ?i s t ?pr q) with (untimed (Order_new (clock 1%nat) i s t pr q)).
  rewrite (match_queue_untimed _ (λ n, clock (2 + n)%nat)). cbn [next_id untimed_market].
  destruct (match_queue _ _ _ _) as [[ts inc] opp].
  change (is_filled (untimed inc)) with (is_filled inc).
  change (mk_market (bids (untimed_market M)) (asks (untimed_market M)) ?n)
    with (untimed_market (mk_market (bids M) (asks M) n)).
  rewrite match_status_untimed, enqueue_untimed, !set_queue_untimed.
  by destruct (_ || _).
Qed.

Lemma spec_cancel_untimed oid M :
  spec_cancel oid (untimed_market M) =
  let '(r, M') := spec_cancel oid M in (r, untimed_market M').
Proof.
  unfold spec_cancel. simpl. by rewrite <-fmap_app, untimed_ids, !dequeue_untimed.
Qed.

Lemma reduce_queue_untimed oid q l : reduce_queue oid q (untimed <$> l) = untimed <$> reduce_queue oid q l.
Proof.
  unfold reduce_queue. destruct (q =? 0); [apply dequeue_untimed|].
  rewrite <-!list_fmap_compose. apply list_fmap_ext. intros i x _. simpl. by case_decide.
Qed.

Lemma spec_reduce_untimed oid q M :
  spec_reduce oid q (untimed_market M) =
  let '(r, M') := spec_reduce oid q M in (r, untimed_market M').
Proof.
  unfold spec_reduce. simpl. rewrite <-fmap_app.
  assert (∀ l, existsb (λ o, (id o =? oid) && (q <? remaining_qty o)) (untimed <$> l) =
    existsb (λ o, (id o =? oid) && (q <? remaining_qty o)) l) as ->.
  { induction l as [|x l IH]; [done|]. csimpl. by rewrite IH. }
  destruct (existsb _ _); [|done]. by rewrite !reduce_queue_untimed.
Qed.

Lemma spec_op_untimed o M :
  spec_op (untimed_op o) (untimed_market M) =
  let '(r, M') := spec_op o M in (untimed_response r, untimed_market M').
Proof.
  destruct o as [clock sym s t p q|sym oid|sym oid q]; cbn [spec_op untimed_op].
  - rewrite (spec_submit_untimed clock). by destruct (spec_submit _ _ _ _ _ _) as [[oid ts] M'].
  - rewrite spec_cancel_untimed. by destruct (spec_cancel _ _).
  - rewrite spec_reduce_untimed. by destruct (spec_reduce _ _ _).
Qed.

Lemma spec_ops_untimed os Ms Ns :
  (∀ sym, Ns sym = untimed_market (Ms sym)) →
  (spec_ops (untimed_op <$> os) Ns).1 = untimed_response <$> (spec_ops os Ms).1 ∧
  ∀ sym, (spec_ops (untimed_op <$> os) Ns).2 sym = untimed_market ((spec_ops os Ms).2 sym).
Proof.
  revert Ms Ns. induction os as [|o os IH]; intros Ms Ns HN; [done|]. csimpl.
  assert (op_symbol (untimed_op o) = op_symbol o) as -> by (by destruct o).
  rewrite HN, spec_op_untimed. destruct (spec_op o (Ms (op_symbol o))) as [r M'].
  destruct (IH (set_market (op_symbol o) M' Ms) (set_market (op_symbol o) (untimed_market M') Ns))
    as [H1 H2].
  { intros sym. unfold set_market. by case_decide. }
  destruct (spec_ops os _) as [rs Ms1]. destruct (spec_ops (untimed_op <$> os) _) as [rs' Ns1].
  simpl in *. by rewrite H1.
Qed.

(** ** Engines that agree up to times *)

Definition same_engine (e e' : MatchingEngine) : Prop :=
  (∀ sym, untimed_market (market (book_of sym e)) = untimed_market (market (book_of sym e'))) ∧
  untimed_stats (stats_ e) = untimed_stats (stats_ e').

#[export] Instance same_engine_equivalence : Equivalence same_engine.
Proof.
  split.
  - by intros e.
  - intros e e' [H1 H2]. by split.
  - intros e1 e2 e3 [H1 H2] [H3 H4]. split; [intros sym; by rewrite H1|by rewrite H2].
Qed.

Lemma same_next sym e e' :
  same_engine e e' → next_order_id_ (book_of sym e) = next_order_id_ (book_of sym e').
Proof. intros [HM _]. exact (f_equal next_id (HM sym)). Qed.

(** The same counts for the same trades. *)
Lemma count_trades_untimed ts ts' st st' :
  untimed_trade <$> ts = untimed_trade <$> ts' → untimed_stats st = untimed_stats st' →
  untimed_stats (foldl (λ st t, count_trade t st) st ts) =
  untimed_stats (foldl (λ st t, count_trade t st) st' ts').
Proof.
  revert ts' st st'. induction ts as [|t ts IH]; intros [|t' ts'] st st' Hts Hst; try done.
  csimpl in Hts. injection Hts as Hb Hs Hp Hq Hts. simpl. apply IH; [done|].
  unfold untimed_stats in *. injection Hst as ? ? ? ? ? ?. simpl. congruence.
Qed.

Lemma submit_stats_untimed clock clock' rejected ts ts' st st' :
  untimed_trade <$> ts = untimed_trade <$> ts' → untimed_stats st = untimed_stats st' →
  untimed_stats (submit_stats clock rejected ts st) = untimed_stats (submit_stats clock' rejected ts' st').
Proof.
  intros Hts Hst. assert (untimed_stats (count_order st) = untimed_stats (count_order st')) as Hc.
  { unfold untimed_stats in *. injection Hst as ? ? ? ? ? ?. simpl. congruence. }
  unfold submit_stats. destruct rejected.
  - unfold untimed_stats in *. injection Hc as ? ? ? ? ? ?. simpl in *. congruence.
  - exact (count_trades_untimed ts ts' _ _ Hts Hc).
Qed.

Section callback.
Context {CS : Type} (cb : option (Trade → CS → CS)).

(** A callback that does not look at the time of a trade. *)
Definition timeless : Prop :=
  match cb with Some f => ∀ t cs, f (untimed_trade t) cs = f t cs | None => True end.

Lemma notify_untimed ts ts' cs :
  timeless → untimed_trade <$> ts = untimed_trade <$> ts' →
  notify_all cb ts cs = notify_all cb ts' cs.
Proof.
  unfold timeless, notify_all. destruct cb as [f|]; [|done]. intros Hf. revert ts' cs.
  induction ts as [|t ts IH]; intros [|t' ts'] cs Hts; try done. csimpl in Hts.
  simpl.
  assert (untimed_trade t = untimed_trade t' ∧ untimed_trade <$> ts = untimed_trade <$> ts') as [Ht Hts']
    by (injection Hts as ? ? ? ? ?; split; [unfold untimed_trade; congruence|done]).
  rewrite <-(Hf t), <-(Hf t'), Ht. by apply IH.
Qed.

Lemma submit_same clock clock' sym s t p q e e' cs :
  timeless → engine_ok e → engine_ok e' → same_engine e e' →
  (invalid_order t p q = false → valid_price t p) → 0 ≤ q < 2 ^ 32 →
  next_order_id_ (book_of sym e) + 1 < 2 ^ 64 →
  ∃ oid e1 e1' cs1,
    submit_order cb clock sym s t p q e cs = Some (oid, e1, cs1) ∧
    submit_order cb clock' sym s t p q e' cs = Some (oid, e1', cs1) ∧
    engine_ok e1 ∧ engine_ok e1' ∧ same_engine e1 e1'.
Proof.
  intros Hf He He' Hsame Hp Hq Hn. pose proof Hn as Hn'. rewrite (same_next _ _ _ Hsame) in Hn'.
  destruct Hsame as [HM Hst].
  destruct (submit_order_spec cb clock sym s t p q e cs He Hp Hq Hn)
    as (oid & ts & M & e1 & Hspec & Hs & He1 & HM1 & Hoth & Hst1).
  destruct (submit_order_spec cb clock' sym s t p q e' cs He' Hp Hq Hn')
    as (oid' & ts' & M' & e1' & Hspec' & Hs' & He1' & HM1' & Hoth' & Hst1').
  pose proof (spec_submit_untimed clock s t p q (market (book_of sym e))) as Hu.
  pose proof (spec_submit_untimed clock' s t p q (market (book_of sym e'))) as Hu'.
  rewrite HM in Hu. rewrite Hspec in Hu. rewrite Hspec', Hu in Hu'. injection Hu' as <- Hts HMM.
  exists oid, e1, e1', (notify_all cb ts cs). split; [done|].
  split; [by rewrite (notify_untimed ts ts')|]. split_and!; [done..|]. split.
  - intros sym'. destruct (decide (sym' = sym)) as [->|Hne]; [by rewrite HM1, HM1'; unfold untimed_market; congruence|].
    by rewrite Hoth, Hoth'.
  - rewrite Hst1, Hst1'. by apply submit_stats_untimed.
Qed.
End callback.

Lemma cancel_same sym oid e e' :
  engine_ok e → engine_ok e' → same_engine e e' →
  ∃ r e1 e1', cancel_order sym oid e = Some (r, e1) ∧ cancel_order sym oid e' = Some (r, e1') ∧
    engine_ok e1 ∧ engine_ok e1' ∧ same_engine e1 e1'.
Proof.
  intros He He' [HM Hst].
  destruct (cancel_order_engine_spec sym oid e He) as (r & e1 & Hc & Hspec & He1 & Hoth & Hst1).
  destruct (cancel_order_engine_spec sym oid e' He') as (r' & e1' & Hc' & Hspec' & He1' & Hoth' & Hst1').
  pose proof (spec_cancel_untimed oid (market (book_of sym e))) as Hu.
  pose proof (spec_cancel_untimed oid (market (book_of sym e'))) as Hu'.
  rewrite HM, Hspec in Hu. rewrite Hspec', Hu in Hu'.
  assert (r = r' ∧ untimed_market (market (book_of sym e1)) = untimed_market (market (book_of sym e1'))) as [<- HMM]
    by (by split; [exact (f_equal fst Hu')|exact (f_equal snd Hu')]).
  exists r, e1, e1'. split_and!; try done. split.
  - intros sym'. destruct (decide (sym' = sym)) as [->|Hne]; [done|]. by rewrite Hoth, Hoth'.
  - rewrite Hst1, Hst1'. destruct r; [|done]. unfold untimed_stats in *. injection Hst as ? ? ? ? ? ?.
    simpl. congruence.
Qed.

(** ** The property *)

Lemma op_ok_untimed o : op_ok (untimed_op o) ↔ op_ok o.
Proof. by destruct o. Qed.

Lemma ops_ok_untimed os : Forall op_ok (untimed_op <$> os) ↔ Forall op_ok os.
Proof. rewrite Forall_fmap. apply Forall_iff. intros o. apply op_ok_untimed. Qed.

(** Two sequences of calls that differ in clock readings only get the same answers
    (identifiers, trades with their parties, prices and quantities, success of
    cancellations and reductions) and leave the same markets; only the recorded times
    differ. *)
Theorem engine_deterministic os os' :
  untimed_op <$> os = untimed_op <$> os' → Forall op_ok os → Z.of_nat (length os) + 1 < 2 ^ 64 →
  ∃ rs e rs' e',
    run_ops os MatchingEngine_new = Some (rs, e) ∧ run_ops os' MatchingEngine_new = Some (rs', e') ∧
    untimed_response <$> rs = untimed_response <$> rs' ∧
    ∀ sym, untimed_market (market (book_of sym e)) = untimed_market (market (book_of sym e')).
Proof.
  intros Heq Hok Hlen.
  assert (length os' = length os) as Hl by (rewrite <-(length_fmap untimed_op), <-Heq; apply length_fmap).
  assert (Forall op_ok os') as Hok' by (by rewrite <-ops_ok_untimed, <-Heq, ops_ok_untimed).
  destruct (run_ops_sim os MatchingEngine_new (λ _, no_orders) 1) as (rs & Ms & e & Hr & Hs & [_ Hsim] & _);
    [apply sim_new|done|done|lia|].
  destruct (run_ops_sim os' MatchingEngine_new (λ _, no_orders) 1) as (rs' & Ms' & e' & Hr' & Hs' & [_ Hsim'] & _);
    [apply sim_new|done|done|lia|].
  exists rs, e, rs', e'. split; [done|]. split; [done|].
  destruct (spec_ops_untimed os (λ _, no_orders) (λ _, no_orders)) as [H1 H2]; [done|].
  destruct (spec_ops_untimed os' (λ _, no_orders) (λ _, no_orders)) as [H1' H2']; [done|].
  rewrite Heq in H1, H2. rewrite Hs in H1, H2. rewrite Hs' in H1', H2'. simpl in *. split; [congruence|].
  intros sym. by rewrite Hsim, Hsim', <-H2, <-H2'.
Qed.

Definition two_orders (clock : nat → Timestamp) : list op :=
  [OpSubmit clock "AAPL" Sell Limit (dlit 10050 2) 10; OpSubmit clock "AAPL" Buy Limit (dlit 10050 2) 4].

Lemma engine_deterministic_witness :
  ∃ rs e rs' e',
    run_ops (two_orders (λ n, Z.of_nat n)) MatchingEngine_new = Some (rs, e) ∧
    run_ops (two_orders (λ n, 1000 - Z.of_nat n)) MatchingEngine_new = Some (rs', e') ∧
    untimed_response <$> rs = untimed_response <$> rs' ∧
    ∀ sym, untimed_market (market (book_of sym e)) = untimed_market (market (book_of sym e')).
Proof.
  apply engine_deterministic; [reflexivity| |reflexivity].
  repeat (apply Forall_cons_2; [split; [intros _; by right|lia]|]). apply Forall_nil_2.
Defined.
