(* ===== verification/EngineProps.v ===== *)
(** The correctness of the matching engine and of the books behind it, stated on
    the entry points: refinement, matching, conservation, the fate of each type of
    order, cancellation, reduction, identifiers and statistics.

    Most theorems are about a [reachable] engine: any state that calls on a new
    engine lead to.  Each theorem with hypotheses is followed by an instance on a
    small market ([demo]). *)

From stdpp Require Import base list gmap strings sorting relations.
From Stdlib Require Import ZArith Lia.
From S2P Require Import Prelude Machine StdMap Types ObjectPool OrderBook PriceTime.
From S2P Require Import BookInv BookOps MatchingEngine MatchRefine EngineSpec Exchange.

Open Scope Z_scope.

(** ** A small market *)

Definition tick : nat → Timestamp := Z.of_nat.

(** A price in cents. *)
Definition cents (c : Z) : Price := dlit c 2.

Definition demo_ops : list op :=
  [OpSubmit tick "AAPL" Sell Limit (cents 10050) 10;
   OpSubmit tick "AAPL" Sell Limit (cents 10050) 20;
   OpSubmit tick "AAPL" Sell Limit (cents 10100) 5;
   OpSubmit tick "AAPL" Buy Limit (cents 10000) 15;
   OpSubmit tick "MSFT" Buy Limit (cents 30000) 7].

Definition demo : MatchingEngine := after demo_ops.

Lemma op_ok_submit clock sym s t p q :
  is_nanb p = false → (0 <=? q) && (q <? 2 ^ 32) = true → op_ok (OpSubmit clock sym s t p q).
Proof. intros Hp Hq. split; [intros _; by right|lia]. Qed.

Lemma demo_ops_ok : Forall op_ok demo_ops.
Proof.
  unfold demo_ops. repeat (apply Forall_cons_2; [by apply op_ok_submit|]). apply Forall_nil_2.
Qed.

Lemma demo_reachable : reachable demo.
Proof. apply after_reachable; [apply demo_ops_ok|done]. Qed.

Lemma demo_next_id : next_order_id_ (book_of "AAPL" demo) = 5.
Proof. vm_compute. reflexivity. Qed.

Lemma demo_asks :
  side_orders false (book_of "AAPL" demo) =
  [Order_new 1 1 Sell Limit (cents 10050) 10; Order_new 1 2 Sell Limit (cents 10050) 20;
   Order_new 1 3 Sell Limit (cents 10100) 5].
Proof. vm_compute. reflexivity. Qed.

(** ** Refinement *)

(** C1: any sequence of fewer than 2^64 - 1 submissions, cancellations and reductions on a
    new engine in which no order that is accepted and is not a market order has a NaN as
    its price ([op_ok]) runs to its end (no undefined behaviour, no exhausted loop),
    returns the identifiers, trades and results that the abstract markets return, and
    leaves every symbol with the queues of its abstract market.  With such a NaN the
    sequence can be undefined ([Deviations]). *)
Theorem exchange_refines_spec os :
  Forall op_ok os → Z.of_nat (length os) + 1 < 2 ^ 64 →
  ∃ rs e Ms,
    run_ops os MatchingEngine_new = Some (rs, e) ∧
    spec_ops os (λ _, no_orders) = (rs, Ms) ∧
    ∀ sym, market (book_of sym e) = Ms sym.
Proof.
  intros Hok Hlen.
  destruct (run_ops_sim os _ _ 1 sim_new Hok) as (rs & Ms & e & Hr & Hs & [_ HM] & _);
    [done|lia|]. by exists rs, e, Ms.
Qed.

Lemma exchange_refines_spec_witness :
  ∃ rs e Ms,
    run_ops demo_ops MatchingEngine_new = Some (rs, e) ∧
    spec_ops demo_ops (λ _, no_orders) = (rs, Ms) ∧
    ∀ sym, market (book_of sym e) = Ms sym.
Proof. apply exchange_refines_spec; [exact demo_ops_ok|reflexivity]. Defined.

(** C2: a submission to a reachable engine returns the identifier that
    [spec_submit] gives, makes its symbol's market what [spec_submit] gives, leaves
    the book of every other symbol as it is, calls the callback once per trade in
    order, and updates the statistics accordingly. *)
Theorem submit_order_correct {CS} (cb : option (Trade → CS → CS)) clock sym s t p q e cs :
  reachable e → op_ok (OpSubmit clock sym s t p q) →
  next_order_id_ (book_of sym e) + 1 < 2 ^ 64 →
  ∃ oid ts M' e',
    spec_submit clock s t p q (market (book_of sym e)) = (oid, ts, M') ∧
    submit_order cb clock sym s t p q e cs = Some (oid, e', notify_all cb ts cs) ∧
    market (book_of sym e') = M' ∧
    (∀ sym', sym' ≠ sym → book_of sym' e' = book_of sym' e) ∧
    stats_ e' = submit_stats clock (invalid_order t p q) ts (stats_ e).
Proof.
  intros He%reachable_ok [Hp Hq] Hn.
  destruct (submit_order_spec cb clock sym s t p q e cs He Hp Hq Hn)
    as (oid & ts & M' & e' & ? & ? & _ & ? & ? & ?). by exists oid, ts, M', e'.
Qed.

Lemma submit_order_correct_witness :
  ∃ oid ts M' e',
    spec_submit tick Buy Limit (cents 10075) 25 (market (book_of "AAPL" demo)) = (oid, ts, M') ∧
    submit_order recorder tick "AAPL" Buy Limit (cents 10075) 25 demo [] =
      Some (oid, e', notify_all recorder ts []) ∧
    market (book_of "AAPL" e') = M' ∧
    (∀ sym', sym' ≠ "AAPL"%string → book_of sym' e' = book_of sym' demo) ∧
    stats_ e' = submit_stats tick (invalid_order Limit (cents 10075) 25) ts (stats_ demo).
Proof.
  apply submit_order_correct;
    [exact demo_reachable|by apply op_ok_submit|rewrite demo_next_id; reflexivity].
Defined.

(** ** The shape of a book between calls *)

(** C3: between calls no book is crossed, on an engine that no NaN price has reached (a
    [reachable] one): every resting bid is strictly below every resting ask, and if both
    sides have orders the best bid that the book reports is strictly below the best ask. *)
Theorem book_never_crossed e sym :
  reachable e →
  uncrossed (market (book_of sym e)) ∧
  (bids_ (book_of sym e) ≠ [] → asks_ (book_of sym e) ≠ [] →
   dltb (best_bid (book_of sym e)) (best_ask (book_of sym e)) = true).
Proof.
  intros He%reachable_ok. destruct (book_of_ok e sym He) as [[Hwf _ Hu] _].
  split; [done|]. intros Hb Ha. unfold best_bid, best_ask.
  destruct (bids_ (book_of sym e)) as [|[kb lb] mb] eqn:Eb; [done|].
  destruct (asks_ (book_of sym e)) as [|[ka la] ma] eqn:Ea; [done|].
  destruct (best_price_spec _ true _ _ _ Hwf Eb) as (o & Ho%head_Some_elem_of & Hkb & Hob).
  destruct (best_price_spec _ false _ _ _ Hwf Ea) as (o' & Ho'%head_Some_elem_of & Hka & Hoa).
  apply equivb_true in Hob as [? ?].
  eapply ltb_equivb_r; [exact Hka| |by apply equivb_sym].
  eapply (ltb_equivb_l kb (price o)); [exact Hkb|by apply Hu|by apply equivb_true].
Qed.

Lemma book_never_crossed_witness :
  uncrossed (market (book_of "AAPL" demo)) ∧
  (bids_ (book_of "AAPL" demo) ≠ [] → asks_ (book_of "AAPL" demo) ≠ [] →
   dltb (best_bid (book_of "AAPL" demo)) (best_ask (book_of "AAPL" demo)) = true).
Proof. apply book_never_crossed. exact demo_reachable. Defined.

(** C4: between calls each side of a book is in price-time priority: sorted by price,
    and by arrival among equal prices; no two resting orders share an identifier,
    each has something left and no more than its quantity, is on its own side, and
    is neither a market nor an IOC order. *)
Theorem queues_in_priority_order e sym :
  reachable e →
  let b := book_of sym e in
  (∀ buy, StronglySorted (ahead buy) (side_orders buy b) ∧
          Forall (λ o, is_buy (side o) = buy ∧ resting o) (side_orders buy b)) ∧
  NoDup (id <$> (side_orders true b ++ side_orders false b)).
Proof.
  intros He%reachable_ok b. destruct (book_of_ok e sym He) as [[Hwf Hr _] _]. fold b in Hwf, Hr.
  split; [|by apply order_ids_NoDup]. intros buy. split; [by apply wf_priority|].
  specialize (Hr buy). rewrite Forall_forall in Hr. apply Forall_forall. intros o Ho.
  split; [|by apply Hr]. apply (elem_of_side_orders b Hwf) in Ho as (nd & Ho).
  by eapply rests_side.
Qed.

Lemma queues_in_priority_order_witness :
  let b := book_of "AAPL" demo in
  (∀ buy, StronglySorted (ahead buy) (side_orders buy b) ∧
          Forall (λ o, is_buy (side o) = buy ∧ resting o) (side_orders buy b)) ∧
  NoDup (id <$> (side_orders true b ++ side_orders false b)).
Proof. apply queues_in_priority_order. exact demo_reachable. Defined.

(** ** Matching *)

(** C5: the trades of a submission are with the first orders of the opposite queue,
    in queue order, each at the price of the resting order; every counterparty but
    possibly the last is gone afterwards, the last may keep a rest only if the
    incoming order is exhausted, and the orders behind are untouched. *)
Theorem trades_follow_priority clock sym s t p q e :
  reachable e → op_ok (OpSubmit clock sym s t p q) →
  next_order_id_ (book_of sym e) + 1 < 2 ^ 64 → invalid_order t p q = false →
  let opp := side_orders (negb (is_buy s)) (book_of sym e) in
  ∃ oid e' ts,
    submit_order recorder clock sym s t p q e [] = Some (oid, e', ts) ∧
    (if is_buy s then sell_order_id else buy_order_id) <$> ts = id <$> take (length ts) opp ∧
    Forall (λ x, (if is_buy s then buy_order_id else sell_order_id) x = oid) ts ∧
    trade_price <$> ts = price <$> take (length ts) opp ∧
    (side_orders (negb (is_buy s)) (book_of sym e') = drop (length ts) opp ∨
     ∃ r rem, opp !! pred (length ts) = Some r ∧ 0 < rem < remaining_qty r ∧
       filled_by ts = q ∧
       side_orders (negb (is_buy s)) (book_of sym e') = set_remaining rem r :: drop (length ts) opp).
Proof.
  intros He%reachable_ok Hop Hn Hv opp. pose proof (accepted_live sym s e He) as Hlive.
  destruct (submit_accepted clock sym s t p q e He Hop Hn Hv)
    as (e' & ts & inc & opp' & Hs & Hmq & _ & Hopp & _).
  pose proof (accepted_qty clock sym s t p q e Hop) as Hq.
  destruct (accepted_filled clock sym s t p q e He Hop ts inc opp' Hmq) as [Hfill Hrange].
  exists (next_order_id_ (book_of sym e)), e', ts. split_and!; [done|..].
  - eapply match_counterparties; [exact Hlive| |exact Hmq]; done.
  - eapply Forall_impl; [eapply match_trades; [exact Hlive| |exact Hmq]; done|].
    intros x (r & q' & now & -> & _). by destruct (is_buy s).
  - eapply match_trade_prices; [exact Hlive| |exact Hmq]; done.
  - rewrite Hopp. destruct (match_front_filled _ _ _ _ _ _ _ Hlive Hq Hmq)
      as [?|(r & rem & ? & ? & Hz & ?)]; [by left|]. right. exists r, rem. split_and!; try done; lia.
Qed.

Lemma trades_follow_priority_witness :
  let opp := side_orders (negb (is_buy Buy)) (book_of "AAPL" demo) in
  ∃ oid e' ts,
    submit_order recorder tick "AAPL" Buy Limit (cents 10075) 25 demo [] = Some (oid, e', ts) ∧
    (if is_buy Buy then sell_order_id else buy_order_id) <$> ts = id <$> take (length ts) opp ∧
    Forall (λ x, (if is_buy Buy then buy_order_id else sell_order_id) x = oid) ts ∧
    trade_price <$> ts = price <$> take (length ts) opp ∧
    (side_orders (negb (is_buy Buy)) (book_of "AAPL" e') = drop (length ts) opp ∨
     ∃ r rem, opp !! pred (length ts) = Some r ∧ 0 < rem < remaining_qty r ∧
       filled_by ts = 25 ∧
       side_orders (negb (is_buy Buy)) (book_of "AAPL" e') =
         set_remaining rem r :: drop (length ts) opp).
Proof.
  apply trades_follow_priority;
    [exact demo_reachable|by apply op_ok_submit|rewrite demo_next_id; reflexivity|reflexivity].
Defined.

(** C6: no trade is outside the limit of the incoming order, and every trade moves
    at least one share and at most what was ordered. *)
Theorem trades_within_limit clock sym s t p q e :
  reachable e → op_ok (OpSubmit clock sym s t p q) →
  next_order_id_ (book_of sym e) + 1 < 2 ^ 64 → invalid_order t p q = false →
  ∃ oid e' ts,
    submit_order recorder clock sym s t p q e [] = Some (oid, e', ts) ∧
    0 ≤ filled_by ts ≤ q ∧
    Forall (λ x, 0 < trade_quantity x ∧
      (if is_buy s then dleb (trade_price x) (effective_price s t p)
       else dleb (effective_price s t p) (trade_price x)) = true) ts.
Proof.
  intros He%reachable_ok Hop Hn Hv. pose proof (accepted_live sym s e He) as Hlive.
  destruct (submit_accepted clock sym s t p q e He Hop Hn Hv)
    as (e' & ts & inc & opp' & Hs & Hmq & _).
  pose proof (accepted_qty clock sym s t p q e Hop) as Hq.
  destruct (accepted_filled clock sym s t p q e He Hop ts inc opp' Hmq) as [Hfill Hrange].
  eexists _, e', ts. split_and!; [done|..].
  - lia.
  - lia.
  - eapply Forall_impl; [eapply match_trades; [exact Hlive| |exact Hmq]; done|].
    intros x (r & q' & now & -> & _ & Hc & ?). simpl. split; [lia|].
    unfold crosses, dgeb in Hc. by destruct (is_buy s).
Qed.

Lemma trades_within_limit_witness :
  ∃ oid e' ts,
    submit_order recorder tick "AAPL" Buy Limit (cents 10075) 25 demo [] = Some (oid, e', ts) ∧
    0 ≤ filled_by ts ≤ 25 ∧
    Forall (λ x, 0 < trade_quantity x ∧
      (if is_buy Buy then dleb (trade_price x) (effective_price Buy Limit (cents 10075))
       else dleb (effective_price Buy Limit (cents 10075)) (trade_price x)) = true) ts.
Proof.
  apply trades_within_limit;
    [exact demo_reachable|by apply op_ok_submit|rewrite demo_next_id; reflexivity|reflexivity].
Defined.

(** C7: shares are neither created nor lost: what the trades of a submission move is
    what the opposite side gave up, and the own side grows by the unfilled part of
    the order, unless the order may not rest. *)
Theorem shares_conserved clock sym s t p q e :
  reachable e → op_ok (OpSubmit clock sym s t p q) →
  next_order_id_ (book_of sym e) + 1 < 2 ^ 64 → invalid_order t p q = false →
  let total buy e := sum_list_Z (remaining_qty <$> side_orders buy (book_of sym e)) in
  ∃ oid e' ts,
    submit_order recorder clock sym s t p q e [] = Some (oid, e', ts) ∧
    total (negb (is_buy s)) e = filled_by ts + total (negb (is_buy s)) e' ∧
    total (is_buy s) e' = total (is_buy s) e + (if immediate t then 0 else q - filled_by ts).
Proof.
  intros He%reachable_ok Hop Hn Hv total. pose proof (accepted_live sym s e He) as Hlive.
  destruct (submit_accepted clock sym s t p q e He Hop Hn Hv)
    as (e' & ts & inc & opp' & Hs & Hmq & _ & Hopp & Hown & _).
  pose proof (accepted_qty clock sym s t p q e Hop) as Hq.
  destruct (accepted_filled clock sym s t p q e He Hop ts inc opp' Hmq) as [Hfill Hrange].
  eexists _, e', ts. split_and!; [done|..]; subst total; simpl.
  - rewrite Hopp. exact (match_conserved _ _ _ _ _ _ _ Hlive Hq Hmq).
  - rewrite Hown. unfold is_filled. destruct (Z.eqb_spec (remaining_qty inc) 0), (immediate t);
      simpl; try lia.
    rewrite enqueue_perm. csimpl. destruct (match_status_fields inc) as (_ & _ & _ & _ & ->). lia.
Qed.

Lemma shares_conserved_witness :
  let total buy e := sum_list_Z (remaining_qty <$> side_orders buy (book_of "AAPL" e)) in
  ∃ oid e' ts,
    submit_order recorder tick "AAPL" Buy Limit (cents 10075) 45 demo [] = Some (oid, e', ts) ∧
    total (negb (is_buy Buy)) demo = filled_by ts + total (negb (is_buy Buy)) e' ∧
    total (is_buy Buy) e' = total (is_buy Buy) demo + (if immediate Limit then 0 else 45 - filled_by ts).
Proof.
  apply (shares_conserved tick "AAPL" Buy Limit (cents 10075) 45 demo);
    [exact demo_reachable|by apply op_ok_submit|rewrite demo_next_id; reflexivity|reflexivity].
Defined.

(** C8: a market order trades until it is filled or the other side is empty, when the
    other side holds limit orders (and, for a buy, none above the largest finite
    price). *)
Theorem market_order_fills clock sym s p q e :
  reachable e → op_ok (OpSubmit clock sym s Market p q) →
  next_order_id_ (book_of sym e) + 1 < 2 ^ 64 → 0 < q →
  let opp := side_orders (negb (is_buy s)) (book_of sym e) in
  Forall (λ r, type r = Limit) opp →
  (is_buy s = true → Forall (λ r, dleb (price r) dbl_max = true) opp) →
  ∃ oid e' ts,
    submit_order recorder clock sym s Market p q e [] = Some (oid, e', ts) ∧
    filled_by ts = Z.min q (sum_list_Z (remaining_qty <$> opp)).
Proof.
  intros He%reachable_ok Hop Hn Hq0 opp Hlim Hmax. pose proof (accepted_live sym s e He) as Hlive.
  assert (invalid_order Market p q = false) as Hv.
  { unfold invalid_order. simpl. rewrite orb_false_r. lia. }
  destruct (submit_accepted clock sym s Market p q e He Hop Hn Hv)
    as (e' & ts & inc & opp' & Hs & Hmq & _).
  pose proof (accepted_qty clock sym s Market p q e Hop) as Hq.
  eexists _, e', ts. split; [done|].
  refine (match_all _ _ _ _ _ _ _ Hlive Hq _ Hmq). fold opp.
  destruct (book_of_ok e sym He) as [[_ Hr _] _]. specialize (Hr (negb (is_buy s))). fold opp in Hr.
  rewrite Forall_forall in Hlim. rewrite Forall_forall in Hr. apply Forall_forall.
  intros r Hin. unfold crosses, effective_price, dgeb. simpl.
  destruct (is_buy s) eqn:Eb.
  - specialize (Hmax eq_refl). rewrite Forall_forall in Hmax. by apply Hmax.
  - destruct (Hr r Hin) as (_ & _ & Hpos).
    specialize (Hpos (Hlim r Hin)). pose proof Hpos as (? & ? & _)%dltb_rank.
    rewrite dleb_ltb by done. by rewrite (swo_asym (ltb := dltb) dzero (price r) Hpos).
Qed.

Lemma market_order_fills_witness :
  ∃ oid e' ts,
    submit_order recorder tick "AAPL" Buy Market dzero 100 demo [] = Some (oid, e', ts) ∧
    filled_by ts =
      Z.min 100 (sum_list_Z (remaining_qty <$> side_orders (negb (is_buy Buy)) (book_of "AAPL" demo))).
Proof.
  apply (market_order_fills tick "AAPL" Buy dzero 100 demo);
    [exact demo_reachable|by apply op_ok_submit|rewrite demo_next_id; reflexivity|reflexivity| |intros _];
    change (negb (is_buy Buy)) with false; rewrite demo_asks; repeat constructor.
Defined.

(** ** The fate of an order *)

(** C9: whatever is left of a market or IOC order after matching is discarded: the
    queue of its own side does not change. *)
Theorem immediate_never_rests clock sym s t p q e :
  reachable e → op_ok (OpSubmit clock sym s t p q) →
  next_order_id_ (book_of sym e) + 1 < 2 ^ 64 → invalid_order t p q = false →
  t = Market ∨ t = IOC →
  ∃ oid e' ts,
    submit_order recorder clock sym s t p q e [] = Some (oid, e', ts) ∧
    side_orders (is_buy s) (book_of sym e') = side_orders (is_buy s) (book_of sym e).
Proof.
  intros He%reachable_ok Hop Hn Hv Ht.
  destruct (submit_accepted clock sym s t p q e He Hop Hn Hv)
    as (e' & ts & inc & opp' & Hs & _ & _ & _ & Hown & _).
  eexists _, e', ts. split; [done|]. rewrite Hown.
  assert (immediate t = true) as -> by (by destruct Ht as [-> | ->]). by rewrite orb_true_r.
Qed.

Lemma immediate_never_rests_witness :
  ∃ oid e' ts,
    submit_order recorder tick "AAPL" Buy IOC (cents 10075) 45 demo [] = Some (oid, e', ts) ∧
    side_orders (is_buy Buy) (book_of "AAPL" e') = side_orders (is_buy Buy) (book_of "AAPL" demo).
Proof.
  apply immediate_never_rests;
    [exact demo_reachable|by apply op_ok_submit|rewrite demo_next_id; reflexivity|reflexivity|by right].
Defined.

(** An order that may rest and is not filled completely joins its side behind
    every order at its price or a better one, with the unfilled quantity and the
    status that says whether it traded; a filled one does not join. *)
Theorem remainder_rests clock sym s t p q e :
  reachable e → op_ok (OpSubmit clock sym s t p q) →
  next_order_id_ (book_of sym e) + 1 < 2 ^ 64 → invalid_order t p q = false →
  immediate t = false →
  ∃ oid e' ts,
    submit_order recorder clock sym s t p q e [] = Some (oid, e', ts) ∧
    side_orders (is_buy s) (book_of sym e') =
      (if filled_by ts =? q then side_orders (is_buy s) (book_of sym e)
       else enqueue (is_buy s)
              {| id := oid; price := p; quantity := q; remaining_qty := q - filled_by ts;
                 timestamp := clock 1%nat; side := s; type := t;
                 status := if filled_by ts >? 0 then PartiallyFilled else Accepted |}
              (side_orders (is_buy s) (book_of sym e))).
Proof.
  intros He%reachable_ok Hop Hn Hv Ht.
  destruct (submit_accepted clock sym s t p q e He Hop Hn Hv)
    as (e' & ts & inc & opp' & Hs & Hmq & _ & _ & Hown & _).
  destruct (accepted_filled clock sym s t p q e He Hop ts inc opp' Hmq) as [Hfill Hrange].
  pose proof (accepted_incoming clock sym s t p q e He Hop ts inc opp' Hmq) as Hinc.
  eexists _, e', ts. split; [done|]. rewrite Hown, Ht, orb_false_r, Hinc. unfold is_filled. simpl.
  destruct Hop as [_ Hq].
  destruct (Z.eqb_spec (filled_by ts) q) as [->|Hne]; [by rewrite Z.sub_diag|].
  destruct (Z.eqb_spec (q - filled_by ts) 0); [lia|]. f_equal.
  unfold match_status, is_filled, filled_qty, effective_price. simpl.
  assert (is_market t = false) as ->.
  { unfold immediate in Ht. by apply orb_false_iff in Ht as [? _]. }
  destruct (Z.eqb_spec (q - filled_by ts) 0); [lia|].
  rewrite u32_small by lia. replace (q - (q - filled_by ts)) with (filled_by ts) by lia.
  by destruct (filled_by ts >? 0).
Qed.

(** C10: an order with quantity zero, or a limit order whose price is zero or below,
    is rejected on any engine: the identifier 0 is returned, no book changes, the
    callback is not called and only the order and reject counters move.  A submission
    to a reachable engine that is not such an order, with a price that is not NaN unless it
    is a market order, gets an identifier of at least 1.  (A limit order with a NaN price is
    not rejected: no comparison with zero holds of it.) *)
Theorem invalid_orders_rejected {CS} (cb : option (Trade → CS → CS)) clock sym s t p q e cs :
  (invalid_order t p q = true →
   ∃ e', submit_order cb clock sym s t p q e cs = Some (0, e', cs) ∧
     (∀ sym', book_of sym' e' = book_of sym' e) ∧
     stats_ e' = count_reject (count_order (stats_ e))) ∧
  (invalid_order t p q = false → reachable e → op_ok (OpSubmit clock sym s t p q) →
   next_order_id_ (book_of sym e) + 1 < 2 ^ 64 →
   ∃ oid e' cs', submit_order cb clock sym s t p q e cs = Some (oid, e', cs') ∧ 1 ≤ oid).
Proof.
  split.
  - intros Hinv. unfold submit_order.
    destruct (get_order_book_spec sym e) as (e1 & -> & <- & _ & Hbk & _).
    unfold invalid_order in Hinv.
    destruct (q =? 0); simpl in Hinv; [|rewrite Hinv]; eexists; (split; [done|]);
      (split; [|done]); intros sym'; by rewrite !book_of_set_stats.
  - intros Hv He%reachable_ok [Hp Hq] Hn.
    destruct (submit_order_spec cb clock sym s t p q e cs He Hp Hq Hn)
      as (oid & ts & M' & e' & Hspec & Hs & _).
    exists oid, e', (notify_all cb ts cs). split; [done|].
    pose proof (wf_next _ (ok_wf _ (proj1 (book_of_ok e sym He)))).
    unfold spec_submit in Hspec. rewrite Hv in Hspec.
    destruct (match_queue _ _ _ _) as [[? ?] ?]. simplify_eq. simpl. lia.
Qed.

Lemma invalid_orders_rejected_witness :
  (invalid_order Limit dzero 5 = true →
   ∃ e', submit_order recorder tick "AAPL" Buy Limit dzero 5 demo [] = Some (0, e', []) ∧
     (∀ sym', book_of sym' e' = book_of sym' demo) ∧
     stats_ e' = count_reject (count_order (stats_ demo))) ∧
  (invalid_order Limit dzero 5 = false → reachable demo →
   op_ok (OpSubmit tick "AAPL" Buy Limit dzero 5) →
   next_order_id_ (book_of "AAPL" demo) + 1 < 2 ^ 64 →
   ∃ oid e' cs', submit_order recorder tick "AAPL" Buy Limit dzero 5 demo [] = Some (oid, e', cs') ∧ 1 ≤ oid).
Proof. apply (invalid_orders_rejected recorder tick "AAPL" Buy Limit dzero 5 demo []). Defined.

(** The identifiers given to the accepted orders of a symbol, over any run of a
    new engine, are 1, 2, 3, ... in the order of submission: unique, never reused, and
    independent of the traffic in other symbols. *)
Theorem ids_sequential os sym :
  Forall op_ok os → Z.of_nat (length os) + 1 < 2 ^ 64 →
  ∃ rs e, run_ops os MatchingEngine_new = Some (rs, e) ∧
    accepted_ids sym os rs = seqZ 1 (Z.of_nat (length (accepted_ids sym os rs))).
Proof.
  intros Hok Hlen.
  destruct (run_ops_sim os _ _ 1 sim_new Hok) as (rs & Ms & e & Hr & Hs & _);
    [done|lia|]. exists rs, e. split; [done|]. by apply (spec_ops_ids sym) in Hs.
Qed.

Lemma ids_sequential_witness :
  ∃ rs e, run_ops demo_ops MatchingEngine_new = Some (rs, e) ∧
    accepted_ids "AAPL" demo_ops rs = seqZ 1 (Z.of_nat (length (accepted_ids "AAPL" demo_ops rs))).
Proof. apply ids_sequential; [exact demo_ops_ok|reflexivity]. Defined.

(** ** Cancellation and reduction *)

(** C11: cancelling is exact: it succeeds if and only if an order with that identifier
    rests in the book of the symbol, removes that order and no other, keeps every
    other order in place, changes no other book, and a second cancellation of the
    same order fails. *)
Theorem cancel_exact e sym oid :
  reachable e →
  ∃ r e', cancel_order sym oid e = Some (r, e') ∧
    (r = true ↔ ∃ buy o, o ∈ side_orders buy (book_of sym e) ∧ id o = oid) ∧
    (∀ buy, side_orders buy (book_of sym e') = dequeue oid (side_orders buy (book_of sym e))) ∧
    (∀ sym', sym' ≠ sym → book_of sym' e' = book_of sym' e) ∧
    stats_ e' = (if r then count_cancel (stats_ e) else stats_ e) ∧
    ∃ e'', cancel_order sym oid e' = Some (false, e'').
Proof.
  intros He%reachable_ok.
  destruct (cancel_order_engine_spec sym oid e He) as (r & e' & Hc & Hspec & He' & Hoth & Hst).
  destruct (cancel_order_engine_spec sym oid e' He') as (r2 & e2 & Hc2 & Hspec2 & _).
  unfold spec_cancel in Hspec, Hspec2. simpl in Hspec, Hspec2.
  injection Hspec as Hr Hb Ha _. injection Hspec2 as Hr2 _ _ _.
  exists r, e'. split; [done|]. split_and!; try done.
  - rewrite <-Hr, bool_decide_eq_true, fmap_app, elem_of_app, !list_elem_of_fmap. split.
    + intros [(o & -> & ?)|(o & -> & ?)]; eauto.
    + intros ([] & o & ? & <-); eauto.
  - by intros [].
  - exists e2. rewrite Hc2. do 2 f_equal. rewrite <-Hr2. apply bool_decide_eq_false.
    rewrite <-Hb, <-Ha, fmap_app, elem_of_app, !list_elem_of_fmap.
    by intros [(o & -> & [? _]%list_elem_of_filter)|(o & -> & [? _]%list_elem_of_filter)].
Qed.

Lemma cancel_exact_witness :
  ∃ r e', cancel_order "AAPL" 2 demo = Some (r, e') ∧
    (r = true ↔ ∃ buy o, o ∈ side_orders buy (book_of "AAPL" demo) ∧ id o = 2) ∧
    (∀ buy, side_orders buy (book_of "AAPL" e') = dequeue 2 (side_orders buy (book_of "AAPL" demo))) ∧
    (∀ sym', sym' ≠ "AAPL"%string → book_of sym' e' = book_of sym' demo) ∧
    stats_ e' = (if r then count_cancel (stats_ demo) else stats_ demo) ∧
    ∃ e'', cancel_order "AAPL" 2 e' = Some (false, e'').
Proof. apply cancel_exact. exact demo_reachable. Defined.

(** C12: reducing an order to [q] shares succeeds exactly when the order rests with
    more than [q] shares left; then it has [q] shares left and keeps its place in the
    queue (for [q = 0] it is cancelled), and in every other case nothing changes. *)
Theorem reduce_keeps_priority e sym oid q :
  reachable e → 0 ≤ q < 2 ^ 32 →
  ∃ r e', engine_reduce sym oid q e = Some (r, e') ∧
    (r = true ↔ ∃ buy o, o ∈ side_orders buy (book_of sym e) ∧ id o = oid ∧ q < remaining_qty o) ∧
    (∀ buy, side_orders buy (book_of sym e') =
       if r then if q =? 0 then dequeue oid (side_orders buy (book_of sym e))
                 else (λ x, if decide (id x = oid) then set_remaining q x else x)
                        <$> side_orders buy (book_of sym e)
       else side_orders buy (book_of sym e)) ∧
    (∀ sym', sym' ≠ sym → book_of sym' e' = book_of sym' e).
Proof.
  intros He%reachable_ok Hq.
  destruct (engine_reduce_spec sym oid q e He) as (r & e' & Hc & Hspec & He' & Hoth & _); [lia|].
  unfold spec_reduce in Hspec. simpl in Hspec. pose proof (reduce_hit (book_of sym e) oid q) as Hhit.
  injection Hspec as Hr HM. rewrite Hr in Hhit, HM.
  exists r, e'. split_and!; try done; [by apply Hhit..|].
  intros buy. rewrite <-(queue_market buy (book_of sym e')), <-HM. by destruct r, buy.
Qed.

Lemma reduce_keeps_priority_witness :
  ∃ r e', engine_reduce "AAPL" 1 4 demo = Some (r, e') ∧
    (r = true ↔ ∃ buy o, o ∈ side_orders buy (book_of "AAPL" demo) ∧ id o = 1 ∧ 4 < remaining_qty o) ∧
    (∀ buy, side_orders buy (book_of "AAPL" e') =
       if r then if 4 =? 0 then dequeue 1 (side_orders buy (book_of "AAPL" demo))
                 else (λ x, if decide (id x = 1) then set_remaining 4 x else x)
                        <$> side_orders buy (book_of "AAPL" demo)
       else side_orders buy (book_of "AAPL" demo)) ∧
    (∀ sym', sym' ≠ "AAPL"%string → book_of sym' e' = book_of sym' demo).
Proof. apply reduce_keeps_priority; [exact demo_reachable|lia]. Defined.

(** ** Statistics *)

(** C13: over any run of a new engine the counters agree, modulo 2^64, with what the
    callers saw: submissions, rejected orders, successful cancellations, trades and
    traded shares. *)
Theorem stats_accurate os :
  Forall op_ok os → Z.of_nat (length os) + 1 < 2 ^ 64 →
  ∃ rs e, run_ops os MatchingEngine_new = Some (rs, e) ∧ counts (stats_ e) (tally rs).
Proof.
  intros Hok Hlen.
  destruct (run_ops_sim os _ _ 1 sim_new Hok) as (rs & Ms & e & Hr & Hs & _); [done|lia|].
  exists rs, e. split; [done|].
  apply (run_ops_inv (λ rs e, counts (stats_ e) (tally rs)) os _ (λ _, no_orders) 1 [] rs e) in Hr;
    [done| |apply sim_new|done|done|lia|done].
  intros o e1 r e2 rs1 He1 Ho Hb Hro Hc. unfold tally. rewrite foldl_app. simpl.
  by eapply run_op_counts.
Qed.

Lemma stats_accurate_witness :
  ∃ rs e, run_ops demo_ops MatchingEngine_new = Some (rs, e) ∧ counts (stats_ e) (tally rs).
Proof. apply stats_accurate; [exact demo_ops_ok|reflexivity]. Defined.
