(* ===== verification/BookProps.v ===== *)
(** Properties of the parts below the engine: the pool, the queries of a book, and
    the matching loop. *)

From stdpp Require Import base list gmap strings sorting relations.
From Stdlib Require Import ZArith Lia.
From S2P Require Import Prelude Machine StdMap Types ObjectPool OrderBook PriceTime.
From S2P Require Import BookInv BookOps MatchingEngine MatchRefine EngineSpec Exchange.
From S2P Require Import EngineProps.

Open Scope Z_scope.

(** ** The matching loop *)

(** C14: the matching loop of a submission ends: after at most as many rounds as there
    are orders in the book, one with the incoming order in it, plus one; any larger
    bound gives the same trades and the same book. *)
Theorem match_loop_terminates clock sym s t p q e :
  reachable e → op_ok (OpSubmit clock sym s t p q) →
  next_order_id_ (book_of sym e) + 1 < 2 ^ 64 → invalid_order t p q = false →
  ∃ order b1 ts b2,
    add_order (clock 1%nat) s t (effective_price s t p) q (book_of sym e) = Some (order, b1) ∧
    order_count b1 = S (order_count (book_of sym e)) ∧
    ∀ fuel, (order_count b1 < fuel)%nat →
      match_loop fuel (λ n, clock (2 + n)%nat) (is_buy s) order b1 = Some (ts, b2).
Proof.
  intros He%reachable_ok Hop Hn Hv. destruct (book_of_ok e sym He) as [Hok _].
  pose proof (ok_wf _ Hok) as Hwf. pose proof (accepted_price clock sym s t p q Hop Hv) as Hp.
  destruct (add_order_spec _ (clock 1%nat) s t _ q Hwf Hp Hn)
    as (nd & b1 & Hadd & Hwf1 & Hr1 & Hso1 & Hopp1 & _).
  assert (order_count b1 = S (order_count (book_of sym e))) as Hcount.
  { rewrite !order_count_spec by done. pose proof (Permutation_length (enqueue_perm (is_buy s)
      (Order_new (clock 1%nat) (next_order_id_ (book_of sym e)) s t (effective_price s t p) q)
      (side_orders (is_buy s) (book_of sym e)))) as Hl. rewrite <-Hso1 in Hl. simpl in Hl.
    destruct (is_buy s); simpl in *; rewrite Hl, Hopp1; lia. }
  destruct (match_loop_spec b1 (is_buy s) (λ n, clock (2 + n)%nat) nd _ (S (order_count b1)) Hwf1 Hr1)
    as (ts & inc & opp & b2 & _ & Hml & _).
  { exact (proj2 Hop). }
  { rewrite Hopp1. apply resting_live, Hok. }
  { rewrite Hcount, Hopp1, order_count_spec by done. destruct (is_buy s); simpl; lia. }
  exists (node_order nd), b1, ts, b2. split_and!; try done.
  intros fuel Hf. eapply match_loop_mono; [exact Hml|lia].
Qed.

Lemma match_loop_terminates_witness :
  ∃ order b1 ts b2,
    add_order (tick 1%nat) Buy Limit (effective_price Buy Limit (cents 10075)) 25 (book_of "AAPL" demo) =
      Some (order, b1) ∧
    order_count b1 = S (order_count (book_of "AAPL" demo)) ∧
    ∀ fuel, (order_count b1 < fuel)%nat →
      match_loop fuel (λ n, tick (2 + n)%nat) (is_buy Buy) order b1 = Some (ts, b2).
Proof.
  apply (match_loop_terminates tick "AAPL" Buy Limit (cents 10075) 25 demo);
    [exact demo_reachable|by apply op_ok_submit|rewrite demo_next_id; reflexivity|reflexivity].
Defined.

(** ** Queries *)

(** C15: the queries of a book agree with its queues: the number of orders, the two
    totals (modulo 2^32, the width of a quantity), and the best prices, which are
    zero on an empty side and else the price of the first order of the queue. *)
Theorem queries_correct e sym :
  reachable e →
  let b := book_of sym e in
  order_count b = (length (side_orders true b) + length (side_orders false b))%nat ∧
  total_bid_quantity b = Some (u32 (sum_list_Z (remaining_qty <$> side_orders true b))) ∧
  total_ask_quantity b = Some (u32 (sum_list_Z (remaining_qty <$> side_orders false b))) ∧
  match head (side_orders true b) with
  | None => best_bid b = dzero
  | Some o => deqb (best_bid b) (price o) = true
  end ∧
  match head (side_orders false b) with
  | None => best_ask b = dzero
  | Some o => deqb (best_ask b) (price o) = true
  end.
Proof.
  intros He%reachable_ok b. destruct (book_of_ok e sym He) as [Hok _].
  fold b in Hok. pose proof (ok_wf _ Hok) as Hwf.
  assert (∀ buy x, x ∈ flat (side_levels buy b) → is_Some (get_order (node_order x.2) b)) as Hget.
  { intros buy [k nd] Hin. destruct (wf_entry b Hwf buy k nd Hin) as (o & Hg & _). eauto. }
  assert (∀ buy, match head (side_orders buy b) with
    | None => match side_levels buy b with [] => dzero | (p, _) :: _ => p end = dzero
    | Some o => deqb (match side_levels buy b with [] => dzero | (p, _) :: _ => p end) (price o) = true
    end) as Hbest.
  { intros buy. destruct (side_levels buy b) as [|[k l] m] eqn:E; [by unfold side_orders; rewrite E|].
    destruct (best_price_spec b buy k l m Hwf E) as (o & Ho & Hk & Heq). rewrite Ho.
    apply equivb_true in Heq as [H1 H2].
    pose proof (side_orders_num b buy Hwf) as Hnum. rewrite Forall_forall in Hnum.
    rewrite deqb_ltb by (try done; by apply Hnum, head_Some_elem_of).
    unfold price_before, dgtb in *. destruct buy; by rewrite H1, H2. }
  split_and!.
  - by apply order_count_spec.
  - exact (levels_total_spec b (bids_ b) 0 (Hget true) eq_refl).
  - exact (levels_total_spec b (asks_ b) 0 (Hget false) eq_refl).
  - exact (Hbest true).
  - exact (Hbest false).
Qed.

Lemma queries_correct_witness :
  let b := book_of "AAPL" demo in
  order_count b = (length (side_orders true b) + length (side_orders false b))%nat ∧
  total_bid_quantity b = Some (u32 (sum_list_Z (remaining_qty <$> side_orders true b))) ∧
  total_ask_quantity b = Some (u32 (sum_list_Z (remaining_qty <$> side_orders false b))) ∧
  match head (side_orders true b) with
  | None => best_bid b = dzero
  | Some o => deqb (best_bid b) (price o) = true
  end ∧
  match head (side_orders false b) with
  | None => best_ask b = dzero
  | Some o => deqb (best_ask b) (price o) = true
  end.
Proof. apply queries_correct. exact demo_reachable. Defined.

(** ** The pool *)

(** The pool hands out memory that nobody else uses: the object acquired is not
    one of those in use, the objects in use keep their addresses and contents even
    when the storage grows, and the storage grows only when no object is free. *)
Theorem acquire_fresh {T} `{!ValueInit T} (P P' : ObjectPool T) (live : list N) (p : N) :
  pool_owns P live → acquire P = (p, P') →
  p ∉ live ∧ pool_owns P' (p :: live) ∧
  (∀ q, q ∈ live → load P' q = load P q) ∧
  capacity P' = capacity P + (if free_list_ P is [] then 1 else 0).
Proof.
  intros HP Ha. destruct (acquire_spec P live p P' HP Ha) as [Hown Hload].
  split_and!; try done.
  - apply (owns_NoDup P' (p :: live)) in Hown. by apply NoDup_cons in Hown as [? _].
  - unfold acquire in Ha. unfold capacity. destruct (free_list_ P); simplify_eq/=; lia.
Qed.

Instance N_value_init : ValueInit N := 0%N.

Lemma acquire_fresh_witness :
  let P : ObjectPool N := mk_pool (mk_deque 2 (<[0%N := 7%N]> ∅)) [] in
  let P' : ObjectPool N := mk_pool (mk_deque 3 (<[0%N := 7%N]> ∅)) [] in
  2%N ∉ [0%N; 1%N] ∧ pool_owns P' [2%N; 0%N; 1%N] ∧
  (∀ q, q ∈ [0%N; 1%N] → load P' q = load P q) ∧
  capacity P' = capacity P + (if free_list_ P is [] then 1 else 0).
Proof.
  apply (acquire_fresh (mk_pool (mk_deque 2 (<[0%N := 7%N]> ∅)) [])); [|reflexivity].
  unfold pool_owns. simpl. split_and!; [|by repeat constructor|reflexivity].
  apply NoDup_ListNoDup. repeat constructor; simpl; intuition lia.
Defined.

(** The constructor's loop leaves as many value-initialised objects as asked for,
    all of them free. *)
Theorem pool_construction {T} `{!ValueInit T} (n : N) :
  let P : ObjectPool T := pool_fill (N.to_nat n) (mk_pool (mk_deque 0 ∅) []) in
  P = pool_new n ∧ pool_owns P [] ∧ capacity P = Z.of_N n ∧ active_count P = 0 ∧
  ∀ p, (p < n)%N → load P p = Some value_init.
Proof.
  intros P. assert (P = pool_new n) as HP by (symmetry; apply pool_new_loop). rewrite HP.
  pose proof (pool_new_owns (T := T) n) as Hown. split_and!; try done.
  - unfold active_count. destruct Hown as (_ & _ & Hlen). simpl in *.
    replace (Z.of_N n - _) with 0 by lia. done.
  - intros p Hp. unfold load. simpl. by rewrite (proj2 (N.ltb_lt _ _) Hp).
Qed.

(** C16: no order object leaks: in every reachable state, the objects of a book's pool
    in use are exactly its resting orders. *)
Theorem no_order_leaks e sym :
  reachable e →
  let b := book_of sym e in
  capacity (order_pool_ b) < 2 ^ 64 →
  pool_owns (order_pool_ b) (node_order <$> book_nodes b) ∧
  active_count (order_pool_ b) =
    Z.of_nat (length (side_orders true b) + length (side_orders false b)).
Proof.
  intros He%reachable_ok b Hcap. destruct (book_of_ok e sym He) as [Hok _].
  fold b in Hok. pose proof (ok_wf _ Hok) as Hwf. split; [apply Hwf|].
  rewrite active_count_spec by done. by rewrite order_count_spec.
Qed.

Lemma no_order_leaks_witness :
  let b := book_of "AAPL" demo in
  pool_owns (order_pool_ b) (node_order <$> book_nodes b) ∧
  active_count (order_pool_ b) =
    Z.of_nat (length (side_orders true b) + length (side_orders false b)).
Proof. apply no_order_leaks; [exact demo_reachable|vm_compute; reflexivity]. Defined.
