(* ===== verification/RiskChecker.v ===== *)
(** Pre-trade risk: include/risk/RiskChecker.h, src/risk/RiskChecker.cpp, and the
    trade callback that src/main.cpp installs to keep it current.

    The state is the record of the class.  [check] and [on_fill] return [None] when a
    [long] computation overflows, which is undefined in the source. *)

From stdpp Require Import base list gmap strings.
From Stdlib Require Import ZArith Lia.
From S2P Require Import Prelude Machine Types.

Open Scope Z_scope.

(** ** Data *)

Inductive RejectReason :=
  | Reason_None
  | KillSwitchActive
  | InvalidQuantity
  | InvalidPrice
  | MaxOrderQuantityExceeded
  | MaxOrderNotionalExceeded
  | MaxPositionExceeded
  | MaxNotionalExposureExceeded.

#[export] Instance RejectReason_eq_dec : EqDecision RejectReason.
Proof. solve_decision. Defined.

(** [static_cast<size_t>(r)] *)
Definition reason_index (r : RejectReason) : nat :=
  match r with
  | Reason_None => 0
  | KillSwitchActive => 1
  | InvalidQuantity => 2
  | InvalidPrice => 3
  | MaxOrderQuantityExceeded => 4
  | MaxOrderNotionalExceeded => 5
  | MaxPositionExceeded => 6
  | MaxNotionalExposureExceeded => 7
  end.

Definition reject_reason_str (r : RejectReason) : string :=
  match r with
  | Reason_None => "None"
  | KillSwitchActive => "KillSwitchActive"
  | InvalidQuantity => "InvalidQuantity"
  | InvalidPrice => "InvalidPrice"
  | MaxOrderQuantityExceeded => "MaxOrderQuantityExceeded"
  | MaxOrderNotionalExceeded => "MaxOrderNotionalExceeded"
  | MaxPositionExceeded => "MaxPositionExceeded"
  | MaxNotionalExposureExceeded => "MaxNotionalExposureExceeded"
  end.

Record RiskLimits := mk_limits {
  max_order_quantity : Quantity;
  max_order_notional : double;
  max_position_abs : Z;
  max_notional_exposure : double;
}.

Definition RiskLimits_default : RiskLimits :=
  {| max_order_quantity := 1000000; max_order_notional := dofZ 10000000;
     max_position_abs := 5000000; max_notional_exposure := dofZ 50000000 |}.

Record RiskStats := mk_rstats {
  total_checks : Z;
  total_passes : Z;
  total_rejections : Z;
  by_reason : list Z;
}.

Definition RiskStats_new : RiskStats := mk_rstats 0 0 0 (replicate 8 0).

Definition record_pass (st : RiskStats) : RiskStats :=
  mk_rstats (u64 (total_checks st + 1)) (u64 (total_passes st + 1)) (total_rejections st)
    (by_reason st).

Definition record_reject (r : RejectReason) (st : RiskStats) : RiskStats :=
  mk_rstats (u64 (total_checks st + 1)) (total_passes st) (u64 (total_rejections st + 1))
    (alter (λ n, u64 (n + 1)) (reason_index r) (by_reason st)).

Record RiskChecker := mk_risk {
  limits_ : RiskLimits;
  kill_switch_ : bool;
  positions_ : gmap string Z;
  current_notional_exposure_ : double;
  risk_stats_ : RiskStats;
}.

(** ** Operations *)

Definition RiskChecker_new (l : RiskLimits) : RiskChecker := mk_risk l false ∅ dzero RiskStats_new.

Definition set_risk_stats (st : RiskStats) (rc : RiskChecker) : RiskChecker :=
  mk_risk (limits_ rc) (kill_switch_ rc) (positions_ rc) (current_notional_exposure_ rc) st.

Definition set_kill_switch (k : bool) (rc : RiskChecker) : RiskChecker :=
  mk_risk (limits_ rc) k (positions_ rc) (current_notional_exposure_ rc) (risk_stats_ rc).
Definition engage_kill_switch : RiskChecker → RiskChecker := set_kill_switch true.
Definition disengage_kill_switch : RiskChecker → RiskChecker := set_kill_switch false.
Definition is_killed (rc : RiskChecker) : bool := kill_switch_ rc.

Definition set_limits (l : RiskLimits) (rc : RiskChecker) : RiskChecker :=
  mk_risk l (kill_switch_ rc) (positions_ rc) (current_notional_exposure_ rc) (risk_stats_ rc).
Definition risk_reset_stats : RiskChecker → RiskChecker := set_risk_stats RiskStats_new.

Definition position (sym : string) (rc : RiskChecker) : Z := default 0 (positions_ rc !! sym).

(** The signed change of a position: [+qty] for a buy, [-qty] otherwise. *)
Definition signed_qty (s : Side) (q : Quantity) : Z := if is_buy s then q else - q.

(** [price * static_cast<double>(quantity)] *)
Definition notional (p : Price) (q : Quantity) : double := dmul p (dofZ q).

Definition reject (r : RejectReason) (rc : RiskChecker) : option (RejectReason * RiskChecker) :=
  Some (r, set_risk_stats (record_reject r (risk_stats_ rc)) rc).

Definition check (sym : string) (s : Side) (t : OrderType) (p : Price) (q : Quantity)
    (rc : RiskChecker) : option (RejectReason * RiskChecker) :=
  if kill_switch_ rc then reject KillSwitchActive rc
  else if q =? 0 then reject InvalidQuantity rc
  else if q >? max_order_quantity (limits_ rc) then reject MaxOrderQuantityExceeded rc
  else if is_limit t && dleb p dzero then reject InvalidPrice rc
  else if negb (is_market t) && dgtb (notional p q) (max_order_notional (limits_ rc))
  then reject MaxOrderNotionalExceeded rc
  else
    let current_pos := position sym rc in
    projected ← ladd current_pos (signed_qty s q);
    projected_abs ← labs projected;
    if projected_abs >? max_position_abs (limits_ rc) then reject MaxPositionExceeded rc
    else if negb (is_market t) &&
            dgtb (dadd (current_notional_exposure_ rc) (notional p q))
              (max_notional_exposure (limits_ rc))
    then reject MaxNotionalExposureExceeded rc
    else Some (Reason_None, set_risk_stats (record_pass (risk_stats_ rc)) rc).

Definition on_fill (sym : string) (s : Side) (p : Price) (q : Quantity) (rc : RiskChecker)
    : option RiskChecker :=
  pos ← ladd (position sym rc) (signed_qty s q);
  Some (mk_risk (limits_ rc) (kill_switch_ rc) (<[sym := pos]> (positions_ rc))
          (dadd (current_notional_exposure_ rc) (notional p q)) (risk_stats_ rc)).

(** The trade callback of src/main.cpp: both legs of every trade, always under the
    symbol "AAPL".  Its state is the checker, or [None] after an overflow. *)
Definition main_trade_callback (t : Trade) (rc : option RiskChecker) : option RiskChecker :=
  rc ← rc;
  rc ← on_fill "AAPL" Buy (trade_price t) (trade_quantity t) rc;
  on_fill "AAPL" Sell (trade_price t) (trade_quantity t) rc.

(** ** Lemmas *)

Lemma position_on_fill sym s p q rc rc' sym' :
  on_fill sym s p q rc = Some rc' →
  position sym' rc' = position sym' rc + (if decide (sym' = sym) then signed_qty s q else 0).
Proof.
  unfold on_fill, ladd. destruct (to_long _) as [pos|] eqn:E; simpl; [|done].
  apply to_long_Some in E as [-> _]. intros; simplify_eq. unfold position. simpl.
  case_decide as H; [subst; by rewrite lookup_insert_eq|].
  rewrite lookup_insert_ne by done. lia.
Qed.

Lemma on_fill_defined sym s p q rc :
  - 2 ^ 63 ≤ position sym rc + signed_qty s q < 2 ^ 63 →
  ∃ rc', on_fill sym s p q rc = Some rc' ∧ limits_ rc' = limits_ rc ∧
    kill_switch_ rc' = kill_switch_ rc ∧ risk_stats_ rc' = risk_stats_ rc.
Proof. intros H. unfold on_fill, ladd. rewrite to_long_small by done. simpl. eauto. Qed.

(** A check changes the statistics only. *)
Lemma check_frame sym s t p q rc r rc' :
  check sym s t p q rc = Some (r, rc') →
  rc' = set_risk_stats (if decide (r = Reason_None) then record_pass (risk_stats_ rc)
                        else record_reject r (risk_stats_ rc)) rc.
Proof.
  unfold check, reject.
  do 5 (match goal with |- (if ?c then _ else _) = _ → _ => destruct c end;
        [by intros [= <- <-]|]).
  destruct (ladd _ _) as [x|]; simpl; [|done]. destruct (labs x) as [y|]; simpl; [|done].
  do 2 (match goal with |- (if ?c then _ else _) = _ → _ => destruct c end;
        [by intros [= <- <-]|]).
  by intros [= <- <-].
Qed.

(** When the positions and limits are not extreme, a check is defined. *)
Lemma check_defined sym s t p q rc :
  Z.abs (position sym rc) ≤ 2 ^ 62 → 0 ≤ q < 2 ^ 32 →
  ∃ r rc', check sym s t p q rc = Some (r, rc').
Proof.
  intros Hpos Hq. unfold check, reject, ladd, labs. repeat (case_match; [by eauto|]).
  assert (Z.abs (signed_qty s q) < 2 ^ 32) by (unfold signed_qty; destruct (is_buy s); lia).
  rewrite to_long_small by lia. simpl. rewrite to_long_small by lia. simpl.
  repeat (case_match; [by eauto|]). eauto.
Qed.

(** Both legs of each trade cancel out. *)
Lemma main_callback_zero (ts : list Trade) rc :
  (∀ sym, position sym rc = 0) → Forall (λ t, 0 ≤ trade_quantity t < 2 ^ 32) ts →
  ∃ rc', foldl (λ rc t, main_trade_callback t rc) (Some rc) ts = Some rc' ∧
    limits_ rc' = limits_ rc ∧ ∀ sym, position sym rc' = 0.
Proof.
  intros Hz Hts. revert rc Hz. induction Hts as [|t ts Ht _ IH]; intros rc Hz; simpl; [by eauto|].
  destruct (on_fill_defined "AAPL" Buy (trade_price t) (trade_quantity t) rc) as (rc1 & H1 & Hl1 & _).
  { rewrite Hz. unfold signed_qty. simpl. lia. }
  destruct (on_fill_defined "AAPL" Sell (trade_price t) (trade_quantity t) rc1) as (rc2 & H2 & Hl2 & _).
  { rewrite (position_on_fill _ _ _ _ _ _ "AAPL" H1), Hz, decide_True by done.
    unfold signed_qty. simpl. lia. }
  rewrite H1. simpl. rewrite H2. destruct (IH rc2) as (rc' & H & Hl & Hz').
  { intros sym. rewrite (position_on_fill _ _ _ _ _ _ sym H2), (position_on_fill _ _ _ _ _ _ sym H1), Hz.
    unfold signed_qty. simpl. case_decide; lia. }
  exists rc'. split; [done|]. split; [congruence|done].
Qed.
