(* ===== verification/RiskProps.v ===== *)
(** The correctness of the pre-trade risk checks. *)

From stdpp Require Import base list gmap strings.
From Stdlib Require Import ZArith Lia.
From S2P Require Import Prelude Machine Types RiskChecker.

Open Scope Z_scope.

(** ** Decisions *)

(** The conditions under which an order is acceptable. *)
Definition acceptable (sym : string) (s : Side) (t : OrderType) (p : Price) (q : Quantity)
    (rc : RiskChecker) : Prop :=
  kill_switch_ rc = false ∧
  0 < q ≤ max_order_quantity (limits_ rc) ∧
  (t = Limit → dleb p dzero = false) ∧
  (t ≠ Market → dgtb (notional p q) (max_order_notional (limits_ rc)) = false) ∧
  Z.abs (position sym rc + signed_qty s q) ≤ max_position_abs (limits_ rc) ∧
  (t ≠ Market → dgtb (dadd (current_notional_exposure_ rc) (notional p q))
                  (max_notional_exposure (limits_ rc)) = false).

(** A test that only applies under a decidable condition. *)
Lemma guarded_test (P : Prop) `{!Decision P} (c : bool) :
  bool_decide P && c = false ↔ (P → c = false).
Proof. destruct (bool_decide_reflect P), c; naive_solver. Qed.

Lemma check_accepts sym s t p q rc r rc' :
  0 ≤ q → check sym s t p q rc = Some (r, rc') → r = Reason_None ↔ acceptable sym s t p q rc.
Proof.
  intros Hq Hc.
  assert ((is_limit t && dleb p dzero = false) ↔ (t = Limit → dleb p dzero = false)) as Hlim
    by apply guarded_test.
  assert (∀ c, (negb (is_market t) && c = false) ↔ (t ≠ Market → c = false)) as Hmkt.
  { intros c. unfold is_market. rewrite <-bool_decide_not. apply guarded_test. }
  unfold acceptable. rewrite <-!Hmkt, <-Hlim. revert Hc. unfold check, reject.
  destruct (kill_switch_ rc); [naive_solver|].
  destruct (Z.eqb_spec q 0); [naive_solver lia|].
  destruct (Z.gtb_spec q (max_order_quantity (limits_ rc))); [naive_solver lia|].
  destruct (is_limit t && _); [naive_solver|].
  destruct (negb (is_market t) && dgtb (notional p q) _); [naive_solver|].
  unfold ladd, labs. destruct (to_long _) as [x|] eqn:Ex; simpl; [|done].
  apply to_long_Some in Ex as [-> _].
  destruct (to_long _) as [y|] eqn:Ey; simpl; [|done]. apply to_long_Some in Ey as [-> _].
  destruct (Z.gtb_spec (Z.abs (position sym rc + signed_qty s q)) (max_position_abs (limits_ rc)));
    [naive_solver lia|].
  destruct (negb (is_market t) && _); [naive_solver|]. intros [= <- <-]. split; [|done].
  intros _. split_and!; try done; lia.
Qed.

(** C18: a check always decides (no overflow while the position is below 2^62), accepts
    an order exactly when all six conditions hold, and changes nothing but the
    statistics. *)
Theorem check_decides sym s t p q rc :
  Z.abs (position sym rc) ≤ 2 ^ 62 → 0 ≤ q < 2 ^ 32 →
  ∃ r rc', check sym s t p q rc = Some (r, rc') ∧
    (r = Reason_None ↔ acceptable sym s t p q rc) ∧
    limits_ rc' = limits_ rc ∧ kill_switch_ rc' = kill_switch_ rc ∧
    positions_ rc' = positions_ rc ∧
    current_notional_exposure_ rc' = current_notional_exposure_ rc.
Proof.
  intros Hp Hq. destruct (check_defined sym s t p q rc Hp Hq) as (r & rc' & Hc).
  exists r, rc'. split; [done|]. split; [eapply check_accepts; [lia|done]|].
  by rewrite (check_frame _ _ _ _ _ _ _ _ Hc).
Qed.

Definition rc0 : RiskChecker := RiskChecker_new RiskLimits_default.

Lemma check_decides_witness :
  ∃ r rc', check "AAPL" Buy Limit (dlit 10050 2) 100 rc0 = Some (r, rc') ∧
    (r = Reason_None ↔ acceptable "AAPL" Buy Limit (dlit 10050 2) 100 rc0) ∧
    limits_ rc' = limits_ rc0 ∧ kill_switch_ rc' = kill_switch_ rc0 ∧
    positions_ rc' = positions_ rc0 ∧
    current_notional_exposure_ rc' = current_notional_exposure_ rc0.
Proof. apply check_decides; vm_compute; intuition discriminate. Defined.

(** ** Positions *)

(** The fills of one order: prices and quantities. *)
Definition apply_fills (sym : string) (s : Side) (fills : list (Price * Quantity))
    (rc : RiskChecker) : option RiskChecker :=
  foldl (λ rc f, rc ← rc; on_fill sym s f.1 f.2 rc) (Some rc) fills.

Lemma apply_fills_cons sym s f fills rc rc1 :
  on_fill sym s f.1 f.2 rc = Some rc1 → apply_fills sym s (f :: fills) rc = apply_fills sym s fills rc1.
Proof. unfold apply_fills. simpl. by intros ->. Qed.

Lemma apply_fills_spec sym s fills rc :
  Forall (λ f, 0 ≤ f.2) fills →
  Z.abs (position sym rc) + sum_list_Z fills.*2 < 2 ^ 63 →
  ∃ rc', apply_fills sym s fills rc = Some rc' ∧ limits_ rc' = limits_ rc ∧
    ∀ sym', position sym' rc' =
      position sym' rc + (if decide (sym' = sym) then signed_qty s (sum_list_Z fills.*2) else 0).
Proof.
  intros Hf. revert rc. induction Hf as [|f fills Hq Hf IH]; intros rc Hb.
  { exists rc. split_and!; try done. intros sym'. unfold signed_qty. repeat case_match; simpl; lia. }
  csimpl in *. assert (0 ≤ sum_list_Z fills.*2).
  { apply sum_list_Z_nonneg. by apply Forall_fmap. }
  assert (Z.abs (signed_qty s f.2) = f.2) by (unfold signed_qty; case_match; lia).
  destruct (on_fill_defined sym s f.1 f.2 rc) as (rc1 & H1 & Hl & _); [lia|].
  pose proof (λ sym', position_on_fill _ _ _ _ _ _ sym' H1) as Hp.
  destruct (IH rc1) as (rc' & H2 & Hl' & Hp').
  { rewrite Hp, decide_True by done. lia. }
  exists rc'. rewrite (apply_fills_cons _ _ _ _ _ _ H1). split_and!; [done|congruence|].
  intros sym'. rewrite Hp', Hp. unfold signed_qty. repeat case_match; lia.
Qed.

(** C19: the position cap holds after the order, not only before it: if an order passes
    the check while the position of its symbol is within the cap, then whatever part
    of it is filled, in any number of fills at any prices, the position stays within
    the cap, and no other position changes. *)
Theorem position_cap_safe sym s t p q rc rc1 fills :
  check sym s t p q rc = Some (Reason_None, rc1) →
  Z.abs (position sym rc) ≤ max_position_abs (limits_ rc) → max_position_abs (limits_ rc) < 2 ^ 62 →
  0 ≤ q < 2 ^ 32 → Forall (λ f, 0 ≤ f.2) fills → sum_list_Z fills.*2 ≤ q →
  ∃ rc2, apply_fills sym s fills rc1 = Some rc2 ∧
    Z.abs (position sym rc2) ≤ max_position_abs (limits_ rc2) ∧
    ∀ sym', sym' ≠ sym → position sym' rc2 = position sym' rc.
Proof.
  intros Hc Hpos Hmax Hq Hf Hsum.
  pose proof (check_accepts _ _ _ _ _ _ _ _ (proj1 Hq) Hc) as Hacc.
  apply check_frame in Hc. destruct (proj1 Hacc eq_refl) as (_ & _ & _ & _ & Hproj & _).
  assert (∀ sym', position sym' rc1 = position sym' rc) as Hsame by (by rewrite Hc).
  assert (0 ≤ sum_list_Z fills.*2) by (apply sum_list_Z_nonneg; by apply Forall_fmap).
  destruct (apply_fills_spec sym s fills rc1 Hf) as (rc2 & H2 & Hl & Hp2).
  { rewrite Hsame. lia. }
  exists rc2. split; [done|]. rewrite Hl, Hc. simpl. split.
  - rewrite Hp2, decide_True, Hsame by done. unfold signed_qty in *. destruct (is_buy s); lia.
  - intros sym' Hne. rewrite Hp2, decide_False, Hsame by done. lia.
Qed.

Definition rc0_passed : RiskChecker := set_risk_stats (record_pass RiskStats_new) rc0.

Lemma position_cap_safe_witness :
  ∃ rc2,
    apply_fills "AAPL" Buy [(dlit 10000 2, 60); (dlit 10050 2, 30)] rc0_passed = Some rc2 ∧
    Z.abs (position "AAPL" rc2) ≤ max_position_abs (limits_ rc2) ∧
    ∀ sym', sym' ≠ "AAPL"%string → position sym' rc2 = position sym' rc0.
Proof.
  apply (position_cap_safe "AAPL" Buy Limit (dlit 10050 2) 100 rc0 rc0_passed);
    [vm_compute; reflexivity|vm_compute; discriminate|reflexivity|lia|repeat constructor; simpl; lia|
     vm_compute; discriminate].
Defined.

(** ** The kill switch *)

(** A sequence of checks: symbol, side, type, price and quantity of each order. *)
Definition request : Type := string * Side * OrderType * Price * Quantity.

Fixpoint check_all (os : list request) (rc : RiskChecker) : option (list RejectReason * RiskChecker) :=
  match os with
  | [] => Some ([], rc)
  | (sym, s, t, p, q) :: os =>
      '(r, rc) ← check sym s t p q rc;
      '(rs, rc) ← check_all os rc;
      Some (r :: rs, rc)
  end.

(** While the kill switch is engaged every order is rejected for that reason,
    whatever it is, and disengaging it restores the checker up to its statistics. *)
Theorem kill_switch_blocks os rc :
  ∃ rc', check_all os (engage_kill_switch rc) =
    Some (replicate (length os) KillSwitchActive, rc') ∧
    is_killed rc' = true ∧
    disengage_kill_switch rc' = set_risk_stats (risk_stats_ rc') (disengage_kill_switch rc).
Proof.
  assert (∀ rc, is_killed rc = true → ∃ rc', check_all os rc =
    Some (replicate (length os) KillSwitchActive, rc') ∧ is_killed rc' = true ∧
    rc' = set_risk_stats (risk_stats_ rc') rc) as Hall.
  { induction os as [|[[[[sym s] t] p] q] os IH]; intros rc1 Hk.
    { exists rc1. split_and!; try done. by destruct rc1. }
    cbn [check_all]. unfold check. unfold is_killed in Hk. rewrite Hk. cbn [reject mbind option_bind].
    destruct (IH (set_risk_stats (record_reject KillSwitchActive (risk_stats_ rc1)) rc1) Hk)
      as (rc' & -> & Hk' & Heq).
    exists rc'. split_and!; [done..|]. rewrite Heq at 1. done. }
  destruct (Hall (engage_kill_switch rc) eq_refl) as (rc' & H & Hk & Heq).
  exists rc'. split_and!; [done..|]. rewrite Heq at 1. done.
Qed.

(** ** Statistics *)

Definition count_reason (r : RejectReason) (rs : list RejectReason) : Z :=
  Z.of_nat (length (filter (λ x, x = r) rs)).

Definition rstats_of (n : Z) (rs : list RejectReason) (st : RiskStats) : Prop :=
  total_checks st = u64 n ∧ total_passes st = u64 (count_reason Reason_None rs) ∧
  total_rejections st = u64 (n - count_reason Reason_None rs) ∧
  by_reason st =
    (λ r, u64 (if decide (r = Reason_None) then 0 else count_reason r rs)) <$>
    [Reason_None; KillSwitchActive; InvalidQuantity; InvalidPrice; MaxOrderQuantityExceeded;
     MaxOrderNotionalExceeded; MaxPositionExceeded; MaxNotionalExposureExceeded].

Lemma count_reason_snoc r rs x :
  count_reason r (rs ++ [x]) = count_reason r rs + if decide (x = r) then 1 else 0.
Proof.
  unfold count_reason. rewrite filter_app, length_app, filter_cons. case_decide; simpl; lia.
Qed.

Lemma rstats_of_step n rs st r :
  rstats_of n rs st →
  rstats_of (n + 1) (rs ++ [r])
    (if decide (r = Reason_None) then record_pass st else record_reject r st).
Proof.
  intros (Hc & Hp & Hr & Hb). unfold rstats_of. rewrite !count_reason_snoc.
  destruct r; simpl; rewrite ?Hc, ?Hp, ?Hr, ?Hb, ?u64_add_l; csimpl; rewrite !count_reason_snoc; simpl;
    rewrite ?Z.add_0_r, ?u64_add_l; split_and!; try done; f_equal; lia.
Qed.

(** Over any sequence of checks the statistics count what was returned: the number
    of checks, of passes, of rejections, and of rejections for each reason. *)
Theorem risk_stats_accurate os rc rs rc' :
  risk_stats_ rc = RiskStats_new → check_all os rc = Some (rs, rc') →
  length rs = length os ∧ rstats_of (Z.of_nat (length os)) rs (risk_stats_ rc').
Proof.
  intros Hnew. assert (rstats_of 0 [] (risk_stats_ rc)) as H0 by (by rewrite Hnew).
  assert (∀ rs0 rc rs, rstats_of (Z.of_nat (length rs0)) rs0 (risk_stats_ rc) →
    check_all os rc = Some (rs, rc') →
    length rs = length os ∧ rstats_of (Z.of_nat (length (rs0 ++ rs))) (rs0 ++ rs) (risk_stats_ rc')) as Hall.
  { clear. induction os as [|[[[[sym s] t] p] q] os IH]; intros rs0 rc rs H0; cbn [check_all].
    { intros; simplify_eq. by rewrite app_nil_r. }
    destruct (check sym s t p q rc) as [[r rc1]|] eqn:Hc; simpl; [|done].
    destruct (check_all os rc1) as [[rs1 rc2]|] eqn:Hos; simpl; [|done].
    intros; simplify_eq. apply check_frame in Hc.
    destruct (IH (rs0 ++ [r]) rc1 rs1) as [Hlen H1]; [|done|].
    - rewrite Hc, length_app. simpl. rewrite Nat2Z.inj_add. by apply rstats_of_step.
    - rewrite <-app_assoc in H1. split; [simpl; lia|done]. }
  intros Hos. destruct (Hall [] rc rs H0 Hos) as [Hlen H]. split; [done|]. simpl in H. by rewrite <-Hlen.
Qed.

Lemma risk_stats_accurate_witness :
  ∃ rs rc',
    check_all [("AAPL"%string, Buy, Limit, dlit 10050 2, 100); ("AAPL"%string, Sell, Limit, dzero, 5)] rc0 =
      Some (rs, rc') ∧
    length rs = 2%nat ∧ rstats_of 2 rs (risk_stats_ rc').
Proof.
  eexists _, _. split; [vm_compute; reflexivity|].
  apply (risk_stats_accurate
    [("AAPL"%string, Buy, Limit, dlit 10050 2, 100); ("AAPL"%string, Sell, Limit, dzero, 5)] rc0);
    [reflexivity|vm_compute; reflexivity].
Defined.

(** ** The callback of the server *)

(** With the callback that the server installs every position stays zero, whatever
    is traded, because both legs of each trade are booked to one symbol: the position
    cap only ever bounds the quantity of a single order. *)
Theorem server_positions_stay_zero (ts : list Trade) rc :
  positions_ rc = ∅ → Forall (λ t, 0 ≤ trade_quantity t < 2 ^ 32) ts →
  ∃ rc', foldl (λ rc t, main_trade_callback t rc) (Some rc) ts = Some rc' ∧
    limits_ rc' = limits_ rc ∧ ∀ sym, position sym rc' = 0.
Proof.
  intros Hempty. apply main_callback_zero.
  intros sym. unfold position. by rewrite Hempty, lookup_empty.
Qed.

Lemma server_positions_stay_zero_witness :
  ∃ rc', foldl (λ rc t, main_trade_callback t rc) (Some rc0)
      [{| buy_order_id := 1; sell_order_id := 2; trade_price := dlit 10050 2; trade_quantity := 100;
          trade_timestamp := 0 |}] = Some rc' ∧
    limits_ rc' = limits_ rc0 ∧ ∀ sym, position sym rc' = 0.
Proof. apply server_positions_stay_zero; [reflexivity|repeat constructor; simpl; lia]. Defined.
