(* ===== verification/Wire.v ===== *)
(** Bytes on the wire: little-endian integers and the IEEE 754 encoding of doubles.

    A packed C++ struct is sent as its bytes in memory.  A byte is an integer of
    [0, 256).  Integers of a fixed width are little-endian, and a [double] is the 64
    bits of the binary64 interchange format: a sign, 11 bits of biased exponent and 52
    bits of fraction.  Each encoding comes with its decoding and round trip. *)

From stdpp Require Import base list gmap.
From Stdlib Require Import ZArith Lia SpecFloat.
From S2P Require Import Prelude Machine Rounding.

Open Scope Z_scope.

Abbreviation byte := Z (only parsing).

Definition byte_ok (b : byte) : Prop := 0 ≤ b < 256.

(** ** Integers *)

(** The [n] bytes of the unsigned integer [x]. *)
Fixpoint le_bytes (n : nat) (x : Z) : list byte :=
  match n with
  | O => []
  | S n => x mod 256 :: le_bytes n (x / 256)
  end.

Fixpoint le_value (l : list byte) : Z :=
  match l with
  | [] => 0
  | b :: l => b + 256 * le_value l
  end.

Lemma le_bytes_length n x : length (le_bytes n x) = n.
Proof. revert x. induction n as [|n IH]; intros x; simpl; [done|]. by rewrite IH. Qed.

Lemma le_bytes_ok n x : Forall byte_ok (le_bytes n x).
Proof.
  revert x. induction n as [|n IH]; intros x; constructor; [|done].
  apply Z.mod_pos_bound. lia.
Qed.

Lemma le_value_bytes n x : 0 ≤ x < 256 ^ Z.of_nat n → le_value (le_bytes n x) = x.
Proof.
  revert x. induction n as [|n IH]; intros x Hx; simpl; [simpl in Hx; lia|].
  rewrite IH.
  - rewrite Z.add_comm. symmetry. apply Z.div_mod. lia.
  - rewrite Nat2Z.inj_succ, Z.pow_succ_r in Hx by lia.
    split; [apply Z.div_pos; lia|]. apply Z.div_lt_upper_bound; lia.
Qed.

Lemma le_value_range l : Forall byte_ok l → 0 ≤ le_value l < 256 ^ Z.of_nat (length l).
Proof.
  induction 1 as [|b l Hb _ IH]; simpl; [lia|]. unfold byte_ok in Hb.
  rewrite Nat2Z.inj_succ, Z.pow_succ_r by lia. lia.
Qed.

Lemma le_bytes_value l : Forall byte_ok l → le_bytes (length l) (le_value l) = l.
Proof.
  induction 1 as [|b l Hb _ IH]; simpl; [done|]. unfold byte_ok in Hb.
  rewrite (Z.mul_comm 256), Z.mod_add, Z.div_add by lia.
  rewrite (Z.mod_small b), (Z.div_small b) by lia. by rewrite Z.add_0_l, IH.
Qed.

(** ** Doubles *)

(** A value of the C++ type: a NaN, or a float of 53 bits of precision in canonical
    form with an exponent in range. *)
Definition double_ok (x : double) : Prop :=
  is_nanb x = true ∨ valid_binary 53 1024 x = true.

Definition pack_double (sign : bool) (biased fraction : Z) : Z :=
  (if sign then 2 ^ 63 else 0) + biased * 2 ^ 52 + fraction.

Definition bits_of_double (x : double) : Z :=
  match x with
  | S754_zero s => pack_double s 0 0
  | S754_infinity s => pack_double s 2047 0
  | S754_nan => pack_double false 2047 (2 ^ 51)
  | S754_finite s m e =>
      if Zpos m <? 2 ^ 52 then pack_double s 0 (Zpos m)
      else pack_double s (e + 1075) (Zpos m - 2 ^ 52)
  end.

Definition double_of_bits (b : Z) : double :=
  let sign := 2 ^ 63 <=? b in
  let biased := (b / 2 ^ 52) mod 2 ^ 11 in
  let fraction := b mod 2 ^ 52 in
  if biased =? 0 then
    match fraction with Zpos m => S754_finite sign m (-1074) | _ => S754_zero sign end
  else if biased =? 2047 then
    if fraction =? 0 then S754_infinity sign else S754_nan
  else
    match fraction + 2 ^ 52 with Zpos m => S754_finite sign m (biased - 1075) | _ => S754_nan end.

Lemma pack_double_fields s be f :
  0 ≤ be < 2 ^ 11 → 0 ≤ f < 2 ^ 52 →
  (2 ^ 63 <=? pack_double s be f) = s ∧ (pack_double s be f / 2 ^ 52) mod 2 ^ 11 = be ∧
  pack_double s be f mod 2 ^ 52 = f.
Proof.
  intros Hb Hf. unfold pack_double.
  replace ((if s then 2 ^ 63 else 0) + be * 2 ^ 52 + f)
    with (f + (be + (if s then 1 else 0) * 2 ^ 11) * 2 ^ 52) by (destruct s; lia).
  rewrite Z.div_add, Z.mod_add, (Z.div_small f), (Z.mod_small f), Z.add_0_l, Z.mod_add by lia.
  rewrite (Z.mod_small be) by lia. split; [|done]. destruct s; lia.
Qed.

(** The two forms of a canonical finite float: subnormal, or with a full mantissa. *)
Lemma valid_finite s m e :
  valid_binary 53 1024 (S754_finite s m e) = true →
  Zpos m < 2 ^ 52 ∧ e = -1074 ∨ 2 ^ 52 ≤ Zpos m < 2 ^ 53 ∧ -1074 ≤ e ≤ 971.
Proof.
  simpl. unfold bounded, canonical_mantissa, fexp. rewrite andb_true_iff, Z.eqb_eq, Z.leb_le.
  intros [Hc He]. pose proof (digits2_pos_bounds m) as Hd. unfold SpecFloat.emin in Hc.
  set (d := Zpos (digits2_pos m)) in *.
  destruct (decide (Zpos m < 2 ^ 52)) as [Hs|Hs].
  - left. split; [done|]. assert (d - 1 < 52) by (apply (Z.pow_lt_mono_r_iff 2); lia). lia.
  - right. assert (52 < d) by (apply (Z.pow_lt_mono_r_iff 2); lia).
    assert (d = 53) as Hd53 by lia. rewrite Hd53 in Hd. lia.
Qed.

Lemma bits_of_double_range x : double_ok x → 0 ≤ bits_of_double x < 2 ^ 64.
Proof.
  assert (∀ s be f, 0 ≤ be < 2 ^ 11 → 0 ≤ f < 2 ^ 52 → 0 ≤ pack_double s be f < 2 ^ 64) as Hp
    by (intros []; unfold pack_double; lia).
  intros Hx. destruct x as [s|s| |s m e]; simpl; try (apply Hp; lia).
  destruct Hx as [?|Hv]; [done|].
  apply valid_finite in Hv. destruct (Z.ltb_spec (Zpos m) (2 ^ 52)); apply Hp; lia.
Qed.

(** Decoding undoes encoding, for every double. *)
Lemma double_of_bits_of_double x : double_ok x → double_of_bits (bits_of_double x) = x.
Proof.
  assert (∀ s be f, 0 ≤ be < 2 ^ 11 → 0 ≤ f < 2 ^ 52 → double_of_bits (pack_double s be f) =
    if be =? 0 then match f with Zpos m => S754_finite s m (-1074) | _ => S754_zero s end
    else if be =? 2047 then if f =? 0 then S754_infinity s else S754_nan
    else match f + 2 ^ 52 with Zpos m => S754_finite s m (be - 1075) | _ => S754_nan end) as Hp.
  { intros s be f Hb Hf. unfold double_of_bits.
    destruct (pack_double_fields s be f Hb Hf) as (-> & -> & ->). done. }
  intros Hx. destruct x as [s|s| |s m e]; unfold bits_of_double; try (by rewrite Hp by lia).
  destruct Hx as [?|Hv]; [done|]. apply valid_finite in Hv.
  destruct (Z.ltb_spec (Zpos m) (2 ^ 52)); rewrite Hp by lia.
  - simpl. f_equal. lia.
  - destruct (Z.eqb_spec (e + 1075) 0); [lia|]. destruct (Z.eqb_spec (e + 1075) 2047); [lia|].
    rewrite Z.sub_add. f_equal. lia.
Qed.
