(* ===== verification/Numbers.v ===== *)
(** Numbers in text: [std::stoi], [std::stoll], [std::stoull] and [std::stod] of the C++ library, in
    the C locale.  Each skips white space, reads a sign and the longest prefix that is a
    number, and ignores the rest; [None] is the exception it throws when there is no
    number or when the number is out of range.  Characters are their codes. *)

From stdpp Require Import base list.
From Stdlib Require Import ZArith Lia SpecFloat.
From S2P Require Import Prelude Machine Wire.

Open Scope Z_scope.
Open Scope list_scope.

(** ** Digits *)

Definition is_space (c : byte) : bool := (c =? 32) || ((9 <=? c) && (c <=? 13)).

Fixpoint skip_space (l : list byte) : list byte :=
  match l with
  | [] => []
  | c :: l' => if is_space c then skip_space l' else l
  end.

(** An optional sign: whether it is minus, and what follows. *)
Definition read_sign (l : list byte) : bool * list byte :=
  match l with
  | c :: l' => if c =? 45 then (true, l') else if c =? 43 then (false, l') else (false, l)
  | [] => (false, [])
  end.

(** The value of a digit in base 10 or 16. *)
Definition digit (base : Z) (c : byte) : option Z :=
  let d := if (48 <=? c) && (c <=? 57) then c - 48
           else if (97 <=? c) && (c <=? 122) then c - 87
           else if (65 <=? c) && (c <=? 90) then c - 55
           else 36 in
  if d <? base then Some d else None.

(** The digits at the front: the value with [v] in front of them, their number added to
    [n], and what follows. *)
Fixpoint read_digits (base : Z) (v : Z) (n : nat) (l : list byte) : Z * nat * list byte :=
  match l with
  | [] => (v, n, [])
  | c :: l' =>
      match digit base c with
      | Some d => read_digits base (v * base + d) (S n) l'
      | None => (v, n, l)
      end
  end.

(** ** Integers *)

(** The sign and the magnitude of a decimal integer, if there is a digit. *)
Definition read_integer (l : list byte) : option (bool * Z) :=
  let '(neg, l) := read_sign (skip_space l) in
  let '(v, n, _) := read_digits 10 0 0 l in
  if (n =? 0)%nat then None else Some (neg, v).

Definition stoll (l : list byte) : option Z :=
  '(neg, v) ← read_integer l;
  to_long (if neg : bool then - v else v).

(** [std::stoi], for an [int] of 32 bits. *)
Definition stoi (l : list byte) : option Z :=
  '(neg, v) ← read_integer l;
  let z := if neg : bool then - v else v in
  if (- 2 ^ 31 <=? z) && (z <? 2 ^ 31) then Some z else None.

(** A minus sign negates modulo 2^64. *)
Definition stoull (l : list byte) : option Z :=
  '(neg, v) ← read_integer l;
  if v <? 2 ^ 64 then Some (if neg : bool then u64 (- v) else v) else None.

(** [strtoull] in base 10, which throws nothing: zero without a number, the largest value
    when the number is too large. *)
Definition strtoull (l : list byte) : Z :=
  match read_integer l with
  | None => 0
  | Some (neg, v) => if v <? 2 ^ 64 then (if neg : bool then u64 (- v) else v) else 2 ^ 64 - 1
  end.

(** ** Doubles *)

(** [m * 10 ^ e], [m * 2 ^ e] rounded to nearest even. *)
Definition round_decimal (neg : bool) (m e : Z) : double :=
  if 0 <=? e then binary_normalize 53 1024 (if neg then - (m * 10 ^ e) else m * 10 ^ e) 0 neg
  else if m =? 0 then S754_zero neg
  else let '(q, e', l) := SFdiv_core_binary 53 1024 m 0 (10 ^ (- e)) 0 in
       binary_round_aux 53 1024 neg q e' l.
Definition round_binary (neg : bool) (m e : Z) : double :=
  binary_normalize 53 1024 (if neg then - m else m) e neg.

(** Whether [m * b ^ e] is [f * 2 ^ g]. *)
Definition same_value (m b e f g : Z) : bool :=
  m * b ^ Z.max 0 e * 2 ^ Z.max 0 (- g) =? f * 2 ^ Z.max 0 g * b ^ Z.max 0 (- e).

(** The range check of a result [x] for [m * b ^ e]: an overflow, or a result below the
    normal numbers that is not exact, is out of range. *)
Definition in_range (m b e : Z) (x : double) : option double :=
  match x with
  | S754_infinity _ => None
  | S754_zero _ => if m =? 0 then Some x else None
  | S754_finite _ f g =>
      if (Zpos f <? 2 ^ 52) && negb (same_value m b e (Zpos f) g) then None else Some x
  | S754_nan => Some x
  end.

(** The exponent after the letter [c], in lower case, if there is one with a digit. *)
Definition read_exponent (c : byte) (l : list byte) : Z :=
  match l with
  | c' :: l' =>
      if (c' =? c) || (c' =? c - 32) then
        let '(neg, l') := read_sign l' in
        let '(v, _, _) := read_digits 10 0 0 l' in
        if neg : bool then - v else v
      else 0
  | [] => 0
  end.

(** Digits with an optional point: the digits as an integer, the number of digits, how
    many of them follow the point, and what follows. *)
Definition read_mantissa (base : Z) (l : list byte) : Z * nat * nat * list byte :=
  let '(v, n, l') := read_digits base 0 0 l in
  match l' with
  | c :: l'' =>
      if c =? 46 then let '(v, n', l''') := read_digits base v n l'' in (v, n', (n' - n)%nat, l''')
      else (v, n, O, l')
  | [] => (v, n, O, [])
  end.

(** Does [l] start with the word [w], given in lower case? *)
Fixpoint starts_with (w l : list byte) : bool :=
  match w, l with
  | [], _ => true
  | c :: w, c' :: l => ((c' =? c) || (c' =? c - 32)) && starts_with w l
  | _ :: _, [] => false
  end.

Definition read_double (neg : bool) (l : list byte) : option double :=
  if starts_with [105; 110; 102] l then Some (S754_infinity neg)
  else if starts_with [110; 97; 110] l then Some S754_nan
  else
    let hex := starts_with [48; 120] l in
    let '(hv, hn, hf, hl) := read_mantissa 16 (drop 2 l) in
    if hex && negb (hn =? 0)%nat then
      let e := read_exponent 112 hl - 4 * Z.of_nat hf in
      in_range hv 2 e (round_binary neg hv e)
    else
      let '(v, n, f, l) := read_mantissa 10 l in
      if (n =? 0)%nat then None
      else
        let e := read_exponent 101 l - Z.of_nat f in
        in_range v 10 e (round_decimal neg v e).

Definition stod (l : list byte) : option double :=
  let '(neg, l) := read_sign (skip_space l) in read_double neg l.
