(* ===== verification/Protocol.v ===== *)
(** The wire protocol of include/network/Protocol.h: three packed structs, their
    layout in bytes, and the symbol field.

    [encode_*] lists the bytes of a struct in memory in the order of its fields, as
    [#pragma pack(1)] lays them out; [decode_*] reads a struct back from the bytes
    that [recv] put over it, and is [None] if there are not enough of them to
    determine every field. *)

From stdpp Require Import base list gmap strings.
From Stdlib Require Import ZArith Lia Ascii.
From S2P Require Import Prelude Machine Types Wire.

Open Scope Z_scope.
Open Scope list_scope.

(** ** Enumerations as bytes *)

Inductive MessageType := NewOrder | Cancel | ExecReport | MessageType_byte (b : byte).

Definition message_type_of_byte (b : byte) : MessageType :=
  if b =? 1 then NewOrder else if b =? 2 then Cancel else if b =? 3 then ExecReport
  else MessageType_byte b.
Definition byte_of_message_type (t : MessageType) : byte :=
  match t with NewOrder => 1 | Cancel => 2 | ExecReport => 3 | MessageType_byte b => b end.

Definition side_of_byte (b : byte) : Side :=
  if b =? 0 then Buy else if b =? 1 then Sell else Side_byte b.
Definition byte_of_side (s : Side) : byte :=
  match s with Buy => 0 | Sell => 1 | Side_byte b => b end.

Definition order_type_of_byte (b : byte) : OrderType :=
  if b =? 0 then Limit else if b =? 1 then Market else if b =? 2 then IOC else OrderType_byte b.
Definition byte_of_order_type (t : OrderType) : byte :=
  match t with Limit => 0 | Market => 1 | IOC => 2 | OrderType_byte b => b end.

Definition status_of_byte (b : byte) : OrderStatus :=
  if b =? 0 then Accepted else if b =? 1 then Filled else if b =? 2 then PartiallyFilled
  else if b =? 3 then Cancelled else if b =? 4 then Rejected else OrderStatus_byte b.
Definition byte_of_status (s : OrderStatus) : byte :=
  match s with
  | Accepted => 0 | Filled => 1 | PartiallyFilled => 2 | Cancelled => 3 | Rejected => 4
  | OrderStatus_byte b => b
  end.

(** The values that a byte can hold: an enumerator, or another byte. *)
Definition side_ok (s : Side) : Prop :=
  match s with Side_byte b => 2 ≤ b < 256 | _ => True end.
Definition order_type_ok (t : OrderType) : Prop :=
  match t with OrderType_byte b => 3 ≤ b < 256 | _ => True end.
Definition status_ok (s : OrderStatus) : Prop :=
  match s with OrderStatus_byte b => 5 ≤ b < 256 | _ => True end.

Ltac solve_enum :=
  intros; unfold side_ok, order_type_ok, status_ok in *;
  repeat match goal with |- context [?x =? ?y] => destruct (Z.eqb_spec x y); [lia|] end; done.

Lemma side_of_byte_of_side s : side_ok s → side_of_byte (byte_of_side s) = s.
Proof. destruct s as [| |b]; try done. simpl. unfold side_of_byte. solve_enum. Qed.
Lemma order_type_of_byte_of_order_type t :
  order_type_ok t → order_type_of_byte (byte_of_order_type t) = t.
Proof. destruct t as [| | |b]; try done. simpl. unfold order_type_of_byte. solve_enum. Qed.
Lemma status_of_byte_of_status s : status_ok s → status_of_byte (byte_of_status s) = s.
Proof. destruct s as [| | | | |b]; try done. simpl. unfold status_of_byte. solve_enum. Qed.

(** ** The symbol field *)

Definition chars (s : string) : list byte :=
  (λ c, Z.of_N (N_of_ascii c)) <$> String.list_ascii_of_string s.

Definition string_of_chars (l : list byte) : string :=
  String.string_of_list_ascii ((λ b, ascii_of_N (Z.to_N b)) <$> l).

(** [memset] to zero, then [memcpy] of at most [sizeof(symbol) - 1] characters. *)
Definition set_symbol (sym : string) : list byte :=
  let l := take 7 (chars sym) in l ++ replicate (8 - length l) 0.

(** [std::string(symbol, strnlen(symbol, sizeof(symbol)))] *)
Fixpoint until_nul (l : list byte) : list byte :=
  match l with
  | [] => []
  | b :: l => if b =? 0 then [] else b :: until_nul l
  end.

Definition get_symbol (symbol : list byte) : string := string_of_chars (until_nul (take 8 symbol)).

Lemma chars_ok s : Forall byte_ok (chars s).
Proof.
  unfold chars. apply Forall_fmap, Forall_forall. intros c _. unfold byte_ok. simpl.
  pose proof (N_ascii_bounded c). lia.
Qed.

Lemma string_of_chars_chars s : string_of_chars (chars s) = s.
Proof.
  unfold string_of_chars, chars. rewrite <-list_fmap_compose.
  rewrite <-(String.string_of_list_ascii_of_string s) at 2. f_equal.
  rewrite <-(list_fmap_id (String.list_ascii_of_string s)) at 2. apply list_fmap_ext.
  intros i c _. simpl. by rewrite N2Z.id, ascii_N_embedding.
Qed.

Lemma set_symbol_length sym : length (set_symbol sym) = 8%nat.
Proof.
  unfold set_symbol. cbv zeta. rewrite length_app, length_replicate, length_take. lia.
Qed.

Lemma set_symbol_ok sym : Forall byte_ok (set_symbol sym).
Proof.
  unfold set_symbol. apply Forall_app. split.
  - apply Forall_take, chars_ok.
  - apply Forall_replicate. unfold byte_ok. lia.
Qed.

Lemma until_nul_app l k : Forall (λ b, b ≠ 0) l → until_nul (l ++ 0 :: k) = l.
Proof.
  induction 1 as [|b l Hb _ IH]; [done|]. simpl. destruct (Z.eqb_spec b 0); [done|]. by rewrite IH.
Qed.

(** A symbol without a NUL comes back, cut to seven characters. *)
Lemma get_set_symbol sym :
  Forall (λ b, b ≠ 0) (chars sym) → get_symbol (set_symbol sym) = string_of_chars (take 7 (chars sym)).
Proof.
  intros Hn. unfold get_symbol. rewrite take_ge by (by rewrite set_symbol_length).
  f_equal. unfold set_symbol. cbv zeta.
  assert (length (take 7 (chars sym)) ≤ 7)%nat as Hl by (rewrite length_take; lia).
  destruct (8 - length (take 7 (chars sym)))%nat as [|k] eqn:E; [lia|]. simpl.
  apply until_nul_app. by apply Forall_take.
Qed.

(** ** Messages *)

Record OrderMessage := mk_order_msg {
  om_symbol : list byte;
  om_side : Side;
  om_order_type : OrderType;
  om_price : Price;
  om_quantity : Quantity;
}.

Record CancelMessage := mk_cancel_msg {
  cm_symbol : list byte;
  cm_order_id : OrderId;
}.

Record ExecutionReport := mk_report {
  er_order_id : OrderId;
  er_status : OrderStatus;
  er_price : Price;
  er_quantity : Quantity;
  er_remaining_qty : Quantity;
}.

Definition encode_order (m : OrderMessage) : list byte :=
  [byte_of_message_type NewOrder] ++ om_symbol m ++ [byte_of_side (om_side m)] ++
  [byte_of_order_type (om_order_type m)] ++ le_bytes 8 (bits_of_double (om_price m)) ++
  le_bytes 4 (om_quantity m).

(** From the 22 bytes behind the message type. *)
Definition decode_order (l : list byte) : option OrderMessage :=
  let '(sym, l) := (take 8 l, drop 8 l) in
  match l with
  | s :: t :: l =>
      if (length l =? 12)%nat then
        Some (mk_order_msg sym (side_of_byte s) (order_type_of_byte t)
                (double_of_bits (le_value (take 8 l))) (le_value (drop 8 l)))
      else None
  | _ => None
  end.

Definition encode_cancel (m : CancelMessage) : list byte :=
  [byte_of_message_type Cancel] ++ cm_symbol m ++ le_bytes 8 (cm_order_id m).

(** From the 16 bytes behind the message type. *)
Definition decode_cancel (l : list byte) : option CancelMessage :=
  if (length l =? 16)%nat then Some (mk_cancel_msg (take 8 l) (le_value (drop 8 l))) else None.

Definition encode_report (r : ExecutionReport) : list byte :=
  [byte_of_message_type ExecReport] ++ le_bytes 8 (er_order_id r) ++
  [byte_of_status (er_status r)] ++ le_bytes 8 (bits_of_double (er_price r)) ++
  le_bytes 4 (er_quantity r) ++ le_bytes 4 (er_remaining_qty r).

(** From the 25 bytes behind the message type. *)
Definition decode_report (l : list byte) : option ExecutionReport :=
  let '(oid, l) := (take 8 l, drop 8 l) in
  match l with
  | s :: l =>
      if (length l =? 16)%nat then
        Some (mk_report (le_value oid) (status_of_byte s)
                (double_of_bits (le_value (take 8 l))) (le_value (take 4 (drop 8 l)))
                (le_value (drop 12 l)))
      else None
  | _ => None
  end.

(** ** Round trips *)

Definition order_msg_ok (m : OrderMessage) : Prop :=
  length (om_symbol m) = 8%nat ∧ side_ok (om_side m) ∧ order_type_ok (om_order_type m) ∧
  double_ok (om_price m) ∧ 0 ≤ om_quantity m < 2 ^ 32.

Definition cancel_msg_ok (m : CancelMessage) : Prop :=
  length (cm_symbol m) = 8%nat ∧ 0 ≤ cm_order_id m < 2 ^ 64.

Definition report_ok (r : ExecutionReport) : Prop :=
  0 ≤ er_order_id r < 2 ^ 64 ∧ status_ok (er_status r) ∧ double_ok (er_price r) ∧
  0 ≤ er_quantity r < 2 ^ 32 ∧ 0 ≤ er_remaining_qty r < 2 ^ 32.

Lemma take_drop_app {A} n (l k : list A) :
  length l = n → take n (l ++ k) = l ∧ drop n (l ++ k) = k.
Proof. intros <-. by rewrite take_app_length, drop_app_length. Qed.

Lemma decode_encode_order m :
  order_msg_ok m → decode_order (drop 1 (encode_order m)) = Some m.
Proof.
  intros (Hl & Hs & Ht & Hp & Hq). unfold encode_order, decode_order. cbn [app drop]. rewrite drop_0.
  destruct (take_drop_app 8 (om_symbol m) (byte_of_side (om_side m) ::
    byte_of_order_type (om_order_type m) :: le_bytes 8 (bits_of_double (om_price m)) ++
    le_bytes 4 (om_quantity m)) Hl) as [-> ->].
  rewrite length_app, !le_bytes_length. cbn [Nat.add Nat.eqb].
  destruct (take_drop_app 8 (le_bytes 8 (bits_of_double (om_price m))) (le_bytes 4 (om_quantity m)))
    as [-> ->]; [apply le_bytes_length|].
  rewrite side_of_byte_of_side, order_type_of_byte_of_order_type by done.
  rewrite !le_value_bytes; [|simpl; lia|exact (bits_of_double_range _ Hp)].
  rewrite double_of_bits_of_double by done. by destruct m.
Qed.

Lemma decode_encode_cancel m :
  cancel_msg_ok m → decode_cancel (drop 1 (encode_cancel m)) = Some m.
Proof.
  intros (Hl & Hq). unfold encode_cancel, decode_cancel. cbn [app drop]. rewrite drop_0.
  rewrite length_app, le_bytes_length, Hl. cbn [Nat.add Nat.eqb].
  destruct (take_drop_app 8 (cm_symbol m) (le_bytes 8 (cm_order_id m)) Hl) as [-> ->].
  rewrite le_value_bytes by (simpl; lia). by destruct m.
Qed.

Lemma decode_encode_report r :
  report_ok r → decode_report (drop 1 (encode_report r)) = Some r.
Proof.
  intros (Hi & Hs & Hp & Hq & Hr). unfold encode_report, decode_report. cbn [app drop]. rewrite drop_0.
  destruct (take_drop_app 8 (le_bytes 8 (er_order_id r)) (byte_of_status (er_status r) ::
    le_bytes 8 (bits_of_double (er_price r)) ++ le_bytes 4 (er_quantity r) ++
    le_bytes 4 (er_remaining_qty r))) as [-> ->]; [apply le_bytes_length|].
  rewrite !length_app, !le_bytes_length. cbn [Nat.add Nat.eqb].
  destruct (take_drop_app 8 (le_bytes 8 (bits_of_double (er_price r)))
    (le_bytes 4 (er_quantity r) ++ le_bytes 4 (er_remaining_qty r))) as [-> ->];
    [apply le_bytes_length|].
  rewrite (app_assoc (le_bytes 8 _) (le_bytes 4 _)).
  destruct (take_drop_app 12 (le_bytes 8 (bits_of_double (er_price r)) ++ le_bytes 4 (er_quantity r))
    (le_bytes 4 (er_remaining_qty r))) as [_ ->]; [by rewrite length_app, !le_bytes_length|].
  destruct (take_drop_app 4 (le_bytes 4 (er_quantity r)) (le_bytes 4 (er_remaining_qty r)))
    as [-> _]; [apply le_bytes_length|].
  rewrite status_of_byte_of_status by done.
  rewrite !le_value_bytes; [|simpl; lia..|exact (bits_of_double_range _ Hp)|simpl; lia].
  rewrite double_of_bits_of_double by done. by destruct r.
Qed.

Lemma encode_order_length m : length (om_symbol m) = 8%nat → length (encode_order m) = 23%nat.
Proof. intros H. unfold encode_order. by rewrite !length_app, !le_bytes_length, H. Qed.
Lemma encode_cancel_length m : length (cm_symbol m) = 8%nat → length (encode_cancel m) = 17%nat.
Proof. intros H. unfold encode_cancel. by rewrite !length_app, !le_bytes_length, H. Qed.
Lemma encode_report_length r : length (encode_report r) = 26%nat.
Proof. unfold encode_report. by rewrite !length_app, !le_bytes_length. Qed.
