(* ===== verification/Format.v ===== *)
(** Numbers as text, the other way round: what [operator<<] of an output stream and
    [printf] of the C++ library write, in the C locale, for the format flags that the
    program uses ([std::fixed], [std::setprecision], [std::setw], [std::left],
    [std::right]).  Characters are their codes.

    A double is printed exactly rounded: its value [m * 2 ^ e] is scaled to an integer
    and rounded to nearest, ties to even, as the libraries of the platforms do.  The
    model does not keep the sign of a NaN, which is printed without one. *)

From stdpp Require Import base list strings.
From Stdlib Require Import ZArith Lia SpecFloat.
From S2P Require Import Prelude Machine Rounding Wire Numbers Protocol.

Open Scope Z_scope.
Open Scope list_scope.

(** ** Integers *)

(** Decimal digits of [n] in front of [acc], at most [fuel] of them. *)
Fixpoint dec_digits (fuel : nat) (n : Z) (acc : list byte) : list byte :=
  match fuel with
  | O => acc
  | S fuel => if n <? 10 then (48 + n) :: acc else dec_digits fuel (n / 10) ((48 + n mod 10) :: acc)
  end.

(** A number has no more decimal digits than binary ones. *)
Definition dec (n : Z) : list byte := dec_digits (S (Z.to_nat (Z.log2 n))) n [].
Definition dec_signed (z : Z) : list byte := if z <? 0 then 45 :: dec (- z) else dec z.

Definition is_digit (c : byte) : Prop := 48 ≤ c ≤ 57.

Lemma dec_digits_digits fuel n acc :
  0 ≤ n → Forall is_digit acc → Forall is_digit (dec_digits fuel n acc).
Proof.
  revert n acc. induction fuel as [|fuel IH]; intros n acc Hn Ha; simpl; [done|].
  destruct (Z.ltb_spec n 10).
  - constructor; [unfold is_digit; lia|done].
  - apply IH; [apply Z.div_pos; lia|]. constructor; [|done].
    pose proof (Z.mod_pos_bound n 10). unfold is_digit. lia.
Qed.

Lemma dec_is_digits n : 0 ≤ n → Forall is_digit (dec n).
Proof. intros Hn. by apply dec_digits_digits. Qed.

Lemma read_digit v k d l :
  0 ≤ d < 10 → read_digits 10 v k ((48 + d) :: l) = read_digits 10 (v * 10 + d) (S k) l.
Proof.
  intros Hd. simpl. unfold digit.
  rewrite (proj2 (Z.leb_le 48 (48 + d))), (proj2 (Z.leb_le (48 + d) 57)) by lia. cbn [andb].
  replace (48 + d - 48) with d by lia. by rewrite (proj2 (Z.ltb_lt d 10)) by lia.
Qed.

Lemma dec_digits_app fuel n acc : dec_digits fuel n acc = dec_digits fuel n [] ++ acc.
Proof.
  revert n acc. induction fuel as [|fuel IH]; intros n acc; simpl; [done|].
  destruct (n <? 10); [done|]. rewrite IH, (IH _ [_]), <-app_assoc. done.
Qed.

Lemma read_dec_digits fuel n v k acc :
  0 ≤ n < 10 ^ Z.of_nat fuel → (0 < fuel)%nat →
  read_digits 10 v k (dec_digits fuel n acc) =
  read_digits 10 (v * 10 ^ Z.of_nat (length (dec_digits fuel n [])) + n)
    (k + length (dec_digits fuel n []))%nat acc.
Proof.
  revert n acc. induction fuel as [|fuel IH]; intros n acc Hn Hf; [lia|]. cbn [dec_digits].
  destruct (Z.ltb_spec n 10) as [Hlt|Hge].
  { rewrite read_digit by lia. cbn [length]. by rewrite Nat.add_1_r, Z.pow_1_r. }
  rewrite Nat2Z.inj_succ, Z.pow_succ_r in Hn by lia.
  assert (0 < fuel)%nat by (destruct fuel; simpl in *; lia).
  rewrite (dec_digits_app fuel _ [_]), length_app, Nat.add_1_r.
  rewrite IH; [|split; [apply Z.div_pos; lia|apply Z.div_lt_upper_bound; lia]|done].
  rewrite read_digit by (apply Z.mod_pos_bound; lia).
  rewrite Nat.add_succ_r, Nat2Z.inj_succ, Z.pow_succ_r by lia.
  f_equal. pose proof (Z.div_mod n 10). lia.
Qed.

Lemma dec_nonempty n : ∃ c l, dec n = c :: l.
Proof.
  unfold dec. cbn [dec_digits]. destruct (n <? 10); [eauto|]. rewrite dec_digits_app.
  destruct (dec_digits _ _ []); simpl; eauto.
Qed.

(** A printed number is read back from the front of any text. *)
Lemma read_dec_app n v k l :
  0 ≤ n → read_digits 10 v k (dec n ++ l) =
    read_digits 10 (v * 10 ^ Z.of_nat (length (dec n)) + n) (k + length (dec n))%nat l.
Proof.
  intros Hn. unfold dec at 1. rewrite <-dec_digits_app. apply read_dec_digits; [|lia].
  split; [done|]. rewrite Nat2Z.inj_succ, Z2Nat.id by apply Z.log2_nonneg.
  destruct (decide (n = 0)) as [->|]; [done|].
  apply Z.lt_le_trans with (2 ^ Z.succ (Z.log2 n)); [apply Z.log2_spec; lia|].
  apply Z.pow_le_mono_l. lia.
Qed.

(** Text that does not go on with a digit. *)
Definition no_digit (l : list byte) : Prop :=
  match l with [] => True | c :: _ => digit 10 c = None end.

Lemma read_no_digit v k l : no_digit l → read_digits 10 v k l = (v, k, l).
Proof. destruct l as [|c l]; [done|]. simpl. by intros ->. Qed.

Lemma read_integer_app n l : 0 ≤ n → no_digit l → read_integer (dec n ++ l) = Some (false, n).
Proof.
  intros Hn Hl. pose proof (read_dec_app n 0 0 l Hn) as Hr. rewrite (read_no_digit _ _ l Hl) in Hr.
  pose proof (dec_is_digits n Hn) as Hd.
  destruct (dec_nonempty n) as (c & l' & E). unfold read_integer. rewrite E in *.
  apply Forall_cons in Hd as [Hc _]. unfold is_digit in Hc. cbn [app skip_space] in *.
  assert (is_space c = false) as -> by (unfold is_space; lia). cbn [read_sign].
  rewrite (proj2 (Z.eqb_neq c 45)), (proj2 (Z.eqb_neq c 43)) by lia. by rewrite Hr.
Qed.

Lemma read_integer_dec n : 0 ≤ n → read_integer (dec n) = Some (false, n).
Proof. intros Hn. rewrite <-(app_nil_r (dec n)). by apply read_integer_app. Qed.

Lemma stoull_app n l : 0 ≤ n < 2 ^ 64 → no_digit l → stoull (dec n ++ l) = Some n.
Proof.
  intros Hn Hl. unfold stoull. rewrite read_integer_app; [|lia|done]. simpl.
  by rewrite (proj2 (Z.ltb_lt n _)) by lia.
Qed.

Lemma stoull_dec n : 0 ≤ n < 2 ^ 64 → stoull (dec n) = Some n.
Proof. intros Hn. rewrite <-(app_nil_r (dec n)). by apply stoull_app. Qed.

Lemma stoll_app z l : - 2 ^ 63 ≤ z < 2 ^ 63 → no_digit l → stoll (dec_signed z ++ l) = Some z.
Proof.
  intros Hz Hl. unfold stoll, dec_signed. destruct (Z.ltb_spec z 0).
  - assert (read_integer ((45 :: dec (- z)) ++ l) = Some (true, - z)) as ->.
    { unfold read_integer. cbn -[dec read_digits]. rewrite read_dec_app by lia.
      destruct (dec_nonempty (- z)) as (c & l' & ->). by rewrite read_no_digit. }
    simpl. rewrite Z.opp_involutive. by apply to_long_small.
  - rewrite read_integer_app; [|lia|done]. simpl. by apply to_long_small.
Qed.

Lemma stoll_dec z : - 2 ^ 63 ≤ z < 2 ^ 63 → stoll (dec_signed z) = Some z.
Proof. intros Hz. rewrite <-(app_nil_r (dec_signed z)). by apply stoll_app. Qed.

(** ** Doubles *)

(** The integer nearest to [n / d], ties to even. *)
Definition round_half_even (n d : Z) : Z :=
  let q := n / d in
  match 2 * (n mod d) ?= d with
  | Lt => q
  | Gt => q + 1
  | Eq => if Z.even q then q else q + 1
  end.

(** The value [m * 2 ^ e] as a fraction. *)
Definition numerator (m : positive) (e : Z) : Z := Zpos m * 2 ^ Z.max 0 e.
Definition denominator (e : Z) : Z := 2 ^ Z.max 0 (- e).

(** [n / d * 10 ^ k] rounded. *)
Definition scaled (n d k : Z) : Z :=
  round_half_even (n * 10 ^ Z.max 0 k) (d * 10 ^ Z.max 0 (- k)).

(** The last [p] digits of [n] in front of [acc]. *)
Fixpoint last_digits (p : nat) (n : Z) (acc : list byte) : list byte :=
  match p with
  | O => acc
  | S p => last_digits p (n / 10) ((48 + n mod 10) :: acc)
  end.

(** [n / 10 ^ p] with [p] digits behind the point. *)
Definition point (p : nat) (n : Z) : list byte :=
  dec (n / 10 ^ Z.of_nat p) ++ match p with O => [] | _ => 46 :: last_digits p n [] end.

Definition minus (s : bool) : list byte := if s then [45] else [].

(** [std::fixed] with precision [p]; [%.*f]. *)
Definition show_fixed (p : nat) (x : double) : list byte :=
  match x with
  | S754_zero s => minus s ++ point p 0
  | S754_finite s m e => minus s ++ point p (scaled (numerator m e) (denominator e) (Z.of_nat p))
  | S754_infinity s => minus s ++ chars "inf"
  | S754_nan => chars "nan"
  end.

(** *** The default notation, [%g] *)

(** The decimal exponent of [n / d], for values of at least 10^-400. *)
Definition exponent (n d : Z) : Z := Z.of_nat (length (dec (n * 10 ^ 400 / d))) - 401.

(** The exponent and the [p] significant digits after rounding. *)
Definition significant (p : nat) (n d : Z) : Z * Z :=
  let x := exponent n d in
  let r := scaled n d (Z.of_nat p - 1 - x) in
  if r =? 10 ^ Z.of_nat p then (x + 1, 10 ^ (Z.of_nat p - 1)) else (x, r).

(** Zeros at the end are left out, and a point behind which nothing is left. *)
Fixpoint drop_zeros (l : list byte) : list byte :=
  match l with
  | c :: l' => if c =? 48 then drop_zeros l' else if c =? 46 then l' else l
  | [] => []
  end.
Definition trim (p : nat) (l : list byte) : list byte :=
  match p with O => l | _ => reverse (drop_zeros (reverse l)) end.

(** An exponent has a sign and at least two digits. *)
Definition show_exponent (x : Z) : list byte :=
  101 :: (if x <? 0 then 45 else 43) :: (if Z.abs x <? 10 then [48] else []) ++ dec (Z.abs x).

Definition show_general (p : nat) (x : double) : list byte :=
  let p := Nat.max 1 p in
  match x with
  | S754_zero s => minus s ++ [48]
  | S754_finite s m e =>
      let '(x, r) := significant p (numerator m e) (denominator e) in
      minus s ++
      if (-4 <=? x) && (x <? Z.of_nat p) then
        let q := Z.to_nat (Z.of_nat p - 1 - x) in
        trim q (point q (scaled (numerator m e) (denominator e) (Z.of_nat q)))
      else trim (p - 1) (point (p - 1) r) ++ show_exponent x
  | S754_infinity s => minus s ++ chars "inf"
  | S754_nan => chars "nan"
  end.

(** *** Conversion to an integer type

    [static_cast] to a signed integer of [w] bits drops the digits behind the point, and
    is undefined if the result does not fit. *)
Definition truncate (w : Z) (x : double) : option Z :=
  match x with
  | S754_zero _ => Some 0
  | S754_finite s m e =>
      let q := numerator m e / denominator e in
      let z := if s then - q else q in
      if (- 2 ^ (w - 1) <=? z) && (z <? 2 ^ (w - 1)) then Some z else None
  | _ => None
  end.

(** ** Streams *)

(** The format state of a stream. *)
Record ios := mk_ios {
  ios_fixed : bool;
  ios_precision : nat;
  ios_width : nat;
  ios_left : bool;
}.
Definition ios_new : ios := mk_ios false 6 0 false.

(** What is put into a stream with [operator<<]. *)
Inductive item :=
  | Text (l : list byte)
  | Int (z : Z)
  | Real (x : double)
  | fixed
  | setprecision (n : nat)
  | setw (n : nat)
  | left_
  | right_.

Definition pad (st : ios) (l : list byte) : list byte :=
  let fill := replicate (ios_width st - length l) 32 in
  if ios_left st then l ++ fill else fill ++ l.

(** A manipulator changes the state; a value is padded and resets the width. *)
Definition put (it : item) (st : ios) : list byte * ios :=
  let value l := (pad st l, mk_ios (ios_fixed st) (ios_precision st) 0 (ios_left st)) in
  match it with
  | Text l => value l
  | Int z => value (dec_signed z)
  | Real x => value (if ios_fixed st then show_fixed (ios_precision st) x
                     else show_general (ios_precision st) x)
  | fixed => ([], mk_ios true (ios_precision st) (ios_width st) (ios_left st))
  | setprecision n => ([], mk_ios (ios_fixed st) n (ios_width st) (ios_left st))
  | setw n => ([], mk_ios (ios_fixed st) (ios_precision st) n (ios_left st))
  | left_ => ([], mk_ios (ios_fixed st) (ios_precision st) (ios_width st) true)
  | right_ => ([], mk_ios (ios_fixed st) (ios_precision st) (ios_width st) false)
  end.

Fixpoint print (its : list item) (st : ios) : list byte * ios :=
  match its with
  | [] => ([], st)
  | it :: its =>
      let '(l, st) := put it st in
      let '(l', st) := print its st in
      (l ++ l', st)
  end.

(** Literals of the source. *)
Definition str (s : string) : item := Text (chars s).

Definition nl : item := Text [10].

Example formats :
  (string_of_chars ∘ show_general 6) <$> [dlit 1101901 0; dlit 166711 1; dlit 5 1; dlit 1 6; dofZ 250; dofZ 999999; dlit 9999995 1; dlit 12345678 3] =
  ["1.1019e+06"; "16671.1"; "0.5"; "1e-06"; "250"; "999999"; "1e+06"; "12345.7"]%string ∧
  (string_of_chars ∘ show_fixed 2) <$> [dlit 15000 2; dlit (-7037) 3; dlit 125 3; dlit 375 3; dinf; dneg dzero] =
  ["150.00"; "-7.04"; "0.12"; "0.38"; "inf"; "-0.00"]%string ∧
  string_of_chars (show_fixed 0 (dlit 25 1)) = "2"%string.
Proof. vm_compute. done. Qed.

(** ** What the text says *)

Lemma round_half_even_spec n d : 0 < d → 2 * Z.abs (d * round_half_even n d - n) ≤ d.
Proof.
  intros Hd. pose proof (Z.div_mod n d) as E. pose proof (Z.mod_pos_bound n d) as B.
  unfold round_half_even. destruct (Z.compare_spec (2 * (n mod d)) d) as [H|H|H]; [|nia..].
  destruct (Z.even (n / d)); nia.
Qed.

Lemma round_half_even_nonneg n d : 0 < d → 0 ≤ n → 0 ≤ round_half_even n d.
Proof.
  intros Hd Hn. pose proof (Z.div_pos n d Hn Hd). unfold round_half_even.
  repeat case_match; lia.
Qed.

(** Rounding an integer that is already there. *)
Lemma round_half_even_unique n d q : 0 < d → 2 * Z.abs (d * q - n) < d → round_half_even n d = q.
Proof. intros Hd Hq. pose proof (round_half_even_spec n d Hd). nia. Qed.

Lemma numerator_pos m e : 0 < numerator m e.
Proof. unfold numerator. pose proof (Z.pow_pos_nonneg 2 (Z.max 0 e)). nia. Qed.
Lemma denominator_pos e : 0 < denominator e.
Proof. unfold denominator. apply Z.pow_pos_nonneg; lia. Qed.

Lemma scaled_nonneg n d k : 0 < d → 0 ≤ n → 0 ≤ scaled n d k.
Proof.
  intros Hd Hn. pose proof (Z.pow_pos_nonneg 10 (Z.max 0 (- k))).
  pose proof (Z.pow_nonneg 10 (Z.max 0 k)). apply round_half_even_nonneg; nia.
Qed.

Lemma read_last_digits p n v k acc :
  0 ≤ n → read_digits 10 v k (last_digits p n acc) =
    read_digits 10 (v * 10 ^ Z.of_nat p + n mod 10 ^ Z.of_nat p) (k + p)%nat acc.
Proof.
  revert n acc. induction p as [|p IH]; intros n acc Hn.
  { simpl. by rewrite Z.mod_1_r, Z.mul_1_r, Z.add_0_r, Nat.add_0_r. }
  cbn [last_digits]. rewrite IH by (apply Z.div_pos; lia).
  rewrite read_digit by (apply Z.mod_pos_bound; lia). rewrite Nat.add_succ_r. f_equal.
  rewrite Nat2Z.inj_succ, Z.pow_succ_r by lia. rewrite Z.rem_mul_r by (apply Z.pow_nonzero || lia; lia). lia.
Qed.

(** A number with a point is read back, as the integer its digits form. *)
Lemma read_point p n l :
  0 ≤ n → no_digit l → (p = O → ∀ l', l ≠ 46 :: l') →
  ∃ k, read_mantissa 10 (point p n ++ l) = (n, S k, p, l).
Proof.
  intros Hn Hl Hp. assert (0 ≤ n / 10 ^ Z.of_nat p) as Hq by (apply Z.div_pos; lia).
  unfold read_mantissa, point. rewrite <-app_assoc, read_dec_app by done.
  destruct (dec_nonempty (n / 10 ^ Z.of_nat p)) as (c & l' & ->).
  rewrite Z.mul_0_l. destruct p as [|p].
  - rewrite read_no_digit by done. cbn [app length].
    rewrite Z.div_1_r. destruct l as [|c' l]; [by eexists|].
    destruct (Z.eqb_spec c' 46) as [->|]; [by destruct (Hp eq_refl l)|by eexists].
  - rewrite read_no_digit by done. cbn [app].
    assert (∀ q m acc, last_digits q m acc ++ l = last_digits q m (acc ++ l)) as Happ.
    { intros q. induction q as [|q IH]; intros m acc; [done|]. simpl. by rewrite IH. }
    rewrite Happ, read_last_digits, read_no_digit by done. cbn [app length].
    change (46 =? 46) with true. cbn iota. eexists.
    rewrite Z.add_0_l, (Z.mul_comm (n / _)), <-Z.div_mod by (apply Z.pow_nonzero; lia).
    repeat f_equal; lia.
Qed.

(** A text in front of which nothing changes when it is read as a number. *)
Lemma point_front p n l :
  0 ≤ n → ∃ c l', point p n ++ l = c :: l' ∧ is_digit c.
Proof.
  intros Hn. unfold point. pose proof (dec_is_digits (n / 10 ^ Z.of_nat p)) as Hd.
  destruct (dec_nonempty (n / 10 ^ Z.of_nat p)) as (c & l' & E). rewrite E in *. simpl.
  eexists _, _. split; [done|]. apply Forall_cons_1 in Hd as [? _]; [done|]. apply Z.div_pos; lia.
Qed.

(** [std::stod] on a number with a point. *)
Lemma stod_point p n :
  0 ≤ n → stod (point p n) = in_range n 10 (- Z.of_nat p) (round_decimal false n (- Z.of_nat p)).
Proof.
  intros Hn. destruct (read_point p n [] Hn I) as [k Hk]; [done|]. rewrite app_nil_r in Hk.
  assert (∃ c l, point p n = c :: l ∧ is_digit c ∧ match l with x :: _ => x ≠ 120 ∧ x ≠ 88 | [] => True end)
    as (c & l & E & Hc & Hl).
  { unfold point. pose proof (dec_is_digits (n / 10 ^ Z.of_nat p)) as Hd.
    destruct (dec_nonempty (n / 10 ^ Z.of_nat p)) as (c & l' & E). rewrite E in *.
    apply Forall_cons_1 in Hd as [Hc Hd]; [|apply Z.div_pos; lia].
    eexists c, _. split; [done|]. split; [done|]. destruct Hd as [|x l' Hx _]; simpl.
    - by destruct p.
    - unfold is_digit in Hx. lia. }
  unfold stod. rewrite E in *. unfold is_digit in Hc. cbn [skip_space].
  assert (is_space c = false) as -> by (unfold is_space; lia). cbn [read_sign].
  rewrite (proj2 (Z.eqb_neq c 45)), (proj2 (Z.eqb_neq c 43)) by lia. unfold read_double.
  assert (starts_with [105; 110; 102] (c :: l) = false) as -> by (cbn [starts_with]; lia).
  assert (starts_with [110; 97; 110] (c :: l) = false) as -> by (cbn [starts_with]; lia).
  assert (starts_with [48; 120] (c :: l) = false) as -> by (cbn [starts_with]; destruct l; lia).
  destruct (read_mantissa 16 _) as [[[hv hn] hf] hl]. cbn [andb]. rewrite Hk. cbn [Nat.eqb read_exponent].
  by rewrite Z.sub_0_l.
Qed.

(** The double nearest to [c / 10 ^ p] is printed with [p] digits as [c / 10 ^ p]. *)
Lemma show_fixed_dlit p c :
  0 < c < 2 ^ 50 → (1 ≤ p ≤ 250)%nat →
  show_fixed p (dlit c p) = point p c ∧ stod (point p c) = Some (dlit c p).
Proof.
  intros Hc Hp. rewrite stod_point by lia.
  assert (0 < 10 ^ Z.of_nat p < 2 ^ 900) as Hd.
  { split; [apply Z.pow_pos_nonneg; lia|].
    apply Z.le_lt_trans with (10 ^ 250); [apply Z.pow_le_mono_r; lia|done]. }
  pose proof (division_close c (10 ^ Z.of_nat p) Hc Hd) as H.
  assert (round_decimal false c (- Z.of_nat p) = dlit c p) as ->.
  { unfold round_decimal, dlit. destruct c as [|c|c]; [lia| |lia]. rewrite Z.opp_involutive.
    destruct p; [lia|done]. }
  unfold dlit. destruct c as [|c|c]; [lia| |lia].
  destruct (SFdiv_core_binary _ _ _ _ _ _) as [[q e] l]. destruct H as [He (m & n & -> & Hn & Hm & Hclose)].
  set (d := 10 ^ Z.of_nat p) in *.
  assert (0 ≤ - e) as He0 by (destruct (decide (- e < 0)); [rewrite Z.pow_neg_r in He by done; lia|lia]).
  assert (2 ^ 2 < 2 ^ (- e)) as H4 by lia. apply Z.pow_lt_mono_r_iff in H4; [|lia..].
  assert (2 ^ (- e) = 2 ^ (- (e + n)) * 2 ^ n) as Hpow by (rewrite <-Z.pow_add_r by lia; f_equal; lia).
  split.
  - cbn [show_fixed minus app]. f_equal. unfold scaled, numerator, denominator. fold d.
    rewrite !(Z.max_l 0 (e + n)), (Z.max_r 0 (- (e + n))), (Z.max_r 0 (Z.of_nat p)), Z.max_l by lia.
    fold d. rewrite !Z.mul_1_r. apply round_half_even_unique; [apply Z.pow_pos_nonneg; lia|].
    rewrite Hpow in *. pose proof (Z.pow_pos_nonneg 2 n). clear -Hclose He H. set (D := 2 ^ (- (e + n))) in *.
    apply (Z.mul_lt_mono_pos_r (2 ^ n)); [lia|]. nia.
  - unfold in_range. by rewrite (proj2 (Z.ltb_ge _ _)) by lia.
Qed.

(** ** Printing sequences *)

Lemma print_app a b st :
  print (a ++ b) st = let '(l, st1) := print a st in let '(l', st2) := print b st1 in (l ++ l', st2).
Proof.
  revert st. induction a as [|it a IH]; intros st; simpl; [by destruct (print b st)|].
  destruct (put it st) as [l st1]. rewrite IH. destruct (print a st1) as [l1 st2].
  destruct (print b st2) as [l2 st3]. by rewrite app_assoc.
Qed.

(** What a value prints without a width. *)
Definition show (st : ios) (it : item) : list byte :=
  match it with
  | Text l => l
  | Int z => dec_signed z
  | Real x => if ios_fixed st then show_fixed (ios_precision st) x else show_general (ios_precision st) x
  | _ => []
  end.
Definition value (it : item) : Prop := match it with Text _ | Int _ | Real _ => True | _ => False end.

Lemma print_values its st :
  Forall value its → ios_width st = O → print its st = (concat (show st <$> its), st).
Proof.
  intros Hits Hw. destruct st as [f p w l]. simpl in Hw. subst w.
  induction Hits as [|it its Hit _ IH]; [done|]. csimpl.
  assert (put it (mk_ios f p 0 l) = (show (mk_ios f p 0 l) it, mk_ios f p 0 l)) as ->
    by (destruct it; try done; simpl; unfold pad; simpl; destruct l; by rewrite ?app_nil_r).
  by rewrite IH.
Qed.

(** ** Lines *)

Definition no_nl : list byte → Prop := Forall (λ c, c ≠ 10).

Lemma digits_no_nl l : Forall is_digit l → no_nl l.
Proof. intros H. eapply Forall_impl; [exact H|]. unfold is_digit. simpl. lia. Qed.
Lemma dec_no_nl n : 0 ≤ n → no_nl (dec n).
Proof. intros. by apply digits_no_nl, dec_is_digits. Qed.
Lemma dec_signed_no_nl z : no_nl (dec_signed z).
Proof.
  unfold dec_signed. destruct (Z.ltb_spec z 0); [|by apply dec_no_nl].
  constructor; [done|]. apply dec_no_nl. lia.
Qed.

Lemma last_digits_digits p n acc : Forall is_digit acc → Forall is_digit (last_digits p n acc).
Proof.
  revert n acc. induction p as [|p IH]; intros n acc Ha; simpl; [done|]. apply IH.
  constructor; [|done]. pose proof (Z.mod_pos_bound n 10). unfold is_digit. lia.
Qed.

Lemma point_no_nl p n : 0 ≤ n → no_nl (point p n).
Proof.
  intros Hn. unfold point. apply Forall_app. split; [apply dec_no_nl, Z.div_pos; lia|].
  destruct p; [constructor|]. constructor; [done|]. by apply digits_no_nl, last_digits_digits.
Qed.

Lemma trim_no_nl p l : no_nl l → no_nl (trim p l).
Proof.
  intros Hl. destruct p; [done|]. unfold no_nl, trim in *. apply Forall_reverse.
  apply Forall_reverse in Hl. induction Hl as [|c l' Hc Hl IH]; [done|]. simpl.
  destruct (c =? 48); [done|]. destruct (c =? 46); [done|]. by constructor.
Qed.

Lemma minus_no_nl s : no_nl (minus s).
Proof. destruct s; repeat constructor. done. Qed.

Lemma show_general_no_nl p x : no_nl (show_general p x).
Proof.
  assert (no_nl (chars "inf") ∧ no_nl (chars "nan")) as [Hinf Hnan] by (by split; repeat constructor).
  unfold show_general. destruct x as [s|s| |s m e]; try done;
    (try (apply Forall_app; split; [apply minus_no_nl|])); [by repeat constructor|done|].
  pose proof (numerator_pos m e) as Hnum. pose proof (denominator_pos e) as Hden.
  destruct (significant _ _ _) as [x r] eqn:E. apply Forall_app. split; [apply minus_no_nl|].
  assert (0 ≤ r) as Hr.
  { unfold significant in E. destruct (_ =? _); simplify_eq; [apply Z.pow_nonneg; lia|].
    apply scaled_nonneg; lia. }
  destruct (_ && _).
  - apply trim_no_nl, point_no_nl, scaled_nonneg; lia.
  - apply Forall_app. split; [by apply trim_no_nl, point_no_nl|]. unfold show_exponent.
    constructor; [done|]. constructor; [by destruct (x <? 0)|]. apply Forall_app.
    split; [destruct (_ <? 10); by repeat constructor|]. apply dec_no_nl. lia.
Qed.

(** Fixed notation is the nearest decimal: it is at most half a unit of its last digit
    away, and reading it gives that decimal back. *)
Lemma show_fixed_spec p s m e :
  ∃ n, 0 ≤ n ∧ show_fixed p (S754_finite s m e) = minus s ++ point p n ∧
    2 * Z.abs (denominator e * n - numerator m e * 10 ^ Z.of_nat p) ≤ denominator e.
Proof.
  pose proof (numerator_pos m e). pose proof (denominator_pos e).
  exists (scaled (numerator m e) (denominator e) (Z.of_nat p)).
  split; [apply scaled_nonneg; lia|]. split; [done|]. unfold scaled.
  rewrite (Z.max_r 0 (Z.of_nat p)), (Z.max_l 0 (- Z.of_nat p)), Z.mul_1_r by lia.
  by apply round_half_even_spec.
Qed.
