(* ===== verification/Layout.v ===== *)
(** The memory layout of the structs: include/core/Order.h, include/network/Protocol.h and
    tools/print_sizes.cpp.

    [place] follows the rule of the common ABIs for structs of scalars and arrays: a field
    goes to the next offset that its alignment divides, under [#pragma pack(1)] to the
    next offset; the struct is as aligned as its most aligned field, and its size is
    rounded up to that. *)

From stdpp Require Import base list strings.
From Stdlib Require Import ZArith Lia.
From S2P Require Import Prelude Machine Types Wire Protocol Format.

Open Scope Z_scope.
Open Scope list_scope.

(** ** Types and structs *)

Inductive ctype := uint8 | uint32 | uint64 | float64 | char_array (n : Z).

Definition sizeof_type (t : ctype) : Z :=
  match t with uint8 => 1 | uint32 => 4 | uint64 => 8 | float64 => 8 | char_array n => n end.
Definition alignof_type (t : ctype) : Z :=
  match t with uint8 => 1 | uint32 => 4 | uint64 => 8 | float64 => 8 | char_array _ => 1 end.

Record struct := mk_struct { packed : bool; fields : list ctype }.

(** The alignment of a field of the struct. *)
Definition field_align (s : struct) (t : ctype) : Z := if packed s then 1 else alignof_type t.

Definition round_up (x a : Z) : Z := (x + a - 1) / a * a.

(** The offsets of the fields from offset [off] on, and where the last one ends. *)
Fixpoint place (align : ctype → Z) (off : Z) (ts : list ctype) : list Z * Z :=
  match ts with
  | [] => ([], off)
  | t :: ts =>
      let o := round_up off (align t) in
      let '(os, e) := place align (o + sizeof_type t) ts in
      (o :: os, e)
  end.

Definition offsets (s : struct) : list Z := (place (field_align s) 0 (fields s)).1.
Definition alignof (s : struct) : Z := foldr Z.max 1 (field_align s <$> fields s).
Definition sizeof (s : struct) : Z := round_up (place (field_align s) 0 (fields s)).2 (alignof s).

(** ** The structs of the program *)

(** [Side], [OrderType], [OrderStatus] and [MessageType] are [enum class : uint8_t]. *)
Definition Order_struct : struct :=
  mk_struct false [uint64; float64; uint32; uint32; uint64; uint8; uint8; uint8].
Definition Trade_struct : struct := mk_struct false [uint64; uint64; float64; uint32; uint64].
Definition OrderMessage_struct : struct :=
  mk_struct true [uint8; char_array 8; uint8; uint8; float64; uint32].
Definition CancelMessage_struct : struct := mk_struct true [uint8; char_array 8; uint64].
Definition ExecutionReport_struct : struct :=
  mk_struct true [uint8; uint64; uint8; float64; uint32; uint32].

(** tools/print_sizes.cpp *)
Definition print_sizes : list item :=
  [str "sizeof(Order)            = "; Int (sizeof Order_struct); str " bytes (alignof ";
   Int (alignof Order_struct); str ")"; nl;
   str "sizeof(Trade)            = "; Int (sizeof Trade_struct); str " bytes"; nl;
   str "Orders per 64-byte line  = "; Int (64 / sizeof Order_struct); nl;
   str "sizeof(OrderMessage)     = "; Int (sizeof OrderMessage_struct); str " bytes"; nl;
   str "sizeof(CancelMessage)    = "; Int (sizeof CancelMessage_struct); str " bytes"; nl;
   str "sizeof(ExecutionReport)  = "; Int (sizeof ExecutionReport_struct); str " bytes"; nl].

(** The output that results/struct_sizes.txt keeps. *)
Example struct_sizes_txt :
  string_of_chars (print print_sizes ios_new).1 =
"sizeof(Order)            = 40 bytes (alignof 8)
sizeof(Trade)            = 40 bytes
Orders per 64-byte line  = 1
sizeof(OrderMessage)     = 23 bytes
sizeof(CancelMessage)    = 17 bytes
sizeof(ExecutionReport)  = 26 bytes
"%string.
Proof. vm_compute. reflexivity. Qed.

(** An order has 35 bytes of fields, the last ends there: all padding is behind them. *)
Example order_no_interior_padding :
  offsets Order_struct = [0; 8; 16; 20; 24; 32; 33; 34] ∧
  foldr Z.add 0 (sizeof_type <$> fields Order_struct) = 35 ∧
  (place (field_align Order_struct) 0 (fields Order_struct)).2 = 35.
Proof. vm_compute. done. Qed.

(** ** The rule is sound *)

Lemma round_up_spec x a : 0 < a → x ≤ round_up x a < x + a ∧ (a | round_up x a).
Proof.
  intros Ha. unfold round_up. pose proof (Z.div_mod (x + a - 1) a). pose proof (Z.mod_pos_bound (x + a - 1) a).
  split; [lia|]. by exists ((x + a - 1) / a).
Qed.

(** Fields of types [ts] at the offsets [os], none before [lo] or behind [hi]. *)
Fixpoint placed (align : ctype → Z) (lo hi : Z) (ts : list ctype) (os : list Z) : Prop :=
  match ts, os with
  | [], [] => lo ≤ hi
  | t :: ts, o :: os => lo ≤ o ∧ (align t | o) ∧ placed align (o + sizeof_type t) hi ts os
  | _, _ => False
  end.

Lemma place_spec align off ts :
  (∀ t, 0 < align t) →
  let '(os, e) := place align off ts in ∀ hi, e ≤ hi → placed align off hi ts os.
Proof.
  intros Ha. revert off. induction ts as [|t ts IH]; intros off; simpl; [done|].
  specialize (IH (round_up off (align t) + sizeof_type t)). destruct (place _ _ ts) as [os e]. simpl.
  intros hi Hhi. destruct (round_up_spec off (align t) (Ha t)) as [? ?]. split; [lia|]. split; [done|]. by apply IH.
Qed.

Lemma place_packed off ts :
  (place (λ _, 1) off ts).2 = off + foldr Z.add 0 (sizeof_type <$> ts).
Proof.
  revert off. induction ts as [|t ts IH]; intros off; csimpl; [lia|].
  specialize (IH (round_up off 1 + sizeof_type t)). destruct (place _ _ ts) as [os e]. simpl in IH |- *.
  unfold round_up in *. rewrite Z.div_1_r in IH. lia.
Qed.

(** The layout of any struct: every field at a multiple of its alignment, behind the one
    before it, and inside the struct, whose size is a multiple of its alignment, so that
    the elements of an array are aligned too; a packed struct has the size of its fields. *)
Theorem layout_sound s :
  placed (field_align s) 0 (sizeof s) (fields s) (offsets s) ∧ (alignof s | sizeof s) ∧
  (packed s = true → sizeof s = foldr Z.add 0 (sizeof_type <$> fields s)).
Proof.
  assert (∀ t, 0 < field_align s t) as Ha.
  { intros t. unfold field_align. destruct (packed s); [lia|]. destruct t; simpl; lia. }
  assert (0 < alignof s) as Hal.
  { unfold alignof. induction (field_align s <$> fields s); simpl; lia. }
  unfold sizeof, offsets. destruct (round_up_spec (place (field_align s) 0 (fields s)).2 (alignof s) Hal) as [Hr Hdiv].
  split; [|split; [done|]].
  - pose proof (place_spec (field_align s) 0 (fields s) Ha) as H. destruct (place _ _ _) as [os e]. apply H. simpl in *. lia.
  - intros Hp. assert (alignof s = 1) as ->.
    { unfold alignof, field_align. rewrite Hp. clear. induction (fields s) as [|t ts IH]; [done|]. csimpl. by rewrite IH. }
    unfold round_up, field_align. rewrite Hp, place_packed, Z.div_1_r. lia.
Qed.

(** The messages on the wire have the sizes of their structs. *)
Theorem message_sizes m c r :
  order_msg_ok m → cancel_msg_ok c →
  Z.of_nat (length (encode_order m)) = sizeof OrderMessage_struct ∧
  Z.of_nat (length (encode_cancel c)) = sizeof CancelMessage_struct ∧
  Z.of_nat (length (encode_report r)) = sizeof ExecutionReport_struct.
Proof.
  intros [Hm _] [Hc _].
  by rewrite encode_order_length, encode_cancel_length, encode_report_length by done.
Qed.
