(* ===== verification/Typing.v ===== *)
(** The types of the program: every value that the engine keeps or answers fits the C++
    type of its field, when the arguments of the calls do.

    [order_typed], [trade_typed] and [stats_typed] state the ranges of the fields of
    [Order], [Trade] and [EngineStats]; enumerations hold an enumerator or another byte.
    The model computes with unbounded integers wherever the source cannot wrap, so that
    these are theorems and not definitions. *)

From stdpp Require Import base list gmap strings.
From Stdlib Require Import ZArith Lia.
From S2P Require Import Prelude Machine StdMap Types ObjectPool OrderBook PriceTime.
From S2P Require Import BookInv BookOps MatchingEngine MatchRefine EngineSpec Exchange.
From S2P Require Import Wire Protocol.

Open Scope Z_scope.
Open Scope list_scope.

Definition is_u32 (x : Z) : Prop := 0 ≤ x < 2 ^ 32.
Definition is_u64 (x : Z) : Prop := 0 ≤ x < 2 ^ 64.

Definition order_typed (o : Order) : Prop :=
  is_u64 (id o) ∧ double_ok (price o) ∧ 0 ≤ remaining_qty o ≤ quantity o ∧ is_u32 (quantity o) ∧
  is_u64 (timestamp o) ∧ side_ok (side o) ∧ order_type_ok (type o) ∧ status_ok (status o).
Definition trade_typed (t : Trade) : Prop :=
  is_u64 (buy_order_id t) ∧ is_u64 (sell_order_id t) ∧ double_ok (trade_price t) ∧
  is_u32 (trade_quantity t) ∧ is_u64 (trade_timestamp t).
Definition stats_typed (st : EngineStats) : Prop :=
  is_u64 (total_orders st) ∧ is_u64 (total_trades st) ∧ is_u64 (total_cancels st) ∧
  is_u64 (total_rejects st) ∧ is_u64 (total_volume st) ∧ is_u64 (total_latency_ns st) ∧
  is_u64 (min_latency_ns st) ∧ is_u64 (max_latency_ns st).
Definition market_typed (M : MarketState) : Prop :=
  Forall order_typed (bids M) ∧ Forall order_typed (asks M).
Definition engine_typed (e : MatchingEngine) : Prop :=
  (∀ sym, market_typed (market (book_of sym e))) ∧ stats_typed (stats_ e).
Definition response_typed (r : response) : Prop :=
  match r with RSubmit oid ts => is_u64 oid ∧ Forall trade_typed ts | _ => True end.

(** The arguments of a call fit their types. *)
Definition op_typed (o : op) : Prop :=
  match o with
  | OpSubmit clock _ s t p q =>
      (∀ n, is_u64 (clock n)) ∧ side_ok s ∧ order_type_ok t ∧ double_ok p ∧ is_u32 q
  | OpCancel _ oid => is_u64 oid
  | OpReduce _ oid q => is_u64 oid ∧ is_u32 q
  end.

(** ** Orders and queues *)

Lemma order_typed_remaining q o :
  order_typed o → 0 ≤ q ≤ remaining_qty o → order_typed (set_remaining q o).
Proof. unfold order_typed. intros (? & ? & ? & ? & ? & ? & ? & ?) ?. simpl. split_and!; try done; lia. Qed.

Lemma order_typed_status o : order_typed o → order_typed (match_status o).
Proof.
  intros (? & ? & ? & ? & ? & ? & ? & ?). unfold match_status, order_typed.
  repeat case_match; simpl; split_and!; try done; lia.
Qed.

Lemma match_queue_typed buy clock inc opp ts inc' opp' :
  (∀ n, is_u64 (clock n)) → order_typed inc → Forall order_typed opp →
  match_queue buy clock inc opp = (ts, inc', opp') →
  Forall trade_typed ts ∧ order_typed inc' ∧ Forall order_typed opp'.
Proof.
  intros Hc Hinc Hopp. revert clock inc ts inc' opp' Hc Hinc.
  induction Hopp as [|r rest Hr Hrest IH]; intros clock inc ts inc' opp' Hc Hinc; simpl.
  { intros [= <- <- <-]. done. }
  destruct (_ && _); [|intros [= <- <- <-]; by split_and!; [constructor| |constructor]].
  set (q := Z.min (remaining_qty inc) (remaining_qty r)).
  assert (0 ≤ q ≤ remaining_qty inc ∧ q ≤ remaining_qty r) as [Hq Hqr].
  { unfold q. destruct Hinc as (_ & _ & ? & _), Hr as (_ & _ & ? & _). lia. }
  assert (trade_typed (trade_of buy inc r q (clock 0%nat))) as Ht.
  { destruct Hinc as (? & _ & ? & [? ?] & _), Hr as (? & ? & _).
    unfold trade_typed. destruct buy; simpl; split_and!; try done; unfold is_u32; lia. }
  assert (order_typed (set_remaining (remaining_qty inc - q) inc)) as Hinc'
    by (apply order_typed_remaining; [done|lia]).
  destruct (_ =? 0).
  - destruct (match_queue buy (λ n, clock (S n)) _ rest) as [[ts1 inc1] opp1] eqn:E.
    intros [= <- <- <-]. apply IH in E as (? & ? & ?); [|by intros n|done]. split_and!; auto.
  - intros [= <- <- <-]. split_and!; [auto|done|]. constructor; [|done]. apply order_typed_remaining; [done|lia].
Qed.

Lemma enqueue_typed buy o l : order_typed o → Forall order_typed l → Forall order_typed (enqueue buy o l).
Proof. intros Ho Hl. rewrite enqueue_perm. by constructor. Qed.

Lemma dequeue_typed oid l : Forall order_typed l → Forall order_typed (dequeue oid l).
Proof. rewrite !Forall_forall. eauto using dequeue_elem. Qed.

Lemma queue_typed buy M : market_typed M → Forall order_typed (queue buy M).
Proof. intros []. by destruct buy. Qed.

Lemma set_queue_typed buy l M : market_typed M → Forall order_typed l → market_typed (set_queue buy l M).
Proof. intros [] ?. by destruct buy. Qed.

(** ** The calls *)

Lemma effective_price_typed s t p : double_ok p → double_ok (effective_price s t p).
Proof. unfold effective_price. destruct (is_market t), (is_buy s); try done; intros _; vm_compute; auto. Qed.

Lemma spec_submit_typed clock s t p q M oid ts M' :
  op_typed (OpSubmit clock "" s t p q) → market_typed M → 0 ≤ next_id M < 2 ^ 64 →
  spec_submit clock s t p q M = (oid, ts, M') →
  is_u64 oid ∧ Forall trade_typed ts ∧ market_typed M'.
Proof.
  intros (Hc & Hs & Ht & Hp & Hq) HM Hn. unfold spec_submit. destruct (invalid_order t p q).
  { intros [= <- <- <-]. by split_and!. }
  set (o := Order_new _ _ _ _ _ _).
  assert (order_typed o) as Ho.
  { unfold order_typed. simpl. destruct Hq. split_and!; try done; try lia. by apply effective_price_typed. }
  destruct (match_queue _ _ _ _) as [[ts' inc] opp] eqn:E.
  apply match_queue_typed in E as (H1 & H2 & H3); [|by intros n|done|by apply queue_typed].
  intros [= <- <- <-]. split; [done|]. split; [done|].
  assert (market_typed (set_queue (negb (is_buy s)) opp (mk_market (bids M) (asks M) (next_id M + 1)))) as HM'
    by (by apply set_queue_typed).
  destruct (_ || _); [done|]. apply set_queue_typed; [done|].
  apply enqueue_typed; [by apply order_typed_status|by apply queue_typed].
Qed.

Lemma spec_cancel_typed oid M : market_typed M → market_typed (spec_cancel oid M).2.
Proof. intros []. by split; apply dequeue_typed. Qed.

(** A reduction gives an order fewer shares than it had: an order with more than [q] is
    reduced to [q]. *)
Lemma spec_reduce_typed oid q M :
  is_u32 q → NoDup (id <$> (bids M ++ asks M)) → market_typed M → market_typed (spec_reduce oid q M).2.
Proof.
  intros Hq Hnd [Hb Ha]. unfold spec_reduce. simpl. destruct (existsb _ _) eqn:E; [|done].
  apply existsb_exists in E as (o & Ho%list_elem_of_In & Ht). apply andb_true_iff in Ht as [Hid Hlt].
  assert (∀ l, Forall order_typed l → (∀ x, x ∈ l → x ∈ bids M ++ asks M) →
    Forall order_typed (reduce_queue oid q l)) as Hred; cycle 1.
  { split; apply Hred; try done; intros x Hx; apply elem_of_app; auto. }
  intros l Hl Hin. unfold reduce_queue. destruct (q =? 0); [by apply dequeue_typed|].
  apply Forall_fmap. rewrite Forall_forall in Hl |- *. intros x Hx. simpl. case_decide as Hxid; [|auto].
  apply order_typed_remaining; [auto|]. destruct Hq.
  assert (x = o) as ->; [|lia]. eapply (NoDup_fmap_inj id); [exact Hnd|auto|done|lia].
Qed.

Lemma submit_stats_typed clock rejected ts st :
  stats_typed st → stats_typed (submit_stats clock rejected ts st).
Proof.
  assert (∀ x, is_u64 (u64 x)) as Hu by apply u64_range.
  intros Hst. assert (stats_typed (count_order st)) as Hco.
  { destruct Hst as (? & ? & ? & ? & ? & ? & ? & ?). split_and!; simpl; try done; apply Hu. }
  unfold submit_stats. destruct rejected.
  { destruct Hco as (? & ? & ? & ? & ? & ? & ? & ?). by split_and!; simpl in *. }
  assert (stats_typed (foldl (λ st t, count_trade t st) (count_order st) ts)) as Hct.
  { revert Hco. generalize (count_order st). induction ts as [|t ts IH]; intros st' Hst'; [done|]. simpl.
    apply IH. destruct Hst' as (? & ? & ? & ? & ? & ? & ? & ?). by split_and!; simpl. }
  destruct Hct as (? & ? & ? & ? & ? & ? & ? & ?).
  pose proof (Hu (clock (2 + length ts)%nat - clock 0%nat)) as Hl. revert Hl.
  generalize (u64 (clock (2 + length ts)%nat - clock 0%nat)). intros latency Hl.
  split_and!; simpl; try done; unfold is_u64 in *; try apply Hu; lia.
Qed.

Lemma run_op_typed o e r e' :
  engine_ok e → engine_typed e → op_typed o → op_ok o → next_order_id_ (book_of (op_symbol o) e) + 1 < 2 ^ 64 →
  run_op o e = Some (r, e') → engine_typed e' ∧ response_typed r.
Proof.
  intros He [HM Hst] Ht Hok Hn. destruct o as [clock sym s t p q|sym oid|sym oid q]; cbn [run_op op_symbol op_ok] in *.
  - destruct Hok as [Hp Hq].
    destruct (submit_order_spec recorder clock sym s t p q e [] He Hp Hq Hn)
      as (oid & ts & M' & e1 & Hspec & -> & _ & HM1 & Hoth & Hst1). cbn [mbind option_bind].
    rewrite recorder_notify. intros [= <- <-].
    destruct (book_of_ok e sym He) as [Hb _]. pose proof (wf_next _ (ok_wf _ Hb)).
    destruct (spec_submit_typed clock s t p q _ oid ts M' Ht (HM sym)) as (H1 & H2 & H3); [simpl; lia|done|].
    split; [|done]. split; [|rewrite Hst1; by apply submit_stats_typed].
    intros sym'. destruct (decide (sym' = sym)) as [->|Hne]; [by rewrite HM1|]. by rewrite Hoth.
  - destruct (cancel_order_engine_spec sym oid e He) as (c & e1 & -> & Hspec & _ & Hoth & Hst1).
    cbn [mbind option_bind]. intros [= <- <-]. split; [|done]. split.
    + intros sym'. destruct (decide (sym' = sym)) as [->|Hne]; [|by rewrite Hoth].
      pose proof (spec_cancel_typed oid _ (HM sym)) as Hc. by rewrite Hspec in Hc.
    + rewrite Hst1. destruct c; [|done]. destruct Hst as (? & ? & ? & ? & ? & ? & ? & ?).
      split_and!; simpl; try done. apply u64_range.
  - destruct Ht as [_ Hq]. destruct (engine_reduce_spec sym oid q e He) as (c & e1 & -> & Hspec & _ & Hoth & Hst1);
      [destruct Hq; lia|]. cbn [mbind option_bind]. intros [= <- <-]. split; [|done]. split; [|by rewrite Hst1].
    intros sym'. destruct (decide (sym' = sym)) as [->|Hne]; [|by rewrite Hoth].
    destruct (book_of_ok e sym He) as [Hb _].
    pose proof (spec_reduce_typed oid q (market (book_of sym e)) Hq (order_ids_NoDup _ (ok_wf _ Hb)) (HM sym)) as Hc. by rewrite Hspec in Hc.
Qed.

Lemma engine_typed_new : engine_typed MatchingEngine_new.
Proof. split; [intros sym; by split|]. by split_and!. Qed.

(** C17: with arguments that fit their C++ types and are no NaN prices of orders that
    could rest or match ([op_ok]), every sequence of fewer than 2^64 - 1 calls runs, and every
    resting order, every trade, every identifier that is answered and every counter of
    the engine fits its type: 64-bit identifiers, times and counters, 32-bit quantities
    with no more left than was ordered, doubles and enumeration bytes. *)
Theorem engine_values_typed os :
  Forall op_typed os → Forall op_ok os → Z.of_nat (length os) + 1 < 2 ^ 64 →
  ∃ rs e, run_ops os MatchingEngine_new = Some (rs, e) ∧ engine_typed e ∧ Forall response_typed rs.
Proof.
  intros Hty Hok Hlen.
  cut (∀ e n, engine_ok e → engine_typed e → (∀ sym, next_order_id_ (book_of sym e) ≤ n) →
    n + Z.of_nat (length os) < 2 ^ 64 →
    ∃ rs e', run_ops os e = Some (rs, e') ∧ engine_typed e' ∧ Forall response_typed rs).
  { intros H. apply (H _ 1); [apply MatchingEngine_new_ok|apply engine_typed_new|done|lia]. }
  clear Hlen. induction os as [|o os IH]; intros e n He Het Hn Hlt; [by exists [], e|].
  apply Forall_cons in Hty as [Hty Htys], Hok as [Hok Hoks]. cbn [run_ops length] in *.
  destruct (run_op_spec o e He Hok) as (r & e1 & Hr & Hspec & He1 & Hoth).
  { specialize (Hn (op_symbol o)). lia. }
  destruct (run_op_typed o e r e1 He Het Hty Hok) as [Het1 Hrt]; [specialize (Hn (op_symbol o)); lia|done|].
  destruct (IH Htys Hoks e1 (n + 1) He1 Het1) as (rs & e' & Hrs & Het' & Hrts).
  - intros sym. destruct (decide (sym = op_symbol o)) as [->|Hne]; [|rewrite Hoth by done; specialize (Hn sym); lia].
    apply spec_op_next_id in Hspec. specialize (Hn (op_symbol o)). simpl in Hspec. lia.
  - lia.
  - run Hr. run Hrs. eexists _, e'. split; [done|]. split; [done|]. by constructor.
Qed.

Definition typed_ops : list op :=
  [OpSubmit (λ _, 7) "AAPL" Sell Limit (dlit 10050 2) 10; OpReduce "AAPL" 1 6; OpCancel "AAPL" 1].

Lemma engine_values_typed_witness :
  ∃ rs e, run_ops typed_ops MatchingEngine_new = Some (rs, e) ∧ engine_typed e ∧ Forall response_typed rs.
Proof.
  apply engine_values_typed; [| |reflexivity].
  - apply Forall_cons_2; [split_and!; try done; by right|].
    apply Forall_cons_2; [done|]. apply Forall_cons_2; [done|apply Forall_nil_2].
  - apply Forall_cons_2; [split; [intros _; by right|lia]|].
    apply Forall_cons_2; [simpl; lia|]. apply Forall_cons_2; [done|apply Forall_nil_2].
Defined.
