(* ===== verification/TcpServer.v ===== *)
(** The TCP front end: [TcpServer::handle_client] of src/network/TcpServer.cpp, which
    reads messages from one connection, runs the risk checks, calls the engine and
    answers with execution reports.

    A connection is the list of bytes the client sends before it closes its end.
    [recv] with MSG_WAITALL returns the bytes asked for, or fewer at the end of the
    connection.  The source only tests whether it got any; a message that is cut short
    is then read with bytes that were never written, which is [None] here.

    The trade callback runs inside the engine's [submit_order] and may update the risk
    checker ([main_trade_callback] does); its state is [Some] checker, or [None] after
    an overflow.  [running i] is what the [i]-th test of the [running_] flag reads, and
    [clocks i] gives the clock values during the [i]-th message. *)

From stdpp Require Import base list gmap strings.
From Stdlib Require Import ZArith Lia.
From S2P Require Import Prelude Machine Types OrderBook MatchingEngine RiskChecker.
From S2P Require Import Wire Protocol.

Open Scope Z_scope.

Record Server := mk_server {
  engine_ : MatchingEngine;
  risk_ : option RiskChecker;
}.

(** [recv(fd, buf, n, MSG_WAITALL)]: the bytes read and those that remain. *)
Definition recv (n : nat) (input : list byte) : list byte * list byte :=
  (take n input, drop n input).

Section server.
Context (trade_callback_ : option (Trade → option RiskChecker → option RiskChecker)).

(** The pre-trade gate; a null [risk_] lets everything pass. *)
Definition risk_gate (m : OrderMessage) (srv : Server) : option (RejectReason * Server) :=
  match risk_ srv with
  | None => Some (Reason_None, srv)
  | Some rc =>
      '(reason, rc) ← check (get_symbol (om_symbol m)) (om_side m) (om_order_type m)
                        (om_price m) (om_quantity m) rc;
      Some (reason, mk_server (engine_ srv) (Some rc))
  end.

(** The report for an order that a check rejects. *)
Definition reject_report (m : OrderMessage) : ExecutionReport :=
  {| er_order_id := 0; er_status := Rejected; er_price := om_price m;
     er_quantity := om_quantity m; er_remaining_qty := om_quantity m |}.

(** The call of the engine and the report on it. *)
Definition submit_message (clock : nat → Timestamp) (m : OrderMessage) (srv : Server)
    : option (ExecutionReport * Server) :=
  '(oid, e, rc) ← submit_order trade_callback_ clock (get_symbol (om_symbol m)) (om_side m)
                    (om_order_type m) (om_price m) (om_quantity m) (engine_ srv) (risk_ srv);
  rc ← (match risk_ srv with None => Some None | Some _ => Some <$> rc end);
  Some ({| er_order_id := oid; er_status := if oid >? 0 then Accepted else Rejected;
           er_price := om_price m; er_quantity := om_quantity m;
           er_remaining_qty := om_quantity m |},
        mk_server e rc).

(** The branch of a NewOrder message, up to the report it sends. *)
Definition handle_order (clock : nat → Timestamp) (m : OrderMessage) (srv : Server)
    : option (ExecutionReport * Server) :=
  '(reason, srv) ← risk_gate m srv;
  if decide (reason = Reason_None) then submit_message clock m srv
  else Some (reject_report m, srv).

(** The branch of a Cancel message. *)
Definition handle_cancel (m : CancelMessage) (srv : Server)
    : option (ExecutionReport * Server) :=
  '(cancelled, e) ← MatchingEngine.cancel_order (get_symbol (cm_symbol m)) (cm_order_id m) (engine_ srv);
  Some ({| er_order_id := cm_order_id m;
           er_status := if (cancelled : bool) then Cancelled else Rejected;
           er_price := dzero; er_quantity := 0; er_remaining_qty := 0 |},
        mk_server e (risk_ srv)).

(** The loop; [fuel] bounds its rounds, [i] counts them. *)
Fixpoint handle_client (fuel : nat) (running : nat → bool) (clocks : nat → nat → Timestamp)
    (i : nat) (input : list byte) (srv : Server) : option (list ExecutionReport * Server) :=
  match fuel with
  | O => None
  | S fuel =>
      if running i then
        match recv 1 input with
        | (b :: _, input) =>
            match message_type_of_byte b with
            | NewOrder =>
                match recv 22 input with
                | ([], _) => Some ([], srv)
                | (buf, input) =>
                    m ← decode_order buf;
                    '(report, srv) ← handle_order (clocks i) m srv;
                    '(reports, srv) ← handle_client fuel running clocks (S i) input srv;
                    Some (report :: reports, srv)
                end
            | Cancel =>
                match recv 16 input with
                | ([], _) => Some ([], srv)
                | (buf, input) =>
                    m ← decode_cancel buf;
                    '(report, srv) ← handle_cancel m srv;
                    '(reports, srv) ← handle_client fuel running clocks (S i) input srv;
                    Some (report :: reports, srv)
                end
            | _ => handle_client fuel running clocks (S i) input srv
            end
        | ([], _) => Some ([], srv)
        end
      else Some ([], srv)
  end.

(** ** Messages instead of bytes *)

Inductive client_message := MOrder (m : OrderMessage) | MCancel (m : CancelMessage).

Definition encode_message (m : client_message) : list byte :=
  match m with MOrder m => encode_order m | MCancel m => encode_cancel m end.

Definition message_ok (m : client_message) : Prop :=
  match m with MOrder m => order_msg_ok m | MCancel m => cancel_msg_ok m end.

Definition handle_message (clock : nat → Timestamp) (m : client_message) (srv : Server)
    : option (ExecutionReport * Server) :=
  match m with MOrder m => handle_order clock m srv | MCancel m => handle_cancel m srv end.

Fixpoint serve (clocks : nat → nat → Timestamp) (i : nat) (ms : list client_message)
    (srv : Server) : option (list ExecutionReport * Server) :=
  match ms with
  | [] => Some ([], srv)
  | m :: ms =>
      '(report, srv) ← handle_message (clocks i) m srv;
      '(reports, srv) ← serve clocks (S i) ms srv;
      Some (report :: reports, srv)
  end.

(** One round of the loop on a complete message. *)
Lemma handle_client_message fuel clocks i m input srv :
  message_ok m →
  handle_client (S fuel) (λ _, true) clocks i (encode_message m ++ input) srv =
  ('(report, srv) ← handle_message (clocks i) m srv;
   '(reports, srv) ← handle_client fuel (λ _, true) clocks (S i) input srv;
   Some (report :: reports, srv)).
Proof.
  intros Hm. destruct m as [m|m]; cbn [encode_message].
  - set (l := drop 1 (encode_order m)). assert (length l = 22%nat) as Hl.
    { unfold l. rewrite length_drop, encode_order_length by apply Hm. done. }
    assert (encode_order m = 1 :: l) as -> by done.
    destruct (take_drop_app 22 l input Hl) as [Ht Hd]. pose proof (decode_encode_order m Hm) as Hdec.
    cbn [handle_client recv take drop app]. rewrite drop_0, Ht, Hd. fold l in Hdec.
    change (message_type_of_byte 1) with NewOrder. cbn iota. rewrite Hdec.
    destruct l; done.
  - set (l := drop 1 (encode_cancel m)). assert (length l = 16%nat) as Hl.
    { unfold l. rewrite length_drop, encode_cancel_length by apply Hm. done. }
    assert (encode_cancel m = 2 :: l) as -> by done.
    destruct (take_drop_app 16 l input Hl) as [Ht Hd]. pose proof (decode_encode_cancel m Hm) as Hdec.
    cbn [handle_client recv take drop app]. rewrite drop_0, Ht, Hd. fold l in Hdec.
    change (message_type_of_byte 2) with Cancel. cbn iota. rewrite Hdec.
    destruct l; done.
Qed.
(** The bytes of a sequence of messages are served message by message. *)
Lemma handle_client_messages fuel clocks i ms srv :
  Forall message_ok ms → (length ms < fuel)%nat →
  handle_client fuel (λ _, true) clocks i (concat (encode_message <$> ms)) srv =
  serve clocks i ms srv.
Proof.
  intros Hms. revert fuel i srv. induction Hms as [|m ms Hm _ IH]; intros fuel i srv Hf.
  { destruct fuel; [simpl in Hf; lia|done]. }
  destruct fuel as [|fuel]; [lia|]. rewrite fmap_cons. cbn [concat serve].
  rewrite handle_client_message by done. simpl in Hf. destruct (handle_message _ _ _) as [[r srv1]|]; [|done]. cbn [mbind option_bind].
  by rewrite IH by lia.
Qed.

(** Every round reads at least one byte, so the number of bytes bounds the rounds. *)
Lemma handle_client_fuel f1 f2 running clocks i input srv :
  (length input < f1)%nat → (length input < f2)%nat →
  handle_client f1 running clocks i input srv = handle_client f2 running clocks i input srv.
Proof.
  revert f2 i input srv. induction f1 as [|f1 IH]; intros [|f2] i input srv H1 H2; try lia.
  cbn [handle_client]. destruct (running i); [|done].
  destruct input as [|b input]; [done|]. cbn [recv take drop]. rewrite drop_0. simpl in H1, H2.
  destruct (message_type_of_byte b); try (apply IH; lia).
  - unfold recv. destruct (take 22 input) as [|c buf] eqn:E; [done|].
    destruct (decode_order _); [|done]. cbn [mbind option_bind].
    destruct (handle_order _ _ _) as [[r srv1]|]; [|done]. cbn [mbind option_bind].
    rewrite (IH f2); [done|rewrite length_drop; lia..].
  - unfold recv. destruct (take 16 input) as [|c buf] eqn:E; [done|].
    destruct (decode_cancel _); [|done]. cbn [mbind option_bind].
    destruct (handle_cancel _ _) as [[r srv1]|]; [|done]. cbn [mbind option_bind].
    rewrite (IH f2); [done|rewrite length_drop; lia..].
Qed.
End server.
