(* ===== verification/ServerProps.v ===== *)
(** The correctness of the wire protocol and of the TCP front end. *)

From stdpp Require Import base list gmap strings relations.
From Stdlib Require Import ZArith Lia Ascii.
From S2P Require Import Prelude Machine StdMap Types ObjectPool OrderBook PriceTime.
From S2P Require Import BookInv BookOps MatchingEngine MatchRefine EngineSpec Exchange.
From S2P Require Import RiskChecker RiskProps Wire Protocol TcpServer.

Open Scope Z_scope.
Open Scope list_scope.

(** ** The protocol *)

Lemma length_list_ascii s : length (String.list_ascii_of_string s) = String.length s.
Proof. induction s as [|c s IH]; simpl; [done|]. by rewrite IH. Qed.

Definition sample_order : OrderMessage :=
  mk_order_msg (set_symbol "AAPL") Buy Limit (dlit 10050 2) 100.
Definition sample_cancel : CancelMessage := mk_cancel_msg (set_symbol "AAPL") 7.

Lemma sample_order_ok : order_msg_ok sample_order.
Proof. split_and!; try done. by right. Qed.
Lemma sample_cancel_ok : cancel_msg_ok sample_cancel.
Proof. by split. Qed.

(** C20: a message takes 23, 17 or 26 bytes, and reading it back gives the message that
    was written: every field, every double (infinities, subnormals and NaN included)
    and every byte in an enumeration field. *)
Theorem wire_roundtrip m c r :
  order_msg_ok m → cancel_msg_ok c → report_ok r →
  (length (encode_order m) = 23%nat ∧ decode_order (drop 1 (encode_order m)) = Some m) ∧
  (length (encode_cancel c) = 17%nat ∧ decode_cancel (drop 1 (encode_cancel c)) = Some c) ∧
  (length (encode_report r) = 26%nat ∧ decode_report (drop 1 (encode_report r)) = Some r).
Proof.
  intros Hm Hc Hr. split_and!.
  - by apply encode_order_length, Hm.
  - by apply decode_encode_order.
  - by apply encode_cancel_length, Hc.
  - by apply decode_encode_cancel.
  - apply encode_report_length.
  - by apply decode_encode_report.
Qed.

Lemma wire_roundtrip_witness :
  let r := mk_report 1 Accepted (dlit 10050 2) 100 100 in
  (length (encode_order sample_order) = 23%nat ∧
   decode_order (drop 1 (encode_order sample_order)) = Some sample_order) ∧
  (length (encode_cancel sample_cancel) = 17%nat ∧
   decode_cancel (drop 1 (encode_cancel sample_cancel)) = Some sample_cancel) ∧
  (length (encode_report r) = 26%nat ∧ decode_report (drop 1 (encode_report r)) = Some r).
Proof.
  apply wire_roundtrip; [exact sample_order_ok|exact sample_cancel_ok|].
  split_and!; try done. by right.
Defined.

(** A symbol of at most seven characters without a NUL survives the symbol field;
    a longer one is cut to its first seven characters. *)
Theorem symbol_roundtrip sym :
  Forall (λ b, b ≠ 0) (chars sym) →
  length (set_symbol sym) = 8%nat ∧
  get_symbol (set_symbol sym) = string_of_chars (take 7 (chars sym)) ∧
  ((String.length sym ≤ 7)%nat → get_symbol (set_symbol sym) = sym).
Proof.
  intros Hn. split; [apply set_symbol_length|]. rewrite get_set_symbol by done.
  split; [done|]. intros Hl. rewrite take_ge; [apply string_of_chars_chars|].
  unfold chars. by rewrite length_fmap, length_list_ascii.
Qed.

Lemma symbol_roundtrip_witness :
  length (set_symbol "GOOGLE.X") = 8%nat ∧
  get_symbol (set_symbol "GOOGLE.X") = string_of_chars (take 7 (chars "GOOGLE.X")) ∧
  ((String.length "GOOGLE.X" ≤ 7)%nat → get_symbol (set_symbol "GOOGLE.X") = "GOOGLE.X"%string).
Proof. apply symbol_roundtrip. vm_compute. repeat constructor; discriminate. Defined.

(** ** The loop over a connection *)

(** A client that sends complete messages is served message by message: whatever
    the messages are, the bytes of all of them are cut at the right places, each is
    handled in order, and the loop ends when the connection does. *)
Theorem connection_framing cb fuel clocks ms srv :
  Forall message_ok ms → (length (concat (encode_message <$> ms)) < fuel)%nat →
  handle_client cb fuel (λ _, true) clocks 0 (concat (encode_message <$> ms)) srv =
  serve cb clocks 0 ms srv.
Proof.
  intros Hms Hf. rewrite (handle_client_fuel cb fuel (S (length ms) + fuel)) by lia.
  apply handle_client_messages; [done|lia].
Qed.

Definition clocks0 (i n : nat) : Timestamp := Z.of_nat (10 * i + n).
Definition server0 : Server :=
  mk_server MatchingEngine_new (Some (RiskChecker_new RiskLimits_default)).

Lemma connection_framing_witness :
  handle_client (Some main_trade_callback) 41 (λ _, true) clocks0 0
    (concat (encode_message <$> [MOrder sample_order; MCancel sample_cancel])) server0 =
  serve (Some main_trade_callback) clocks0 0 [MOrder sample_order; MCancel sample_cancel] server0.
Proof.
  apply connection_framing; [|vm_compute; lia].
  apply Forall_cons_2; [exact sample_order_ok|].
  apply Forall_cons_2; [exact sample_cancel_ok|apply Forall_nil_2].
Defined.

(** On any bytes whatsoever the loop over a connection ends within one round per
    byte and one more: any larger bound on the rounds gives the same result. *)
Theorem connection_terminates cb running clocks input srv fuel :
  (length input < fuel)%nat →
  handle_client cb fuel running clocks 0 input srv =
  handle_client cb (S (length input)) running clocks 0 input srv.
Proof. intros. apply handle_client_fuel; lia. Qed.

Lemma connection_terminates_witness :
  handle_client None 100 (λ _, true) clocks0 0 [9; 9; 3] server0 =
  handle_client None (S (length [9; 9; 3])) (λ _, true) clocks0 0 [9; 9; 3] server0.
Proof. apply (connection_terminates None (λ _, true) clocks0 [9; 9; 3] server0 100). simpl. lia. Defined.

(** ** The server as it is deployed *)

Definition server_ok (srv : Server) : Prop :=
  engine_ok (engine_ srv) ∧
  match risk_ srv with Some rc => ∀ sym, position sym rc = 0 | None => True end.

(** No NaN as the price of an order that is not a market order. *)
Definition message_price_ok (m : client_message) : Prop :=
  match m with MOrder m => valid_price (om_order_type m) (om_price m) | MCancel _ => True end.

Definition ids_below (n : Z) (srv : Server) : Prop :=
  ∀ sym, next_order_id_ (book_of sym (engine_ srv)) ≤ n.

Lemma risk_gate_ok m srv :
  server_ok srv → order_msg_ok m →
  ∃ reason srv', risk_gate m srv = Some (reason, srv') ∧ server_ok srv' ∧
    engine_ srv' = engine_ srv ∧ (is_Some (risk_ srv) ↔ is_Some (risk_ srv')).
Proof.
  intros [He Hrc] (_ & _ & _ & _ & Hq). unfold risk_gate.
  destruct (risk_ srv) as [rc|] eqn:E; cycle 1.
  { exists Reason_None, srv. split; [done|]. unfold server_ok. by rewrite E. }
  destruct (check_defined (get_symbol (om_symbol m)) (om_side m) (om_order_type m) (om_price m)
    (om_quantity m) rc) as (r & rc' & Hc); [rewrite Hrc; lia|done|].
  rewrite Hc. simpl. exists r. eexists. split; [done|]. split_and!; [|done..|by eauto].
  split; [done|]. simpl. intros sym. apply check_frame in Hc. rewrite Hc. apply Hrc.
Qed.

(** The callback that the server may have: any if there is no risk checker, else the one
    of src/main.cpp. *)
Definition callback_ok (cb : option (Trade → option RiskChecker → option RiskChecker)) (srv : Server)
    : Prop :=
  risk_ srv = None ∨ cb = Some main_trade_callback.

(** A submission: the report is well-formed, and engine and report are those of a server
    without a risk checker. *)
Lemma submit_message_ok cb clock m srv n :
  server_ok srv → callback_ok cb srv → order_msg_ok m → valid_price (om_order_type m) (om_price m) →
  ids_below n srv → n + 1 < 2 ^ 64 →
  ∃ report srv', submit_message cb clock m srv = Some (report, srv') ∧
    server_ok srv' ∧ ids_below (n + 1) srv' ∧ report_ok report ∧ (risk_ srv = None ↔ risk_ srv' = None) ∧
    submit_message None clock m (mk_server (engine_ srv) None) = Some (report, mk_server (engine_ srv') None).
Proof.
  intros [He Hrc] Hcb (_ & _ & _ & Hd & Hq) Hp Hids Hn. unfold submit_message. cbn [engine_ risk_].
  set (sym := get_symbol (om_symbol m)).
  rewrite (submit_order_callback cb), (submit_order_callback (@None (Trade → option RiskChecker → _))).
  destruct (submit_order_spec recorder clock sym (om_side m) (om_order_type m) (om_price m) (om_quantity m)
    (engine_ srv) [] He (λ _, Hp) Hq) as (oid & ts & M' & e' & Hspec & Hs & He' & HM & Hoth & _).
  { specialize (Hids sym). lia. }
  unfold recorder in Hs. rewrite Hs. fold recorder. rewrite recorder_notify. cbn [mbind option_bind app].
  pose proof (submit_id _ _ _ _ _ _ _ _ _ Hspec) as [Hoid Hnext].
  destruct (book_of_ok (engine_ srv) sym He) as [Hbok _].
  pose proof (wf_next _ (ok_wf _ Hbok)) as Hrange.
  pose proof (submit_trades_range _ _ _ _ _ _ _ _ _ Hbok (proj1 Hq) Hspec) as Hts.
  assert (ids_below (n + 1) (mk_server e' None)) as Hids'.
  { intros sym'. simpl. specialize (Hids sym').
    destruct (decide (sym' = sym)) as [->|Hne]; [|rewrite Hoth by done; lia].
    change (next_order_id_ (book_of sym e')) with (next_id (market (book_of sym e'))).
    rewrite HM, Hnext. simpl. destruct (invalid_order _ _ _); lia. }
  assert (report_ok {| er_order_id := oid; er_status := if oid >? 0 then Accepted else Rejected;
    er_price := om_price m; er_quantity := om_quantity m; er_remaining_qty := om_quantity m |}).
  { split_and!; simpl; try done; try lia; rewrite Hoid; simpl; by (destruct (invalid_order _ _ _); lia) ||
      (by destruct (_ >? 0)). }
  destruct (risk_ srv) as [rc|] eqn:Erc; cbn [mbind option_bind]; cycle 1.
  { eexists _, _. split; [done|]. split_and!; [by split|exact Hids'|done|done|done]. }
  destruct Hcb as [?| ->]; [congruence|]. destruct (main_callback_zero ts rc Hrc) as (rc' & Hfold & _ & Hz).
  { eapply Forall_impl; [exact Hts|]. simpl. lia. }
  unfold notify_all. rewrite Hfold. simpl. eexists _, _. split; [done|].
  by split_and!; [by split|exact Hids'|done|..].
Qed.

Lemma handle_order_ok cb clock m srv n :
  server_ok srv → callback_ok cb srv → order_msg_ok m → valid_price (om_order_type m) (om_price m) →
  ids_below n srv → n + 1 < 2 ^ 64 →
  ∃ report srv', handle_order cb clock m srv = Some (report, srv') ∧
    server_ok srv' ∧ ids_below (n + 1) srv' ∧ report_ok report ∧
    (risk_ srv = None → risk_ srv' = None).
Proof.
  intros Hsrv Hcb Hm Hp Hids Hn. unfold handle_order.
  destruct (risk_gate_ok m srv Hsrv Hm) as (reason & srv1 & -> & Hsrv1 & Heq & Hnone).
  assert (risk_ srv = None → risk_ srv1 = None) as Hn1.
  { intros E. apply eq_None_not_Some. rewrite <-Hnone, E. apply is_Some_None. }
  cbn [mbind option_bind]. assert (ids_below n srv1) as Hids1 by (unfold ids_below; by rewrite Heq).
  case_decide as Hr; cycle 1.
  { destruct Hm as (_ & _ & _ & Hd & Hq). eexists _, srv1. split; [done|]. split_and!; try done.
    intros sym. specialize (Hids1 sym). lia. }
  destruct (submit_message_ok cb clock m srv1 n) as (r & srv' & -> & ? & ? & ? & [? _] & _); try done.
  - destruct Hcb; [left; auto|by right].
  - exists r, srv'. split_and!; auto.
Qed.

Lemma handle_cancel_ok m srv n :
  server_ok srv → cancel_msg_ok m → ids_below n srv →
  ∃ report srv', handle_cancel m srv = Some (report, srv') ∧
    server_ok srv' ∧ ids_below (n + 1) srv' ∧ report_ok report ∧ risk_ srv' = risk_ srv.
Proof.
  intros [He Hrc] [_ Hid] Hids. unfold handle_cancel.
  destruct (cancel_order_engine_spec (get_symbol (cm_symbol m)) (cm_order_id m) (engine_ srv) He)
    as (r & e' & Hc & Hspec & He' & Hoth & _).
  rewrite Hc. cbn [mbind option_bind]. eexists _, _. split; [done|]. split_and!.
  - by split.
  - intros sym. simpl. specialize (Hids sym).
    destruct (decide (sym = get_symbol (cm_symbol m))) as [->|Hne]; [|rewrite Hoth by done; lia].
    pose proof (f_equal (λ x, next_id x.2) Hspec) as Hnext. simpl in Hnext. lia.
  - split_and!; simpl; try done; try lia; [by destruct r|by right].
  - done.
Qed.

Lemma handle_message_ok cb clock m srv n :
  server_ok srv → callback_ok cb srv → message_ok m → message_price_ok m →
  ids_below n srv → n + 1 < 2 ^ 64 →
  ∃ report srv', handle_message cb clock m srv = Some (report, srv') ∧
    server_ok srv' ∧ callback_ok cb srv' ∧ ids_below (n + 1) srv' ∧ report_ok report ∧
    (risk_ srv = None → risk_ srv' = None).
Proof.
  intros Hsrv Hcb Hm Hp Hids Hn. unfold callback_ok in *. destruct m as [m|m]; simpl in *.
  - destruct (handle_order_ok cb clock m srv n) as (r & srv' & ? & ? & ? & ? & ?); try done.
    exists r, srv'. split_and!; try done. destruct Hcb; auto.
  - destruct (handle_cancel_ok m srv n) as (r & srv' & ? & ? & ? & ? & Hrisk); try done.
    exists r, srv'. rewrite Hrisk. by split_and!.
Qed.

Lemma serve_ok clocks i ms srv n :
  server_ok srv → Forall (λ m, message_ok m ∧ message_price_ok m) ms →
  ids_below n srv → n + Z.of_nat (length ms) < 2 ^ 64 →
  ∃ reports srv', serve (Some main_trade_callback) clocks i ms srv = Some (reports, srv') ∧
    length reports = length ms ∧ Forall report_ok reports ∧ server_ok srv'.
Proof.
  intros Hsrv Hms. revert i srv n Hsrv.
  induction Hms as [|m ms [Hm Hp] _ IH]; intros i srv n Hsrv Hids Hn; cbn [serve].
  { by exists [], srv. }
  simpl in Hn. destruct (handle_message_ok (Some main_trade_callback) (clocks i) m srv n)
    as (report & srv1 & -> & H1 & _ & Hids1 & Hr & _); try done; [by right|lia|].
  destruct (IH (S i) srv1 (n + 1) H1 Hids1) as (reports & srv2 & Hs & Hlen & Hrs & H2).
  { lia. }
  cbn [mbind option_bind]. rewrite Hs. eexists _, srv2. split; [done|].
  split_and!; [simpl; lia|by constructor|done].
Qed.

(** C21: one connection, served on its own by a new server with the risk checker and the
    callback of src/main.cpp, for any limits: if its client sends whole messages, fewer than
    2^64 - 1 of them, none an order other than a market order with a NaN price, and closes, every message
    is answered with exactly one report that fits the wire format, and nothing on the way
    is undefined behaviour.  (Several connections at once are in [ThreadProps], connections
    that end in the middle of a message in [Broken].) *)
Theorem server_answers_every_message clocks limits ms :
  Forall (λ m, message_ok m ∧ message_price_ok m) ms → Z.of_nat (length ms) + 1 < 2 ^ 64 →
  ∃ reports srv',
    handle_client (Some main_trade_callback) (S (length (concat (encode_message <$> ms))))
      (λ _, true) clocks 0 (concat (encode_message <$> ms))
      (mk_server MatchingEngine_new (Some (RiskChecker_new limits))) = Some (reports, srv') ∧
    length reports = length ms ∧ Forall report_ok reports.
Proof.
  intros Hms Hlen.
  rewrite (handle_client_fuel _ _ (S (length ms) + S (length (concat (encode_message <$> ms))))) by lia.
  rewrite handle_client_messages; [|by eapply Forall_impl; [exact Hms|]; intros ? []|lia].
  edestruct (serve_ok clocks 0 ms (mk_server MatchingEngine_new (Some (RiskChecker_new limits))) 1)
    as (reports & srv' & Hs & Hl & Hr & _); [|exact Hms| |lia|by exists reports, srv'].
  - split; [apply MatchingEngine_new_ok|]. intros sym. unfold position. simpl. by rewrite lookup_empty.
  - intros sym. unfold book_of. simpl. by rewrite lookup_empty.
Qed.

Lemma server_answers_every_message_witness :
  ∃ reports srv',
    handle_client (Some main_trade_callback)
      (S (length (concat (encode_message <$> [MOrder sample_order; MCancel sample_cancel]))))
      (λ _, true) clocks0 0 (concat (encode_message <$> [MOrder sample_order; MCancel sample_cancel]))
      (mk_server MatchingEngine_new (Some (RiskChecker_new RiskLimits_default))) = Some (reports, srv') ∧
    length reports = 2%nat ∧ Forall report_ok reports.
Proof.
  apply server_answers_every_message; [|reflexivity].
  apply Forall_cons_2; [split; [exact sample_order_ok|by right]|].
  apply Forall_cons_2; [split; [exact sample_cancel_ok|done]|apply Forall_nil_2].
Defined.

(** An acceptable order is a valid one. *)
Lemma acceptable_valid sym s t p q rc :
  acceptable sym s t p q rc → invalid_order t p q = false.
Proof.
  intros (_ & Hq & Hlim & _). unfold invalid_order. apply orb_false_iff. split; [lia|].
  apply andb_false_iff. unfold is_limit. case_bool_decide; auto.
Qed.

(** C22: the gate in front of the engine is the risk check: an order that is not
    acceptable to the checker is answered Rejected with identifier 0 and leaves the
    engine, its books and its counters, exactly as it was; an acceptable one is
    submitted to the engine as it arrived and answered Accepted with the identifier
    the engine gave it. *)
Theorem risk_gate_sound clock m rc e :
  reachable e → (∀ sym, position sym rc = 0) → order_msg_ok m →
  valid_price (om_order_type m) (om_price m) →
  next_order_id_ (book_of (get_symbol (om_symbol m)) e) + 1 < 2 ^ 64 →
  let sym := get_symbol (om_symbol m) in
  let acc := acceptable sym (om_side m) (om_order_type m) (om_price m) (om_quantity m) rc in
  ∃ report srv',
    handle_order (Some main_trade_callback) clock m (mk_server e (Some rc)) = Some (report, srv') ∧
    (¬ acc → engine_ srv' = e ∧ er_status report = Rejected ∧ er_order_id report = 0) ∧
    (acc → er_status report = Accepted ∧ 1 ≤ er_order_id report ∧
       ∃ rc1 rc2, submit_order (Some main_trade_callback) clock sym (om_side m) (om_order_type m)
         (om_price m) (om_quantity m) e (Some rc1) = Some (er_order_id report, engine_ srv', rc2)).
Proof.
  intros He%reachable_ok Hz Hm Hp Hn sym acc. pose proof Hm as (_ & _ & _ & _ & Hq).
  destruct (check_defined sym (om_side m) (om_order_type m) (om_price m) (om_quantity m) rc)
    as (r & rc1 & Hc); [rewrite Hz; lia|done|].
  pose proof (check_accepts _ _ _ _ _ _ _ _ (proj1 Hq) Hc) as Hacc. fold acc in Hacc.
  unfold handle_order, risk_gate, submit_message. simpl. fold sym. rewrite Hc. simpl.
  case_decide as Hr; [|eexists _, _; split; [done|]; naive_solver].
  assert (acc) as Ha by (by apply Hacc).
  destruct (submit_order_spec (Some main_trade_callback) clock sym (om_side m) (om_order_type m)
    (om_price m) (om_quantity m) e (Some rc1) He (λ _, Hp) Hq Hn)
    as (oid & ts & M' & e' & Hspec & Hs & _). rewrite Hs. simpl.
  destruct (book_of_ok e sym He) as [Hbok _]. pose proof (wf_next _ (ok_wf _ Hbok)) as Hrange.
  pose proof (submit_id _ _ _ _ _ _ _ _ _ Hspec) as [Hoid _].
  rewrite (acceptable_valid _ _ _ _ _ _ Ha) in Hoid. simpl in Hoid.
  destruct (main_callback_zero ts rc1) as (rc2 & Hfold & _).
  { apply check_frame in Hc. by rewrite Hc. }
  { eapply Forall_impl; [by eapply submit_trades_range; [exact Hbok|apply Hq|exact Hspec]|]. simpl. lia. }
  rewrite Hfold. simpl. eexists _, _. split; [done|]. split; [done|]. intros _. simpl.
  split; [|split; [lia|]]; [|by eexists rc1, _; rewrite Hs].
  assert (oid >? 0 = true) as -> by lia. done.
Qed.

Lemma risk_gate_sound_witness :
  let rc := RiskChecker_new RiskLimits_default in
  let acc := acceptable (get_symbol (om_symbol sample_order)) Buy Limit (dlit 10050 2) 100 rc in
  ∃ report srv',
    handle_order (Some main_trade_callback) (clocks0 0) sample_order
      (mk_server MatchingEngine_new (Some rc)) = Some (report, srv') ∧
    (¬ acc → engine_ srv' = MatchingEngine_new ∧ er_status report = Rejected ∧ er_order_id report = 0) ∧
    (acc → er_status report = Accepted ∧ 1 ≤ er_order_id report ∧
       ∃ rc1 rc2, submit_order (Some main_trade_callback) (clocks0 0)
         (get_symbol (om_symbol sample_order)) Buy Limit (dlit 10050 2) 100 MatchingEngine_new
         (Some rc1) = Some (er_order_id report, engine_ srv', rc2)).
Proof.
  apply (risk_gate_sound (clocks0 0) sample_order (RiskChecker_new RiskLimits_default) MatchingEngine_new);
    [apply rtc_refl|reflexivity|exact sample_order_ok|by right|vm_compute; reflexivity].
Defined.
