(* ===== verification/Threads.v ===== *)
(** The server with its threads: [TcpServer::start], [TcpServer::stop] and any number of
    connections served at the same time (src/network/TcpServer.cpp).

    Each accepted connection has a thread that runs [handle_client].  A thread is its
    place in that function ([pc]) and its socket; [thread_step] takes it from one place
    to the next.  The mutex of the engine is a field: a thread is at [InSubmit] or
    [InCancelOrder] while it holds it.  [RiskChecker] has no lock, so two threads may be
    inside [check] at once; what they do is then a data race, which is [Undefined], as is
    everything that is [None] in [TcpServer].  Calls of the checker that do not overlap take
    effect one after the other.  The memory model of C++ asks for more: [check] is called
    outside the lock of the engine, so calls of it by different threads are often ordered by
    nothing, which it calls a data race as well.  With a checker the theorems are therefore
    about executions in which what one call wrote is what the next one reads; without one,
    all that the threads share is behind the lock.

    Bytes travel: a client writes whole messages to [c_wire], they arrive in pieces in
    [c_input], and [recv] with MSG_WAITALL waits until there are enough or the client has
    closed.  Connections that end in the middle of a message are in [Broken].

    [act] is one step of anybody (a thread, the accept loop, a client, the caller of
    [stop]) and [steps] the runs of the whole, with what clients wrote and what they were
    answered as events. *)

From stdpp Require Import base list gmap strings.
From Stdlib Require Import ZArith Lia.
From S2P Require Import Prelude Machine Types OrderBook MatchingEngine Exchange.
From S2P Require Import RiskChecker Wire Protocol TcpServer.

Open Scope Z_scope.
Open Scope list_scope.

(** ** Places in [handle_client] *)

Inductive pc :=
  | AtLoop
  | AtType
  | AtOrder
  | AtCancel
  | InCheck (m : OrderMessage)
  | AtSubmit (m : OrderMessage)
  | InSubmit (m : OrderMessage)
  | AtCancelOrder (m : CancelMessage)
  | InCancelOrder (m : CancelMessage)
  | AtSend (r : ExecutionReport)
  | AtClose
  | Finished.

(** A connection with its thread. *)
Record Conn := mk_conn {
  c_fd : Z;
  c_wire : list byte;
  c_input : list byte;
  c_closed : bool;
  c_sent : list ExecutionReport;
  c_pc : pc;
}.

(** Where the thread that called [start] is. *)
Inductive main_pc := NotStarted | AtAcceptLoop | AtAccept | Returned.

Record State := mk_state {
  ss_server : Server;
  running_ : bool;
  server_fd_ : Z;
  mutex_ : option nat;
  client_threads_ : gmap nat Conn;
  next_thread : nat;
  ss_main : main_pc;
  ss_calls : nat;
  closed_fds : list Z;
}.

Definition goto (p : pc) (c : Conn) : Conn :=
  mk_conn (c_fd c) (c_wire c) (c_input c) (c_closed c) (c_sent c) p.
Definition set_input (l : list byte) (c : Conn) : Conn :=
  mk_conn (c_fd c) (c_wire c) l (c_closed c) (c_sent c) (c_pc c).

Definition set_conn (i : nat) (c : Conn) (s : State) : State :=
  mk_state (ss_server s) (running_ s) (server_fd_ s) (mutex_ s) (<[i := c]> (client_threads_ s))
    (next_thread s) (ss_main s) (ss_calls s) (closed_fds s).
Definition set_server (srv : Server) (calls : nat) (s : State) : State :=
  mk_state srv (running_ s) (server_fd_ s) (mutex_ s) (client_threads_ s) (next_thread s)
    (ss_main s) calls (closed_fds s).
Definition set_mutex (m : option nat) (s : State) : State :=
  mk_state (ss_server s) (running_ s) (server_fd_ s) m (client_threads_ s) (next_thread s)
    (ss_main s) (ss_calls s) (closed_fds s).
Definition set_main (p : main_pc) (s : State) : State :=
  mk_state (ss_server s) (running_ s) (server_fd_ s) (mutex_ s) (client_threads_ s)
    (next_thread s) p (ss_calls s) (closed_fds s).
Definition close_fd (fd : Z) (s : State) : State :=
  mk_state (ss_server s) (running_ s) (server_fd_ s) (mutex_ s) (client_threads_ s)
    (next_thread s) (ss_main s) (ss_calls s) (closed_fds s ++ [fd]).
Definition set_listener (running : bool) (fd : Z) (s : State) : State :=
  mk_state (ss_server s) running fd (mutex_ s) (client_threads_ s) (next_thread s)
    (ss_main s) (ss_calls s) (closed_fds s).
Definition set_threads (ts : gmap nat Conn) (next : nat) (s : State) : State :=
  mk_state (ss_server s) (running_ s) (server_fd_ s) (mutex_ s) ts next
    (ss_main s) (ss_calls s) (closed_fds s).

(** What a step comes to: it waits, it is undefined behaviour, or it is done. *)
Inductive outcome (A : Type) := Blocked | Undefined | Next (a : A).
Arguments Blocked {A}.
Arguments Undefined {A}.
Arguments Next {A} a.

(** What can be seen from outside: a message that a client wrote, an order that the risk
    check refused, and the report of the engine on a message. *)
Inductive event :=
  | Wrote (i : nat) (m : client_message)
  | Refused (i : nat) (m : OrderMessage)
  | Served (i : nat) (m : client_message) (r : ExecutionReport).

(** [recv(fd, buf, n, MSG_WAITALL)]; [None] while it waits. *)
Definition recv_wait (n : nat) (c : Conn) : option (list byte * Conn) :=
  if (n <=? length (c_input c))%nat || (c_closed c && bool_decide (c_wire c = [])) then
    let '(buf, rest) := recv n (c_input c) in Some (buf, set_input rest c)
  else None.

Section threads.
Context (trade_callback_ : option (Trade → option RiskChecker → option RiskChecker)).
Context (clocks : nat → nat → Timestamp).

(** ** Data races *)

(** Does the submission of [m] trade, and so call the trade callback? *)
Definition submission_trades (m : OrderMessage) (s : State) : bool :=
  match submit_order recorder (clocks (ss_calls s)) (get_symbol (om_symbol m)) (om_side m)
          (om_order_type m) (om_price m) (om_quantity m) (engine_ (ss_server s)) [] with
  | Some (_, _, ts) => negb (bool_decide (ts = []))
  | None => true
  end.

(** Is a thread inside a call that reads or writes the risk checker? *)
Definition uses_risk (s : State) (c : Conn) : bool :=
  bool_decide (is_Some (risk_ (ss_server s))) &&
  match c_pc c with
  | InCheck _ => true
  | InSubmit m => submission_trades m s
  | _ => false
  end.

(** A data race of thread [i], as far as it is one of overlapping calls: it and another
    thread are inside such calls. *)
Definition races (i : nat) (s : State) : bool :=
  match client_threads_ s !! i with
  | Some c =>
      uses_risk s c &&
      existsb (λ '(j, c'), negb (bool_decide (j = i)) && uses_risk s c') (map_to_list (client_threads_ s))
  | None => false
  end.

(** ** One step of a thread *)

Definition thread_step (i : nat) (s : State)
    : outcome (State * list event) :=
  match client_threads_ s !! i with
  | None => Blocked
  | Some c =>
      let jump p c := Next (set_conn i (goto p c) s, []) in
      match c_pc c with
      | AtLoop => jump (if running_ s then AtType else AtClose) c
      | AtType =>
          match recv_wait 1 c with
          | None => Blocked
          | Some ([], c) => jump AtClose c
          | Some (b :: _, c) =>
              jump (match message_type_of_byte b with
                    | NewOrder => AtOrder | Cancel => AtCancel | _ => AtLoop end) c
          end
      | AtOrder =>
          match recv_wait 22 c with
          | None => Blocked
          | Some ([], c) => jump AtClose c
          | Some (buf, c) =>
              match decode_order buf with
              | None => Undefined
              | Some m => jump (match risk_ (ss_server s) with
                                | Some _ => InCheck m | None => AtSubmit m end) c
              end
          end
      | AtCancel =>
          match recv_wait 16 c with
          | None => Blocked
          | Some ([], c) => jump AtClose c
          | Some (buf, c) =>
              match decode_cancel buf with
              | None => Undefined
              | Some m => jump (AtCancelOrder m) c
              end
          end
      | InCheck m =>
          if races i s then Undefined
          else
            match risk_gate m (ss_server s) with
            | None => Undefined
            | Some (reason, srv) =>
                if decide (reason = Reason_None) then
                  Next (set_conn i (goto (AtSubmit m) c) (set_server srv (ss_calls s) s), [])
                else
                  Next (set_conn i (goto (AtSend (reject_report m)) c) (set_server srv (ss_calls s) s),
                        [Refused i m])
            end
      | AtSubmit m =>
          match mutex_ s with
          | None => Next (set_mutex (Some i) (set_conn i (goto (InSubmit m) c) s), [])
          | Some _ => Blocked
          end
      | InSubmit m =>
          if races i s then Undefined
          else
            match submit_message trade_callback_ (clocks (ss_calls s)) m (ss_server s) with
            | None => Undefined
            | Some (r, srv) =>
                Next (set_mutex None (set_conn i (goto (AtSend r) c) (set_server srv (S (ss_calls s)) s)),
                      [Served i (MOrder m) r])
            end
      | AtCancelOrder m =>
          match mutex_ s with
          | None => Next (set_mutex (Some i) (set_conn i (goto (InCancelOrder m) c) s), [])
          | Some _ => Blocked
          end
      | InCancelOrder m =>
          match handle_cancel m (ss_server s) with
          | None => Undefined
          | Some (r, srv) =>
              Next (set_mutex None (set_conn i (goto (AtSend r) c) (set_server srv (S (ss_calls s)) s)),
                    [Served i (MCancel m) r])
          end
      | AtSend r =>
          Next (set_conn i (mk_conn (c_fd c) (c_wire c) (c_input c) (c_closed c) (c_sent c ++ [r]) AtLoop) s,
                [])
      | AtClose => Next (close_fd (c_fd c) (set_conn i (goto Finished c) s), [])
      | Finished => Blocked
      end
  end.

(** ** [start] and [stop] *)

(** [start] up to the accept loop; the arguments are what [socket] returned and whether
    [bind] and [listen] succeeded. *)
Definition start (fd : Z) (bind_ok listen_ok : bool) (s : State) : State :=
  let s := set_listener (running_ s) fd s in
  if fd <? 0 then set_main Returned s
  else if negb bind_ok then set_main Returned (close_fd fd s)
  else if negb listen_ok then set_main Returned (close_fd fd s)
  else set_main AtAcceptLoop (set_listener true fd s).

(** [stop] up to the joins. *)
Definition stop_begin (s : State) : State :=
  let s := set_listener false (server_fd_ s) s in
  if server_fd_ s >=? 0 then set_listener false (-1) (close_fd (server_fd_ s) s) else s.

(** The joins return when every thread has finished. *)
Definition all_finished (s : State) : bool :=
  forallb (λ '(_, c), match c_pc c with Finished => true | _ => false end)
    (map_to_list (client_threads_ s)).

Definition stop_join (s : State) : option State :=
  if all_finished s then Some (set_threads ∅ (next_thread s) s) else None.

Definition new_conn (fd : Z) : Conn := mk_conn fd [] [] false [] AtLoop.

(** ** The whole *)

Inductive action :=
  | AThread (i : nat)
  | AWrite (i : nat) (m : client_message)
  | AArrive (i : nat) (n : nat)
  | AHangUp (i : nat)
  | AMain
  | AAccepted (fd : Z)
  | AStop
  | AJoin.

Definition act (a : action) (s : State) : option (State * list event) :=
  match a with
  | AThread i =>
      match thread_step i s with
      | Next x => Some x
      | _ => None
      end
  | AWrite i m =>
      c ← client_threads_ s !! i;
      if c_closed c then None
      else Some (set_conn i (mk_conn (c_fd c) (c_wire c ++ encode_message m) (c_input c) false
                               (c_sent c) (c_pc c)) s, [Wrote i m])
  | AArrive i n =>
      c ← client_threads_ s !! i;
      Some (set_conn i (mk_conn (c_fd c) (drop n (c_wire c)) (c_input c ++ take n (c_wire c)) (c_closed c)
                          (c_sent c) (c_pc c)) s, [])
  | AHangUp i =>
      c ← client_threads_ s !! i;
      Some (set_conn i (mk_conn (c_fd c) (c_wire c) (c_input c) true (c_sent c) (c_pc c)) s, [])
  | AMain =>
      match ss_main s with
      | AtAcceptLoop => Some (set_main (if running_ s then AtAccept else Returned) s, [])
      | AtAccept => Some (set_main AtAcceptLoop s, [])
      | _ => None
      end
  | AAccepted fd =>
      match ss_main s with
      | AtAccept =>
          Some (set_main AtAcceptLoop
                  (set_threads (<[next_thread s := new_conn fd]> (client_threads_ s))
                     (S (next_thread s)) s), [])
      | _ => None
      end
  | AStop => Some (stop_begin s, [])
  | AJoin => if running_ s then None else s ← stop_join s; Some (s, [])
  end.

Inductive steps (s : State) : list event → State → Prop :=
  | steps_refl : steps s [] s
  | steps_act tr s1 a s2 ev : steps s tr s1 → act a s1 = Some (s2, ev) → steps s (tr ++ ev) s2.

Fixpoint run (acts : list action) (s : State) : option (State * list event) :=
  match acts with
  | [] => Some (s, [])
  | a :: acts => '(s, ev) ← act a s; '(s, tr) ← run acts s; Some (s, ev ++ tr)
  end.

Lemma steps_trans s tr s1 acts s2 tr' :
  steps s tr s1 → run acts s1 = Some (s2, tr') → steps s (tr ++ tr') s2.
Proof.
  revert tr s1 tr'. induction acts as [|a acts IH]; intros tr s1 tr' Hs Hr; simpl in Hr.
  { simplify_eq. by rewrite app_nil_r. }
  apply bind_Some in Hr as ([s' ev] & Ha & Hr). apply bind_Some in Hr as ([s'' tr''] & Hr & [= <- <-]).
  rewrite app_assoc. eapply IH; [|exact Hr]. by eapply steps_act.
Qed.

Lemma run_steps acts s s' tr : run acts s = Some (s', tr) → steps s tr s'.
Proof. intros H. by apply (steps_trans s [] s acts s' tr); [constructor|]. Qed.
End threads.

(** The server before [start], and the one that listens on the descriptor [fd]. *)
Definition TcpServer_new (srv : Server) : State :=
  mk_state srv false (-1) None ∅ 0 NotStarted 0 [].
Definition listening (srv : Server) (fd : Z) : State := start fd true true (TcpServer_new srv).
