(* ===== verification/ThreadInv.v ===== *)
(** The invariant of the server with its threads: whatever the interleaving, the engine
    has seen the messages that passed the risk check one by one, as if one client had
    sent them, and each connection stands at a message boundary of its own stream.  It
    covers the server without a risk checker and the one of src/main.cpp. *)

From stdpp Require Import base list gmap strings.
From Stdlib Require Import ZArith Lia.
From S2P Require Import Prelude Machine Types OrderBook MatchingEngine Exchange.
From S2P Require Import RiskChecker Wire Protocol TcpServer ServerProps Threads.

Open Scope Z_scope.
Open Scope list_scope.

(** ** What the events say *)

Definition event_conn (e : event) : nat :=
  match e with Wrote i _ => i | Refused i _ => i | Served i _ _ => i end.

(** The messages that client [i] wrote, and those of its messages that were answered,
    with the reports. *)
Definition sent_by (i : nat) : list event → list client_message :=
  omap (λ e, match e with Wrote j m => if decide (j = i) then Some m else None | _ => None end).
Definition answered (i : nat) : list event → list (client_message * ExecutionReport) :=
  omap (λ e, match e with
             | Wrote _ _ => None
             | Refused j m => if decide (j = i) then Some (MOrder m, reject_report m) else None
             | Served j m r => if decide (j = i) then Some (m, r) else None
             end).
(** All that the engine answered, in the order of the answers. *)
Definition served : list event → list (client_message * ExecutionReport) :=
  omap (λ e, match e with Served _ m r => Some (m, r) | _ => None end).

Definition written_ok (tr : list event) : Prop :=
  Forall (λ e, match e with Wrote _ m => message_ok m ∧ message_price_ok m | _ => True end) tr.

Lemma other_events i tr ev :
  Forall (λ e, event_conn e ≠ i) ev →
  sent_by i (tr ++ ev) = sent_by i tr ∧ answered i (tr ++ ev) = answered i tr.
Proof.
  intros Hev. unfold sent_by, answered. rewrite !omap_app.
  cut (sent_by i ev = [] ∧ answered i ev = []); unfold sent_by, answered.
  { intros [-> ->]. by rewrite !app_nil_r. }
  induction Hev as [|[j m|j m|j m r] ev Hj _ [IH1 IH2]]; [done|..]; csimpl in *; rewrite IH1, IH2;
    by rewrite decide_False.
Qed.

(** An event at the end of a history. *)
Lemma sent_snoc_wrote i tr m : sent_by i (tr ++ [Wrote i m]) = sent_by i tr ++ [m].
Proof. unfold sent_by. rewrite omap_app. csimpl. by rewrite decide_True. Qed.
Lemma sent_snoc_served i tr m r : sent_by i (tr ++ [Served i m r]) = sent_by i tr.
Proof. unfold sent_by. rewrite omap_app. csimpl. by rewrite app_nil_r. Qed.
Lemma answered_snoc_wrote i tr m : answered i (tr ++ [Wrote i m]) = answered i tr.
Proof. unfold answered. rewrite omap_app. csimpl. by rewrite app_nil_r. Qed.
Lemma answered_snoc_served i tr m r : answered i (tr ++ [Served i m r]) = answered i tr ++ [(m, r)].
Proof. unfold answered. rewrite omap_app. csimpl. by rewrite decide_True. Qed.
Lemma sent_snoc_refused i tr m : sent_by i (tr ++ [Refused i m]) = sent_by i tr.
Proof. unfold sent_by. rewrite omap_app. csimpl. by rewrite app_nil_r. Qed.
Lemma answered_snoc_refused i tr m :
  answered i (tr ++ [Refused i m]) = answered i tr ++ [(MOrder m, reject_report m)].
Proof. unfold answered. rewrite omap_app. csimpl. by rewrite decide_True. Qed.
Lemma served_snoc i tr m r : served (tr ++ [Served i m r]) = served tr ++ [(m, r)].
Proof. unfold served. by rewrite omap_app. Qed.

Create Rewrite HintDb events.
#[export] Hint Rewrite sent_snoc_wrote sent_snoc_served sent_snoc_refused answered_snoc_wrote
  answered_snoc_served answered_snoc_refused
  served_snoc @fmap_app @app_nil_r : events.

Lemma served_length tr : (length (served tr) ≤ length tr)%nat.
Proof.
  induction tr as [|e tr IH]; [done|]. unfold served in *. destruct e; csimpl; lia.
Qed.

(** ** A connection *)

Definition in_engine (p : pc) : bool := match p with InSubmit _ | InCancelOrder _ => true | _ => false end.

(** The byte of the current message that was read, the message being handled, and the
    report that was computed and not sent. *)
Definition lead (p : pc) : list byte := match p with AtOrder => [1] | AtCancel => [2] | _ => [] end.
Definition doing (p : pc) : list client_message :=
  match p with
  | InCheck m | AtSubmit m | InSubmit m => [MOrder m]
  | AtCancelOrder m | InCancelOrder m => [MCancel m]
  | _ => []
  end.
Definition pending (p : pc) : list ExecutionReport := match p with AtSend r => [r] | _ => [] end.
Definition leaving (p : pc) : bool := match p with AtClose | Finished => true | _ => false end.

Definition msgs_ok : list client_message → Prop := Forall (λ m, message_ok m ∧ message_price_ok m).

Record conn_inv (running : bool) (tr : list event) (i : nat) (c : Conn) (todo : list client_message)
    : Prop := {
  ci_ok : msgs_ok (doing (c_pc c) ++ todo);
  ci_sent : sent_by i tr = (answered i tr).*1 ++ doing (c_pc c) ++ todo;
  ci_bytes : lead (c_pc c) ++ c_input c ++ c_wire c = concat (encode_message <$> todo);
  ci_reports : (answered i tr).*2 = c_sent c ++ pending (c_pc c);
  ci_leaving : leaving (c_pc c) = true → running = true → todo = [] ∧ c_closed c = true;
}.

(** ** The server *)

Section inv.
Context (cb : option (Trade → option RiskChecker → option RiskChecker)).
Context (clocks : nat → nat → Timestamp).
Context (srv0 : Server).

Record engine_inv (tr : list event) (srv : Server) (calls : nat) : Prop := {
  ei_serve : serve None clocks 0 (served tr).*1 (mk_server (engine_ srv0) None) =
    Some ((served tr).*2, mk_server (engine_ srv) None);
  ei_calls : calls = length (served tr);
  ei_risk : risk_ srv0 = None ↔ risk_ srv = None;
  ei_cb : callback_ok cb srv;
  ei_ok : server_ok srv;
  ei_ids : ids_below (1 + Z.of_nat calls) srv;
  ei_refused : risk_ srv0 = None → Forall (λ e, match e with Refused _ _ => False | _ => True end) tr;
}.

Definition mutex_inv (mx : option nat) (ts : gmap nat Conn) : Prop :=
  ∀ i, mx = Some i ↔ ∃ c, ts !! i = Some c ∧ in_engine (c_pc c) = true.

Record inv (tr : list event) (s : State) : Prop := {
  inv_engine : engine_inv tr (ss_server s) (ss_calls s);
  inv_mutex : mutex_inv (mutex_ s) (client_threads_ s);
  inv_conn : ∀ i c, client_threads_ s !! i = Some c →
    (i < next_thread s)%nat ∧ ∃ todo, conn_inv (running_ s) tr i c todo;
  inv_fresh : Forall (λ e, (event_conn e < next_thread s)%nat) tr;
}.

(** ** The mutex *)

Lemma mutex_keep mx ts i c c' :
  mutex_inv mx ts → ts !! i = Some c → in_engine (c_pc c') = in_engine (c_pc c) →
  mutex_inv mx (<[i := c']> ts).
Proof.
  intros Hm Hi He j. rewrite (Hm j). destruct (decide (j = i)) as [->|Hne].
  - rewrite lookup_insert_eq, Hi. split; intros (c0 & [= <-] & H); eexists; (split; [done|]); congruence.
  - by rewrite lookup_insert_ne.
Qed.

Lemma mutex_acquire ts i c c' :
  mutex_inv None ts → ts !! i = Some c → in_engine (c_pc c') = true →
  mutex_inv (Some i) (<[i := c']> ts).
Proof.
  intros Hm Hi He j. destruct (decide (j = i)) as [->|Hne].
  - rewrite lookup_insert_eq. split; [by eauto|done].
  - rewrite lookup_insert_ne by done. rewrite <-(Hm j). by split; intros [=].
Qed.

Lemma mutex_release mx ts i c c' :
  mutex_inv mx ts → ts !! i = Some c → in_engine (c_pc c) = true → in_engine (c_pc c') = false →
  mutex_inv None (<[i := c']> ts).
Proof.
  intros Hm Hi He He' j. split; [done|]. destruct (decide (j = i)) as [->|Hne].
  - rewrite lookup_insert_eq. intros (? & [= <-] & ?). congruence.
  - rewrite lookup_insert_ne by done. rewrite <-(Hm j).
    rewrite (proj2 (Hm i)) by eauto. by intros [= ->].
Qed.

(** ** Updating one connection *)

Lemma inv_update tr ev s i c' todo srv calls mx fds :
  inv tr s → (i < next_thread s)%nat → Forall (λ e, event_conn e = i) ev →
  conn_inv (running_ s) (tr ++ ev) i c' todo → engine_inv (tr ++ ev) srv calls →
  mutex_inv mx (<[i := c']> (client_threads_ s)) →
  inv (tr ++ ev) (mk_state srv (running_ s) (server_fd_ s) mx (<[i := c']> (client_threads_ s))
    (next_thread s) (ss_main s) calls fds).
Proof.
  intros Hinv Hi Hev Hc He Hm. constructor; simpl; try done.
  - intros j c Hj. destruct (decide (j = i)) as [->|Hne].
    + rewrite lookup_insert_eq in Hj. injection Hj as <-. eauto.
    + rewrite lookup_insert_ne in Hj by done.
      destruct (inv_conn _ _ Hinv j c Hj) as (Hlt & todo' & Hc'). split; [done|]. exists todo'.
      destruct (other_events j tr ev) as [E1 E2].
      { eapply Forall_impl; [exact Hev|]. simpl. congruence. }
      destruct Hc'. constructor; rewrite ?E1, ?E2; done.
  - apply Forall_app. split; [by apply inv_fresh in Hinv|].
    eapply Forall_impl; [exact Hev|]. simpl. by intros ? ->.
Qed.

(** A step of connection [i] that touches nothing but the connection, and closes
    descriptors at most. *)
Lemma inv_silent tr s i c c' todo fds :
  inv tr s → client_threads_ s !! i = Some c → in_engine (c_pc c') = in_engine (c_pc c) →
  conn_inv (running_ s) tr i c' todo →
  inv tr (mk_state (ss_server s) (running_ s) (server_fd_ s) (mutex_ s) (<[i := c']> (client_threads_ s))
    (next_thread s) (ss_main s) (ss_calls s) fds).
Proof.
  intros Hinv Hi He Hc. rewrite <-(app_nil_r tr).
  eapply inv_update; rewrite ?app_nil_r; [done|by eapply inv_conn|constructor|done|by destruct Hinv|].
  eapply mutex_keep; [by destruct Hinv|done..].
Qed.

(** ** A message served *)

Lemma serve_snoc cb' i ms srv rs srv1 m r srv2 :
  serve cb' clocks i ms srv = Some (rs, srv1) →
  handle_message cb' (clocks (i + length ms)%nat) m srv1 = Some (r, srv2) →
  serve cb' clocks i (ms ++ [m]) srv = Some (rs ++ [r], srv2).
Proof.
  revert i srv rs. induction ms as [|m0 ms IH]; intros i srv rs; cbn [serve app length].
  - intros [= <- <-]. rewrite Nat.add_0_r. intros ->. done.
  - destruct (handle_message cb' (clocks i) m0 srv) as [[r0 srv']|]; [|done]. cbn [mbind option_bind].
    destruct (serve cb' clocks (S i) ms srv') as [[rs' srv'']|] eqn:E; [|done].
    intros [= <- <-] Hm. cbn [mbind option_bind].
    rewrite (IH (S i) srv' rs'); [done|done|]. by rewrite Nat.add_succ_comm.
Qed.

(** The call of the engine that answers a message. *)
Definition engine_call (clock : nat → Timestamp) (m : client_message) (srv : Server)
    : option (ExecutionReport * Server) :=
  match m with MOrder m => submit_message cb clock m srv | MCancel m => handle_cancel m srv end.

Lemma handle_cancel_engine m srv r srv' :
  handle_cancel m srv = Some (r, srv') →
  handle_cancel m (mk_server (engine_ srv) None) = Some (r, mk_server (engine_ srv') None).
Proof.
  unfold handle_cancel. simpl. destruct (MatchingEngine.cancel_order _ _ _) as [[c e]|]; [|done]. simpl.
  by intros [= <- <-].
Qed.

Lemma engine_call_ok clock m srv n :
  server_ok srv → callback_ok cb srv → message_ok m → message_price_ok m → ids_below n srv →
  n + 1 < 2 ^ 64 →
  ∃ r srv', engine_call clock m srv = Some (r, srv') ∧ server_ok srv' ∧ callback_ok cb srv' ∧
    ids_below (n + 1) srv' ∧ (risk_ srv = None ↔ risk_ srv' = None) ∧
    handle_message None clock m (mk_server (engine_ srv) None) = Some (r, mk_server (engine_ srv') None).
Proof.
  intros Hsrv Hcb Hm Hp Hids Hn. destruct m as [m|m]; simpl.
  - destruct (submit_message_ok cb clock m srv n) as (r & srv' & H1 & H2 & H3 & _ & H4 & H5); try done.
    exists r, srv'. split_and!; try done; [|apply H4..]. unfold callback_ok in *. destruct Hcb; [left|by right].
    by apply H4.
  - destruct (handle_cancel_ok m srv n) as (r & srv' & H1 & H2 & H3 & _ & H4); try done.
    exists r, srv'. unfold callback_ok. rewrite H4. split_and!; try done. by apply handle_cancel_engine.
Qed.

Lemma engine_serve tr srv calls i m :
  engine_inv tr srv calls → message_ok m → message_price_ok m → Z.of_nat calls + 2 < 2 ^ 64 →
  ∃ r srv', engine_call (clocks calls) m srv = Some (r, srv') ∧
    engine_inv (tr ++ [Served i m r]) srv' (S calls).
Proof.
  intros [Hs Hc Hn Hcb Hok Hids Href] Hm Hp Hlt.
  destruct (engine_call_ok (clocks calls) m srv (1 + Z.of_nat calls))
    as (r & srv' & Hh & Hok' & Hcb' & Hids' & Hn' & Hnone); [done..|lia|].
  exists r, srv'. split; [done|].
  constructor; autorewrite with events; rewrite ?length_app; simpl; [|lia|by rewrite Hn|done|done| |].
  - eapply serve_snoc; [exact Hs|]. by rewrite length_fmap, Nat.add_0_l, <-Hc.
  - intros sym. specialize (Hids' sym). lia.
  - intros H0. apply Forall_app. split; [auto|by constructor].
Qed.

Lemma engine_silent tr srv calls ev :
  Forall (λ e, match e with Served _ _ _ => False | Refused _ _ => is_Some (risk_ srv0) | Wrote _ _ => True end) ev →
  engine_inv tr srv calls → engine_inv (tr ++ ev) srv calls.
Proof.
  intros Hev Hi. assert (served (tr ++ ev) = served tr) as E.
  { unfold served. rewrite omap_app. rewrite <-(app_nil_r (omap _ tr)) at 2. f_equal.
    induction Hev as [|[] ? ? ? IH]; csimpl; done. }
  destruct Hi as [? ? ? ? ? ? Href]. constructor; rewrite ?E; try done.
  intros H0. apply Forall_app. split; [auto|]. eapply Forall_impl; [exact Hev|]. intros []; try done.
  rewrite H0. by intros [].
Qed.

(** The risk check is always defined and leaves the engine alone. *)
Lemma engine_gate tr srv calls m :
  engine_inv tr srv calls → order_msg_ok m →
  ∃ reason srv', risk_gate m srv = Some (reason, srv') ∧ engine_inv tr srv' calls ∧
    (reason ≠ Reason_None → is_Some (risk_ srv0)).
Proof.
  intros [Hs Hc Hn Hcb Hok Hids Href] Hm.
  destruct (risk_gate_ok m srv Hok Hm) as (reason & srv' & Hg & Hok' & He & Hsome).
  exists reason, srv'. split; [done|].
  assert (risk_ srv = None ↔ risk_ srv' = None) as Hr by (by rewrite !eq_None_not_Some, Hsome).
  split; [constructor; unfold callback_ok, ids_below in *; rewrite ?He, <-?Hr; done|].
  intros Hreason. apply not_eq_None_Some. rewrite Hn. intros Hnone. unfold risk_gate in Hg.
  rewrite Hnone in Hg. by injection Hg as <- _.
Qed.
End inv.
