(* ===== verification/ThreadSteps.v ===== *)
(** Every step of the server keeps the invariant of [ThreadInv], and a step of a thread
    is undefined only when it races. *)

From stdpp Require Import base list gmap strings.
From Stdlib Require Import ZArith Lia.
From S2P Require Import Prelude Machine Types OrderBook MatchingEngine Exchange.
From S2P Require Import RiskChecker Wire Protocol TcpServer ServerProps Threads ThreadInv.

Open Scope Z_scope.
Open Scope list_scope.

(** ** Reading a stream of messages *)

(** The bytes of a message behind its type. *)
Definition body (m : client_message) : list byte := drop 1 (encode_message m).
Definition tag (m : client_message) : byte := match m with MOrder _ => 1 | MCancel _ => 2 end.

Lemma encode_message_split m : encode_message m = tag m :: body m.
Proof. by destruct m. Qed.

Lemma body_length m :
  message_ok m → length (body m) = match m with MOrder _ => 22%nat | MCancel _ => 16%nat end.
Proof.
  unfold body. rewrite length_drop. destruct m as [m|m]; intros [Hl _]; simpl encode_message.
  - by rewrite encode_order_length.
  - by rewrite encode_cancel_length.
Qed.

(** [recv] with MSG_WAITALL returns the bytes it was asked for when the stream has them,
    however they arrive. *)
Lemma recv_wait_exact n l rest c buf c' :
  length l = n → c_input c ++ c_wire c = l ++ rest → recv_wait n c = Some (buf, c') →
  buf = l ∧ c' = set_input (drop n (c_input c)) c ∧ drop n (c_input c) ++ c_wire c = rest.
Proof.
  intros Hl Hin Hr. unfold recv_wait, recv in Hr.
  assert (n ≤ length (c_input c))%nat as Hle.
  { destruct (Nat.leb_spec n (length (c_input c))) as [|Hlt]; [done|]. simpl in Hr.
    destruct (c_closed c); [|done]. case_bool_decide as Hw; [|done].
    rewrite Hw, app_nil_r in Hin. rewrite Hin, length_app in Hlt. lia. }
  destruct (_ || _); [|done]. injection Hr as <- <-. split_and!; [|done|].
  - apply (f_equal (take n)) in Hin. rewrite take_app_le in Hin by done.
    rewrite Hin. by apply take_drop_app.
  - apply (f_equal (drop n)) in Hin. rewrite drop_app_le in Hin by done.
    rewrite Hin. by apply take_drop_app.
Qed.

(** Between two messages, [recv] returns nothing only at the end of the stream. *)
Lemma recv_wait_end c c' :
  recv_wait 1 c = Some ([], c') → c_input c = [] ∧ c_wire c = [] ∧ c_closed c = true ∧ c' = set_input [] c.
Proof.
  unfold recv_wait, recv. destruct (c_input c) as [|b l]; simpl; [|done].
  destruct (c_closed c); [|done]. simpl. case_bool_decide; [|done]. by intros [= <-].
Qed.

Lemma stream_cons m todo : concat (encode_message <$> m :: todo) =
  tag m :: body m ++ concat (encode_message <$> todo).
Proof. rewrite fmap_cons. cbn [concat]. by rewrite encode_message_split. Qed.

(** The type byte says which message is at the head of the stream. *)
Lemma stream_tag b l todo :
  b :: l = concat (encode_message <$> todo) →
  ∃ m todo', todo = m :: todo' ∧ b = tag m ∧ l = body m ++ concat (encode_message <$> todo').
Proof.
  destruct todo as [|m todo]; [done|]. rewrite stream_cons. intros [= -> ->]. eauto.
Qed.

Lemma decode_order_body m : order_msg_ok m → decode_order (body (MOrder m)) = Some m.
Proof. apply decode_encode_order. Qed.
Lemma decode_cancel_body m : cancel_msg_ok m → decode_cancel (body (MCancel m)) = Some m.
Proof. apply decode_encode_cancel. Qed.

(** ** Steps of a thread *)

Section steps.
Context (cb : option (Trade → option RiskChecker → option RiskChecker)).
Context (clocks : nat → nat → Timestamp).
Context (srv0 : Server).

Notation inv := (inv cb clocks srv0).

(** What a step of a thread has to establish. *)
Definition thread_post (tr : list event) (i : nat) (s : State) (o : outcome (State * list event)) : Prop :=
  match o with
  | Blocked => True
  | Undefined => races clocks i s = true
  | Next (s', ev) => inv (tr ++ ev) s'
  end.

(** A jump within the connection. *)
Lemma thread_jump tr s i c c' todo :
  inv tr s → client_threads_ s !! i = Some c → in_engine (c_pc c') = in_engine (c_pc c) →
  conn_inv (running_ s) tr i c' todo → thread_post tr i s (Next (set_conn i c' s, [])).
Proof. intros. cbn [thread_post]. rewrite app_nil_r. by eapply inv_silent. Qed.

Lemma conn_goto running tr i c todo p :
  conn_inv running tr i c todo → lead p = lead (c_pc c) → doing p = doing (c_pc c) →
  pending p = pending (c_pc c) → (leaving p = true → running = true → todo = [] ∧ c_closed c = true) →
  conn_inv running tr i (goto p c) todo.
Proof.
  intros [H1 H2 H3 H4 H5] Hl Hd Hp Hv. constructor; simpl; rewrite ?Hl, ?Hd, ?Hp; done.
Qed.

Lemma step_loop tr s i c todo :
  inv tr s → client_threads_ s !! i = Some c → c_pc c = AtLoop →
  conn_inv (running_ s) tr i c todo →
  thread_post tr i s (Next (set_conn i (goto (if running_ s then AtType else AtClose) c) s, [])).
Proof.
  intros Hinv Hi Hpc Hc. eapply thread_jump; [done..| |].
  - rewrite Hpc. by destruct (running_ s).
  - eapply conn_goto; [exact Hc|rewrite Hpc; by destruct (running_ s)..|].
    destruct (running_ s); done.
Qed.

Lemma step_type tr s i c todo buf c' :
  inv tr s → client_threads_ s !! i = Some c → c_pc c = AtType →
  conn_inv (running_ s) tr i c todo → recv_wait 1 c = Some (buf, c') →
  thread_post tr i s
    match buf with
    | [] => Next (set_conn i (goto AtClose c') s, [])
    | b :: _ =>
        Next (set_conn i (goto (match message_type_of_byte b with
                                | NewOrder => AtOrder | Cancel => AtCancel | _ => AtLoop end) c') s, [])
    end.
Proof.
  intros Hinv Hi Hpc [H1 H2 H3 H4 H5] Hr. rewrite Hpc in *. simpl in *.
  destruct buf as [|b buf].
  - apply recv_wait_end in Hr as (E1 & E2 & E3 & ->). rewrite E1, E2 in H3. simpl in H3.
    assert (todo = []) as -> by (destruct todo; [done|by rewrite stream_cons in H3]).
    eapply thread_jump; [done..|by rewrite Hpc|]. by constructor; simpl; rewrite ?E2.
  - destruct (c_input c ++ c_wire c) as [|b' l] eqn:E; symmetry in H3.
    { unfold recv_wait, recv in Hr. apply app_nil in E as [E1 E2]. rewrite E1 in Hr. simpl in Hr.
      destruct (_ && _); congruence. }
    symmetry in H3. destruct (stream_tag _ _ _ H3) as (m & todo' & -> & -> & ->).
    destruct (recv_wait_exact 1 [tag m] (body m ++ concat (encode_message <$> todo')) c (b :: buf) c')
      as ([= -> ->] & -> & E'); [done..|].
    apply (thread_jump tr s i c _ (m :: todo')); [done..|rewrite Hpc; by destruct m|].
    clear Hr. revert E'. generalize (drop 1 (c_input c)). intros input E'.
    destruct m; constructor; try done; (etrans; [|symmetry; apply stream_cons]); exact (f_equal (cons _) E').
Qed.

(** A complete message is read. *)
Lemma step_body tr s i c todo n m buf c' p :
  inv tr s → client_threads_ s !! i = Some c → conn_inv (running_ s) tr i c (m :: todo) →
  lead (c_pc c) = [tag m] → doing (c_pc c) = [] → pending (c_pc c) = [] → in_engine (c_pc c) = false →
  length (body m) = n → recv_wait n c = Some (buf, c') →
  lead p = [] → doing p = [m] → pending p = [] → leaving p = false → in_engine p = false →
  buf = body m ∧ thread_post tr i s (Next (set_conn i (goto p c') s, [])).
Proof.
  intros Hinv Hi [H1 H2 H3 H4 H5] Hl Hd Hp He Hn Hr Hl' Hd' Hp' Hv' He'.
  rewrite Hl, stream_cons in H3. injection H3 as H3. rewrite Hd in *. rewrite Hp in *.
  destruct (recv_wait_exact n (body m) (concat (encode_message <$> todo)) c buf c')
    as (-> & -> & E'); [done..|]. split; [done|].
  eapply (thread_jump tr s i c _ todo); [done|done|by rewrite He|].
  constructor; simpl; rewrite ?Hl', ?Hd', ?Hp'; try done. by rewrite Hv'.
Qed.

Lemma step_order tr s i c todo buf c' :
  inv tr s → client_threads_ s !! i = Some c → c_pc c = AtOrder →
  conn_inv (running_ s) tr i c todo → recv_wait 22 c = Some (buf, c') →
  thread_post tr i s
    match buf with
    | [] => Next (set_conn i (goto AtClose c') s, [])
    | _ => match decode_order buf with
           | None => Undefined
           | Some m => Next (set_conn i (goto (match risk_ (ss_server s) with
                               | Some _ => InCheck m | None => AtSubmit m end) c') s, [])
           end
    end.
Proof.
  intros Hinv Hi Hpc Hc Hr. pose proof (ci_bytes _ _ _ _ _ Hc) as H3. rewrite Hpc in H3.
  destruct (stream_tag _ _ _ H3) as ([m|m] & todo' & -> & Ht & _); [|done].
  pose proof (ci_ok _ _ _ _ _ Hc) as Hok. rewrite Hpc in Hok. apply Forall_cons in Hok as [[Hm _] _].
  set (p := match risk_ (ss_server s) with Some _ => InCheck m | None => AtSubmit m end).
  destruct (step_body tr s i c todo' 22 (MOrder m) buf c' p) as [-> Hpost];
    rewrite ?Hpc; try done; try (by subst p; destruct (risk_ _)); [by apply body_length|].
  rewrite decode_order_body by done. pose proof (body_length (MOrder m) Hm). by destruct (body (MOrder m)).
Qed.

Lemma step_cancel tr s i c todo buf c' :
  inv tr s → client_threads_ s !! i = Some c → c_pc c = AtCancel →
  conn_inv (running_ s) tr i c todo → recv_wait 16 c = Some (buf, c') →
  thread_post tr i s
    match buf with
    | [] => Next (set_conn i (goto AtClose c') s, [])
    | _ => match decode_cancel buf with
           | None => Undefined
           | Some m => Next (set_conn i (goto (AtCancelOrder m) c') s, [])
           end
    end.
Proof.
  intros Hinv Hi Hpc Hc Hr. pose proof (ci_bytes _ _ _ _ _ Hc) as H3. rewrite Hpc in H3.
  destruct (stream_tag _ _ _ H3) as ([m|m] & todo' & -> & Ht & _); [done|].
  pose proof (ci_ok _ _ _ _ _ Hc) as Hok. rewrite Hpc in Hok. apply Forall_cons in Hok as [[Hm _] _].
  destruct (step_body tr s i c todo' 16 (MCancel m) buf c' (AtCancelOrder m)) as [-> Hpost];
    rewrite ?Hpc; try done; [by apply body_length|].
  rewrite decode_cancel_body by done. pose proof (body_length (MCancel m) Hm). by destruct (body (MCancel m)).
Qed.

(** A call of the engine, with the mutex held, answers the message. *)
Lemma step_engine tr s i c todo m :
  inv tr s → client_threads_ s !! i = Some c → conn_inv (running_ s) tr i c todo →
  doing (c_pc c) = [m] → lead (c_pc c) = [] → pending (c_pc c) = [] → in_engine (c_pc c) = true →
  Z.of_nat (ss_calls s) + 2 < 2 ^ 64 →
  ∃ r srv, engine_call cb (clocks (ss_calls s)) m (ss_server s) = Some (r, srv) ∧
    thread_post tr i s
      (Next (set_mutex None (set_conn i (goto (AtSend r) c) (set_server srv (S (ss_calls s)) s)),
             [Served i m r])).
Proof.
  intros Hinv Hi [H1 H2 H3 H4 H5] Hd Hl Hp He Hlt. rewrite Hd, Hl, Hp in *.
  apply Forall_cons in H1 as [[Hm Hmp] Hok].
  destruct (engine_serve _ _ _ _ _ _ i m (inv_engine _ _ _ _ _ Hinv) Hm Hmp Hlt) as (r & srv & Hh & He').
  exists r, srv. split; [done|].
  apply (inv_update cb clocks srv0 tr [Served i m r] s i (goto (AtSend r) c) todo srv (S (ss_calls s))
    None (closed_fds s)); [done|by eapply inv_conn|by constructor| |done|].
  - constructor; autorewrite with events; simpl; try done.
    + by rewrite H2, <-app_assoc.
    + by rewrite H4, app_nil_r.
  - by eapply mutex_release; [by eapply inv_mutex|..].
Qed.

Lemma step_acquire tr s i c todo p :
  inv tr s → client_threads_ s !! i = Some c → conn_inv (running_ s) tr i c todo →
  mutex_ s = None → lead p = lead (c_pc c) → doing p = doing (c_pc c) →
  pending p = pending (c_pc c) → leaving p = false → in_engine p = true →
  thread_post tr i s (Next (set_mutex (Some i) (set_conn i (goto p c) s), [])).
Proof.
  intros Hinv Hi Hc Hmx Hl Hd Hp Hv He. cbn [thread_post].
  apply (inv_update cb clocks srv0 tr [] s i (goto p c) todo (ss_server s) (ss_calls s) (Some i) (closed_fds s));
    rewrite ?app_nil_r; [done|by eapply inv_conn|constructor| |by destruct Hinv|].
  - eapply conn_goto; try done. by rewrite Hv.
  - eapply mutex_acquire; [rewrite <-Hmx; by eapply inv_mutex|done..].
Qed.

Lemma step_send tr s i c todo r :
  inv tr s → client_threads_ s !! i = Some c → conn_inv (running_ s) tr i c todo → c_pc c = AtSend r →
  thread_post tr i s
    (Next (set_conn i (mk_conn (c_fd c) (c_wire c) (c_input c) (c_closed c) (c_sent c ++ [r]) AtLoop) s,
           [])).
Proof.
  intros Hinv Hi [H1 H2 H3 H4 H5] Hpc. rewrite Hpc in *.
  apply (thread_jump tr s i c _ todo); [done..|by rewrite Hpc|].
  constructor; simpl; rewrite ?app_nil_r; done.
Qed.

Lemma races_none i s : risk_ (ss_server s) = None → races clocks i s = false.
Proof.
  intros Hn. unfold races, uses_risk. destruct (client_threads_ s !! i); [|done].
  rewrite Hn, bool_decide_eq_false_2; [done|by intros []].
Qed.

(** The risk check: the order goes on, or is refused with a report. *)
Lemma step_check tr s i c todo m :
  inv tr s → client_threads_ s !! i = Some c → conn_inv (running_ s) tr i c todo → c_pc c = InCheck m →
  ∃ reason srv, risk_gate m (ss_server s) = Some (reason, srv) ∧
    thread_post tr i s
      (if decide (reason = Reason_None) then
         Next (set_conn i (goto (AtSubmit m) c) (set_server srv (ss_calls s) s), [])
       else Next (set_conn i (goto (AtSend (reject_report m)) c) (set_server srv (ss_calls s) s), [Refused i m])).
Proof.
  intros Hinv Hi Hc Hpc. destruct Hc as [H1 H2 H3 H4 H5]. rewrite Hpc in *.
  pose proof H1 as [[Hm Hp] Hok]%Forall_cons.
  destruct (engine_gate _ _ _ _ _ _ m (inv_engine _ _ _ _ _ Hinv) Hm) as (reason & srv & Hg & He & Hsome).
  exists reason, srv. split; [done|].
  assert (∀ p, in_engine p = false → mutex_inv (mutex_ s) (<[i := goto p c]> (client_threads_ s))) as Hmx.
  { intros p Hin. eapply mutex_keep; [by eapply inv_mutex|done|]. by rewrite Hpc. }
  case_decide.
  - apply (inv_update cb clocks srv0 tr [] s i (goto (AtSubmit m) c) todo srv (ss_calls s)
      (mutex_ s) (closed_fds s)); rewrite ?app_nil_r; [done|by eapply inv_conn|constructor| |done|by apply Hmx].
    by constructor.
  - apply (inv_update cb clocks srv0 tr [Refused i m] s i (goto (AtSend (reject_report m)) c) todo srv
      (ss_calls s) (mutex_ s) (closed_fds s));
      [done|by eapply inv_conn|by constructor| |apply engine_silent; [by constructor; auto|done]|by apply Hmx].
    constructor; autorewrite with events; simpl; try done.
    + by rewrite H2, <-app_assoc.
    + by rewrite H4, app_nil_r.
Qed.

Lemma thread_step_inv tr s i :
  inv tr s → Z.of_nat (ss_calls s) + 2 < 2 ^ 64 → thread_post tr i s (thread_step cb clocks i s).
Proof.
  intros Hinv Hlt. unfold thread_step. destruct (client_threads_ s !! i) as [c|] eqn:Hi; [|done].
  destruct (inv_conn _ _ _ _ _ Hinv i c Hi) as (_ & todo & Hc).
  destruct (c_pc c) as [| | | |m|m|m|m|m|r| |] eqn:Hpc.
  - by eapply step_loop.
  - destruct (recv_wait 1 c) as [[buf c']|] eqn:Hr; [|done].
    pose proof (step_type tr s i c todo buf c' Hinv Hi Hpc Hc Hr). by destruct buf.
  - destruct (recv_wait 22 c) as [[buf c']|] eqn:Hr; [|done].
    pose proof (step_order tr s i c todo buf c' Hinv Hi Hpc Hc Hr). by destruct buf.
  - destruct (recv_wait 16 c) as [[buf c']|] eqn:Hr; [|done].
    pose proof (step_cancel tr s i c todo buf c' Hinv Hi Hpc Hc Hr). by destruct buf.
  - destruct (races clocks i s) eqn:Hrace; [done|].
    destruct (step_check tr s i c todo m Hinv Hi Hc Hpc) as (reason & srv & -> & Hpost). done.
  - destruct (mutex_ s) eqn:Hmx; [done|]. by eapply step_acquire; rewrite ?Hpc.
  - destruct (races clocks i s) eqn:Hrace; [done|].
    destruct (step_engine tr s i c todo (MOrder m)) as (r & srv & Hh & Hpost); rewrite ?Hpc; try done.
    simpl in Hh. by rewrite Hh.
  - destruct (mutex_ s) eqn:Hmx; [done|]. by eapply step_acquire; rewrite ?Hpc.
  - destruct (step_engine tr s i c todo (MCancel m)) as (r & srv & Hh & Hpost); rewrite ?Hpc; try done.
    simpl in Hh. by rewrite Hh.
  - by eapply step_send.
  - cbn [thread_post]. rewrite app_nil_r.
    apply (inv_silent cb clocks srv0 tr s i c (goto Finished c) todo); [done..|by rewrite Hpc|].
    eapply conn_goto; rewrite ?Hpc; try done. intros _. by apply (ci_leaving _ _ _ _ _ Hc); rewrite Hpc.
  - done.
Qed.

(** ** Steps of the others *)

Lemma step_write tr s i c m :
  inv tr s → client_threads_ s !! i = Some c → c_closed c = false → message_ok m → message_price_ok m →
  inv (tr ++ [Wrote i m])
    (set_conn i (mk_conn (c_fd c) (c_wire c ++ encode_message m) (c_input c) false (c_sent c) (c_pc c)) s).
Proof.
  intros Hinv Hi Hcl Hm Hp. destruct (inv_conn _ _ _ _ _ Hinv i c Hi) as (Hlt & todo & [H1 H2 H3 H4 H5]).
  apply (inv_update cb clocks srv0 tr [Wrote i m] s i _ (todo ++ [m]) (ss_server s) (ss_calls s) (mutex_ s) (closed_fds s)); [done|done|by constructor| | |].
  - constructor; autorewrite with events; simpl; try done.
    + rewrite app_assoc. apply Forall_app. split; [done|]. by constructor.
    + rewrite H2. by rewrite <-!app_assoc.
    + rewrite concat_app, <-H3, !app_assoc. simpl. by rewrite app_nil_r.
    + intros Hv Hrun. destruct (H5 Hv Hrun). congruence.
  - apply engine_silent; [by constructor|by destruct Hinv].
  - eapply mutex_keep; [by eapply inv_mutex|done..].
Qed.

Lemma step_arrive tr s i c n closed :
  inv tr s → client_threads_ s !! i = Some c → (c_closed c = true → closed = true) →
  inv tr (set_conn i (mk_conn (c_fd c) (drop n (c_wire c)) (c_input c ++ take n (c_wire c)) closed
                       (c_sent c) (c_pc c)) s).
Proof.
  intros Hinv Hi Hcl. destruct (inv_conn _ _ _ _ _ Hinv i c Hi) as (Hlt & todo & [H1 H2 H3 H4 H5]).
  eapply (inv_silent _ _ _ tr s i c _ todo (closed_fds s)); [done..|]. constructor; simpl; try done.
  - by rewrite <-app_assoc, take_drop.
  - intros Hv Hrun. destruct (H5 Hv Hrun). auto.
Qed.

Lemma conn_inv_stop running tr i c todo : conn_inv running tr i c todo → conn_inv false tr i c todo.
Proof. intros []. by constructor. Qed.

Lemma step_accepted tr s fd p :
  inv tr s →
  inv tr (set_main p (set_threads (<[next_thread s := new_conn fd]> (client_threads_ s))
                       (S (next_thread s)) s)).
Proof.
  intros [He Hm Hc Hf]. constructor; simpl; [done| | |].
  - intros j. rewrite (Hm j). destruct (decide (j = next_thread s)) as [->|Hne].
    + rewrite lookup_insert_eq. split; intros (c & Hj & Hin); [|by injection Hj as <-].
      destruct (Hc _ _ Hj). lia.
    + by rewrite lookup_insert_ne.
  - intros j c. destruct (decide (j = next_thread s)) as [->|Hne].
    + rewrite lookup_insert_eq. intros [= <-]. split; [lia|]. exists [].
      destruct (other_events (next_thread s) [] tr) as [E1 E2].
      { eapply Forall_impl; [exact Hf|]. simpl. lia. }
      simpl in E1, E2. constructor; rewrite ?E1, ?E2; try done. constructor.
    + rewrite lookup_insert_ne by done. intros Hj. destruct (Hc j c Hj). split; [lia|done].
  - eapply Forall_impl; [exact Hf|]. simpl. lia.
Qed.

Lemma step_stop tr s : inv tr s → inv tr (stop_begin s).
Proof.
  intros [He Hm Hc Hf]. unfold stop_begin. destruct (_ >=? 0); constructor; simpl; try done;
    intros i c Hi; destruct (Hc i c Hi) as (? & todo & ?); eauto using conn_inv_stop.
Qed.

Lemma step_join tr s s' : inv tr s → stop_join s = Some s' → inv tr s'.
Proof.
  intros [He Hm Hc Hf]. unfold stop_join. destruct (all_finished s) eqn:Hall; [|done].
  intros [= <-]. constructor; simpl; try done. intros i. rewrite (Hm i). split; intros (c & Hi & Hin); [|done].
  unfold all_finished in Hall. rewrite forallb_forall in Hall.
  specialize (Hall (i, c)). rewrite <-list_elem_of_In, elem_of_map_to_list in Hall.
  specialize (Hall Hi). by destruct (c_pc c).
Qed.
End steps.
