(* ===== verification/ThreadProps.v ===== *)
(** The correctness of the server with many clients at once: what the engine does and
    answers is what it would do for one client that sends the messages in some order, no
    step is undefined unless it races on the risk checker, and the threads answer
    everything that arrives.  Then the races, the risk limits under interleaving, and how
    the server stops. *)

From stdpp Require Import base list gmap strings.
From Stdlib Require Import ZArith Lia.
From S2P Require Import Prelude Machine StdMap Types OrderBook MatchingEngine EngineSpec Exchange.
From S2P Require Import RiskChecker Wire Protocol TcpServer ServerProps Threads ThreadInv ThreadSteps.

Open Scope Z_scope.
Open Scope list_scope.

Section props.
Context (cb : option (Trade → option RiskChecker → option RiskChecker)).
Context (clocks : nat → nat → Timestamp).

(** The risk checker at the start: none, or one without positions behind the callback of
    src/main.cpp. *)
Context (rc0 : option RiskChecker).
Context (Hrc0 : match rc0 with Some rc => ∀ sym, position sym rc = 0 | None => True end).
Context (Hcb0 : rc0 = None ∨ cb = Some main_trade_callback).

Definition server_none : Server := mk_server MatchingEngine_new None.
Notation srv0 := (mk_server MatchingEngine_new rc0).
Notation inv := (inv cb clocks srv0).
Notation steps := (steps cb clocks).
Notation thread_step := (thread_step cb clocks).

(** ** The invariant on runs *)

Lemma inv_listening fd : inv [] (listening srv0 fd).
Proof.
  assert (engine_inv cb clocks srv0 [] srv0 0) as He by (by constructor).
  assert (mutex_inv None ∅) as Hm by (intros i; split; [done|by intros (? & ? & ?)]).
  unfold listening, start. destruct (fd <? 0); by constructor.
Qed.

Lemma act_inv tr s a s' ev :
  inv tr s → act cb clocks a s = Some (s', ev) → written_ok ev → Z.of_nat (ss_calls s) + 2 < 2 ^ 64 →
  inv (tr ++ ev) s'.
Proof.
  intros Hinv Ha Hok Hlt. destruct a as [i|i m|i n|i| |fd| |]; simpl in Ha.
  - pose proof (thread_step_inv cb clocks srv0 tr s i Hinv Hlt) as Hpost.
    destruct (thread_step i s) as [| |[s1 e]]; try done. by injection Ha as <- <-.
  - apply bind_Some in Ha as (c & Hi & Ha). destruct (c_closed c) eqn:Hcl; [done|].
    injection Ha as <- <-. apply Forall_cons in Hok as [[Hm Hp] _]. by apply step_write.
  - apply bind_Some in Ha as (c & Hi & Ha). injection Ha as <- <-. rewrite app_nil_r. by apply step_arrive.
  - apply bind_Some in Ha as (c & Hi & Ha). injection Ha as <- <-. rewrite app_nil_r.
    pose proof (step_arrive cb clocks srv0 tr s i c 0 true Hinv Hi (λ _, eq_refl)) as H.
    simpl in H. by rewrite app_nil_r in H.
  - destruct (ss_main s); try done; injection Ha as <- <-; rewrite app_nil_r; by destruct Hinv.
  - destruct (ss_main s); try done. injection Ha as <- <-. rewrite app_nil_r. by apply step_accepted.
  - injection Ha as <- <-. rewrite app_nil_r. by apply step_stop.
  - destruct (running_ s); [done|]. apply bind_Some in Ha as (s1 & Hj & Ha). injection Ha as <- <-.
    rewrite app_nil_r. by eapply step_join.
Qed.

Lemma steps_inv fd tr s :
  steps (listening srv0 fd) tr s → written_ok tr → Z.of_nat (length tr) + 2 < 2 ^ 64 → inv tr s.
Proof.
  induction 1 as [|tr s1 a s2 ev Hs IH Ha]; intros Hok Hlt; [apply inv_listening|].
  apply Forall_app in Hok as [Hok1 Hok2]. rewrite length_app in Hlt.
  assert (inv tr s1) as Hinv by (apply IH; [done|lia]).
  eapply act_inv; [done..|]. rewrite (ei_calls _ _ _ _ _ _ (inv_engine _ _ _ _ _ Hinv)).
  pose proof (served_length tr). lia.
Qed.

Lemma inv_calls tr s : inv tr s → Z.of_nat (length tr) + 2 < 2 ^ 64 → Z.of_nat (ss_calls s) + 2 < 2 ^ 64.
Proof.
  intros Hinv Hlt. rewrite (ei_calls _ _ _ _ _ _ (inv_engine _ _ _ _ _ Hinv)).
  pose proof (served_length tr). lia.
Qed.

(** ** Threads that cannot go on *)

(** No thread can take a step. *)
Definition stuck (s : State) : Prop := ∀ i s' e, thread_step i s ≠ Next (s', e).

Lemma engine_progress i s c :
  client_threads_ s !! i = Some c → in_engine (c_pc c) = true → thread_step i s ≠ Blocked.
Proof.
  intros Hi He. unfold Threads.thread_step. rewrite Hi. destruct (c_pc c); try done.
  - destruct (races _ _ _); [done|]. by destruct (submit_message _ _ _ _) as [[]|].
  - by destruct (handle_cancel _ _) as [[]|].
Qed.

(** No thread races. *)
Definition race_free (s : State) : Prop := ∀ i, races clocks i s = false.

Lemma stuck_blocked tr s i :
  inv tr s → Z.of_nat (ss_calls s) + 2 < 2 ^ 64 → race_free s → stuck s → thread_step i s = Blocked.
Proof.
  intros Hinv Hlt Hrf Hst. pose proof (thread_step_inv _ _ _ _ _ i Hinv Hlt) as Hpost.
  destruct (thread_step i s) as [| |[s' e]] eqn:E; [done| |by destruct (Hst i s' e)].
  simpl in Hpost. by rewrite Hrf in Hpost.
Qed.

(** The holder of the mutex can always go on. *)
Lemma stuck_unlocked tr s :
  inv tr s → Z.of_nat (ss_calls s) + 2 < 2 ^ 64 → race_free s → stuck s → mutex_ s = None.
Proof.
  intros Hinv Hlt Hrf Hst. destruct (mutex_ s) as [i|] eqn:Hmx; [|done].
  destruct (proj1 (inv_mutex _ _ _ _ _ Hinv i) Hmx) as (c & Hi & He).
  by destruct (engine_progress i s c Hi He); eapply stuck_blocked.
Qed.

(** A read that has its bytes does not wait. *)
Lemma recv_wait_some n c : (n ≤ length (c_input c))%nat → is_Some (recv_wait n c).
Proof.
  intros Hle. unfold recv_wait, recv. destruct (Nat.leb_spec n (length (c_input c))); [by eexists|lia].
Qed.

Lemma stuck_at_type tr s i c todo :
  inv tr s → client_threads_ s !! i = Some c → conn_inv (running_ s) tr i c todo → race_free s → stuck s →
  mutex_ s = None → Z.of_nat (ss_calls s) + 2 < 2 ^ 64 → c_wire c = [] →
  leaving (c_pc c) = true ∨ (c_pc c = AtType ∧ c_input c = []).
Proof.
  intros Hinv Hi Hc Hrf Hst Hmx Hlt Hw.
  pose proof (stuck_blocked tr s i Hinv Hlt Hrf Hst) as Hb.
  pose proof (ci_bytes _ _ _ _ _ Hc) as Hbytes. pose proof (ci_ok _ _ _ _ _ Hc) as Hok.
  rewrite Hw, app_nil_r in Hbytes.
  unfold Threads.thread_step in Hb. rewrite Hi in Hb.
  destruct (c_pc c) as [| | | |m|m|m|m|m|r| |] eqn:Hpc; try done; rewrite ?Hmx in Hb; try done; auto.
  - right. split; [done|]. destruct (c_input c) as [|b l] eqn:Ein; [done|].
    destruct (recv_wait_some 1 c) as [[buf c'] E]; [rewrite Ein; simpl; lia|]. rewrite E in Hb.
    by destruct buf.
  - destruct (stream_tag _ _ _ Hbytes) as ([m|m] & todo' & -> & ? & Hin); [|done].
    apply Forall_cons in Hok as [[Hm _] _]. pose proof (body_length _ Hm) as Hl.
    destruct (recv_wait_some 22 c) as [[buf c'] E]; [rewrite Hin, length_app; simpl in Hl; lia|].
    rewrite E in Hb. destruct buf; [done|]. by destruct (decode_order _).
  - destruct (stream_tag _ _ _ Hbytes) as ([m|m] & todo' & -> & ? & Hin); [done|].
    apply Forall_cons in Hok as [[Hm _] _]. pose proof (body_length _ Hm) as Hl.
    destruct (recv_wait_some 16 c) as [[buf c'] E]; [rewrite Hin, length_app; simpl in Hl; lia|].
    rewrite E in Hb. destruct buf; [done|]. by destruct (decode_cancel _).
  - rewrite Hrf in Hb. destruct (risk_gate m (ss_server s)) as [[reason srv]|]; [|done]. by case_decide.
  - exfalso. eapply engine_progress; [exact Hi|by rewrite Hpc|]. unfold Threads.thread_step. by rewrite Hi, Hpc.
  - exfalso. eapply engine_progress; [exact Hi|by rewrite Hpc|]. unfold Threads.thread_step. by rewrite Hi, Hpc.
Qed.

(** When the threads cannot go on and nothing is on the way, all that was written is
    answered. *)
Lemma stuck_answered tr s i c :
  inv tr s → client_threads_ s !! i = Some c → race_free s → stuck s → Z.of_nat (ss_calls s) + 2 < 2 ^ 64 →
  running_ s = true → c_wire c = [] →
  sent_by i tr = (answered i tr).*1 ∧ c_sent c = (answered i tr).*2.
Proof.
  intros Hinv Hi Hrf Hst Hlt Hrun Hw.
  destruct (inv_conn _ _ _ _ _ Hinv i c Hi) as (_ & todo & Hc).
  pose proof (stuck_unlocked _ _ Hinv Hlt Hrf Hst) as Hmx.
  destruct (stuck_at_type _ _ _ _ _ Hinv Hi Hc Hrf Hst Hmx Hlt Hw) as [Hv|[Hpc Hin]];
    destruct Hc as [H1 H2 H3 H4 H5].
  - destruct (H5 Hv Hrun) as [-> _]. rewrite H2, H4. destruct (c_pc c); try done; simpl; by rewrite !app_nil_r.
  - rewrite Hpc, Hin, Hw in *. simpl in *.
    assert (todo = []) as -> by (destruct todo; [done|by rewrite stream_cons in H3]).
    rewrite H2, H4. by rewrite !app_nil_r.
Qed.

(** ** The work of the threads *)

(** The steps a thread has left in its current round. *)
Definition rank (p : pc) : nat :=
  match p with
  | Finished => 0 | AtClose => 1 | AtType => 2 | AtLoop => 3 | AtSend _ => 4
  | InSubmit _ | InCancelOrder _ => 5 | AtSubmit _ | AtCancelOrder _ => 6 | InCheck _ => 7
  | AtOrder | AtCancel => 8
  end.
Definition conn_work (c : Conn) : nat := 10 * length (c_input c) + rank (c_pc c).
Definition work (s : State) : nat :=
  sum_list ((λ ic, conn_work ic.2) <$> map_to_list (client_threads_ s)).

Lemma recv_wait_frame n c buf c' :
  recv_wait n c = Some (buf, c') → buf = take n (c_input c) ∧ c' = set_input (drop n (c_input c)) c.
Proof. unfold recv_wait, recv. destruct (_ || _); [|done]. by intros [= <- <-]. Qed.

(** A step of a thread changes its own connection, leaves what is on the way, and takes
    work off the connection. *)
Definition quiet (e : event) : Prop := match e with Wrote _ _ => False | _ => True end.

Lemma quiet_events ev : Forall quiet ev → (∀ i, sent_by i ev = []) ∧ written_ok ev.
Proof.
  intros Hev. split; [|eapply Forall_impl; [exact Hev|]; by intros []].
  intros i. induction Hev as [|[] ev He _ IH]; done.
Qed.

Lemma thread_step_frame i s s' e :
  thread_step i s = Next (s', e) →
  (running_ s' = running_ s ∧ next_thread s' = next_thread s ∧ Forall quiet e ∧ (length e ≤ 1)%nat) ∧
  ∃ c c', client_threads_ s !! i = Some c ∧ client_threads_ s' = <[i := c']> (client_threads_ s) ∧
    c_wire c' = c_wire c ∧ (conn_work c' < conn_work c)%nat.
Proof.
  unfold Threads.thread_step. destruct (client_threads_ s !! i) as [c|] eqn:Hi; [|done].
  intros Hs. unfold conn_work. destruct (c_pc c) as [| | | |m|m|m|m|m|r| |] eqn:Hpc;
    repeat match type of Hs with
    | context [match recv_wait ?n c with _ => _ end] =>
        destruct (recv_wait n c) as [[buf c1]|] eqn:Hr; [|done];
        apply recv_wait_frame in Hr as [Hbuf ->]; destruct buf
    | context [match ?x with _ => _ end] => destruct x eqn:?; try discriminate
    end; try discriminate; injection Hs as <- <-;
    (split; [split_and!; [simpl; congruence|done|by repeat constructor|simpl; lia]|]); eexists c, _; (split; [done|]); (split; [done|]);
    (split; [done|]); cbn [c_input c_pc goto set_input]; rewrite ?Hpc, ?length_drop; simpl rank; try lia;
    (apply (f_equal length) in Hbuf; rewrite length_take in Hbuf; cbn [length] in Hbuf; lia).
Qed.

Lemma work_insert (ts : gmap nat Conn) i c c' :
  ts !! i = Some c →
  (sum_list ((λ ic, conn_work ic.2) <$> map_to_list (<[i := c']> ts)) + conn_work c =
   sum_list ((λ ic, conn_work ic.2) <$> map_to_list ts) + conn_work c')%nat.
Proof.
  intros Hi. rewrite <-insert_delete_eq. rewrite map_to_list_insert by apply lookup_delete_eq.
  rewrite <-(insert_delete_id ts i c Hi) at 2. rewrite map_to_list_insert by apply lookup_delete_eq.
  csimpl. lia.
Qed.

Lemma thread_step_work i s s' e : thread_step i s = Next (s', e) → (work s' < work s)%nat.
Proof.
  intros (_ & c & c' & Hi & Hts & _ & Hlt)%thread_step_frame. unfold work. rewrite Hts.
  pose proof (work_insert (client_threads_ s) i c c' Hi). lia.
Qed.

(** A schedule: which thread goes next. *)
Definition schedule (l : list nat) : list action := AThread <$> l.

Lemma schedule_cons i l s s' tr :
  run cb clocks (schedule (i :: l)) s = Some (s', tr) →
  ∃ s1 e, thread_step i s = Next (s1, e) ∧ ∃ tr', run cb clocks (schedule l) s1 = Some (s', tr') ∧
    tr = e ++ tr'.
Proof.
  simpl. destruct (thread_step i s) as [| |[s1 e]] eqn:Hs; try done. simpl.
  intros ([s2 tr'] & Hr & [= <- <-])%bind_Some. eauto 6.
Qed.

Lemma schedule_work l s s' tr :
  run cb clocks (schedule l) s = Some (s', tr) → (length l + work s' ≤ work s)%nat.
Proof.
  revert s tr. induction l as [|i l IH]; intros s tr Hr; [by injection Hr as <- _|].
  apply schedule_cons in Hr as (s1 & e & Hs & tr' & Hr & _).
  apply thread_step_work in Hs. apply IH in Hr. simpl. lia.
Qed.

(** What the clients wrote is not changed by the threads, nor what is on the way. *)
Lemma schedule_frame l s s' tr :
  run cb clocks (schedule l) s = Some (s', tr) →
  running_ s' = running_ s ∧ (∀ i, sent_by i tr = []) ∧ written_ok tr ∧ (length tr ≤ length l)%nat ∧
  ∀ i c', client_threads_ s' !! i = Some c' →
    ∃ c, client_threads_ s !! i = Some c ∧ c_wire c' = c_wire c.
Proof.
  revert s tr. induction l as [|i l IH]; intros s tr Hr.
  { injection Hr as <- <-. split_and!; try done; [constructor|eauto]. }
  apply schedule_cons in Hr as (s1 & e & Hs & tr' & Hr & ->).
  apply IH in Hr as (Hrun & Hsent & Hok & Hlen & Hw).
  apply thread_step_frame in Hs as ((Hrun1 & _ & Hquiet & Hlen1) & c & c1 & Hi & Hts & Hw1 & _).
  apply quiet_events in Hquiet as [Hsent1 Hok1].
  split; [congruence|]. split; [|split; [|split]].
  - intros j. unfold sent_by in *. by rewrite omap_app, Hsent1, Hsent.
  - by apply Forall_app.
  - rewrite length_app. simpl. lia.
  - intros j c' Hj. destruct (Hw j c' Hj) as (c2 & Hj2 & Hw2). rewrite Hts in Hj2.
    destruct (decide (j = i)) as [->|Hne].
    + rewrite lookup_insert_eq in Hj2. injection Hj2 as <-. exists c. split; [done|congruence].
    + rewrite lookup_insert_ne in Hj2 by done. eauto.
Qed.

(** Some schedule goes on until no thread can. *)
Lemma stuck_or_step s : stuck s ∨ ∃ i s' e, thread_step i s = Next (s', e).
Proof.
  set (can i := match thread_step i s with Next _ => true | _ => false end).
  destruct (existsb can (map_to_list (client_threads_ s)).*1) eqn:Hex.
  - right. apply existsb_exists in Hex as (i & _ & Hcan). unfold can in Hcan.
    destruct (thread_step i s) as [| |[s' e]] eqn:E; [done..|]. eauto.
  - left. intros i s' e Hs. apply not_true_iff_false in Hex. apply Hex, existsb_exists. exists i.
    split; [|unfold can; by rewrite Hs]. apply thread_step_frame in Hs as (_ & c & _ & Hi & _).
    apply list_elem_of_In, list_elem_of_fmap. exists (i, c). split; [done|]. by apply elem_of_map_to_list.
Qed.

Lemma schedule_exists s :
  ∃ l s' tr, run cb clocks (schedule l) s = Some (s', tr) ∧ stuck s'.
Proof.
  remember (work s) as n eqn:Hn. revert s Hn. induction (lt_wf n) as [n _ IH]. intros s ->.
  destruct (stuck_or_step s) as [Hst|(i & s1 & e & Hs)]; [by exists [], s, []|].
  destruct (IH (work s1) (thread_step_work _ _ _ _ Hs) s1 eq_refl) as (l & s' & tr & Hr & Hst).
  eexists (i :: l), s', _. split; [|done]. simpl. rewrite Hs. simpl.
  by rewrite Hr.
Qed.

(** ** The properties *)

(** Any number of clients, served by their threads in any interleaving, bytes
    arriving in any pieces, with no risk checker or with the one of src/main.cpp: the
    engine ends in the state, and gives the reports, that serving one after the other the
    messages that were not refused gives, in the order in which they were answered.  For
    each client the answers are in the order in which it wrote its messages, and it is
    sent the reports in that order, at most one of them still to be sent.  Without a
    checker nothing is refused. *)
Theorem concurrent_refines_sequential fd tr s :
  steps (listening srv0 fd) tr s → written_ok tr → Z.of_nat (length tr) + 2 < 2 ^ 64 →
  serve None clocks 0 (served tr).*1 server_none =
    Some ((served tr).*2, mk_server (engine_ (ss_server s)) None) ∧
  (∀ i c, client_threads_ s !! i = Some c →
    (answered i tr).*1 `prefix_of` sent_by i tr ∧
    ∃ rest, (answered i tr).*2 = c_sent c ++ rest ∧ (length rest ≤ 1)%nat) ∧
  (rc0 = None → ∀ i m, Refused i m ∉ tr).
Proof.
  intros Hs Hok Hlt. pose proof (steps_inv _ _ _ Hs Hok Hlt) as Hinv. split; [by apply Hinv|]. split.
  - intros i c Hi. destruct (inv_conn _ _ _ _ _ Hinv i c Hi) as (_ & todo & [_ H2 _ H4 _]). split.
    + rewrite H2. by eexists.
    + eexists. split; [exact H4|]. destruct (c_pc c); simpl; lia.
  - intros H0 i m Hin. pose proof (ei_refused _ _ _ _ _ _ (inv_engine _ _ _ _ _ Hinv) H0) as Hall.
    rewrite Forall_forall in Hall. exact (Hall _ Hin).
Qed.

(** C24: in such a server, while the clients write whole messages without NaN prices of
    orders other than market orders, a step of a thread is undefined only if it and another thread are
    inside calls that touch the risk checker at the same time ([races]): no message is read
    in part, no check and no call of the engine fails.  Without a checker no step is
    undefined.  No two threads are inside the engine at once. *)
Theorem concurrent_safe fd tr s :
  steps (listening srv0 fd) tr s → written_ok tr → Z.of_nat (length tr) + 2 < 2 ^ 64 →
  (∀ i, thread_step i s = Undefined → races clocks i s = true) ∧
  (rc0 = None → race_free s) ∧
  ∀ i j ci cj, client_threads_ s !! i = Some ci → client_threads_ s !! j = Some cj →
    in_engine (c_pc ci) = true → in_engine (c_pc cj) = true → i = j.
Proof.
  intros Hs Hok Hlt. pose proof (steps_inv _ _ _ Hs Hok Hlt) as Hinv. split_and!.
  - intros i Hu. pose proof (thread_step_inv _ _ _ _ _ i Hinv (inv_calls _ _ Hinv Hlt)) as Hpost.
    by rewrite Hu in Hpost.
  - intros H0 i. apply races_none. by apply (ei_risk _ _ _ _ _ _ (inv_engine _ _ _ _ _ Hinv)).
  - intros i j ci cj Hi Hj Ei Ej. pose proof (inv_mutex _ _ _ _ _ Hinv) as Hm.
    assert (mutex_ s = Some i) as E by (apply Hm; eauto).
    assert (mutex_ s = Some j) by (apply Hm; eauto). congruence.
Qed.

(** C25: the threads never deadlock and answer all they are sent: from any state of a server
    that runs (it has not been stopped), whose clients have written whole messages without
    NaN prices of orders other than market orders, and in which all that was written has arrived, any
    schedule of the threads ends, within a number of steps the state gives, and some
    schedule goes on until no thread can; and when no thread can go on, and no two are
    inside the risk checker at once, every client has been sent exactly one report for each
    message it wrote, in order. *)
Theorem concurrent_answers_everything fd tr s :
  steps (listening srv0 fd) tr s → written_ok tr →
  Z.of_nat (length tr) + Z.of_nat (work s) + 2 < 2 ^ 64 →
  running_ s = true → (∀ i c, client_threads_ s !! i = Some c → c_wire c = []) →
  (∃ l s' tr', run cb clocks (schedule l) s = Some (s', tr') ∧ stuck s') ∧
  ∀ l s' tr', run cb clocks (schedule l) s = Some (s', tr') →
    (length l ≤ work s)%nat ∧
    (stuck s' → race_free s' → ∀ i c, client_threads_ s' !! i = Some c →
       (answered i (tr ++ tr')).*1 = sent_by i tr ∧ c_sent c = (answered i (tr ++ tr')).*2).
Proof.
  intros Hs Hok Hlt Hrun Hwire. split; [apply schedule_exists|].
  intros l s' tr' Hr. pose proof (schedule_work _ _ _ _ Hr) as Hwork. split; [lia|].
  intros Hst Hrf i c Hi. pose proof (schedule_frame _ _ _ _ Hr) as (Hrun' & Hsent & Hok' & Hlen & Hw).
  assert (Z.of_nat (length (tr ++ tr')) + 2 < 2 ^ 64) as Hlt' by (rewrite length_app; lia).
  assert (inv (tr ++ tr') s') as Hinv.
  { eapply steps_inv; [by eapply steps_trans|by apply Forall_app|done]. }
  destruct (Hw i c Hi) as (c0 & Hi0 & Hw0).
  destruct (stuck_answered (tr ++ tr') s' i c) as [H1 H2]; try done.
  - by apply (inv_calls (tr ++ tr')).
  - congruence.
  - rewrite Hw0. by eapply Hwire.
  - split; [|done]. rewrite <-H1. unfold sent_by in *. rewrite omap_app, Hsent. by rewrite app_nil_r.
Qed.
End props.

(** ** A run *)

Notation main_cb := (Some main_trade_callback).

(** Two clients of the deployed server: the order of the first arrives in two pieces and is
    checked while the second is inside the engine. *)
Definition demo_acts : list action :=
  [AMain; AAccepted 4; AMain; AAccepted 5; AWrite 0 (MOrder sample_order); AArrive 0 10;
   AWrite 1 (MCancel sample_cancel); AArrive 1 17; AThread 1; AThread 1; AThread 1; AThread 1;
   AThread 0; AThread 0; AArrive 0 13; AThread 0; AThread 0; AThread 1].
Definition demo : State * list event :=
  default (listening server0 3, []) (run main_cb clocks0 demo_acts (listening server0 3)).

Lemma demo_run : run main_cb clocks0 demo_acts (listening server0 3) = Some demo.
Proof. vm_compute. reflexivity. Qed.
Lemma demo_steps : steps main_cb clocks0 (listening server0 3) demo.2 demo.1.
Proof. apply (run_steps _ _ demo_acts). rewrite demo_run. by destruct demo. Qed.
Lemma demo_written : written_ok demo.2.
Proof.
  assert (demo.2 = [Wrote 0 (MOrder sample_order); Wrote 1 (MCancel sample_cancel);
    Served 1 (MCancel sample_cancel) (mk_report 7 Rejected dzero 0 0)]) as -> by (vm_compute; reflexivity).
  apply Forall_cons_2; [split; [exact sample_order_ok|by right]|].
  apply Forall_cons_2; [split; [exact sample_cancel_ok|done]|]. apply Forall_cons_2; [done|apply Forall_nil_2].
Qed.
Lemma demo_wires i c : client_threads_ demo.1 !! i = Some c → c_wire c = [].
Proof.
  intros Hi%elem_of_map_to_list.
  assert (Forall (λ ic, c_wire ic.2 = []) (map_to_list (client_threads_ demo.1))) as Hall
    by (vm_compute; repeat constructor).
  rewrite Forall_forall in Hall. exact (Hall _ Hi).
Qed.

Lemma concurrent_refines_sequential_witness :
  serve None clocks0 0 (served demo.2).*1 server_none =
    Some ((served demo.2).*2, mk_server (engine_ (ss_server demo.1)) None) ∧
  (∀ i c, client_threads_ demo.1 !! i = Some c →
    (answered i demo.2).*1 `prefix_of` sent_by i demo.2 ∧
    ∃ rest, (answered i demo.2).*2 = c_sent c ++ rest ∧ (length rest ≤ 1)%nat) ∧
  (risk_ server0 = None → ∀ i m, Refused i m ∉ demo.2).
Proof.
  apply (concurrent_refines_sequential main_cb clocks0 (risk_ server0)) with (fd := 3);
    [intros sym; reflexivity|right; reflexivity|exact demo_steps|exact demo_written|reflexivity].
Defined.

Lemma concurrent_safe_witness :
  (∀ i, thread_step main_cb clocks0 i demo.1 = Undefined → races clocks0 i demo.1 = true) ∧
  (risk_ server0 = None → race_free clocks0 demo.1) ∧
  ∀ i j ci cj, client_threads_ demo.1 !! i = Some ci → client_threads_ demo.1 !! j = Some cj →
    in_engine (c_pc ci) = true → in_engine (c_pc cj) = true → i = j.
Proof.
  apply (concurrent_safe main_cb clocks0 (risk_ server0)) with (fd := 3) (tr := demo.2);
    [intros sym; reflexivity|right; reflexivity|exact demo_steps|exact demo_written|reflexivity].
Defined.

Lemma concurrent_answers_everything_witness :
  (∃ l s' tr', run main_cb clocks0 (schedule l) demo.1 = Some (s', tr') ∧ stuck main_cb clocks0 s') ∧
  ∀ l s' tr', run main_cb clocks0 (schedule l) demo.1 = Some (s', tr') →
    (length l ≤ work demo.1)%nat ∧
    (stuck main_cb clocks0 s' → race_free clocks0 s' → ∀ i c, client_threads_ s' !! i = Some c →
       (answered i (demo.2 ++ tr')).*1 = sent_by i demo.2 ∧ c_sent c = (answered i (demo.2 ++ tr')).*2).
Proof.
  apply (concurrent_answers_everything main_cb clocks0 (risk_ server0)) with (fd := 3);
    [intros sym; reflexivity|right; reflexivity|exact demo_steps|exact demo_written|reflexivity
    |reflexivity|exact demo_wires].
Defined.

(** ** With a risk checker *)

(** Two clients, each with one order of which all bytes have arrived. *)
Definition race_acts : list action :=
  [AMain; AAccepted 4; AMain; AAccepted 5; AWrite 0 (MOrder sample_order); AArrive 0 23;
   AWrite 1 (MOrder sample_order); AArrive 1 23; AThread 0; AThread 0; AThread 0;
   AThread 1; AThread 1; AThread 1].

(** The server as src/main.cpp sets it up has a data race: two clients that send one
    order each bring their threads into [RiskChecker::check] at the same time, both of
    which write the checker's counters without a lock, and the step of either is
    undefined. *)
Theorem risk_checker_race :
  ∃ s, run (Some main_trade_callback) clocks0 race_acts (listening server0 3) =
    Some (s, [Wrote 0 (MOrder sample_order); Wrote 1 (MOrder sample_order)]) ∧
    thread_step (Some main_trade_callback) clocks0 0 s = Undefined ∧
    thread_step (Some main_trade_callback) clocks0 1 s = Undefined.
Proof.
  destruct (run (Some main_trade_callback) clocks0 race_acts (listening server0 3)) as [[s tr]|] eqn:E;
    vm_compute in E; [|discriminate].
  injection E as <- <-. eexists. split; [reflexivity|]. split; vm_compute; reflexivity.
Qed.

(** ** The limits under interleaving *)

(** A limit of 1000 on the exposure; two orders to sell 6 at 100 rest; two clients buy 6. *)
Definition tight_limits : RiskLimits :=
  {| max_order_quantity := 1000000; max_order_notional := dofZ 10000000;
     max_position_abs := 5000000; max_notional_exposure := dofZ 1000 |}.
Definition tight_server : Server := mk_server MatchingEngine_new (Some (RiskChecker_new tight_limits)).
Definition six_at_100 (s : Side) : client_message :=
  MOrder (mk_order_msg (set_symbol "AAPL") s Limit (dofZ 100) 6).

Definition tight_start : list action :=
  [AMain; AAccepted 4; AMain; AAccepted 5; AMain; AAccepted 6;
   AWrite 2 (six_at_100 Sell); AWrite 2 (six_at_100 Sell); AArrive 2 46] ++
  replicate 14 (AThread 2) ++
  [AWrite 0 (six_at_100 Buy); AArrive 0 23; AWrite 1 (six_at_100 Buy); AArrive 1 23].

(** What a run ends with: the orders that were answered, and the exposure. *)
Definition answer (e : event) : option (nat * OrderStatus) :=
  match e with
  | Wrote _ _ => None
  | Refused i _ => Some (i, Rejected)
  | Served i _ r => Some (i, er_status r)
  end.
Definition outcomes (acts : list action) : option (list (nat * OrderStatus) * bool) :=
  match run main_cb clocks0 (tight_start ++ acts) (listening tight_server 3) with
  | None => None
  | Some (s, tr) =>
      rc ← risk_ (ss_server s);
      Some (omap answer tr, dgtb (current_notional_exposure_ rc) (dofZ 2000))
  end.

(** The limit depends on the interleaving: one after the other, the second buyer is refused
    because the trade of the first used up the limit; when both are checked before either
    is submitted, both pass and the exposure ends above twice the limit.  Neither run
    races. *)
Theorem exposure_limit_not_atomic :
  outcomes (replicate 6 (AThread 0) ++ replicate 4 (AThread 1)) =
    Some ([(2%nat, Accepted); (2%nat, Accepted); (0%nat, Accepted); (1%nat, Rejected)], false) ∧
  outcomes (replicate 4 (AThread 0) ++ replicate 4 (AThread 1) ++
            replicate 2 (AThread 0) ++ replicate 2 (AThread 1)) =
    Some ([(2%nat, Accepted); (2%nat, Accepted); (0%nat, Accepted); (1%nat, Accepted)], true).
Proof. split; vm_compute; reflexivity. Qed.

(** ** Stopping *)

(** A client that is connected and silent: its thread waits for the type of a message. *)
Definition idle (c : Conn) : Prop :=
  c_pc c = AtType ∧ c_input c = [] ∧ c_wire c = [] ∧ c_closed c = false.

Definition silent (i : nat) (a : action) : Prop :=
  match a with AWrite j _ => j ≠ i | AHangUp j => j ≠ i | _ => True end.

Lemma idle_blocked cb clocks i s c :
  client_threads_ s !! i = Some c → idle c → thread_step cb clocks i s = Blocked.
Proof.
  intros Hi (Hpc & Hin & Hw & Hcl). unfold thread_step. rewrite Hi, Hpc. unfold recv_wait.
  by rewrite Hin, Hcl.
Qed.

Lemma idle_join s i c : client_threads_ s !! i = Some c → idle c → stop_join s = None.
Proof.
  intros Hi (Hpc & _). unfold stop_join. destruct (all_finished s) eqn:Hall; [|done].
  unfold all_finished in Hall. rewrite forallb_forall in Hall. specialize (Hall (i, c)).
  rewrite <-list_elem_of_In, elem_of_map_to_list in Hall. specialize (Hall Hi). by rewrite Hpc in Hall.
Qed.

Lemma idle_act cb clocks i a s s' ev c :
  client_threads_ s !! i = Some c → idle c → silent i a → (i < next_thread s)%nat →
  act cb clocks a s = Some (s', ev) →
  (i < next_thread s')%nat ∧ ∃ c', client_threads_ s' !! i = Some c' ∧ idle c'.
Proof.
  intros Hi Hidle Hs Hlt Ha. destruct a as [j|j m|j n|j| |fd| |]; simpl in Ha, Hs.
  - destruct (thread_step cb clocks j s) as [| |[s1 e]] eqn:Hst; try done. injection Ha as <- _.
    destruct (decide (j = i)) as [->|Hne]; [by rewrite (idle_blocked _ _ _ _ _ Hi Hidle) in Hst|].
    apply thread_step_frame in Hst as ((_ & -> & _) & c1 & c2 & _ & -> & _). split; [done|].
    rewrite lookup_insert_ne by done. eauto.
  - apply bind_Some in Ha as (c1 & Hj & Ha). destruct (c_closed c1); [done|]. injection Ha as <- _.
    simpl. rewrite lookup_insert_ne by done. eauto.
  - apply bind_Some in Ha as (c1 & Hj & Ha). injection Ha as <- _. simpl. split; [done|].
    destruct (decide (j = i)) as [->|Hne]; [|rewrite lookup_insert_ne by done; eauto].
    rewrite lookup_insert_eq. eexists. split; [done|]. rewrite Hi in Hj. injection Hj as <-.
    destruct Hidle as (Hpc & Hin & Hw & Hcl). unfold idle. simpl. by rewrite Hw, Hin, take_nil, drop_nil.
  - apply bind_Some in Ha as (c1 & Hj & Ha). injection Ha as <- _. simpl.
    rewrite lookup_insert_ne by done. eauto.
  - destruct (ss_main s); try done; injection Ha as <- _; simpl; eauto.
  - destruct (ss_main s); try done. injection Ha as <- _. simpl. split; [lia|].
    rewrite lookup_insert_ne by lia. eauto.
  - injection Ha as <- _. unfold stop_begin. destruct (_ >=? 0); simpl; eauto.
  - destruct (running_ s); [done|]. by rewrite (idle_join _ _ _ Hi Hidle) in Ha.
Qed.

Lemma idle_run cb clocks i acts s s' tr c :
  client_threads_ s !! i = Some c → idle c → (i < next_thread s)%nat → Forall (silent i) acts →
  run cb clocks acts s = Some (s', tr) → ∃ c', client_threads_ s' !! i = Some c' ∧ idle c'.
Proof.
  intros Hi Hidle Hlt Hacts. revert s c tr Hi Hidle Hlt.
  induction Hacts as [|a acts Ha _ IH]; intros s c tr Hi Hidle Hlt Hr; simpl in Hr.
  { injection Hr as <- _. eauto. }
  apply bind_Some in Hr as ([s1 ev] & Hact & Hr). apply bind_Some in Hr as ([s2 tr'] & Hr & [= <- _]).
  destruct (idle_act _ _ _ _ _ _ _ _ Hi Hidle Ha Hlt Hact) as (Hlt' & c' & Hi' & Hidle'). eauto.
Qed.

(** [stop] does not disconnect clients: once a connected client is silent, whatever
    the others, the other threads and the caller of [stop] do, the joins of [stop] do
    not return until that client writes or hangs up. *)
Theorem stop_waits_for_idle_client cb clocks i acts s s' tr c :
  client_threads_ s !! i = Some c → idle c → (i < next_thread s)%nat → Forall (silent i) acts →
  run cb clocks acts (stop_begin s) = Some (s', tr) →
  act cb clocks AJoin s' = None.
Proof.
  intros Hi Hidle Hlt Hacts Hr.
  destruct (idle_run cb clocks i acts (stop_begin s) s' tr c) as (c' & Hi' & Hidle'); try done.
  - unfold stop_begin. by destruct (_ >=? 0).
  - unfold stop_begin. by destruct (_ >=? 0).
  - simpl. destruct (running_ s'); [done|]. by rewrite (idle_join _ _ _ Hi' Hidle').
Qed.

(** Two clients; the second is silent, the first is served and hangs up after [stop]. *)
Definition idle_acts : list action := [AMain; AAccepted 4; AMain; AAccepted 5; AThread 0; AThread 1].
Definition idle_state : State :=
  fst (default (listening server0 3, []) (run None clocks0 idle_acts (listening server0 3))).
Definition after_stop : list action := [AHangUp 0; AThread 0; AThread 0; AMain].

Lemma stop_waits_for_idle_client_witness :
  match run None clocks0 after_stop (stop_begin idle_state) with
  | Some (s', _) => act None clocks0 AJoin s' = None
  | None => False
  end.
Proof.
  destruct (run None clocks0 after_stop (stop_begin idle_state))
    as [[s' tr]|] eqn:E; [|vm_compute in E; discriminate].
  apply (stop_waits_for_idle_client None clocks0 1 after_stop idle_state s' tr
    (mk_conn 5 [] [] false [] AtType)); [vm_compute; reflexivity|by split_and!|vm_compute; lia| |exact E].
  repeat (apply Forall_cons_2; [done|]). apply Forall_nil_2.
Defined.

(** [start] and [stop] close the listening descriptor once when [start] gets as far
    as listening, not at all when there is no socket, and twice when [bind] or [listen]
    fails: [start] closes it and leaves it in [server_fd_], so [stop], which the
    destructor calls, closes it again. *)
Theorem start_stop_closes srv fd bind_ok listen_ok :
  closed_fds (stop_begin (start fd bind_ok listen_ok (TcpServer_new srv))) =
    (if fd <? 0 then [] else if bind_ok && listen_ok then [fd] else [fd; fd]) ∧
  server_fd_ (stop_begin (start fd bind_ok listen_ok (TcpServer_new srv))) = (if fd <? 0 then fd else -1).
Proof.
  unfold start, stop_begin. destruct (Z.ltb_spec fd 0); simpl.
  - destruct (Z.geb_spec fd 0); [lia|done].
  - by destruct bind_ok, listen_ok; simpl; (destruct (Z.geb_spec fd 0); [|lia]).
Qed.
