(* ===== verification/Broken.v ===== *)
(** Connections that break (src/network/TcpServer.cpp, [handle_client]): the error returns
    of [recv], a [send] whose report is lost, and the signal that a [send] to a broken
    connection can raise, which nobody handles.

    [bact] is a step of the server of [Threads] in which connections may also break; the
    simulation [rel] relates it to the server whose connections do not, where a thread
    that left because its connection broke still waits for bytes that never arrive. *)

From stdpp Require Import base list gmap strings.
From Stdlib Require Import ZArith Lia.
From S2P Require Import Prelude Machine Types OrderBook MatchingEngine Exchange.
From S2P Require Import RiskChecker Wire Protocol TcpServer ServerProps Threads ThreadInv ThreadSteps ThreadProps.

Open Scope Z_scope.
Open Scope list_scope.

(** ** The server with breaking connections *)

Record BState := mk_bstate { b_state : State; b_broken : gset nat; b_killed : bool }.

(** How many bytes a thread asks [recv] for. *)
Definition wants (p : pc) : option nat :=
  match p with AtType => Some 1%nat | AtOrder => Some 22%nat | AtCancel => Some 16%nat | _ => None end.

Inductive baction :=
  | BAct (a : action)
  | BBreak (i : nat)
  | BSigpipe (i : nat).

(** Nothing comes from or goes to the client of a broken connection. *)
Definition client_of (a : action) : option nat :=
  match a with AWrite i _ | AArrive i _ | AHangUp i => Some i | _ => None end.

Section broken.
Context (cb : option (Trade → option RiskChecker → option RiskChecker)).
Context (clocks : nat → nat → Timestamp).

Notation thread_step := (thread_step cb clocks).

(** A step of the thread of a broken connection.  [recv] returns what had arrived; -1 if
    that is nothing, and the loop ends; less than it was asked for otherwise, and the code
    goes on with a message of which bytes were never received.  [send] fails and its
    answer is ignored. *)
Definition broken_step (i : nat) (s : State) : outcome (State * list event) :=
  match client_threads_ s !! i with
  | None => Blocked
  | Some c =>
      match wants (c_pc c), c_pc c with
      | Some n, _ =>
          if (n <=? length (c_input c))%nat then thread_step i s
          else if bool_decide (c_input c = []) then Next (set_conn i (goto AtClose c) s, [])
          else Undefined
      | None, AtSend _ => Next (set_conn i (goto AtLoop c) s, [])
      | None, _ => thread_step i s
      end
  end.

Definition step_of (i : nat) (b : BState) : outcome (State * list event) :=
  if bool_decide (i ∈ b_broken b) then broken_step i (b_state b) else thread_step i (b_state b).

Definition cut_off (a : action) (b : BState) : bool :=
  match client_of a with Some i => bool_decide (i ∈ b_broken b) | None => false end.

(** One step of anybody, of a network that breaks a connection, or of the system that
    ends the process with SIGPIPE at a [send] to a broken one. *)
Definition bact (a : baction) (b : BState) : option (BState * list event) :=
  if b_killed b then None
  else
    match a with
    | BAct (AThread i) =>
        match step_of i b with Next (s, ev) => Some (mk_bstate s (b_broken b) false, ev) | _ => None end
    | BAct a =>
        if cut_off a b then None
        else '(s, ev) ← act cb clocks a (b_state b); Some (mk_bstate s (b_broken b) false, ev)
    | BBreak i =>
        _ ← client_threads_ (b_state b) !! i; Some (mk_bstate (b_state b) ({[i]} ∪ b_broken b) false, [])
    | BSigpipe i =>
        c ← client_threads_ (b_state b) !! i;
        match c_pc c with
        | AtSend _ => if bool_decide (i ∈ b_broken b) then Some (mk_bstate (b_state b) (b_broken b) true, []) else None
        | _ => None
        end
    end.

Inductive bsteps (b : BState) : list event → BState → Prop :=
  | bsteps_refl : bsteps b [] b
  | bsteps_act tr b1 a b2 ev : bsteps b tr b1 → bact a b1 = Some (b2, ev) → bsteps b (tr ++ ev) b2.

Fixpoint brun (acts : list baction) (b : BState) : option (BState * list event) :=
  match acts with
  | [] => Some (b, [])
  | a :: acts => '(b, ev) ← bact a b; '(b, tr) ← brun acts b; Some (b, ev ++ tr)
  end.

Lemma bsteps_trans b tr b1 acts b2 tr' :
  bsteps b tr b1 → brun acts b1 = Some (b2, tr') → bsteps b (tr ++ tr') b2.
Proof.
  revert tr b1 tr'. induction acts as [|a acts IH]; intros tr b1 tr' Hs Hr; simpl in Hr.
  { simplify_eq. by rewrite app_nil_r. }
  apply bind_Some in Hr as ([b' ev] & Ha & Hr). apply bind_Some in Hr as ([b'' tr''] & Hr & [= <- <-]).
  rewrite app_assoc. eapply IH; [|exact Hr]. by eapply bsteps_act.
Qed.

Lemma brun_steps acts b b' tr : brun acts b = Some (b', tr) → bsteps b tr b'.
Proof. intros H. by apply (bsteps_trans b [] b acts b' tr); [constructor|]. Qed.

(** ** The simulation *)

Definition with_sent (l : list ExecutionReport) (c : Conn) : Conn :=
  mk_conn (c_fd c) (c_wire c) (c_input c) (c_closed c) l (c_pc c).

Definition parked (p : pc) : bool :=
  match p with AtType | AtOrder | AtCancel | Finished => true | _ => false end.

(** The same connection, up to reports that were lost; or one whose thread has left, while
    the other waits. *)
Definition conn_rel (br : Prop) (c c0 : Conn) : Prop :=
  (∃ l, c = with_sent l c0 ∧ (¬ br → l = c_sent c0)) ∨
  (br ∧ leaving (c_pc c) = true ∧ parked (c_pc c0) = true).

Definition threads_rel (br : gset nat) (ts ts0 : gmap nat Conn) : Prop :=
  ∀ i, match ts !! i, ts0 !! i with
       | Some c, Some c0 => conn_rel (i ∈ br) c c0
       | None, Some c0 => parked (c_pc c0) = true
       | None, None => True
       | Some _, None => False
       end.

Record rel (br : gset nat) (s s0 : State) : Prop := {
  rel_server : ss_server s = ss_server s0;
  rel_running : running_ s = running_ s0;
  rel_listener : server_fd_ s = server_fd_ s0;
  rel_mutex : mutex_ s = mutex_ s0;
  rel_next : next_thread s = next_thread s0;
  rel_main : ss_main s = ss_main s0;
  rel_calls : ss_calls s = ss_calls s0;
  rel_threads : threads_rel br (client_threads_ s) (client_threads_ s0);
}.

Lemma threads_rel_insert br ts ts0 i c c0 :
  threads_rel br ts ts0 → conn_rel (i ∈ br) c c0 → threads_rel br (<[i := c]> ts) (<[i := c0]> ts0).
Proof.
  intros H Hc j. destruct (decide (j = i)) as [->|]; [by rewrite !lookup_insert_eq|].
  rewrite !lookup_insert_ne by done. apply H.
Qed.

(** A change of one side only: the thread of a broken connection has left. *)
Lemma threads_rel_left br ts ts0 i c c' c0 :
  threads_rel br ts ts0 → ts0 !! i = Some c0 → parked (c_pc c0) = true → i ∈ br →
  leaving (c_pc c') = true → ts !! i = Some c → threads_rel br (<[i := c']> ts) ts0.
Proof.
  intros H H0 Hp Hb Hl Hi j. destruct (decide (j = i)) as [->|].
  - rewrite lookup_insert_eq, H0. by right.
  - rewrite lookup_insert_ne by done. apply H.
Qed.

(** ** Races *)

Lemma uses_risk_rel br s s0 i c c0 :
  rel br s s0 → conn_rel (i ∈ br) c c0 → uses_risk clocks s c = uses_risk clocks s0 c0.
Proof.
  intros [Hs _ _ _ _ _ Hc _] [(l & -> & _)|(_ & Hl & Hp)].
  - unfold uses_risk, submission_trades. by rewrite Hs, Hc.
  - unfold uses_risk. by destruct (c_pc c), (c_pc c0); rewrite ?andb_false_r.
Qed.

Lemma others_spec s i :
  existsb (λ '(j, c'), negb (bool_decide (j = i)) && uses_risk clocks s c') (map_to_list (client_threads_ s)) = true ↔
  ∃ j c, j ≠ i ∧ client_threads_ s !! j = Some c ∧ uses_risk clocks s c = true.
Proof.
  rewrite existsb_exists. split.
  - intros ([j c] & Hin & [Hj Hu]%andb_true_iff). apply list_elem_of_In, elem_of_map_to_list in Hin.
    exists j, c. split; [|done]. by apply negb_true_iff, bool_decide_eq_false in Hj.
  - intros (j & c & Hj & Hl & Hu). exists (j, c). split; [by apply list_elem_of_In, elem_of_map_to_list|].
    by rewrite bool_decide_eq_false_2, Hu.
Qed.

Lemma others_rel br s s0 i :
  rel br s s0 →
  (∃ j c, j ≠ i ∧ client_threads_ s !! j = Some c ∧ uses_risk clocks s c = true) ↔
  (∃ j c, j ≠ i ∧ client_threads_ s0 !! j = Some c ∧ uses_risk clocks s0 c = true).
Proof.
  intros H. split; intros (j & c & Hj & Hl & Hu); pose proof (rel_threads _ _ _ H j) as Hr; rewrite Hl in Hr.
  - destruct (client_threads_ s0 !! j) as [c0|] eqn:H0; [|done]. exists j, c0. split_and!; [done..|].
    by rewrite <-(uses_risk_rel br s s0 j c c0).
  - destruct (client_threads_ s !! j) as [c1|] eqn:H1.
    + exists j, c1. split_and!; [done..|]. by rewrite (uses_risk_rel br s s0 j c1 c).
    + unfold uses_risk in Hu. destruct (c_pc c); try done; by rewrite andb_false_r in Hu.
Qed.

Lemma races_rel br s s0 i c c0 :
  rel br s s0 → client_threads_ s !! i = Some c → client_threads_ s0 !! i = Some c0 →
  races clocks i s = races clocks i s0.
Proof.
  intros H Hi H0. unfold races. rewrite Hi, H0. pose proof (rel_threads _ _ _ H i) as Hr. rewrite Hi, H0 in Hr.
  rewrite (uses_risk_rel br s s0 i c c0 H Hr). f_equal. apply eq_iff_eq_true. rewrite !others_spec.
  by apply (others_rel br).
Qed.

Lemma races_back br s s0 i : rel br s s0 → races clocks i s0 = true → races clocks i s = true.
Proof.
  intros H Hr. destruct (client_threads_ s0 !! i) as [c0|] eqn:H0; [|unfold races in Hr; by rewrite H0 in Hr].
  destruct (client_threads_ s !! i) as [c|] eqn:Hi; [by rewrite (races_rel br s s0 i c c0)|].
  pose proof (rel_threads _ _ _ H i) as Hp. rewrite Hi, H0 in Hp. unfold races, uses_risk in Hr. rewrite H0 in Hr.
  by destruct (c_pc c0); rewrite ?andb_false_r in Hr.
Qed.

(** ** Steps *)

(** Two outcomes agree: they have the same events and related states. *)
Definition orel (br : gset nat) (o o0 : outcome (State * list event)) : Prop :=
  match o, o0 with
  | Blocked, Blocked | Undefined, Undefined => True
  | Next (s, ev), Next (s0, ev0) => ev = ev0 ∧ rel br s s0
  | _, _ => False
  end.

Lemma recv_wait_sent n l c :
  recv_wait n (with_sent l c) = (λ '(buf, c), (buf, with_sent l c)) <$> recv_wait n c.
Proof. unfold recv_wait. simpl. by destruct (_ || _). Qed.

Lemma recv_wait_c_sent n c buf c' : recv_wait n c = Some (buf, c') → c_sent c' = c_sent c.
Proof. unfold recv_wait. destruct (_ || _); [|done]. by intros [= _ <-]. Qed.

(** A thread that is at the same place on both sides does the same. *)
Lemma same_step br s s0 i l c0 :
  rel br s s0 → client_threads_ s !! i = Some (with_sent l c0) → client_threads_ s0 !! i = Some c0 →
  (i ∉ br → l = c_sent c0) → orel br (thread_step i s) (thread_step i s0).
Proof.
  intros H Hi H0 Hl. pose proof (races_rel br s s0 i _ _ H Hi H0) as Hraces. destruct H.
  unfold Threads.thread_step. rewrite Hi, H0, Hraces. cbn [c_pc with_sent].
  rewrite !recv_wait_sent, rel_server0, rel_running0, rel_mutex0, rel_calls0.
  destruct (c_pc c0) eqn:Hpc;
    repeat match goal with
    | |- context [match _ <$> recv_wait ?n c0 with _ => _ end] =>
        let E := fresh in destruct (recv_wait n c0) as [[[|? ?] ?]|] eqn:E; cbn [fmap option_fmap option_map];
        [apply recv_wait_c_sent in E|apply recv_wait_c_sent in E|]
    | |- context [match ?x with _ => _ end] => destruct x eqn:?
    end; try done; (split; [done|]); (constructor; cbn; [congruence..|]);
    apply threads_rel_insert; try done; left; eexists; (split; [reflexivity|]); intros Hb; cbn; rewrite (Hl Hb); congruence.
Qed.

(** The message that a thread reads is cut off: some of its bytes arrived, not all. *)
Definition partial (i : nat) (s : State) : Prop :=
  ∃ c n, client_threads_ s !! i = Some c ∧ wants (c_pc c) = Some n ∧ (0 < length (c_input c) < n)%nat.

(** What a step on one side is on the other: the same step, or nothing. *)
Definition covered (br : gset nat) (i : nat) (s s0 : State) (o : outcome (State * list event)) : Prop :=
  match o with
  | Blocked => True
  | Undefined => thread_step i s0 = Undefined ∨ (i ∈ br ∧ partial i s)
  | Next (s', ev) =>
      (ev = [] ∧ rel br s' s0) ∨ ∃ s0', thread_step i s0 = Next (s0', ev) ∧ rel br s' s0'
  end.

Lemma orel_covered br i s s0 o : orel br o (thread_step i s0) → covered br i s s0 o.
Proof.
  destruct o as [| |[s' ev]], (thread_step i s0) as [| |[s0' ev0]] eqn:E; simpl; try done; [auto|].
  intros [-> Hr]. right. by exists s0'.
Qed.

(** A broken connection whose thread is still at the same place on both sides. *)
Lemma broken_same br s s0 i l c0 :
  rel br s s0 → client_threads_ s !! i = Some (with_sent l c0) → client_threads_ s0 !! i = Some c0 →
  i ∈ br → covered br i s s0 (broken_step i s).
Proof.
  intros H Hi H0 Hb. assert (covered br i s s0 (thread_step i s)) as Hsame.
  { apply orel_covered. eapply same_step; [done..|]. by intros []. }
  unfold broken_step. rewrite Hi. cbn [c_pc with_sent c_input]. destruct (wants (c_pc c0)) as [n|] eqn:Hw.
  - destruct (Nat.leb_spec n (length (c_input c0))); [done|].
    destruct (bool_decide_reflect (c_input c0 = [])) as [He|He].
    + left. split; [done|]. destruct H. constructor; try done.
      eapply (threads_rel_left br _ _ i (with_sent l c0) _ c0); try done. by destruct (c_pc c0).
    + right. split; [done|]. exists (with_sent l c0), n. split; [done|]. split; [done|]. simpl.
      destruct (c_input c0); [done|]. simpl in *. lia.
  - destruct (c_pc c0) eqn:Hpc; try done. right. unfold Threads.thread_step. rewrite H0, Hpc. eexists. split; [done|].
    destruct H. constructor; try done. apply threads_rel_insert; [done|]. left. exists l. split; [done|]. by intros [].
Qed.

(** Any thread. *)
Lemma step_of_covered i b s0 :
  rel (b_broken b) (b_state b) s0 → covered (b_broken b) i (b_state b) s0 (step_of i b).
Proof.
  intros H. pose proof (rel_threads _ _ _ H i) as Ht. unfold step_of.
  destruct (client_threads_ (b_state b) !! i) as [c|] eqn:Hi.
  2:{ unfold broken_step, Threads.thread_step. rewrite Hi. by destruct (bool_decide _). }
  destruct (client_threads_ s0 !! i) as [c0|] eqn:H0; [|done].
  destruct Ht as [(l & -> & Hl)|(Hb & Hv & Hp)].
  - case_bool_decide as Hb; [by eapply broken_same|]. apply orel_covered. by eapply same_step.
  - rewrite bool_decide_eq_true_2 by done. unfold broken_step, Threads.thread_step. rewrite Hi.
    destruct (c_pc c) eqn:Hpc; try done. left. split; [done|]. destruct H. constructor; try done.
    by eapply threads_rel_left.
Qed.

(** The client of a connection that works, the accept loop and [stop] act on both sides. *)
Lemma client_rel br s s0 i c :
  rel br s s0 → i ∉ br → client_threads_ s !! i = Some c → client_threads_ s0 !! i = Some c.
Proof.
  intros H Hb Hi. pose proof (rel_threads _ _ _ H i) as Ht. rewrite Hi in Ht.
  destruct (client_threads_ s0 !! i) as [c0|]; [|done]. destruct Ht as [(l & -> & Hl)|(? & _)]; [|done].
  rewrite (Hl Hb). by destruct c0.
Qed.

Lemma set_conn_rel br s s0 i c : rel br s s0 → rel br (set_conn i c s) (set_conn i c s0).
Proof.
  intros []. constructor; try done. apply threads_rel_insert; [done|]. left. exists (c_sent c).
  by destruct c.
Qed.

Lemma join_rel br s s0 : rel br s s0 → all_finished s = true → rel br (set_threads ∅ (next_thread s) s) s0.
Proof.
  intros [] Hall. constructor; try done. intros i. cbn. rewrite lookup_empty. specialize (rel_threads0 i).
  destruct (client_threads_ s0 !! i) as [c0|]; [|done].
  destruct (client_threads_ s !! i) as [c|] eqn:Hi; [|done].
  unfold all_finished in Hall. rewrite forallb_forall in Hall.
  apply elem_of_map_to_list, list_elem_of_In in Hi. specialize (Hall _ Hi). simpl in Hall.
  destruct rel_threads0 as [(l & -> & _)|(_ & _ & Hp)]; [|done]. simpl in Hall. by destruct (c_pc c0).
Qed.

Lemma act_rel br s s0 a s' ev :
  rel br s s0 → (∀ i, a ≠ AThread i) → (∀ i, client_of a = Some i → i ∉ br) → act cb clocks a s = Some (s', ev) →
  ∃ tr0 s0', run cb clocks tr0 s0 = Some (s0', ev) ∧ rel br s' s0'.
Proof.
  intros H Ha Hb Hs.
  assert (∀ s0', act cb clocks a s0 = Some (s0', ev) → rel br s' s0' →
    ∃ tr0 s0', run cb clocks tr0 s0 = Some (s0', ev) ∧ rel br s' s0') as Hone.
  { intros s0' E Hr. exists [a], s0'. split; [|done]. cbn [run]. rewrite E. cbn. by rewrite app_nil_r. }
  destruct a as [i|i m|i n|i| |fd| |]; cbn [act] in Hs; [by destruct (Ha i)|..].
  1-3: apply bind_Some in Hs as (c & Hi & Hs); pose proof (client_rel _ _ _ _ _ H (Hb i eq_refl) Hi) as Hi0.
  - destruct (c_closed c) eqn:Hc; [done|]. injection Hs as <- <-. eapply Hone; [|by apply set_conn_rel].
    cbn [act]. rewrite Hi0. cbn. by rewrite Hc.
  - injection Hs as <- <-. eapply Hone; [|by apply set_conn_rel]. cbn [act]. by rewrite Hi0.
  - injection Hs as <- <-. eapply Hone; [|by apply set_conn_rel]. cbn [act]. by rewrite Hi0.
  - rewrite (rel_main _ _ _ H), (rel_running _ _ _ H) in Hs. cbn [act] in Hone.
    destruct (ss_main s0); try done; injection Hs as <- <-; (eapply Hone; [done|]); by destruct H.
  - rewrite (rel_main _ _ _ H) in Hs. cbn [act] in Hone. destruct (ss_main s0); try done. injection Hs as <- <-.
    eapply Hone; [done|]. destruct H. constructor; try done; cbn; rewrite rel_next0; [done|].
    apply threads_rel_insert; [done|]. left. by exists [].
  - injection Hs as <- <-. eapply Hone; [done|]. destruct H. unfold stop_begin. cbn. rewrite rel_listener0.
    by destruct (_ >=? 0).
  - destruct (running_ s); [done|]. unfold stop_join in Hs. destruct (all_finished s) eqn:Hf; [|done].
    injection Hs as <- <-. exists [], s0. split; [done|]. by apply join_rel.
Qed.

Lemma bact_rel a b b' ev s0 :
  bact a b = Some (b', ev) → rel (b_broken b) (b_state b) s0 →
  ∃ tr0 s0', run cb clocks tr0 s0 = Some (s0', ev) ∧ rel (b_broken b') (b_state b') s0'.
Proof.
  unfold bact. destruct (b_killed b); [done|]. intros Ha H. destruct a as [a|i|i].
  - assert ((∃ i, a = AThread i) ∨ ∀ i, a ≠ AThread i) as [[i ->]|Hn] by (destruct a; eauto).
    + pose proof (step_of_covered i b s0 H) as Hc. destruct (step_of i b) as [| |[s1 ev1]]; try done.
      injection Ha as <- <-. destruct Hc as [[-> Hr]|(s0' & Hs & Hr)]; [by exists [], s0|].
      exists [AThread i], s0'. split; [|done]. cbn [run act]. rewrite Hs. cbn. by rewrite app_nil_r.
    + assert ((if cut_off a b then None else '(s, ev) ← act cb clocks a (b_state b);
        Some (mk_bstate s (b_broken b) false, ev)) = Some (b', ev)) as Ha' by (destruct a; [by destruct (Hn i)|done..]).
      destruct (cut_off a b) eqn:Hcut; [done|]. apply bind_Some in Ha' as ([s1 ev1] & Hs & [= <- <-]).
      eapply act_rel; [exact H|exact Hn| |exact Hs]. intros i Hi. unfold cut_off in Hcut. rewrite Hi in Hcut.
      by apply bool_decide_eq_false in Hcut.
  - apply bind_Some in Ha as (c & Hi & [= <- <-]). exists [], s0. split; [done|]. destruct H. constructor; try done.
    intros j. specialize (rel_threads0 j). cbn. do 2 case_match; try done.
    destruct rel_threads0 as [(l & -> & Hl)|(? & ? & ?)]; [|right; set_solver].
    left. exists l. split; [done|]. intros Hj. apply Hl. set_solver.
  - apply bind_Some in Ha as (c & Hi & Ha). destruct (c_pc c); try done. case_bool_decide; [|done].
    injection Ha as <- <-. by exists [], s0.
Qed.

Lemma bsteps_rel s tr b :
  bsteps (mk_bstate s ∅ false) tr b → ∃ s0, steps cb clocks s tr s0 ∧ rel (b_broken b) (b_state b) s0.
Proof.
  induction 1 as [|tr b1 a b2 ev Hs IH Ha].
  - exists s. split; [constructor|]. constructor; try done. intros i. cbn.
    destruct (client_threads_ s !! i) as [c|]; [|done]. left. exists (c_sent c). by destruct c.
  - destruct IH as (s0 & Hs0 & Hr). destruct (bact_rel _ _ _ _ _ Ha Hr) as (tr0 & s0' & Hrun & Hr').
    exists s0'. split; [|done]. by eapply steps_trans.
Qed.

(** The process is ended at a [send] to a broken connection only. *)
Lemma killed_at_send s tr b :
  bsteps (mk_bstate s ∅ false) tr b → b_killed b = true →
  ∃ i c r, i ∈ b_broken b ∧ client_threads_ (b_state b) !! i = Some c ∧ c_pc c = AtSend r.
Proof.
  intros Hs Hk. destruct Hs as [|tr b1 a b2 ev Hs Ha]; [done|]. unfold bact in Ha.
  destruct (b_killed b1); [done|]. destruct a as [a|i|i].
  - assert (b_killed b2 = false) by (destruct a; repeat (case_match; try done); try (apply bind_Some in Ha as ([? ?] & _ & Ha));
      by simplify_eq). congruence.
  - apply bind_Some in Ha as (c & _ & [= <- <-]). done.
  - apply bind_Some in Ha as (c & Hi & Ha). destruct (c_pc c) eqn:Hpc; try done. case_bool_decide; [|done].
    injection Ha as <- <-. eauto 10.
Qed.

(** A thread that has its bytes waits for nothing but the mutex of the engine, and so does
    the thread of a broken connection. *)
Lemma blocked_waits i s c :
  client_threads_ s !! i = Some c → (∀ n, wants (c_pc c) = Some n → (n ≤ length (c_input c))%nat) →
  thread_step i s = Blocked → c_pc c = Finished ∨ is_Some (mutex_ s).
Proof.
  intros Hi Hn. unfold Threads.thread_step. rewrite Hi.
  destruct (c_pc c) eqn:Hpc; cbn [wants] in Hn;
    try (destruct (recv_wait_some _ c (Hn _ eq_refl)) as [[[|? ?] ?] Hr]; rewrite Hr);
    repeat case_match; intros; try done; eauto.
Qed.

Lemma broken_waits i b c :
  i ∈ b_broken b → client_threads_ (b_state b) !! i = Some c → step_of i b = Blocked →
  c_pc c = Finished ∨ is_Some (mutex_ (b_state b)).
Proof.
  intros Hb Hi. unfold step_of. rewrite bool_decide_eq_true_2 by done. unfold broken_step. rewrite Hi.
  destruct (wants (c_pc c)) as [n|] eqn:Hw.
  - destruct (Nat.leb_spec n (length (c_input c))); [|by case_bool_decide].
    apply blocked_waits; [done|]. intros m Hm. congruence.
  - intros Hs. apply (blocked_waits i); [done|congruence|]. by destruct (c_pc c).
Qed.
End broken.

(** ** The property *)

Section property.
Context (cb : option (Trade → option RiskChecker → option RiskChecker)).
Context (clocks : nat → nat → Timestamp).
Context (rc0 : option RiskChecker).
Context (Hrc0 : match rc0 with Some rc => ∀ sym, position sym rc = 0 | None => True end).
Context (Hcb0 : rc0 = None ∨ cb = Some main_trade_callback).
Notation srv0 := (mk_server MatchingEngine_new rc0).

(** C26: connections that break harm nobody else, up to the moment in which the process is
    ended, as long as the clients write messages without NaN prices of orders
    other than market orders.
    Whenever and whichever connections break, also in the middle of a message, the engine is in the state, and has
    given the reports, of serving the answered messages one after the other; the answers
    to each client are in the order in which it wrote, and each client whose connection
    works is sent its reports, at most one of them on its way.  A step is undefined only
    if two threads are inside the risk checker at once, or because a connection broke in the
    middle of a message.  The thread of a broken connection waits for nothing but the mutex.  The
    process is ended by a signal only at a send to a broken connection. *)
Theorem broken_connections_contained fd tr b :
  bsteps cb clocks (mk_bstate (listening srv0 fd) ∅ false) tr b →
  written_ok tr → Z.of_nat (length tr) + 2 < 2 ^ 64 →
  serve None clocks 0 (served tr).*1 server_none =
    Some ((served tr).*2, mk_server (engine_ (ss_server (b_state b))) None) ∧
  (∀ i c, client_threads_ (b_state b) !! i = Some c →
    (answered i tr).*1 `prefix_of` sent_by i tr ∧
    (i ∉ b_broken b → ∃ rest, (answered i tr).*2 = c_sent c ++ rest ∧ (length rest ≤ 1)%nat)) ∧
  (∀ i, step_of cb clocks i b = Undefined →
    races clocks i (b_state b) = true ∨ (i ∈ b_broken b ∧ partial i (b_state b))) ∧
  (∀ i c, i ∈ b_broken b → client_threads_ (b_state b) !! i = Some c → step_of cb clocks i b = Blocked →
    c_pc c = Finished ∨ is_Some (mutex_ (b_state b))) ∧
  (b_killed b = true →
    ∃ i c r, i ∈ b_broken b ∧ client_threads_ (b_state b) !! i = Some c ∧ c_pc c = AtSend r).
Proof.
  intros Hb Hok Hlt. destruct (bsteps_rel _ _ _ _ _ Hb) as (s0 & Hs & Hr).
  destruct (concurrent_refines_sequential cb clocks rc0 Hrc0 Hcb0 _ _ _ Hs Hok Hlt) as (Hserve & Hcl & _).
  split_and!.
  - by rewrite (rel_server _ _ _ Hr).
  - intros i c Hi. split.
    + pose proof (rel_threads _ _ _ Hr i) as Ht. rewrite Hi in Ht.
      destruct (client_threads_ s0 !! i) as [c0|] eqn:H0; [by apply (Hcl i c0)|done].
    + intros Hn. by apply (Hcl i c), (client_rel _ _ _ _ _ Hr).
  - intros i Hu. pose proof (step_of_covered cb clocks i b s0 Hr) as Hc. rewrite Hu in Hc.
    destruct Hc as [Hc|Hc]; [|by right]. left.
    pose proof (steps_inv cb clocks rc0 Hrc0 Hcb0 _ _ _ Hs Hok Hlt) as Hinv.
    pose proof (thread_step_inv cb clocks _ _ _ i Hinv (inv_calls cb clocks rc0 _ _ Hinv Hlt)) as Hpost.
    rewrite Hc in Hpost. cbn in Hpost. by apply (races_back clocks _ _ _ i Hr).
  - intros i c. apply broken_waits.
  - by eapply killed_at_send.
Qed.
End property.

(** ** Runs *)

(** Two clients of the deployed server.  The connection of the first breaks when its order
    has been served; its report is lost and its thread leaves.  The second cancels. *)
Definition two_clients : list baction :=
  BAct <$> [AMain; AAccepted 4; AMain; AAccepted 5; AWrite 0 (MOrder sample_order); AArrive 0 23;
            AThread 0; AThread 0; AThread 0; AThread 0; AThread 0; AThread 0].
Definition cancel_after_break : list baction :=
  BBreak 0 :: (BAct <$> [AThread 0; AThread 0; AThread 0; AThread 0; AWrite 1 (MCancel sample_cancel); AArrive 1 17;
    AThread 1; AThread 1; AThread 1; AThread 1; AThread 1; AThread 1]).
Definition broken_start : BState := mk_bstate (listening server0 3) ∅ false.
Definition broken_demo : BState * list event :=
  default (broken_start, []) (brun main_cb clocks0 (two_clients ++ cancel_after_break) broken_start).

(** What can be seen of a run: who was answered, whose thread has left, what the second
    client was sent, and whether the process was ended. *)
Definition seen (x : BState * list event) : list (nat * OrderStatus) * bool * option (list OrderStatus) * bool :=
  (omap answer x.2,
   match client_threads_ (b_state x.1) !! 0%nat with Some c => leaving (c_pc c) | None => false end,
   (λ c, er_status <$> c_sent c) <$> client_threads_ (b_state x.1) !! 1%nat, b_killed x.1).

Example broken_demo_seen :
  seen broken_demo = ([(0%nat, Accepted); (1%nat, Rejected)], true, Some [Rejected], false).
Proof. vm_compute. reflexivity. Qed.

Lemma broken_demo_run :
  brun main_cb clocks0 (two_clients ++ cancel_after_break) broken_start = Some broken_demo.
Proof.
  assert ((λ _, ()) <$> brun main_cb clocks0 (two_clients ++ cancel_after_break) broken_start = Some ()) as H
    by (vm_compute; reflexivity).
  unfold broken_demo. by destruct (brun _ _ _ _).
Qed.
Lemma broken_demo_steps : bsteps main_cb clocks0 broken_start broken_demo.2 broken_demo.1.
Proof.
  apply (brun_steps _ _ (two_clients ++ cancel_after_break)). rewrite broken_demo_run. by destruct broken_demo.
Qed.
Lemma broken_demo_written : written_ok broken_demo.2.
Proof.
  assert (omap (λ e, match e with Wrote i m => Some (i, m) | _ => None end) broken_demo.2 =
    [(0%nat, MOrder sample_order); (1%nat, MCancel sample_cancel)]) as Hw by (vm_compute; reflexivity).
  apply Forall_forall. intros [i m| |] Hin; [|done..].
  assert ((i, m) ∈ [(0%nat, MOrder sample_order); (1%nat, MCancel sample_cancel)]) as Hm.
  { rewrite <-Hw. apply list_elem_of_omap. exists (Wrote i m). split; [exact Hin|reflexivity]. }
  apply elem_of_cons in Hm as [[= -> ->]|[[= -> ->]|[]%elem_of_nil]%elem_of_cons].
  - split; [exact sample_order_ok|by right].
  - split; [exact sample_cancel_ok|done].
Qed.

Lemma broken_connections_contained_witness :
  serve None clocks0 0 (served broken_demo.2).*1 server_none =
    Some ((served broken_demo.2).*2, mk_server (engine_ (ss_server (b_state broken_demo.1))) None) ∧
  (∀ i c, client_threads_ (b_state broken_demo.1) !! i = Some c →
    (answered i broken_demo.2).*1 `prefix_of` sent_by i broken_demo.2 ∧
    (i ∉ b_broken broken_demo.1 →
      ∃ rest, (answered i broken_demo.2).*2 = c_sent c ++ rest ∧ (length rest ≤ 1)%nat)).
Proof.
  destruct (broken_connections_contained main_cb clocks0 (risk_ server0)) with (fd := 3) (tr := broken_demo.2)
    (b := broken_demo.1) as (H1 & H2 & _);
    [intros sym; reflexivity|right; reflexivity|exact broken_demo_steps|exact broken_demo_written|reflexivity|].
  split; [exact H1|exact H2].
Defined.

(** The order of the first client is served, that of the second arrives, and then the
    connection of the first breaks. *)
Definition killing : list baction :=
  two_clients ++ (BAct <$> [AWrite 1 (MOrder sample_order); AArrive 1 23]) ++ [BBreak 0; BSigpipe 0].

(** One client can end the whole server: its connection breaks before its report is sent,
    the signal ends the process, and nothing can happen any more, so that the order of
    another client, which has arrived, is never read. *)
Theorem one_client_ends_the_server :
  ∃ b tr, brun main_cb clocks0 killing broken_start = Some (b, tr) ∧
    b_killed b = true ∧ omap answer tr = [(0%nat, Accepted)] ∧ sent_by 1 tr = [MOrder sample_order] ∧
    ∀ a, bact main_cb clocks0 a b = None.
Proof.
  assert ((λ x, (b_killed x.1, omap answer x.2, sent_by 1 x.2)) <$> brun main_cb clocks0 killing broken_start =
    Some (true, [(0%nat, Accepted)], [MOrder sample_order])) as H by (vm_compute; reflexivity).
  destruct (brun main_cb clocks0 killing broken_start) as [[b tr]|]; [|done]. injection H as Hk Ha Hw.
  exists b, tr. split_and!; [done..|]. intros a. unfold bact. by rewrite Hk.
Qed.

(** A connection that breaks in the middle of a message: [recv] returns the ten bytes that
    arrived, which is not an error to the code, and the order is read all the same. *)
Example order_cut_off :
  ∃ b tr, brun main_cb clocks0
    (BAct <$> [AMain; AAccepted 4; AWrite 0 (MOrder sample_order); AArrive 0 11; AThread 0; AThread 0]) broken_start =
      Some (b, tr) ∧
    ∀ b', bact main_cb clocks0 (BBreak 0) b = Some (b', []) →
      step_of main_cb clocks0 0 b' = Undefined ∧ step_of main_cb clocks0 0 b = Blocked.
Proof.
  destruct (brun _ _ _ _) as [[b tr]|] eqn:E; vm_compute in E; [|discriminate].
  injection E as <- <-. eexists _, _. split; [reflexivity|]. intros b' Hb. injection Hb as <-.
  split; vm_compute; reflexivity.
Qed.
