(* ===== verification/EndToEnd.v ===== *)
(** The exchange as its clients see it: threads, bytes, risk gate, engine and books
    together implement one abstract market per symbol.

    A message stands for a call of the exchange ([message_op]), and the report that a
    client gets for it is a function of the abstract answer to that call ([report_of]).
    The theorem composes the refinement of the threads by one sequential server
    ([ThreadProps]) with the refinement of the books by markets ([Exchange]): whatever
    the threads do, the reports are those of the abstract markets, which know neither
    bytes nor threads nor pools. *)

From stdpp Require Import base list gmap strings.
From Stdlib Require Import ZArith Lia.
From S2P Require Import Prelude Machine StdMap Types OrderBook PriceTime MatchingEngine EngineSpec Exchange.
From S2P Require Import RiskChecker Wire Protocol TcpServer ServerProps Threads ThreadInv ThreadSteps ThreadProps.

Open Scope Z_scope.
Open Scope list_scope.

(** ** Messages as calls *)

Definition message_op (clock : nat → Timestamp) (m : client_message) : op :=
  match m with
  | MOrder m => OpSubmit clock (get_symbol (om_symbol m)) (om_side m) (om_order_type m)
                  (om_price m) (om_quantity m)
  | MCancel m => OpCancel (get_symbol (cm_symbol m)) (cm_order_id m)
  end.

Definition message_ops (clocks : nat → nat → Timestamp) (i : nat) (ms : list client_message) : list op :=
  imap (λ k m, message_op (clocks (i + k)%nat) m) ms.

(** What a client is told about an answer of the exchange. *)
Definition report_of (m : client_message) (r : response) : ExecutionReport :=
  match m, r with
  | MOrder m, RSubmit oid _ =>
      mk_report oid (if oid >? 0 then Accepted else Rejected) (om_price m) (om_quantity m) (om_quantity m)
  | MCancel m, RCancel done => mk_report (cm_order_id m) (if done then Cancelled else Rejected) dzero 0 0
  | MOrder m, _ => reject_report m
  | MCancel m, _ => mk_report (cm_order_id m) Rejected dzero 0 0
  end.

Lemma message_op_ok clock m : message_ok m → message_price_ok m → op_ok (message_op clock m).
Proof. destruct m as [m|m]; [|done]. intros (_ & _ & _ & _ & Hq) Hp. by split. Qed.

Lemma message_ops_cons clocks i m ms :
  message_ops clocks i (m :: ms) = message_op (clocks i) m :: message_ops clocks (S i) ms.
Proof.
  unfold message_ops. simpl. rewrite Nat.add_0_r. f_equal. apply imap_ext. intros k x _. simpl.
  by rewrite Nat.add_succ_r.
Qed.

Lemma message_ops_length clocks i ms : length (message_ops clocks i ms) = length ms.
Proof. apply length_imap. Qed.

Lemma message_ops_ok clocks i ms : msgs_ok ms → Forall op_ok (message_ops clocks i ms).
Proof.
  intros Hms. revert i. induction Hms as [|m ms [Hm Hp] _ IH]; intros i; [done|].
  rewrite message_ops_cons. constructor; [by apply message_op_ok|apply IH].
Qed.

(** A server without a checker does for a message what the engine does for its call. *)
Lemma handle_message_op clock m e :
  handle_message None clock m (mk_server e None) =
  ('(r, e') ← run_op (message_op clock m) e; Some (report_of m r, mk_server e' None)).
Proof.
  destruct m as [m|m]; simpl.
  - unfold handle_order, risk_gate, submit_message. simpl.
    rewrite (submit_order_callback (@None (Trade → option RiskChecker → _))). fold recorder.
    by destruct (submit_order recorder _ _ _ _ _ _ _ _) as [[[oid e'] ts]|].
  - unfold handle_cancel. simpl. by destruct (MatchingEngine.cancel_order _ _ _) as [[r e']|].
Qed.

Lemma serve_run_ops clocks i ms e :
  serve None clocks i ms (mk_server e None) =
  ('(rs, e') ← run_ops (message_ops clocks i ms) e; Some (zip_with report_of ms rs, mk_server e' None)).
Proof.
  revert i e. induction ms as [|m ms IH]; intros i e; [done|].
  rewrite message_ops_cons. cbn [serve run_ops]. rewrite handle_message_op.
  destruct (run_op _ e) as [[r e1]|]; [|done]. cbn [mbind option_bind]. rewrite IH.
  by destruct (run_ops _ e1) as [[rs e2]|].
Qed.

(** Serving a sequence of messages is running the abstract markets on their calls. *)
Lemma serve_markets clocks ms e rs srv' :
  msgs_ok ms → Z.of_nat (length ms) + 1 < 2 ^ 64 →
  serve None clocks 0 ms server_none = Some (rs, mk_server e srv') →
  ∃ rs' Ms, spec_ops (message_ops clocks 0 ms) (λ _, no_orders) = (rs', Ms) ∧
    rs = zip_with report_of ms rs' ∧ length rs' = length ms ∧ ∀ sym, market (book_of sym e) = Ms sym.
Proof.
  intros Hms Hlen Hs. unfold server_none in Hs. rewrite serve_run_ops in Hs.
  destruct (run_ops_sim (message_ops clocks 0 ms) MatchingEngine_new (λ _, no_orders) 1 sim_new)
    as (rs' & Ms & e' & Hr & Hspec & [_ HM] & _).
  { by apply message_ops_ok. }
  { done. }
  { rewrite message_ops_length. lia. }
  rewrite Hr in Hs. injection Hs as <- <- <-. exists rs', Ms. split_and!; try done.
  assert (∀ os e rs e', run_ops os e = Some (rs, e') → length rs = length os) as Hl.
  { clear. induction os as [|o os IH]; intros e rs e' H; simpl in H; [by simplify_eq|].
    destruct (run_op o e) as [[r e1]|]; [|done]. simpl in H.
    destruct (run_ops os e1) as [[rs1 e2]|] eqn:E; [|done]. simplify_eq/=. by rewrite (IH _ _ _ E). }
  by rewrite (Hl _ _ _ _ Hr), message_ops_length.
Qed.

(** ** The threads *)

(** A message is served when the thread of its client is doing it. *)
Lemma thread_step_served cb clocks i s s' e :
  thread_step cb clocks i s = Next (s', e) →
  served e = [] ∨ ∃ c m r, client_threads_ s !! i = Some c ∧ served e = [(m, r)] ∧ m ∈ doing (c_pc c).
Proof.
  unfold thread_step. destruct (client_threads_ s !! i) as [c|]; [|done].
  destruct (c_pc c) eqn:Hpc; intros H; repeat (case_match; try done); simplify_eq; auto;
    right; eexists c, _, _; rewrite Hpc; (split; [done|]); (split; [done|]); by left.
Qed.

Section end_to_end.
Context (cb : option (Trade → option RiskChecker → option RiskChecker)).
Context (clocks : nat → nat → Timestamp).
Context (rc0 : option RiskChecker).
Context (Hrc0 : match rc0 with Some rc => ∀ sym, position sym rc = 0 | None => True end).
Context (Hcb0 : rc0 = None ∨ cb = Some main_trade_callback).
Notation srv0 := (mk_server MatchingEngine_new rc0).

Lemma steps_served_ok fd tr s :
  steps cb clocks (listening srv0 fd) tr s → written_ok tr → Z.of_nat (length tr) + 2 < 2 ^ 64 →
  msgs_ok (served tr).*1.
Proof.
  induction 1 as [|tr s1 a s2 ev Hs IH Ha]; intros Hok Hlt; [by constructor|].
  apply Forall_app in Hok as [Hok1 Hok2]. rewrite length_app in Hlt.
  unfold msgs_ok, served in *. rewrite omap_app, fmap_app. apply Forall_app. split; [apply IH; [done|lia]|].
  assert (inv cb clocks srv0 tr s1) as Hinv by (eapply steps_inv; [done..|lia]).
  destruct a as [i|i m|i n|i| |fd'| |]; simpl in Ha.
  - destruct (thread_step cb clocks i s1) as [| |[s3 e3]] eqn:E; try done. injection Ha as <- <-.
    destruct (thread_step_served _ _ _ _ _ _ E) as [Hn|(c & m & r & Hc & He & Hm)].
    { unfold served in Hn. by rewrite Hn. }
    unfold served in He. rewrite He. simpl. constructor; [|done].
    destruct (inv_conn _ _ _ _ _ Hinv i c Hc) as (_ & todo & [H1 _ _ _ _]).
    apply Forall_app in H1 as [H1 _]. rewrite Forall_forall in H1. by apply H1.
  - apply bind_Some in Ha as (c & Hi & Ha). destruct (c_closed c); [done|]. by injection Ha as <- <-.
  - apply bind_Some in Ha as (c & Hi & Ha). by injection Ha as <- <-.
  - apply bind_Some in Ha as (c & Hi & Ha). by injection Ha as <- <-.
  - destruct (ss_main s1); try done; by injection Ha as <- <-.
  - destruct (ss_main s1); try done; by injection Ha as <- <-.
  - by injection Ha as <- <-.
  - destruct (running_ s1); [done|]. apply bind_Some in Ha as (s3 & _ & Ha). by injection Ha as <- <-.
Qed.

(** C23: end to end, the exchange is one market per symbol.  Any number of clients of the
    threaded server, in any interleaving and with bytes arriving in any pieces, without a
    risk checker or with the deployed one: run the abstract markets, from empty ones, on
    the calls that the answered messages stand for, in the order of the answers.  The
    reports are then those of the abstract answers, the book of each symbol holds exactly
    the queues of its market, and what each client has been sent is, up to one report on
    its way, the reports on its messages in the order in which it wrote them.  Without a
    checker nothing is refused. *)
Theorem exchange_refines_markets fd tr s :
  steps cb clocks (listening srv0 fd) tr s → written_ok tr → Z.of_nat (length tr) + 2 < 2 ^ 64 →
  ∃ rs Ms, spec_ops (message_ops clocks 0 (served tr).*1) (λ _, no_orders) = (rs, Ms) ∧
    (served tr).*2 = zip_with report_of (served tr).*1 rs ∧
    length rs = length (served tr) ∧
    (∀ sym, market (book_of sym (engine_ (ss_server s))) = Ms sym) ∧
    (∀ i c, client_threads_ s !! i = Some c →
      (answered i tr).*1 `prefix_of` sent_by i tr ∧
      ∃ rest, (answered i tr).*2 = c_sent c ++ rest ∧ (length rest ≤ 1)%nat) ∧
    (rc0 = None → ∀ i m, Refused i m ∉ tr).
Proof.
  intros Hs Hok Hlt.
  destruct (concurrent_refines_sequential cb clocks rc0 Hrc0 Hcb0 _ _ _ Hs Hok Hlt) as (Hserve & Hcl & Href).
  assert (Z.of_nat (length (served tr).*1) + 1 < 2 ^ 64) as Hn.
  { rewrite length_fmap. pose proof (served_length tr). lia. }
  destruct (serve_markets _ _ _ _ _ (steps_served_ok _ _ _ Hs Hok Hlt) Hn Hserve)
    as (rs & Ms & Hspec & Hrep & Hl & HM).
  exists rs, Ms. rewrite length_fmap in Hl. by split_and!.
Qed.
End end_to_end.

Lemma exchange_refines_markets_witness :
  ∃ rs Ms, spec_ops (message_ops clocks0 0 (served demo.2).*1) (λ _, no_orders) = (rs, Ms) ∧
    (served demo.2).*2 = zip_with report_of (served demo.2).*1 rs ∧
    length rs = length (served demo.2) ∧
    (∀ sym, market (book_of sym (engine_ (ss_server demo.1))) = Ms sym) ∧
    (∀ i c, client_threads_ demo.1 !! i = Some c →
      (answered i demo.2).*1 `prefix_of` sent_by i demo.2 ∧
      ∃ rest, (answered i demo.2).*2 = c_sent c ++ rest ∧ (length rest ≤ 1)%nat) ∧
    (risk_ server0 = None → ∀ i m, Refused i m ∉ demo.2).
Proof.
  apply (exchange_refines_markets (Some main_trade_callback) clocks0 (risk_ server0)) with (fd := 3);
    [intros sym; reflexivity|right; reflexivity|exact demo_steps|exact demo_written|reflexivity].
Defined.
