(* ===== verification/LatencyHistogram.v ===== *)
(** The latency histogram: include/metrics/LatencyHistogram.h and
    src/metrics/LatencyHistogram.cpp.

    The class owns a histogram of the HdrHistogram_c library through a raw pointer.  The
    library is not part of the repository: it is the class [Hdr], and what its
    documentation says is [HdrLaws].  A pointer is an address of the heap of histograms
    that [hdr_init] allocates and [hdr_close] frees.  Objects of the class have names,
    so that an object can be moved from and assigned to itself.  [None] is undefined
    behaviour: freeing what is not allocated, or using the null pointer. *)

From stdpp Require Import base list gmap relations strings sorting.
From Stdlib Require Import ZArith Lia.
From S2P Require Import Prelude Machine Types Wire Protocol Format.

Open Scope Z_scope.
Open Scope list_scope.

(** ** The library *)

Class Hdr := {
  hdr_histogram : Type;
  (** [None] when [hdr_init] returns an error. *)
  hdr_init : Z → Z → Z → option hdr_histogram;
  (** Whether the value was recorded. *)
  hdr_record_value : hdr_histogram → Z → bool * hdr_histogram;
  hdr_record_corrected_value : hdr_histogram → Z → Z → bool * hdr_histogram;
  hdr_value_at_percentile : hdr_histogram → double → Z;
  hdr_min : hdr_histogram → Z;
  hdr_max : hdr_histogram → Z;
  hdr_mean : hdr_histogram → double;
  hdr_stddev : hdr_histogram → double;
  hdr_total_count : hdr_histogram → Z;
  hdr_highest_trackable : hdr_histogram → Z;
  hdr_reset : hdr_histogram → hdr_histogram;
  (** The CSV text for a number of ticks per half distance and a scaling of the values. *)
  hdr_percentiles_print : hdr_histogram → Z → double → list byte;
}.

(** A new histogram is empty.  A value between zero and the highest trackable one is
    recorded and counted; one that is refused leaves the histogram as it was. *)
Class HdrLaws `{Hdr} := {
  hdr_init_count lo hi sf h : hdr_init lo hi sf = Some h → hdr_total_count h = 0;
  hdr_init_highest lo hi sf h : hdr_init lo hi sf = Some h → hdr_highest_trackable h = hi;
  hdr_record_ok h v : 0 ≤ v ≤ hdr_highest_trackable h → (hdr_record_value h v).1 = true;
  hdr_record_refused h v : (hdr_record_value h v).1 = false → (hdr_record_value h v).2 = h;
  hdr_record_count h v :
    (hdr_record_value h v).1 = true → hdr_total_count (hdr_record_value h v).2 = hdr_total_count h + 1;
  hdr_record_highest h v : hdr_highest_trackable (hdr_record_value h v).2 = hdr_highest_trackable h;
  hdr_reset_count h : hdr_total_count (hdr_reset h) = 0;
}.

Section histogram.
Context `{Hdr}.

(** ** Objects *)

Record Histograms := mk_histograms {
  h_ : gmap nat (option nat);
  hdr_heap : gmap nat hdr_histogram;
  hdr_next : nat;
}.

Definition Histograms_new : Histograms := mk_histograms ∅ ∅ 0.

(** [hdr_close(p)] *)
Definition hdr_close (p : nat) (st : Histograms) : option Histograms :=
  match hdr_heap st !! p with
  | Some _ => Some (mk_histograms (h_ st) (delete p (hdr_heap st)) (hdr_next st))
  | None => None
  end.

(** [if (h_) hdr_close(h_)] *)
Definition close_if (p : option nat) (st : Histograms) : option Histograms :=
  match p with Some p => hdr_close p st | None => Some st end.

Definition set_h (i : nat) (p : option nat) (st : Histograms) : Histograms :=
  mk_histograms (<[i := p]> (h_ st)) (hdr_heap st) (hdr_next st).

(** The constructor; [false] when it throws, and then there is no object. *)
Definition LatencyHistogram_new (i : nat) (lowest highest figures : Z) (st : Histograms)
    : bool * Histograms :=
  match hdr_init lowest highest figures with
  | None => (false, st)
  | Some h =>
      (true, mk_histograms (<[i := Some (hdr_next st)]> (h_ st)) (<[hdr_next st := h]> (hdr_heap st))
               (S (hdr_next st)))
  end.

(** With the default arguments: 1 ns to 60 s, three significant figures. *)
Definition LatencyHistogram_default (i : nat) : Histograms → bool * Histograms :=
  LatencyHistogram_new i 1 60000000000 3.

Definition move_construct (i other : nat) (st : Histograms) : option Histograms :=
  p ← h_ st !! other;
  Some (set_h other None (set_h i p st)).

Definition move_assign (i other : nat) (st : Histograms) : option Histograms :=
  p ← h_ st !! i;
  q ← h_ st !! other;
  if decide (i = other) then Some st
  else st ← close_if p st; Some (set_h other None (set_h i q st)).

Definition destroy (i : nat) (st : Histograms) : option Histograms :=
  p ← h_ st !! i;
  st ← close_if p st;
  Some (mk_histograms (delete i (h_ st)) (hdr_heap st) (hdr_next st)).

(** The histogram behind an object; reading through a null [h_] is undefined. *)
Definition deref (i : nat) (st : Histograms) : option (nat * hdr_histogram) :=
  p ← h_ st !! i; p ← p; h ← hdr_heap st !! p; Some (p, h).

Definition write_hdr (p : nat) (h : hdr_histogram) (st : Histograms) : Histograms :=
  mk_histograms (h_ st) (<[p := h]> (hdr_heap st)) (hdr_next st).

(** What [record] makes of a histogram: the answer of the library is ignored. *)
Definition record_hdr (v : Z) (h : hdr_histogram) : hdr_histogram := (hdr_record_value h v).2.

Definition record (i : nat) (v : Z) (st : Histograms) : option Histograms :=
  '(p, h) ← deref i st; Some (write_hdr p (record_hdr v h) st).
Definition record_corrected (i : nat) (v interval : Z) (st : Histograms) : option Histograms :=
  '(p, h) ← deref i st; Some (write_hdr p (hdr_record_corrected_value h v interval).2 st).
Definition reset (i : nat) (st : Histograms) : option Histograms :=
  '(p, h) ← deref i st; Some (write_hdr p (hdr_reset h) st).

Definition value_at_percentile (i : nat) (percentile : double) (st : Histograms) : option Z :=
  '(_, h) ← deref i st; Some (hdr_value_at_percentile h percentile).
Definition histogram_min (i : nat) (st : Histograms) : option Z := '(_, h) ← deref i st; Some (hdr_min h).
Definition histogram_max (i : nat) (st : Histograms) : option Z := '(_, h) ← deref i st; Some (hdr_max h).
Definition histogram_mean (i : nat) (st : Histograms) : option double := '(_, h) ← deref i st; Some (hdr_mean h).
Definition histogram_stddev (i : nat) (st : Histograms) : option double :=
  '(_, h) ← deref i st; Some (hdr_stddev h).
Definition total_count (i : nat) (st : Histograms) : option Z :=
  '(_, h) ← deref i st; Some (hdr_total_count h).

(** The line that [print_summary] writes: the values are asked for one after the other. *)
Definition summary_items (label : list byte) (h : hdr_histogram) : list item :=
  [Text label; str ":  count="; Int (hdr_total_count h); str "  min="; Int (hdr_min h);
   str "  mean="; Real (hdr_mean h); str "  p50="; Int (hdr_value_at_percentile h (dlit 500 1));
   str "  p90="; Int (hdr_value_at_percentile h (dlit 900 1));
   str "  p99="; Int (hdr_value_at_percentile h (dlit 990 1));
   str "  p99.9="; Int (hdr_value_at_percentile h (dlit 999 1));
   str "  max="; Int (hdr_max h); nl].
Definition print_summary (i : nat) (label : list byte) (st : Histograms) : option (list item) :=
  '(_, h) ← deref i st; Some (summary_items label h).

(** What [write_csv] writes to its file, if the file could be opened; else it throws. *)
Definition write_csv (opened : bool) (i : nat) (st : Histograms) : option (list byte) :=
  if opened then '(_, h) ← deref i st; Some (hdr_percentiles_print h 5 (dofZ 1)) else None.

(** ** Ownership *)

Record owned (st : Histograms) : Prop := {
  ow_unique i j p : h_ st !! i = Some (Some p) → h_ st !! j = Some (Some p) → i = j;
  ow_heap p : is_Some (hdr_heap st !! p) ↔ ∃ i, h_ st !! i = Some (Some p);
  ow_next p : is_Some (hdr_heap st !! p) → (p < hdr_next st)%nat;
}.

Lemma owned_new : owned Histograms_new.
Proof.
  split; [done| |by intros p []]. intros p. split; [by intros []|by intros []].
Qed.

(** Giving up the histogram of object [i], which becomes [q]: the state in which
    everything but [p] is owned. *)
Lemma close_owned i p st :
  owned st → h_ st !! i = Some p →
  ∃ st', close_if p st = Some st' ∧ h_ st' = h_ st ∧ hdr_next st' = hdr_next st ∧
    ∀ p', is_Some (hdr_heap st' !! p') ↔ ∃ j, j ≠ i ∧ h_ st !! j = Some (Some p').
Proof.
  intros [Hu Hh Hn] Hi. destruct p as [p|]; simpl.
  - unfold hdr_close. destruct (proj2 (Hh p)) as [h Hp]; [eauto|]. rewrite Hp.
    eexists. split_and!; [done..|]. intros p'. simpl. destruct (decide (p' = p)) as [->|Hne].
    + rewrite lookup_delete_eq. split; [by intros [? ?]|]. intros (j & Hj & Hjp). by destruct Hj; eauto.
    + rewrite lookup_delete_ne by done. rewrite Hh. split; [|naive_solver].
      intros [j Hj]. exists j. split; [|done]. intros ->. congruence.
  - exists st. split_and!; [done..|]. intros p'. rewrite Hh. split; [|naive_solver].
    intros [j Hj]. exists j. split; [|done]. intros ->. congruence.
Qed.

Lemma construct_owned i lo hi sf st :
  owned st → h_ st !! i = None → owned (LatencyHistogram_new i lo hi sf st).2.
Proof.
  intros [Hu Hh Hn] Hi. unfold LatencyHistogram_new. destruct (hdr_init lo hi sf) as [h|]; [|done].
  assert (∀ j, h_ st !! j ≠ Some (Some (hdr_next st))) as Hfresh.
  { intros j Hj. specialize (Hn (hdr_next st)). rewrite Hh in Hn. specialize (Hn (ex_intro _ j Hj)). lia. }
  split; simpl.
  - intros j k p. rewrite !lookup_insert_Some. intros [[<- [= <-]]|[Hj Hjp]] [[<- Hk]|[Hk Hkp]]; try done.
    + by apply Hfresh in Hkp.
    + injection Hk as <-. by apply Hfresh in Hjp.
    + eauto.
  - intros p. destruct (decide (p = hdr_next st)) as [->|Hne].
    + rewrite lookup_insert_eq. split; [|by eauto]. intros _. exists i. apply lookup_insert_eq.
    + rewrite lookup_insert_ne, Hh by done. split; intros [j Hj].
      * exists j. rewrite lookup_insert_ne; [done|]. intros ->. congruence.
      * apply lookup_insert_Some in Hj as [[_ [= <-]]|[_ Hj]]; [done|]. eauto.
  - intros p. rewrite lookup_insert_is_Some. intros [->|[_ Hp]]; [lia|]. specialize (Hn p Hp). lia.
Qed.

(** Moving a pointer from [other] to [i], whose own was given up. *)
Lemma moved_owned i other q st st' :
  owned st → i ≠ other → h_ st !! other = Some q → h_ st' = h_ st → hdr_next st' = hdr_next st →
  (∀ p', is_Some (hdr_heap st' !! p') ↔ ∃ j, j ≠ i ∧ h_ st !! j = Some (Some p')) →
  owned (set_h other None (set_h i q st')).
Proof.
  intros [Hu Hh Hn] Hne Ho Hst Hnx Hheap. unfold set_h. split; simpl; rewrite ?Hst, ?Hnx.
  - intros j k p. rewrite !lookup_insert_Some.
    intros [[_ [=]]|[Hj [[<- ->]|[Hj' Hjp]]]] [[_ [=]]|[Hk [[<- Hkp]|[Hk' Hkp]]]]; try done.
    + by destruct Hk; eauto.
    + simplify_eq. by destruct Hj; eauto.
    + eauto.
  - intros p. rewrite Hheap. setoid_rewrite lookup_insert_Some. setoid_rewrite lookup_insert_Some.
    split; intros (j & Hj).
    + destruct Hj as [Hj Hjp]. destruct (decide (j = other)) as [->|Hjo].
      * exists i. right. split; [done|]. left. split; [done|]. congruence.
      * exists j. naive_solver.
    + destruct Hj as [[_ [=]]|[Hj [[<- ->]|[Hj' Hjp]]]]; [exists other|exists j]; naive_solver.
  - intros p Hp. apply Hn, Hh. apply Hheap in Hp as (j & _ & Hj). eauto.
Qed.

Lemma move_construct_owned i other st :
  owned st → h_ st !! i = None → is_Some (h_ st !! other) →
  ∃ st', move_construct i other st = Some st' ∧ owned st'.
Proof.
  intros Hst Hi [q Ho]. unfold move_construct. rewrite Ho. cbn [mbind option_bind].
  eexists. split; [done|]. eapply (moved_owned i other q st st); try done.
  - intros ->. congruence.
  - intros p. rewrite (ow_heap _ Hst). split; [|naive_solver]. intros [j Hj]. exists j.
    split; [|done]. intros ->. congruence.
Qed.

Lemma move_assign_owned i other st :
  owned st → is_Some (h_ st !! i) → is_Some (h_ st !! other) →
  ∃ st', move_assign i other st = Some st' ∧ owned st'.
Proof.
  intros Hst [p Hi] [q Ho]. unfold move_assign. rewrite Hi, Ho. cbn [mbind option_bind].
  case_decide as Hd; [by eauto|].
  destruct (close_owned i p st Hst Hi) as (st1 & -> & H1 & H2 & H3). cbn [mbind option_bind].
  eexists. split; [done|]. by eapply moved_owned.
Qed.

Lemma destroy_owned i st :
  owned st → is_Some (h_ st !! i) → ∃ st', destroy i st = Some st' ∧ owned st'.
Proof.
  intros Hst [p Hi]. unfold destroy. rewrite Hi. cbn [mbind option_bind].
  destruct (close_owned i p st Hst Hi) as (st1 & -> & H1 & H2 & H3). cbn [mbind option_bind].
  eexists. split; [done|]. destruct Hst as [Hu Hh Hn]. split; simpl; rewrite ?H1, ?H2.
  - intros j k p'. rewrite !lookup_delete_Some. intros [_ ?] [_ ?]. eauto.
  - intros p'. rewrite H3. setoid_rewrite lookup_delete_Some. naive_solver.
  - intros p' Hp. apply Hn, Hh. apply H3 in Hp as (j & _ & Hj). eauto.
Qed.

Lemma write_owned i p h h' st : owned st → deref i st = Some (p, h) → owned (write_hdr p h' st).
Proof.
  intros [Hu Hh Hn] Hd. apply bind_Some in Hd as (p0 & Hi & Hd). apply bind_Some in Hd as (p1 & -> & Hd).
  apply bind_Some in Hd as (h0 & Hp & [= <- <-]).
  assert (∀ p', is_Some (<[p1 := h']> (hdr_heap st) !! p') ↔ is_Some (hdr_heap st !! p')) as E.
  { intros p'. rewrite lookup_insert_is_Some'. naive_solver. }
  split; simpl; try done; intros p'; rewrite E; auto.
Qed.

(** ** Programs that use the class *)

Inductive hist_op :=
  | HConstruct (i : nat) (lo hi sf : Z)
  | HMoveConstruct (i other : nat)
  | HMoveAssign (i other : nat)
  | HDestroy (i : nat)
  | HRecord (i : nat) (v : Z)
  | HRecordCorrected (i : nat) (v interval : Z)
  | HReset (i : nat).

Definition hist_step (o : hist_op) (st : Histograms) : option Histograms :=
  match o with
  | HConstruct i lo hi sf => Some (LatencyHistogram_new i lo hi sf st).2
  | HMoveConstruct i other => move_construct i other st
  | HMoveAssign i other => move_assign i other st
  | HDestroy i => destroy i st
  | HRecord i v => record i v st
  | HRecordCorrected i v w => record_corrected i v w st
  | HReset i => reset i st
  end.

(** What the language asks of a program: an object is constructed where there is none,
    only objects that exist are moved, assigned or destroyed; and what the class asks:
    no method is called on an object that was moved from. *)
Definition hist_legal (o : hist_op) (st : Histograms) : Prop :=
  match o with
  | HConstruct i _ _ _ => h_ st !! i = None
  | HMoveConstruct i other => h_ st !! i = None ∧ is_Some (h_ st !! other)
  | HMoveAssign i other => is_Some (h_ st !! i) ∧ is_Some (h_ st !! other)
  | HDestroy i => is_Some (h_ st !! i)
  | HRecord i _ | HRecordCorrected i _ _ | HReset i => ∃ p, h_ st !! i = Some (Some p)
  end.

Definition hist_trans (st st' : Histograms) : Prop :=
  ∃ o, hist_legal o st ∧ hist_step o st = Some st'.

Lemma deref_defined i p st :
  owned st → h_ st !! i = Some (Some p) → ∃ h, deref i st = Some (p, h).
Proof.
  intros Hst Hi. destruct (proj2 (ow_heap _ Hst p)) as [h Hh]; [eauto|]. exists h.
  unfold deref. rewrite Hi. simpl. by rewrite Hh.
Qed.

Lemma hist_step_owned o st :
  owned st → hist_legal o st → ∃ st', hist_step o st = Some st' ∧ owned st'.
Proof.
  intros Hst. destruct o as [i lo hi sf|i j|i j|i|i v|i v w|i]; simpl.
  - intros Hi. eexists. split; [done|]. by apply construct_owned.
  - intros [? ?]. by apply move_construct_owned.
  - intros [? ?]. by apply move_assign_owned.
  - apply destroy_owned; done.
  - intros [p Hi]. destruct (deref_defined i p st Hst Hi) as [h Hd]. unfold record. rewrite Hd.
    eexists. split; [done|]. by eapply write_owned.
  - intros [p Hi]. destruct (deref_defined i p st Hst Hi) as [h Hd]. unfold record_corrected. rewrite Hd.
    eexists. split; [done|]. by eapply write_owned.
  - intros [p Hi]. destruct (deref_defined i p st Hst Hi) as [h Hd]. unfold reset. rewrite Hd.
    eexists. split; [done|]. by eapply write_owned.
Qed.

Lemma reachable_owned st : rtc hist_trans Histograms_new st → owned st.
Proof.
  revert st. apply rtc_ind_r; [apply owned_new|].
  intros st1 st2 _ (o & Hl & Hs) Hst. destruct (hist_step_owned o st1 Hst Hl) as (st' & Hs' & ?). congruence.
Qed.

(** C27: a program that keeps to the lifetimes of its objects, and calls no method on an
    object it has moved from, can always take its next step: moves, self-assignment and
    destructors never free a histogram twice and never use a freed one.  Two objects
    never share a histogram, and when the last object is destroyed every histogram is
    freed. *)
Theorem histograms_owned st :
  rtc hist_trans Histograms_new st →
  (∀ o, hist_legal o st → is_Some (hist_step o st)) ∧
  (∀ i j p, h_ st !! i = Some (Some p) → h_ st !! j = Some (Some p) → i = j) ∧
  (h_ st = ∅ → hdr_heap st = ∅).
Proof.
  intros Hst%reachable_owned. split_and!.
  - intros o Hl. destruct (hist_step_owned o st Hst Hl) as (st' & ? & _). eauto.
  - apply Hst.
  - intros He. apply map_eq. intros p. rewrite lookup_empty. apply eq_None_not_Some.
    rewrite (ow_heap _ Hst), He. intros [i Hi]. by rewrite lookup_empty in Hi.
Qed.

(** ** Recording *)

Context `{!HdrLaws}.

(** The values of [vs] that a histogram takes. *)
Fixpoint recorded (vs : list Z) (h : hdr_histogram) : list Z :=
  match vs with
  | [] => []
  | v :: vs => if (hdr_record_value h v).1 then v :: recorded vs (record_hdr v h) else recorded vs (record_hdr v h)
  end.

Lemma record_hdr_all vs h :
  hdr_total_count (foldl (λ h v, record_hdr v h) h vs) = hdr_total_count h + Z.of_nat (length (recorded vs h)) ∧
  recorded vs h `sublist_of` vs ∧
  (Forall (λ v, 0 ≤ v ≤ hdr_highest_trackable h) vs → recorded vs h = vs).
Proof.
  revert h. induction vs as [|v vs IH]; intros h; cbn [foldl recorded]; [split_and!; [simpl; lia|done..]|].
  destruct (IH (record_hdr v h)) as (H1 & H2 & H3). unfold record_hdr in *. rewrite H1.
  rewrite hdr_record_highest in H3. destruct (hdr_record_value h v) as [[] h'] eqn:E; simpl in *.
  - pose proof (hdr_record_count h v) as Hc. rewrite E in Hc. simpl in Hc. rewrite (Hc eq_refl).
    split_and!; [lia|by constructor|]. intros [_ Hvs]%Forall_cons. by rewrite H3.
  - pose proof (hdr_record_refused h v) as Hc. rewrite E in Hc. simpl in Hc. rewrite (Hc eq_refl) in *.
    split_and!; [done|by constructor|]. intros [Hv _]%Forall_cons. apply hdr_record_ok in Hv. by rewrite E in Hv.
Qed.

(** Calls of [record] on an object are calls of the library on its histogram. *)
Lemma record_deref i v st p h :
  deref i st = Some (p, h) →
  ∃ st', record i v st = Some st' ∧ deref i st' = Some (p, record_hdr v h).
Proof.
  intros Hd. unfold record. rewrite Hd. eexists. split; [done|].
  apply bind_Some in Hd as (p0 & Hi & Hd). apply bind_Some in Hd as (p1 & -> & Hd).
  apply bind_Some in Hd as (h0 & Hp & [= <- <-]). unfold deref. simpl. rewrite Hi. simpl.
  by rewrite lookup_insert_eq.
Qed.

Fixpoint record_all (i : nat) (vs : list Z) (st : Histograms) : option Histograms :=
  match vs with [] => Some st | v :: vs => st ← record i v st; record_all i vs st end.

Lemma record_all_deref i vs st p h :
  deref i st = Some (p, h) →
  ∃ st', record_all i vs st = Some st' ∧ deref i st' = Some (p, foldl (λ h v, record_hdr v h) h vs).
Proof.
  revert st h. induction vs as [|v vs IH]; intros st h Hd; simpl; [by eauto|].
  destruct (record_deref i v st p h Hd) as (st1 & -> & Hd1). cbn [mbind option_bind]. by apply IH.
Qed.

(** A new histogram counts the values recorded in it: all of them when they lie
    between zero and the highest value it tracks; a value it refuses is lost without a
    trace, since [record] ignores what the library answers. *)
Theorem histogram_counts i lo hi sf vs st h :
  hdr_init lo hi sf = Some h →
  ∃ st' n, record_all i vs (LatencyHistogram_new i lo hi sf st).2 = Some st' ∧
    total_count i st' = Some n ∧ 0 ≤ n ≤ Z.of_nat (length vs) ∧
    (Forall (λ v, 0 ≤ v ≤ hi) vs → n = Z.of_nat (length vs)).
Proof.
  intros Hinit. assert (deref i (LatencyHistogram_new i lo hi sf st).2 = Some (hdr_next st, h)) as Hd.
  { unfold LatencyHistogram_new. rewrite Hinit. unfold deref. simpl. rewrite lookup_insert_eq. simpl.
    by rewrite lookup_insert_eq. }
  destruct (record_all_deref i vs _ _ _ Hd) as (st' & Hr & Hd').
  destruct (record_hdr_all vs h) as (H1 & H2 & H3). rewrite (hdr_init_count _ _ _ _ Hinit) in H1.
  rewrite (hdr_init_highest _ _ _ _ Hinit) in H3.
  exists st'. eexists. split; [done|]. unfold total_count. rewrite Hd'. split; [done|].
  rewrite H1. apply sublist_length in H2. split; [lia|]. intros Hv. by rewrite (H3 Hv).
Qed.
End histogram.

(** ** An instance *)

(** A histogram that keeps every value, which shows that the laws can hold. *)
Record list_histogram := mk_list_histogram { lh_highest : Z; lh_values : list Z }.

(** The smallest value that at least this percentage of the values do not exceed. *)
Definition lh_percentile (h : list_histogram) (p : double) : Z :=
  let n := Z.of_nat (length (lh_values h)) in
  let rank := default 0 (truncate 64 (dadd (dmul (ddiv p (dofZ 100)) (dofZ n)) (dlit 5 1))) in
  default 0 (merge_sort Z.le (lh_values h) !! Z.to_nat (Z.max 1 rank - 1)).

Definition lh_mean (h : list_histogram) : double :=
  ddiv (dofZ (sum_list_Z (lh_values h))) (dofZ (Z.of_nat (length (lh_values h)))).

Definition lh_record (h : list_histogram) (v : Z) : bool * list_histogram :=
  if (0 <=? v) && (v <=? lh_highest h) then (true, mk_list_histogram (lh_highest h) (lh_values h ++ [v]))
  else (false, h).

Definition list_hdr : Hdr := {|
  hdr_histogram := list_histogram;
  hdr_init lo hi sf := if (1 <=? lo) && (1 <=? sf) && (sf <=? 5) && (2 * lo <=? hi)
                       then Some (mk_list_histogram hi []) else None;
  hdr_record_value := lh_record;
  hdr_record_corrected_value h v _ := lh_record h v;
  hdr_value_at_percentile := lh_percentile;
  hdr_min h := foldr Z.min (2 ^ 63 - 1) (lh_values h);
  hdr_max h := foldr Z.max 0 (lh_values h);
  hdr_mean := lh_mean;
  hdr_stddev h := dzero;
  hdr_total_count h := Z.of_nat (length (lh_values h));
  hdr_highest_trackable := lh_highest;
  hdr_reset h := mk_list_histogram (lh_highest h) [];
  hdr_percentiles_print h _ _ := concat ((λ v, dec_signed v ++ [10]) <$> lh_values h);
|}.

Lemma list_hdr_laws : @HdrLaws list_hdr.
Proof.
  constructor; simpl; unfold lh_record.
  - intros lo hi sf h. destruct (_ && _); [|done]. by intros [= <-].
  - intros lo hi sf h. destruct (_ && _); [|done]. by intros [= <-].
  - intros h v Hv. destruct ((0 <=? v) && (v <=? lh_highest h)) eqn:E; [done|]. lia.
  - intros h v. by destruct (_ && _).
  - intros h v. destruct (_ && _); [|done]. intros _. simpl. rewrite length_app. simpl. lia.
  - intros h v. by destruct (_ && _).
  - done.
Qed.

(** An object moved to another, assigned to itself, and both destroyed. *)
Lemma demo_histograms : ∃ st, rtc hist_trans (@Histograms_new list_hdr) st ∧ h_ st = ∅.
Proof.
  eexists. split.
  - eapply rtc_l. { exists (HConstruct 0 1 60000000000 3). split; reflexivity. }
    eapply rtc_l. { exists (HRecord 0 250). split; [eexists; reflexivity|reflexivity]. }
    eapply rtc_l. { exists (HMoveConstruct 1 0). split; [split; [reflexivity|eexists; reflexivity]|reflexivity]. }
    eapply rtc_l. { exists (HMoveAssign 1 1). split; [split; eexists; reflexivity|reflexivity]. }
    eapply rtc_l. { exists (HDestroy 0). split; [eexists; reflexivity|reflexivity]. }
    eapply rtc_l. { exists (HDestroy 1). split; [eexists; reflexivity|reflexivity]. }
    apply rtc_refl.
  - reflexivity.
Qed.

Lemma histograms_owned_witness :
  ∃ st, rtc hist_trans (@Histograms_new list_hdr) st ∧ h_ st = ∅ ∧ hdr_heap st = ∅.
Proof.
  destruct demo_histograms as (st & Hr & He). exists st. split; [exact Hr|]. split; [exact He|].
  apply (histograms_owned st Hr). exact He.
Defined.

Lemma histogram_counts_witness :
  let st := @Histograms_new list_hdr in
  ∃ st' n, record_all 0 [41; 250] (LatencyHistogram_new 0 1 60000000000 3 st).2 = Some st' ∧
    total_count 0 st' = Some n ∧ 0 ≤ n ≤ 2 ∧
    (Forall (λ v, 0 ≤ v ≤ 60000000000) [41; 250] → n = 2).
Proof.
  cbv zeta. eapply (@histogram_counts list_hdr list_hdr_laws 0%nat 1 60000000000 3 [41; 250]). reflexivity.
Defined.
