(* ===== verification/Deviations.v ===== *)
(** Concrete runs in which the program does not do what its comments say or what its
    callers would expect.  Each is evaluated on the model. *)

From stdpp Require Import base list gmap strings.
From Stdlib Require Import ZArith Lia.
From S2P Require Import Prelude Machine StdMap Types ObjectPool OrderBook PriceTime.
From S2P Require Import BookInv BookOps MatchingEngine MatchRefine EngineSpec Exchange.
From S2P Require Import EngineProps RiskChecker Wire Protocol TcpServer.

Open Scope Z_scope.
Open Scope list_scope.

(** The responses of a run on a new engine. *)
Definition responses (os : list op) : option (list response) :=
  fst <$> run_ops os MatchingEngine_new.

(** ** Validation *)

(** A limit order whose price is NaN passes both validations, since every comparison
    with NaN is false; it becomes a key of the map of price levels, and the next
    order of that side makes the map's comparator inconsistent. *)
Theorem nan_price_accepted_then_undefined :
  check "AAPL" Sell Limit dnan 10 (RiskChecker_new RiskLimits_default) =
    Some (Reason_None, set_risk_stats (record_pass RiskStats_new) (RiskChecker_new RiskLimits_default)) ∧
  responses [OpSubmit tick "AAPL" Sell Limit dnan 10] = Some [RSubmit 1 []] ∧
  responses [OpSubmit tick "AAPL" Sell Limit dnan 10;
             OpSubmit tick "AAPL" Sell Limit (cents 10050) 10] = None.
Proof. split_and!; vm_compute; reflexivity. Qed.

(** An order whose type byte is none of the three enumerators skips the price check of
    limit orders and the discard of market and IOC orders: it rests at any price. *)
Theorem raw_order_type_rests :
  side_orders true (book_of "AAPL"
    (after [OpSubmit tick "AAPL" Buy (OrderType_byte 3) (dlit (-500) 2) 10])) =
  [Order_new 1 1 Buy (OrderType_byte 3) (dlit (-500) 2) 10].
Proof. vm_compute. reflexivity. Qed.

(** ** Matching *)

(** A market buy is priced at the largest finite double, not at infinity, so it does
    not reach an ask at infinity, which validation lets through. *)
Theorem market_buy_misses_infinite_ask :
  responses [OpSubmit tick "AAPL" Sell Limit dinf 10; OpSubmit tick "AAPL" Buy Market dzero 5] =
  Some [RSubmit 1 []; RSubmit 2 []].
Proof. vm_compute. reflexivity. Qed.

(** A resting order that is partially filled keeps the status Accepted. *)
Theorem partial_fill_keeps_accepted :
  (λ o, (status o, remaining_qty o, filled_qty o)) <$>
    side_orders false (book_of "AAPL"
      (after [OpSubmit tick "AAPL" Sell Limit (cents 10050) 10;
              OpSubmit tick "AAPL" Buy Limit (cents 10050) 4])) =
  [(Accepted, 6, 4)].
Proof. vm_compute. reflexivity. Qed.

(** An order reduced from 10 to 4 shares counts the 6 shares as filled, although it
    never traded. *)
Theorem reduction_counts_as_filled :
  filled_qty <$> side_orders false (book_of "AAPL"
    (after [OpSubmit tick "AAPL" Sell Limit (cents 10050) 10; OpReduce "AAPL" 1 4])) = [6].
Proof. vm_compute. reflexivity. Qed.

(** Identifiers are unique per symbol, not per engine. *)
Theorem ids_shared_across_symbols :
  responses [OpSubmit tick "AAPL" Sell Limit (cents 10050) 10;
             OpSubmit tick "MSFT" Sell Limit (cents 30000) 10] =
  Some [RSubmit 1 []; RSubmit 1 []].
Proof. vm_compute. reflexivity. Qed.

(** ** The server *)

Definition order_message (s : Side) (p : Price) (q : Quantity) : client_message :=
  MOrder (mk_order_msg (set_symbol "AAPL") s Limit p q).

Definition deployed : Server :=
  mk_server MatchingEngine_new (Some (RiskChecker_new RiskLimits_default)).

Definition session (input : list byte) : option (list ExecutionReport * Server) :=
  handle_client (Some main_trade_callback) (S (length input)) (λ _, true)
    (λ i n, Z.of_nat (10 * i + n)) 0 input deployed.

(** An order that is filled on arrival is answered with one report that says Accepted
    with the whole quantity remaining; the order it traded with gets no report. *)
Theorem filled_order_reported_accepted :
  fst <$> session (concat (encode_message <$>
    [order_message Sell (cents 10050) 100; order_message Buy (cents 10050) 100])) =
  Some [mk_report 1 Accepted (cents 10050) 100 100; mk_report 2 Accepted (cents 10050) 100 100].
Proof. vm_compute. reflexivity. Qed.

(** The exposure grows by both legs of a trade and never shrinks: one trade of 100
    shares at 100.50 adds 20100 dollars. *)
Theorem exposure_counts_both_legs :
  (x ← session (concat (encode_message <$>
     [order_message Sell (cents 10050) 100; order_message Buy (cents 10050) 100]));
   rc ← risk_ x.2;
   Some (current_notional_exposure_ rc, position "AAPL" rc)) =
  Some (dofZ 20100, 0).
Proof. vm_compute. reflexivity. Qed.

(** A connection that ends inside a message: the message is processed although most of
    it was never received. *)
Theorem truncated_message_undefined :
  session (take 5 (encode_message (order_message Sell (cents 10050) 100))) = None.
Proof. vm_compute. reflexivity. Qed.
