(* ===== verification/Random.v ===== *)
(** Random numbers: the parts of <random> that the programs use.

    [mt19937] is the Mersenne twister as the C++ standard defines it: a window of 624
    words, the recurrence that makes the next one, and the tempering of the output.  What
    the distributions do with it is left to the implementation by the standard: they are
    the class [Distributions], and [DistributionLaws] are the ranges that the standard
    gives.  [std::random_device] is an argument, the numbers that it returned. *)

From stdpp Require Import base list.
From Stdlib Require Import ZArith Lia.
From S2P Require Import Prelude Machine Rounding.

Open Scope Z_scope.

(** ** The generator *)

(** The last 624 words, the oldest first. *)
Record mt19937 := mk_mt { words : list Z }.

(** The words that a seed gives, from the [i]-th one, which follows [x]. *)
Fixpoint seed_words (n : nat) (i x : Z) : list Z :=
  match n with
  | O => []
  | S n =>
      let x := u32 (1812433253 * Z.lxor x (Z.shiftr x 30) + i) in
      x :: seed_words n (i + 1) x
  end.

Definition mt_seed (value : Z) : mt19937 :=
  let x := u32 value in mk_mt (x :: seed_words 623 1 x).

(** The recurrence: the upper bit of the oldest word and the lower bits of the next one,
    shifted, with the matrix if the bit that falls out is set, and the word 397 places
    on. *)
Definition mt_word (l : list Z) : Z :=
  let y := Z.lor (Z.land (l !!! 0%nat) 0x80000000) (Z.land (l !!! 1%nat) 0x7fffffff) in
  Z.lxor (l !!! 397%nat) (Z.lxor (Z.shiftr y 1) (if Z.odd y then 0x9908b0df else 0)).

Definition temper (y : Z) : Z :=
  let y := Z.lxor y (Z.shiftr y 11) in
  let y := Z.lxor y (Z.land (Z.shiftl y 7) 0x9d2c5680) in
  let y := Z.lxor y (Z.land (Z.shiftl y 15) 0xefc60000) in
  Z.lxor y (Z.shiftr y 18).

Definition mt_next (g : mt19937) : Z * mt19937 :=
  let x := mt_word (words g) in (temper x, mk_mt (drop 1 (words g) ++ [x])).

(** The first [n] values that [f] makes of a generator. *)
Fixpoint draw_list {G A} (f : G → A * G) (n : nat) (g : G) : list A * G :=
  match n with
  | O => ([], g)
  | S n => let '(x, g) := f g in let '(l, g) := draw_list f n g in (x :: l, g)
  end.

Lemma draw_list_length {G A} (f : G → A * G) n g : length (draw_list f n g).1 = n.
Proof.
  revert g. induction n as [|n IH]; intros g; [done|]. cbn [draw_list].
  destruct (f g) as [x g']. specialize (IH g'). destruct (draw_list f n g'). simpl in *. by rewrite IH.
Qed.

Lemma draw_list_forall {G A} (I : G → Prop) (P : A → Prop) (f : G → A * G) n g :
  (∀ g, I g → P (f g).1 ∧ I (f g).2) → I g → Forall P (draw_list f n g).1.
Proof.
  intros Hf. revert g. induction n as [|n IH]; intros g Hg; [constructor|]. cbn [draw_list].
  destruct (Hf g Hg) as [Hx Hg']. destruct (f g) as [x g']. specialize (IH g' Hg').
  destruct (draw_list f n g'). by constructor.
Qed.

(** The standard gives the ten thousandth number of a generator with the default seed. *)
Example mt19937_10000th :
  (mt_next (draw_list mt_next 9999 (mt_seed 5489)).2).1 = 4123659995.
Proof. vm_compute. reflexivity. Qed.

(** *** Every number is a 32-bit word *)

Lemma word_lxor x y : 0 ≤ x < 2 ^ 32 → 0 ≤ y < 2 ^ 32 → 0 ≤ Z.lxor x y < 2 ^ 32.
Proof.
  intros Hx Hy. assert (0 ≤ Z.lxor x y) as H0 by (apply Z.lxor_nonneg; lia). split; [done|].
  destruct (decide (Z.lxor x y = 0)) as [->|Hne]; [done|]. apply Z.log2_lt_pow2; [lia|].
  pose proof (Z.log2_lxor x y ltac:(lia) ltac:(lia)).
  assert (∀ z, 0 ≤ z < 2 ^ 32 → Z.log2 z < 32) as Hl.
  { intros z Hz. destruct (decide (z = 0)) as [->|]; [done|]. apply Z.log2_lt_pow2; lia. }
  pose proof (Hl x Hx). pose proof (Hl y Hy). lia.
Qed.

Lemma word_land x m : 0 ≤ m < 2 ^ 32 → 0 ≤ Z.land x m < 2 ^ 32.
Proof.
  intros Hm. assert (0 ≤ Z.land x m) by (apply Z.land_nonneg; lia). split; [done|].
  apply Z.le_lt_trans with m; [|lia]. apply Z.ldiff_le; [lia|].
  apply Z.bits_inj'. intros n Hn. rewrite Z.ldiff_spec, Z.land_spec, Z.bits_0.
  by destruct (Z.testbit m n), (Z.testbit x n).
Qed.

Lemma word_shiftr x n : 0 ≤ x < 2 ^ 32 → 0 ≤ n → 0 ≤ Z.shiftr x n < 2 ^ 32.
Proof.
  intros Hx Hn. rewrite Z.shiftr_div_pow2 by done. pose proof (Z.pow_pos_nonneg 2 n).
  split; [apply Z.div_pos; lia|]. apply Z.div_lt_upper_bound; nia.
Qed.

Create HintDb words.
#[export] Hint Resolve word_lxor word_land word_shiftr : words.
#[export] Hint Extern 1 (_ ≤ _ < _) => lia : words.
#[export] Hint Extern 1 (0 ≤ _) => lia : words.

Lemma temper_range y : 0 ≤ y < 2 ^ 32 → 0 ≤ temper y < 2 ^ 32.
Proof. intros Hy. unfold temper. auto 10 with words. Qed.

Definition mt_ok (g : mt19937) : Prop :=
  length (words g) = 624%nat ∧ Forall (λ x, 0 ≤ x < 2 ^ 32) (words g).

Lemma mt_word_range l : Forall (λ x, 0 ≤ x < 2 ^ 32) l → length l = 624%nat → 0 ≤ mt_word l < 2 ^ 32.
Proof.
  intros Hl Hlen. unfold mt_word. apply word_lxor.
  - destruct (lookup_lt_is_Some_2 l 397) as [x Hx]; [lia|]. rewrite (list_lookup_total_correct _ _ _ Hx).
    by apply (Forall_lookup_1 _ _ _ _ Hl Hx).
  - apply word_lxor; [|by destruct (Z.odd _)]. apply word_shiftr; [|done].
    assert (∀ x y, 0 ≤ x < 2 ^ 32 → 0 ≤ y < 2 ^ 32 → Z.land x y = 0 → 0 ≤ Z.lor x y < 2 ^ 32) as Hor.
    { intros x y Hx Hy H0. rewrite <-Z.lxor_lor by done. by apply word_lxor. }
    apply Hor; [by apply word_land..|]. apply Z.bits_inj'. intros n Hn.
    rewrite !Z.land_spec, Z.bits_0. assert (Z.testbit 0x80000000 n && Z.testbit 0x7fffffff n = false) as H.
    { rewrite <-Z.land_spec. change (Z.land 0x80000000 0x7fffffff) with 0. apply Z.bits_0. }
    by destruct (Z.testbit 0x80000000 n), (Z.testbit 0x7fffffff n), (Z.testbit (l !!! 0%nat) n), (Z.testbit (l !!! 1%nat) n).
Qed.

Lemma mt_next_ok g : mt_ok g → 0 ≤ (mt_next g).1 < 2 ^ 32 ∧ mt_ok (mt_next g).2.
Proof.
  intros [Hl Hw]. pose proof (mt_word_range _ Hw Hl) as Hx. split; [by apply temper_range|]. split; simpl.
  - rewrite length_app, length_drop, Hl. done.
  - apply Forall_app. split; [by apply Forall_drop|by constructor].
Qed.

Lemma mt_seed_ok value : mt_ok (mt_seed value).
Proof.
  assert (∀ n i x, length (seed_words n i x) = n ∧ Forall (λ x, 0 ≤ x < 2 ^ 32) (seed_words n i x)) as H.
  { induction n as [|n IH]; intros i x; cbn [seed_words]; [done|]. cbv zeta.
    destruct (IH (i + 1) (u32 (1812433253 * Z.lxor x (Z.shiftr x 30) + i))) as [Hl Hw].
    split; [simpl; by rewrite Hl|]. constructor; [apply u32_range|done]. }
  destruct (H 623%nat 1 (u32 value)) as [Hl Hw]. unfold mt_ok, mt_seed. cbv zeta. cbn [words].
  split; [cbn [length]; by rewrite Hl|]. constructor; [apply u32_range|exact Hw].
Qed.

(** ** Distributions *)

(** An integer between two others, a double between two others, and the normal
    distribution, which has a state of its own beside the generator. *)
Class Distributions := {
  uniform_int : Z → Z → mt19937 → Z * mt19937;
  uniform_real : double → double → mt19937 → double * mt19937;
  normal_distribution : Type;
  normal_new : double → double → normal_distribution;
  normal_next : normal_distribution * mt19937 → double * (normal_distribution * mt19937);
}.

Class DistributionLaws `{Distributions} := {
  uniform_int_range a b g : mt_ok g → a ≤ b →
    a ≤ (uniform_int a b g).1 ≤ b ∧ mt_ok (uniform_int a b g).2;
  uniform_real_range a b g : mt_ok g → finiteb a = true → finiteb b = true → dleb a b = true →
    (dleb a (uniform_real a b g).1 = true ∧ dleb (uniform_real a b g).1 b = true) ∧
    mt_ok (uniform_real a b g).2;
  normal_generator d g : mt_ok g → mt_ok (normal_next (d, g)).2.2;
}.

Lemma between_finite a x b :
  finiteb a = true → finiteb b = true → dleb a x = true → dleb x b = true → finiteb x = true.
Proof. by destruct a as [[]|[]| |[]], x as [[]|[]| |[]], b as [[]|[]| |[]]. Qed.

Section trader.
Context `{Distributions}.

(** [Trader::random_double] and [Trader::random_int], on the generator of the trader. *)
Definition random_double (min max : double) (rng : mt19937) : double * mt19937 := uniform_real min max rng.
Definition random_int (min max : Z) (rng : mt19937) : Z * mt19937 := uniform_int min max rng.

Lemma random_double_finite `{!DistributionLaws} a b g :
  mt_ok g → finiteb a = true → finiteb b = true → dleb a b = true →
  finiteb (random_double a b g).1 = true ∧ mt_ok (random_double a b g).2.
Proof.
  intros Hg Ha Hb Hab. destruct (uniform_real_range a b g Hg Ha Hb Hab) as [[] ?].
  split; [by apply (between_finite a _ b)|done].
Qed.
End trader.

(** Simple distributions with these laws: the remainder of a number, and a fraction of
    2^32. *)
Definition fraction (x : Z) : double := ddiv (dofZ x) (dofZ (2 ^ 32)).

Definition simple_distributions : Distributions := {|
  uniform_int a b g := let '(x, g) := mt_next g in (a + x mod (b - a + 1), g);
  uniform_real a b g :=
    let '(x, g) := mt_next g in
    let v := dadd a (dmul (dsub b a) (fraction x)) in
    (if dleb a v && dleb v b then v else a, g);
  normal_distribution := double * double;
  normal_new mean stddev := (mean, stddev);
  normal_next '((mean, stddev), g) :=
    let '(x, g) := mt_next g in
    let v := dadd mean (dmul stddev (dsub (dmul (dofZ 2) (fraction x)) (dofZ 1))) in
    (v, ((mean, stddev), g));
|}.

Lemma simple_distribution_laws : @DistributionLaws simple_distributions.
Proof.
  split; cbn -[mt_next].
  - intros a b g Hg Hab. destruct (mt_next_ok g Hg) as [_ Hg']. destruct (mt_next g) as [x g'].
    split; [|done]. simpl. pose proof (Z.mod_pos_bound x (b - a + 1)). lia.
  - intros a b g Hg Ha Hb Hab. destruct (mt_next_ok g Hg) as [_ Hg']. destruct (mt_next g) as [x g'].
    split; [|done]. simpl. destruct (dleb a _ && _) eqn:E; [by apply andb_true_iff in E|].
    split; [|done]. apply dleb_rank in Hab as (Hn & _). by rewrite dleb_ltb, swo_irrefl.
  - intros [mean stddev] g Hg. destruct (mt_next_ok g Hg) as [_ Hg']. by destruct (mt_next g).
Qed.
