(* ===== verification/Simulation.v ===== *)
(** The agent simulation: include/simulation/*.h and src/simulation/*.cpp.

    Five agents trade on one engine.  An agent acts through [send_order] and
    [send_cancel]; the engine calls the trade callback of [Simulation::run] from inside
    [submit_order], and the callback updates the agents, so the agents are the state of
    the callback ([Agents]) and every action threads the engine and the agents.

    The random draws of a tick are arguments ([TickDraws], [NoiseDraws]): what
    [std::normal_distribution], [random_double] and [random_int] returned.  [clocks i]
    gives the clock during the [i]-th call of the engine.  [None] is undefined
    behaviour: of the engine, of a position that overflows, or of a division by zero. *)

From stdpp Require Import base list gmap strings.
From Stdlib Require Import ZArith Lia.
From S2P Require Import Prelude Machine Types OrderBook MatchingEngine.

Open Scope Z_scope.

(** ** The bookkeeping of a trader *)

Record TraderStats := mk_tstats {
  t_position : Z;
  t_cash : double;
  t_starting_cash : double;
  t_orders_sent : Z;
  t_fills_received : Z;
  t_cancels_sent : Z;
  t_total_pnl : double;
}.

Definition calculate_pnl (st : TraderStats) (current_price : double) : double :=
  dadd (dsub (t_cash st) (t_starting_cash st)) (dmul (dofZ (t_position st)) current_price).

(** The statistics after the constructor of [Trader]. *)
Definition trader_stats_new (starting_cash : double) : TraderStats :=
  mk_tstats 0 starting_cash starting_cash 0 0 0 dzero.

Definition default_starting_cash : double := dofZ 100000.

Definition trader_on_fill (s : Side) (p : Price) (q : Quantity) (st : TraderStats)
    : option TraderStats :=
  let fills := u64 (t_fills_received st + 1) in
  if is_buy s then
    pos ← ladd (t_position st) q;
    Some (mk_tstats pos (dsub (t_cash st) (dmul p (dofZ q))) (t_starting_cash st)
            (t_orders_sent st) fills (t_cancels_sent st) (t_total_pnl st))
  else
    pos ← ladd (t_position st) (- q);
    Some (mk_tstats pos (dadd (t_cash st) (dmul p (dofZ q))) (t_starting_cash st)
            (t_orders_sent st) fills (t_cancels_sent st) (t_total_pnl st)).

Definition count_order_sent (st : TraderStats) : TraderStats :=
  mk_tstats (t_position st) (t_cash st) (t_starting_cash st) (u64 (t_orders_sent st + 1))
    (t_fills_received st) (t_cancels_sent st) (t_total_pnl st).
Definition count_cancel_sent (st : TraderStats) : TraderStats :=
  mk_tstats (t_position st) (t_cash st) (t_starting_cash st) (t_orders_sent st)
    (t_fills_received st) (u64 (t_cancels_sent st + 1)) (t_total_pnl st).

(** ** The agents *)

Record MarketMaker := mk_maker {
  mm_stats : TraderStats;
  fair_value_ : double;
  half_spread_ : double;
  quote_size_ : Z;
  mm_max_position_ : Z;
  skew_factor_ : double;
  active_bid_id_ : OrderId;
  active_ask_id_ : OrderId;
}.

Definition MarketMaker_new (fair_value : double) : MarketMaker :=
  mk_maker (trader_stats_new default_starting_cash) fair_value (dlit 5 2) 100 1000 (dlit 1 3) 0 0.

Record MomentumTrader := mk_momentum {
  mo_stats : TraderStats;
  price_history_ : list double;
  window_size_ : nat;
  threshold_ : double;
  trade_size_ : Z;
  mo_max_position_ : Z;
  last_trade_tick_ : Z;
  cooldown_ticks_ : Z;
}.

Definition MomentumTrader_new : MomentumTrader :=
  mk_momentum (trader_stats_new default_starting_cash) [] 20 (dlit 10 2) 50 500 0 5.

Record NoiseTrader := mk_noise {
  no_stats : TraderStats;
  reference_price_ : double;
  trade_probability_ : double;
  max_size_ : Z;
  price_range_ : double;
}.

Definition NoiseTrader_new : NoiseTrader :=
  mk_noise (trader_stats_new default_starting_cash) (dofZ 100) (dlit 3 1) 200 (dlit 50 2).

(** A [Trader*]: one of the five agents. *)
Inductive agent := Maker | Momentum | Noise (i : nat).

#[export] Instance agent_eq_dec : EqDecision agent.
Proof. solve_decision. Defined.

(** What the trade callback reads and writes. *)
Record Agents := mk_agents {
  market_maker_ : MarketMaker;
  momentum_trader_ : MomentumTrader;
  noise_traders_ : list NoiseTrader;
  trade_log_ : list Trade;
  order_owner_ : gmap OrderId agent;
}.

Definition set_maker (m : MarketMaker) (A : Agents) : Agents :=
  mk_agents m (momentum_trader_ A) (noise_traders_ A) (trade_log_ A) (order_owner_ A).
Definition set_momentum (m : MomentumTrader) (A : Agents) : Agents :=
  mk_agents (market_maker_ A) m (noise_traders_ A) (trade_log_ A) (order_owner_ A).
Definition set_noises (l : list NoiseTrader) (A : Agents) : Agents :=
  mk_agents (market_maker_ A) (momentum_trader_ A) l (trade_log_ A) (order_owner_ A).

Definition with_mm_stats (st : TraderStats) (m : MarketMaker) : MarketMaker :=
  mk_maker st (fair_value_ m) (half_spread_ m) (quote_size_ m) (mm_max_position_ m)
    (skew_factor_ m) (active_bid_id_ m) (active_ask_id_ m).
Definition with_mo_stats (st : TraderStats) (m : MomentumTrader) : MomentumTrader :=
  mk_momentum st (price_history_ m) (window_size_ m) (threshold_ m) (trade_size_ m)
    (mo_max_position_ m) (last_trade_tick_ m) (cooldown_ticks_ m).
Definition with_no_stats (st : TraderStats) (n : NoiseTrader) : NoiseTrader :=
  mk_noise st (reference_price_ n) (trade_probability_ n) (max_size_ n) (price_range_ n).

(** Update the statistics of one agent. *)
Definition update_stats (a : agent) (f : TraderStats → option TraderStats) (A : Agents)
    : option Agents :=
  match a with
  | Maker =>
      st ← f (mm_stats (market_maker_ A));
      Some (set_maker (with_mm_stats st (market_maker_ A)) A)
  | Momentum =>
      st ← f (mo_stats (momentum_trader_ A));
      Some (set_momentum (with_mo_stats st (momentum_trader_ A)) A)
  | Noise i =>
      n ← noise_traders_ A !! i;
      st ← f (no_stats n);
      Some (set_noises (<[i := with_no_stats st n]> (noise_traders_ A)) A)
  end.

(** [MomentumTrader::update_price] *)
Definition update_price (p : double) (m : MomentumTrader) : MomentumTrader :=
  let h := price_history_ m ++ [p] in
  mk_momentum (mo_stats m) (if (window_size_ m <? length h)%nat then drop 1 h else h)
    (window_size_ m) (threshold_ m) (trade_size_ m) (mo_max_position_ m)
    (last_trade_tick_ m) (cooldown_ticks_ m).

(** ** The trade callback *)

Definition fill_owner (oid : OrderId) (s : Side) (p : Price) (q : Quantity) (A : Agents)
    : option Agents :=
  match order_owner_ A !! oid with
  | None => Some A
  | Some a => update_stats a (trader_on_fill s p q) A
  end.

Definition log_trade (t : Trade) (A : Agents) : Agents :=
  mk_agents (market_maker_ A) (momentum_trader_ A) (noise_traders_ A) (trade_log_ A ++ [t])
    (order_owner_ A).

Definition sim_trade_callback (t : Trade) (A : option Agents) : option Agents :=
  A ← A;
  let A := log_trade t A in
  A ← fill_owner (buy_order_id t) Buy (trade_price t) (trade_quantity t) A;
  A ← fill_owner (sell_order_id t) Sell (trade_price t) (trade_quantity t) A;
  Some (set_momentum (update_price (trade_price t) (momentum_trader_ A)) A).

(** ** Acting on the engine *)

Record World := mk_world { w_engine : MatchingEngine; w_agents : Agents; w_calls : nat }.

(** What the draws of one tick returned: the return of the price walk, the noise of
    the market maker, and the draws of each noise trader. *)
Record NoiseDraws := mk_noise_draws {
  d_trade : double;
  d_side : Z;
  d_lots : Z;
  d_limit : double;
  d_offset : double;
}.

Record TickDraws := mk_draws {
  d_return : double;
  d_maker : double;
  d_noises : nat → NoiseDraws;
}.

Section simulation.
Context (symbol : string) (clocks : nat → nat → Timestamp).

(** [order_owner_\[id\] = trader], the order callback of the agents. *)
Definition register_order (oid : OrderId) (a : agent) (A : Agents) : Agents :=
  mk_agents (market_maker_ A) (momentum_trader_ A) (noise_traders_ A) (trade_log_ A)
    (<[oid := a]> (order_owner_ A)).

Definition send_order (a : agent) (s : Side) (t : OrderType) (p : Price) (q : Quantity)
    (w : World) : option (OrderId * World) :=
  A ← update_stats a (λ st, Some (count_order_sent st)) (w_agents w);
  '(oid, e, A) ← submit_order (Some sim_trade_callback) (clocks (w_calls w)) symbol s t p q
                   (w_engine w) (Some A);
  A ← A;
  Some (oid, mk_world e (if oid >? 0 then register_order oid a A else A) (S (w_calls w))).

Definition send_cancel (a : agent) (oid : OrderId) (w : World) : option (bool * World) :=
  A ← update_stats a (λ st, Some (count_cancel_sent st)) (w_agents w);
  '(r, e) ← MatchingEngine.cancel_order symbol oid (w_engine w);
  Some (r, mk_world e A (w_calls w)).

Definition on_maker (f : MarketMaker → MarketMaker) (w : World) : World :=
  mk_world (w_engine w) (set_maker (f (market_maker_ (w_agents w))) (w_agents w)) (w_calls w).
Definition on_momentum (f : MomentumTrader → MomentumTrader) (w : World) : World :=
  mk_world (w_engine w) (set_momentum (f (momentum_trader_ (w_agents w))) (w_agents w)) (w_calls w).

(** Assignments to fields of the market maker. *)
Definition set_active_bid (oid : OrderId) (m : MarketMaker) : MarketMaker :=
  mk_maker (mm_stats m) (fair_value_ m) (half_spread_ m) (quote_size_ m) (mm_max_position_ m)
    (skew_factor_ m) oid (active_ask_id_ m).
Definition set_active_ask (oid : OrderId) (m : MarketMaker) : MarketMaker :=
  mk_maker (mm_stats m) (fair_value_ m) (half_spread_ m) (quote_size_ m) (mm_max_position_ m)
    (skew_factor_ m) (active_bid_id_ m) oid.
Definition set_fair_value (fv : double) (m : MarketMaker) : MarketMaker :=
  mk_maker (mm_stats m) fv (half_spread_ m) (quote_size_ m) (mm_max_position_ m)
    (skew_factor_ m) (active_bid_id_ m) (active_ask_id_ m).
Definition set_reference_price (p : double) (n : NoiseTrader) : NoiseTrader :=
  mk_noise (no_stats n) p (trade_probability_ n) (max_size_ n) (price_range_ n).
Definition set_last_trade (tick : Z) (m : MomentumTrader) : MomentumTrader :=
  mk_momentum (mo_stats m) (price_history_ m) (window_size_ m) (threshold_ m) (trade_size_ m)
    (mo_max_position_ m) tick (cooldown_ticks_ m).

(** To the nearest cent. *)
Definition round_cents (p : double) : double := ddiv (dround (dmul p (dofZ 100))) (dofZ 100).

(** The quotes of the market maker, bid and ask; [neg_position] is
    [-stats_.position]. *)
Definition quotes (neg_position : Z) (noise : double) (m : MarketMaker) : Price * Price :=
  let skew := dmul (dofZ neg_position) (skew_factor_ m) in
  let bid := round_cents (dadd (dadd (dsub (fair_value_ m) (half_spread_ m)) skew) noise) in
  let ask := round_cents (dadd (dadd (dadd (fair_value_ m) (half_spread_ m)) skew) noise) in
  (bid, if dleb ask bid then dadd bid (dlit 1 2) else ask).

Definition maker_on_tick (noise : double) (w : World) : option World :=
  let m := market_maker_ (w_agents w) in
  w ← (if active_bid_id_ m >? 0 then
         '(_, w) ← send_cancel Maker (active_bid_id_ m) w;
         Some (on_maker (set_active_bid 0) w)
       else Some w);
  let m := market_maker_ (w_agents w) in
  w ← (if active_ask_id_ m >? 0 then
         '(_, w) ← send_cancel Maker (active_ask_id_ m) w;
         Some (on_maker (set_active_ask 0) w)
       else Some w);
  let m := market_maker_ (w_agents w) in
  neg_position ← to_long (- t_position (mm_stats m));
  let '(bid_price, ask_price) := quotes neg_position noise m in
  w ← (if t_position (mm_stats m) <? mm_max_position_ m then
         '(oid, w) ← send_order Maker Buy Limit bid_price (u32 (quote_size_ m)) w;
         Some (on_maker (set_active_bid oid) w)
       else Some w);
  let m := market_maker_ (w_agents w) in
  if t_position (mm_stats m) >? - mm_max_position_ m then
    '(oid, w) ← send_order Maker Sell Limit ask_price (u32 (quote_size_ m)) w;
    Some (on_maker (set_active_ask oid) w)
  else Some w.

(** The deviation of the last price from the moving average. *)
Definition deviation (m : MomentumTrader) : double :=
  let sma := ddiv (foldl dadd dzero (price_history_ m)) (dofZ (Z.of_nat (length (price_history_ m)))) in
  dsub (List.last (price_history_ m) dzero) sma.

Definition momentum_on_tick (tick_num : Z) (w : World) : option World :=
  let m := momentum_trader_ (w_agents w) in
  if (length (price_history_ m) <? window_size_ m)%nat then Some w
  else if u64 (tick_num - last_trade_tick_ m) <? cooldown_ticks_ m then Some w
  else if dgtb (deviation m) (threshold_ m) && (t_position (mo_stats m) <? mo_max_position_ m) then
    '(_, w) ← send_order Momentum Buy Market dzero (u32 (trade_size_ m)) w;
    Some (on_momentum (set_last_trade tick_num) w)
  else if dltb (deviation m) (dneg (threshold_ m)) && (t_position (mo_stats m) >? - mo_max_position_ m) then
    '(_, w) ← send_order Momentum Sell Market dzero (u32 (trade_size_ m)) w;
    Some (on_momentum (set_last_trade tick_num) w)
  else Some w.

Definition noise_on_tick (i : nat) (d : NoiseDraws) (w : World) : option World :=
  n ← noise_traders_ (w_agents w) !! i;
  if dgtb (d_trade d) (trade_probability_ n) then Some w
  else
    let s := if d_side d =? 0 then Buy else Sell in
    let qty := u32 (d_lots d * 10) in
    if dltb (d_limit d) (dlit 7 1) then
      let p := round_cents (dadd (reference_price_ n) (d_offset d)) in
      let p := if dleb p dzero then dlit 1 2 else p in
      '(_, w) ← send_order (Noise i) s Limit p qty w; Some w
    else '(_, w) ← send_order (Noise i) s Market dzero qty w; Some w.

(** The loop over the noise traders, of which [n] remain from the [i]-th. *)
Fixpoint noises_on_tick (n i : nat) (ds : nat → NoiseDraws) (w : World) : option World :=
  match n with
  | O => Some w
  | S n => w ← noise_on_tick i (ds i) w; noises_on_tick n (S i) ds w
  end.

(** One round of the main loop. *)
Definition sim_tick (num_ticks : Z) (tick : Z) (d : TickDraws) (x : World * double)
    : option (World * double) :=
  let '(w, true_price) := x in
  let true_price := dmax (dmul true_price (dadd (dofZ 1) (d_return d))) (dlit 1 2) in
  let w := on_maker (set_fair_value true_price) w in
  let w := mk_world (w_engine w)
             (set_noises (set_reference_price true_price <$> noise_traders_ (w_agents w)) (w_agents w))
             (w_calls w) in
  let w := if tick =? 0 then on_momentum (update_price true_price) w else w in
  w ← maker_on_tick (d_maker d) w;
  w ← momentum_on_tick tick w;
  w ← noises_on_tick (length (noise_traders_ (w_agents w))) 0 (d_noises d) w;
  if (tick >? 0) && (num_ticks / 10 =? 0) then None else Some (w, true_price).

Fixpoint sim_loop (rounds : nat) (num_ticks : Z) (tick : Z) (draws : Z → TickDraws)
    (x : World * double) : option (World * double) :=
  match rounds with
  | O => Some x
  | S rounds =>
      x ← sim_tick num_ticks tick (draws tick) x;
      sim_loop rounds num_ticks (tick + 1) draws x
  end.

(** The state after the constructor, and the run of [num_ticks] rounds. *)
Definition Simulation_new (initial_price : double) : World * double :=
  (mk_world MatchingEngine_new
     (mk_agents (MarketMaker_new initial_price) MomentumTrader_new
        (replicate 3 NoiseTrader_new) [] ∅) 0,
   initial_price).

Definition sim_run (initial_price : double) (num_ticks : Z) (draws : Z → TickDraws)
    : option (World * double) :=
  sim_loop (Z.to_nat num_ticks) num_ticks 0 draws (Simulation_new initial_price).
End simulation.

(** ** The results of a run *)

Record TraderResult := mk_trader_result {
  tr_name : string;
  tr_final_position : Z;
  tr_pnl : double;
  tr_orders_sent : Z;
  tr_fills_received : Z;
}.

Record SimulationResults := mk_results {
  r_total_ticks : Z;
  r_total_orders : Z;
  r_total_cancels : Z;
  r_total_trades : Z;
  r_total_volume : Z;
  r_total_notional : double;
  r_wall_clock_sec : double;
  r_avg_latency_ns : double;
  r_min_latency_ns : double;
  r_max_latency_ns : double;
  r_final_price : double;
  r_price_return_pct : double;
  r_trader_results : list TraderResult;
}.

Definition trader_result (name : string) (st : TraderStats) (true_price : double) : TraderResult :=
  mk_trader_result name (t_position st) (calculate_pnl st true_price) (t_orders_sent st)
    (t_fills_received st).

(** The results built from the state after the loop; [wall_sec] is the measured
    duration. *)
Definition sim_results (initial_price : double) (num_ticks : Z) (wall_sec : double)
    (x : World * double) : SimulationResults :=
  let '(w, true_price) := x in
  let stats := stats_ (w_engine w) in
  let A := w_agents w in
  {| r_total_ticks := num_ticks;
     r_total_orders := total_orders stats;
     r_total_cancels := total_cancels stats;
     r_total_trades := total_trades stats;
     r_total_volume := total_volume stats;
     r_total_notional := total_notional stats;
     r_wall_clock_sec := wall_sec;
     r_avg_latency_ns := avg_latency_ns stats;
     r_min_latency_ns := dofZ (min_latency_ns stats);
     r_max_latency_ns := dofZ (max_latency_ns stats);
     r_final_price := true_price;
     r_price_return_pct :=
       dmul (ddiv (dsub true_price initial_price) initial_price) (dofZ 100);
     r_trader_results :=
       trader_result "MarketMaker" (mm_stats (market_maker_ A)) true_price ::
       trader_result "MomentumTrader" (mo_stats (momentum_trader_ A)) true_price ::
       ((λ n, trader_result "NoiseTrader" (no_stats n) true_price) <$> noise_traders_ A) |}.
