(* ===== verification/SimBooks.v ===== *)
(** The books of the agents: how the trade callback of the simulation books fills, what
    is booked to whom, and how the shares of the agents add up. *)

From stdpp Require Import base list gmap strings.
From Stdlib Require Import ZArith Lia.
From S2P Require Import Prelude Machine StdMap Types ObjectPool OrderBook PriceTime.
From S2P Require Import BookInv BookOps MatchingEngine MatchRefine EngineSpec Exchange.
From S2P Require Import EngineProps Simulation.

Open Scope Z_scope.

Definition agent_stats (a : agent) (A : Agents) : option TraderStats :=
  match a with
  | Maker => Some (mm_stats (market_maker_ A))
  | Momentum => Some (mo_stats (momentum_trader_ A))
  | Noise i => no_stats <$> noise_traders_ A !! i
  end.

(** The positions of all agents are at most [K] in size. *)
Definition pos_bounded (K : Z) (A : Agents) : Prop :=
  ∀ a st, agent_stats a A = Some st → Z.abs (t_position st) ≤ K.

(** Every owner in the map is an agent. *)
Definition owners_exist (A : Agents) : Prop :=
  ∀ oid a, order_owner_ A !! oid = Some a → is_Some (agent_stats a A).

(** What the agents are set to do: the parameters of the market maker, and the
    reference prices of the noise traders, one for each. *)
Definition settings (A : Agents) : (double * double * Z * Z * double) * list double :=
  let m := market_maker_ A in
  ((fair_value_ m, half_spread_ m, quote_size_ m, mm_max_position_ m, skew_factor_ m),
   reference_price_ <$> noise_traders_ A).

(** [A'] has the owners, the agents and the settings of [A]. *)
Definition same_shape (A A' : Agents) : Prop :=
  order_owner_ A' = order_owner_ A ∧ settings A' = settings A.

Lemma same_agents A A' a :
  settings A' = settings A → is_Some (agent_stats a A') ↔ is_Some (agent_stats a A).
Proof.
  unfold settings. intros [= _ _ _ _ _ H]. destruct a as [| |i]; simpl; try done.
  rewrite !fmap_is_Some, !lookup_lt_is_Some. apply (f_equal length) in H.
  rewrite !length_fmap in H. by rewrite H.
Qed.

Lemma same_shape_trans A1 A2 A3 : same_shape A1 A2 → same_shape A2 A3 → same_shape A1 A3.
Proof. intros [] []. split; congruence. Qed.

Lemma same_shape_owners A A' : same_shape A A' → owners_exist A → owners_exist A'.
Proof. intros [Ho Ha] H oid a. rewrite Ho, (same_agents A A') by done. apply H. Qed.

Lemma update_stats_spec a f A st st' :
  agent_stats a A = Some st → f st = Some st' →
  ∃ A', update_stats a f A = Some A' ∧ same_shape A A' ∧ agent_stats a A' = Some st' ∧
    (∀ a', a' ≠ a → agent_stats a' A' = agent_stats a' A) ∧ trade_log_ A' = trade_log_ A.
Proof.
  intros Ha Hf. destruct a as [| |i]; simpl in *.
  - simplify_eq. rewrite Hf. simpl. eexists. split; [done|]. split; [done|].
    split; [done|]. split; [|done]. by intros [].
  - simplify_eq. rewrite Hf. simpl. eexists. split; [done|]. split; [done|].
    split; [done|]. split; [|done]. by intros [].
  - apply fmap_Some in Ha as (n & Hn & ->). rewrite Hn. simpl. rewrite Hf. simpl.
    pose proof (lookup_lt_Some _ _ _ Hn) as Hlt.
    eexists. split; [done|]. split; [split; [done|]|]; [|split; [|split; [|done]]]; simpl.
    + unfold settings. simpl. f_equal. rewrite list_fmap_insert. simpl.
      apply list_insert_id. by rewrite list_lookup_fmap, Hn.
    + by rewrite list_lookup_insert_eq.
    + intros [| |j] Hne; try done. simpl. rewrite list_lookup_insert_ne by congruence. done.
Qed.

Lemma trader_on_fill_spec s p q st K :
  Z.abs (t_position st) ≤ K → 0 ≤ q → K + q < 2 ^ 63 →
  ∃ st', trader_on_fill s p q st = Some st' ∧ Z.abs (t_position st') ≤ K + q.
Proof.
  intros HK Hq Hb. unfold trader_on_fill, ladd.
  destruct (is_buy s); rewrite to_long_small by lia; simpl; eexists; (split; [done|]); simpl; lia.
Qed.

Lemma fill_owner_spec oid s p q A K :
  owners_exist A → pos_bounded K A → 0 ≤ q → K + q < 2 ^ 63 →
  ∃ A', fill_owner oid s p q A = Some A' ∧ same_shape A A' ∧ pos_bounded (K + q) A' ∧
    (∀ a, order_owner_ A !! oid ≠ Some a → agent_stats a A' = agent_stats a A) ∧
    trade_log_ A' = trade_log_ A.
Proof.
  intros Ho HK Hq Hb. unfold fill_owner. destruct (order_owner_ A !! oid) as [a|] eqn:E.
  - destruct (Ho oid a E) as [st Hst].
    destruct (trader_on_fill_spec s p q st K (HK a st Hst) Hq Hb) as (st' & Hf & Hp).
    destruct (update_stats_spec a _ A st st' Hst Hf) as (A' & Hu & Hsh & Ha & Hoth & Hlog).
    exists A'. split_and!; try done; [by apply Hsh..| |].
    + intros a' st1 H1. destruct (decide (a' = a)) as [->|Hne].
      * rewrite Ha in H1. by simplify_eq.
      * rewrite Hoth in H1 by done. specialize (HK _ _ H1). lia.
    + intros a' Hne. apply Hoth. congruence.
  - exists A. split_and!; try done. intros a st H. specialize (HK a st H). lia.
Qed.

(** One trade through the callback. *)
Lemma sim_callback_spec t A K :
  owners_exist A → pos_bounded K A → 0 ≤ trade_quantity t → K + 2 * trade_quantity t < 2 ^ 63 →
  ∃ A', sim_trade_callback t (Some A) = Some A' ∧ same_shape A A' ∧
    pos_bounded (K + 2 * trade_quantity t) A' ∧
    (∀ a, order_owner_ A !! buy_order_id t ≠ Some a → order_owner_ A !! sell_order_id t ≠ Some a →
       agent_stats a A' = agent_stats a A) ∧
    trade_log_ A' = trade_log_ A ++ [t].
Proof.
  intros Ho HK Hq Hb. unfold sim_trade_callback. cbn [mbind option_bind].
  assert (∀ a, agent_stats a (log_trade t A) = agent_stats a A) as Hlog by (by intros []).
  destruct (fill_owner_spec (buy_order_id t) Buy (trade_price t) (trade_quantity t) (log_trade t A) K)
    as (A1 & H1 & Hs1 & HK1 & Ha1 & Hl1); [..|lia|].
  { intros oid a. rewrite Hlog. apply Ho. } { intros a st. rewrite Hlog. apply HK. } { done. }
  rewrite H1. cbn [mbind option_bind].
  destruct (fill_owner_spec (sell_order_id t) Sell (trade_price t) (trade_quantity t) A1
    (K + trade_quantity t)) as (A2 & H2 & Hs2 & HK2 & Ha2 & Hl2); [|done|done|lia|].
  { eapply same_shape_owners; [exact Hs1|]. intros oid a. rewrite Hlog. apply Ho. }
  rewrite H2. cbn [mbind option_bind]. eexists. split; [done|].
  set (A3 := set_momentum _ A2). assert (∀ a, agent_stats a A3 = agent_stats a A2) as H3 by (by intros []).
  assert (order_owner_ A1 = order_owner_ A) as Ho1 by (by rewrite (proj1 Hs1)).
  split_and!.
  - by apply (same_shape_trans A A1 A2).
  - intros a st. rewrite H3. intros H. specialize (HK2 a st H). lia.
  - intros a Hna Hnb. rewrite H3, Ha2, Ha1, Hlog; [done|done|by rewrite Ho1].
  - simpl. by rewrite Hl2, Hl1.
Qed.

Lemma sim_callbacks_spec ts A K :
  owners_exist A → pos_bounded K A → Forall (λ t, 0 ≤ trade_quantity t) ts →
  K + 2 * filled_by ts < 2 ^ 63 →
  ∃ A', notify_all (Some sim_trade_callback) ts (Some A) = Some A' ∧ same_shape A A' ∧
    pos_bounded (K + 2 * filled_by ts) A' ∧
    (∀ a, Forall (λ t, order_owner_ A !! buy_order_id t ≠ Some a ∧
                       order_owner_ A !! sell_order_id t ≠ Some a) ts →
       agent_stats a A' = agent_stats a A) ∧
    trade_log_ A' = trade_log_ A ++ ts.
Proof.
  intros Ho HK Hts. unfold notify_all. revert A K Ho HK.
  induction Hts as [|t ts Hq Hts IH]; intros A K Ho HK Hb.
  { exists A. unfold filled_by. simpl. rewrite Z.add_0_r, app_nil_r. by split_and!. }
  unfold filled_by in *. rewrite fmap_cons in *. cbn [sum_list_Z foldr] in *.
  fold (sum_list_Z (trade_quantity <$> ts)) in *. cbn [foldl].
  assert (0 ≤ sum_list_Z (trade_quantity <$> ts)) by (apply sum_list_Z_nonneg; by apply Forall_fmap).
  destruct (sim_callback_spec t A K Ho HK Hq) as (A1 & H1 & Hs1 & HK1 & Ha1 & Hl1); [lia|].
  destruct (IH A1 (K + 2 * trade_quantity t)) as (A2 & H2 & Hs2 & HK2 & Ha2 & Hl2);
    [by eapply same_shape_owners|done|lia|].
  exists A2. rewrite H1. split_and!.
  - done.
  - by apply (same_shape_trans A A1 A2).
  - intros a st Hst. specialize (HK2 a st Hst). lia.
  - intros a [[Hb1 Hs] Hrest]%Forall_cons. rewrite Ha2, Ha1; try done.
    by rewrite (proj1 Hs1).
  - by rewrite Hl2, Hl1, <-app_assoc.
Qed.

(** What is booked to an agent: its position, its cash and its fills. *)
Definition booked (st : TraderStats) : Z * double * Z :=
  (t_position st, t_cash st, t_fills_received st).

(** ** Who owns what rests *)

(** What rests after an order was submitted: the order itself, unless its kind is
    immediate, or what rested before. *)
Lemma rests_after_submit clock s t p q b oid ts M' buy x :
  book_ok b → 0 ≤ q → spec_submit clock s t p q (market b) = (oid, ts, M') → x ∈ queue buy M' →
  (immediate t = false ∧ id x = next_order_id_ b) ∨
  (id x < next_order_id_ b ∧ ∃ o, o ∈ side_orders buy b ∧ id o = id x).
Proof.
  intros Hok Hq Hspec Hx. pose proof (λ y, resting_id_range b (ok_wf b Hok) buy y) as Hr.
  destruct (submit_id _ _ _ _ _ _ _ _ _ Hspec) as [Hoid _].
  destruct (submit_resting_ids _ _ _ _ _ _ _ _ _ _ _ Hok Hq Hspec Hx) as [[Hi Hid]|(o & Ho & Hid)].
  - unfold spec_submit in Hspec. destruct (invalid_order t p q).
    + simplify_eq. rewrite queue_market in Hx. right. split; [by apply Hr|eauto].
    + left. split; [done|]. by rewrite Hid, Hoid.
  - right. split; [rewrite <-Hid; by apply Hr|eauto].
Qed.

Lemma rests_new_or_old clock s t p q b oid ts M' buy x :
  book_ok b → 0 ≤ q → spec_submit clock s t p q (market b) = (oid, ts, M') → x ∈ queue buy M' →
  (invalid_order t p q = false ∧ id x = next_order_id_ b) ∨ (∃ o, o ∈ side_orders buy b ∧ id o = id x).
Proof.
  intros Hok Hq Hspec Hx. destruct (invalid_order t p q) eqn:Ei.
  - unfold spec_submit in Hspec. rewrite Ei in Hspec. injection Hspec as _ _ <-. rewrite queue_market in Hx. eauto.
  - destruct (rests_after_submit _ _ _ _ _ _ _ _ _ _ _ Hok Hq Hspec Hx) as [[_ ?]|(_ & ?)]; eauto.
Qed.

Definition register (oid : OrderId) (a : agent) (A : Agents) : Agents :=
  if oid >? 0 then register_order oid a A else A.

Lemma register_same oid a A :
  settings (register oid a A) = settings A ∧ trade_log_ (register oid a A) = trade_log_ A ∧
  (∀ a', agent_stats a' (register oid a A) = agent_stats a' A) ∧
  ∀ i a', order_owner_ (register oid a A) !! i = Some a' →
    order_owner_ A !! i = Some a' ∨ i = oid ∧ a' = a ∧ oid > 0.
Proof.
  unfold register. destruct (Z.gtb_spec oid 0); simpl; [|by eauto].
  split; [done|]. split; [done|]. split; [by intros []|]. intros i a'.
  destruct (decide (oid = i)) as [->|Hne]; [rewrite lookup_insert_eq|rewrite lookup_insert_ne by done].
  - intros [= <-]. right. split_and!; try done. lia.
  - auto.
Qed.

(** The trades of an order are not booked to an agent that owns none of the orders that
    rest and does not own the identifier to come. *)
Lemma trades_of_others clock s t p q b oid ts M' (own : gmap OrderId agent) a :
  book_ok b → 0 ≤ q → spec_submit clock s t p q (market b) = (oid, ts, M') →
  (∀ i a', own !! i = Some a' → 1 ≤ i < next_order_id_ b) →
  (∀ buy o, o ∈ side_orders buy b → own !! id o ≠ Some a) →
  Forall (λ x, own !! buy_order_id x ≠ Some a ∧ own !! sell_order_id x ≠ Some a) ts.
Proof.
  intros Hok Hq Hspec Hg Hm. destruct (submit_trades_parties _ _ _ _ _ _ _ _ _ Hok Hq Hspec) as [_ Hpar].
  destruct (submit_id _ _ _ _ _ _ _ _ _ Hspec) as [Hoid _].
  assert (own !! oid ≠ Some a) as Hnew.
  { intros H%Hg. rewrite Hoid in H. simpl in H. destruct (invalid_order t p q); lia. }
  eapply Forall_impl; [exact Hpar|]. intros x (r & Hr & Hids). pose proof (Hm _ _ Hr).
  destruct (is_buy s), Hids as [-> ->]; done.
Qed.

(** ** Shares *)

(** The shares that all agents hold together. *)
Definition total_position (A : Agents) : Z :=
  t_position (mm_stats (market_maker_ A)) + t_position (mo_stats (momentum_trader_ A)) +
  sum_list_Z (t_position <$> (no_stats <$> noise_traders_ A)).

(** The leg of a trade that was resting, the one with the smaller identifier: bought or
    sold shares. *)
Definition resting_leg (t : Trade) : Z :=
  if buy_order_id t <? sell_order_id t then trade_quantity t else - trade_quantity t.

Lemma total_position_ext A A' :
  (∀ a, agent_stats a A' = agent_stats a A) → total_position A' = total_position A.
Proof.
  intros H. unfold total_position. pose proof (H Maker) as [= ->]. pose proof (H Momentum) as [= ->].
  do 3 f_equal. apply list_eq. intros i. specialize (H (Noise i)). simpl in H. by rewrite !list_lookup_fmap.
Qed.

Lemma sum_list_insert l i x y : l !! i = Some x → sum_list_Z (<[i := y]> l) = sum_list_Z l + (y - x).
Proof.
  revert i. induction l as [|z l IH]; intros [|i] Hi; simpl in *; simplify_eq; [lia|].
  rewrite (IH i Hi). lia.
Qed.

Lemma update_stats_total a f A A' d :
  update_stats a f A = Some A' → (∀ st st', f st = Some st' → t_position st' = t_position st + d) →
  total_position A' = total_position A + d.
Proof.
  intros Hu Hd. unfold total_position. destruct a as [| |i]; simpl in Hu.
  - apply bind_Some in Hu as (st & Hst & [= <-]). simpl. rewrite (Hd _ _ Hst). lia.
  - apply bind_Some in Hu as (st & Hst & [= <-]). simpl. rewrite (Hd _ _ Hst). lia.
  - apply bind_Some in Hu as (n & Hn & Hu). apply bind_Some in Hu as (st & Hst & [= <-]). simpl.
    rewrite !list_fmap_insert, (sum_list_insert _ _ (t_position (no_stats n))); [simpl; rewrite (Hd _ _ Hst); lia|].
    by rewrite !list_lookup_fmap, Hn.
Qed.

(** The shares that the fill of an order books to its owner, if it has one. *)
Definition leg_of (own : gmap OrderId agent) (oid : OrderId) (d : Z) : Z :=
  match own !! oid with Some _ => d | None => 0 end.
Definition booked_legs (own : gmap OrderId agent) (t : Trade) : Z :=
  leg_of own (buy_order_id t) (trade_quantity t) + leg_of own (sell_order_id t) (- trade_quantity t).

Lemma fill_owner_total oid s p q A A' :
  fill_owner oid s p q A = Some A' →
  total_position A' = total_position A + leg_of (order_owner_ A) oid (if is_buy s then q else - q) ∧
  order_owner_ A' = order_owner_ A.
Proof.
  unfold fill_owner, leg_of. destruct (order_owner_ A !! oid) as [a|]; intros H; [|simplify_eq; split; [lia|done]].
  split.
  - eapply update_stats_total; [exact H|]. intros st st' Hf. unfold trader_on_fill, ladd in Hf.
    destruct (is_buy s); apply bind_Some in Hf as (pos & [-> _]%to_long_Some & [= <-]); done.
  - destruct a; simpl in H; repeat (apply bind_Some in H as (? & _ & H)); by simplify_eq.
Qed.

Lemma callbacks_total ts A A' :
  notify_all (Some sim_trade_callback) ts (Some A) = Some A' →
  total_position A' = total_position A + sum_list_Z (booked_legs (order_owner_ A) <$> ts) ∧
  order_owner_ A' = order_owner_ A.
Proof.
  unfold notify_all. revert A. induction ts as [|t ts IH]; intros A H; cbn [foldl] in H.
  { simplify_eq. split; [simpl; lia|done]. }
  destruct (sim_trade_callback t (Some A)) as [A1|] eqn:H1.
  - destruct (IH A1 H) as [HT HO]. unfold sim_trade_callback in H1. cbn [mbind option_bind] in H1.
    apply bind_Some in H1 as (A2 & [T2 O2]%fill_owner_total & H1).
    apply bind_Some in H1 as (A3 & [T3 O3]%fill_owner_total & [= <-]). simpl in O2, O3, HO.
    rewrite O2 in T3. change (order_owner_ (log_trade t A)) with (order_owner_ A) in *.
    change (total_position (log_trade t A)) with (total_position A) in T2.
    change (total_position (set_momentum _ A3)) with (total_position A3) in HT. simpl in HT.
    rewrite O3, O2 in HT. change (is_buy Buy) with true in T2.
    change (is_buy Sell) with false in T3. cbv iota in T2, T3. csimpl. unfold booked_legs at 1. split; [lia|congruence].
  - exfalso. clear IH H1. induction ts; [done|auto].
Qed.

(** ** Audit

    The books of an agent, recomputed from the log of trades and the map of owners: of
    every trade, the leg of the order that rested, if the agent owns that order. *)

(** The order of a trade that was resting: the older one. *)
Definition resting_order (t : Trade) : OrderId := Z.min (buy_order_id t) (sell_order_id t).

Definition book_fill (s : Side) (p : Price) (q : Quantity) (b : Z * double * Z) : Z * double * Z :=
  let '(pos, cash, fills) := b in
  if is_buy s then (pos + q, dsub cash (dmul p (dofZ q)), u64 (fills + 1))
  else (pos - q, dadd cash (dmul p (dofZ q)), u64 (fills + 1)).

Definition book_leg (own : gmap OrderId agent) (a : agent) (b : Z * double * Z) (t : Trade) : Z * double * Z :=
  if decide (own !! resting_order t = Some a) then
    book_fill (if buy_order_id t <? sell_order_id t then Buy else Sell) (trade_price t) (trade_quantity t) b
  else b.

Definition audit (own : gmap OrderId agent) (a : agent) (log : list Trade) : Z * double * Z :=
  foldl (book_leg own a) (0, default_starting_cash, 0) log.

(** Every resting order of the log has an owner, and the books agree with the log. *)
Definition account (st : TraderStats) : (Z * double * Z) * double := (booked st, t_starting_cash st).

Definition audited (A : Agents) : Prop :=
  Forall (λ t, is_Some (order_owner_ A !! resting_order t)) (trade_log_ A) ∧
  ∀ a st, agent_stats a A = Some st →
    account st = (audit (order_owner_ A) a (trade_log_ A), default_starting_cash).

Lemma audited_ext A A' :
  order_owner_ A' = order_owner_ A → trade_log_ A' = trade_log_ A →
  (∀ a st', agent_stats a A' = Some st' → ∃ st, agent_stats a A = Some st ∧ account st' = account st) →
  audited A → audited A'.
Proof.
  intros Ho Hl Hst [H1 H2]. split; rewrite Ho, Hl; [done|]. intros a st' H.
  destruct (Hst a st' H) as (st & Hs & ->). by apply H2.
Qed.

(** The statistics of the agents after those of one were updated. *)
Lemma update_stats_inv a f A A' :
  update_stats a f A = Some A' →
  order_owner_ A' = order_owner_ A ∧ trade_log_ A' = trade_log_ A ∧
  ∀ a' st', agent_stats a' A' = Some st' → ∃ st, agent_stats a' A = Some st ∧
    if decide (a' = a) then f st = Some st' else st' = st.
Proof.
  intros Hu. assert (∃ st st1, agent_stats a A = Some st ∧ f st = Some st1) as (st & st1 & Hst & Hf).
  { destruct a as [| |i]; simpl in *; repeat (apply bind_Some in Hu as (? & ? & Hu)); eauto.
    eexists _, _. split; [|done]. by simplify_option_eq. }
  destruct (update_stats_spec a f A st st1 Hst Hf) as (A1 & Hu1 & [Ho _] & Ha & Hoth & Hl).
  rewrite Hu in Hu1. injection Hu1 as <-. split_and!; [done|done|]. intros a' st' H'.
  case_decide as E; [subst; rewrite Ha in H'; simplify_eq; eauto|]. rewrite Hoth in H' by done. eauto.
Qed.

Lemma count_audited a f A A' :
  (∀ st, account (f st) = account st) → update_stats a (λ st, Some (f st)) A = Some A' → audited A → audited A'.
Proof.
  intros Hf (Ho & Hl & H)%update_stats_inv. apply audited_ext; [done..|]. intros a' st' Hst'.
  destruct (H a' st' Hst') as (st & Hst & E). exists st. split; [done|]. case_decide; simplify_eq; [apply Hf|done].
Qed.

Lemma fill_owner_audit oid s p q A A' :
  fill_owner oid s p q A = Some A' →
  order_owner_ A' = order_owner_ A ∧ trade_log_ A' = trade_log_ A ∧
  ∀ a st', agent_stats a A' = Some st' → ∃ st, agent_stats a A = Some st ∧
    account st' = (if decide (order_owner_ A !! oid = Some a) then book_fill s p q (booked st) else booked st,
                   t_starting_cash st).
Proof.
  unfold fill_owner. destruct (order_owner_ A !! oid) as [a0|]; [|intros [= <-]; eauto].
  intros (Ho & Hl & H)%update_stats_inv. split_and!; [done|done|]. intros a st' Hst'.
  destruct (H a st' Hst') as (st & Hst & E). exists st. split; [done|].
  destruct (decide (a = a0)) as [->|Hne]; [rewrite decide_True by done|rewrite decide_False by congruence; by subst].
  unfold trader_on_fill, ladd, book_fill, account, booked in *.
  destruct (is_buy s); apply bind_Some in E as (pos & [-> _]%to_long_Some & [= <-]); simpl; [done|].
  by rewrite Z.add_opp_r.
Qed.

(** A trade of an incoming order, which has no owner yet, with one that rested and has
    one. *)
Definition incoming_trade (own : gmap OrderId agent) (t : Trade) : Prop :=
  is_Some (own !! resting_order t) ∧
  if buy_order_id t <? sell_order_id t then own !! sell_order_id t = None
  else own !! buy_order_id t = None.

Lemma callback_audited t A A' :
  incoming_trade (order_owner_ A) t → sim_trade_callback t (Some A) = Some A' → audited A →
  order_owner_ A' = order_owner_ A ∧ audited A'.
Proof.
  intros [Hown Hnew] H [H1 H2]. unfold sim_trade_callback in H. cbn [mbind option_bind] in H.
  apply bind_Some in H as (A1 & (O1 & L1 & F1)%fill_owner_audit & H).
  apply bind_Some in H as (A2 & (O2 & L2 & F2)%fill_owner_audit & [= <-]). simpl in O1, L1.
  split; [simpl; congruence|]. split; simpl; rewrite O2, O1, L2, L1.
  { apply Forall_app. split; [done|]. by constructor. }
  intros a st' Hst'. assert (agent_stats a A2 = Some st') as Hst2 by (by destruct a).
  destruct (F2 a st' Hst2) as (st1 & Hst1 & ->). destruct (F1 a st1 Hst1) as (st & Hst & E1).
  assert (agent_stats a A = Some st) as Hst0 by (by destruct a). pose proof (H2 _ _ Hst0) as E0.
  apply pair_equal_spec in E0 as [E0 Ec0], E1 as [-> ->]. rewrite E0, Ec0, O1.
  change (order_owner_ (log_trade t A)) with (order_owner_ A). f_equal. unfold audit.
  rewrite foldl_app. cbn [foldl]. set (b := foldl _ _ _). clearbody b.
  unfold book_leg, resting_order in *.
  destruct (Z.ltb_spec (buy_order_id t) (sell_order_id t)).
  - rewrite Hnew, (decide_False (P := None = Some a)) by done. by rewrite Z.min_l by lia.
  - rewrite Hnew, (decide_False (P := None = Some a)) by done. by rewrite Z.min_r by lia.
Qed.

Lemma callbacks_audited ts A A' :
  Forall (incoming_trade (order_owner_ A)) ts →
  notify_all (Some sim_trade_callback) ts (Some A) = Some A' → audited A → audited A'.
Proof.
  intros Hts. unfold notify_all. revert A Hts. induction ts as [|t ts IH]; intros A Hts H HA; cbn [foldl] in H.
  { by simplify_eq. }
  apply Forall_cons in Hts as [Ht Hts]. destruct (sim_trade_callback t (Some A)) as [A1|] eqn:H1.
  - destruct (callback_audited t A A1 Ht H1 HA) as [Ho HA1]. apply (IH A1); try done. by rewrite Ho.
  - exfalso. clear IH H1 Hts. induction ts; [done|auto].
Qed.

(** Registering a new order changes no audit. *)
Lemma register_audited oid a A :
  (oid > 0 → order_owner_ A !! oid = None) → audited A → audited (register oid a A).
Proof.
  unfold register. destruct (Z.gtb_spec oid 0) as [Hpos|]; [|done]. intros Hnew [H1 H2].
  specialize (Hnew ltac:(lia)).
  assert (∀ t, t ∈ trade_log_ A → <[oid := a]> (order_owner_ A) !! resting_order t = order_owner_ A !! resting_order t)
    as Hsame.
  { intros t Ht. rewrite Forall_forall in H1. destruct (H1 t Ht) as [a0 Ha0]. apply lookup_insert_ne. congruence. }
  split; simpl.
  - rewrite Forall_forall in *. intros t Ht. rewrite Hsame by done. by apply H1.
  - intros a' st Hst. rewrite (H2 a' st) by (by destruct a'). unfold audit.
    f_equal. assert (∀ log b, (∀ t, t ∈ log → t ∈ trade_log_ A) → foldl (book_leg (order_owner_ A) a') b log =
      foldl (book_leg (<[oid := a]> (order_owner_ A)) a') b log) as Hf; [|by apply Hf].
    induction log as [|t log IH]; intros b Hin; [done|]. cbn [foldl].
    rewrite <-IH by (intros; apply Hin; by right). f_equal. unfold book_leg. by rewrite Hsame by (apply Hin; by left).
Qed.

(** Every resting order has an owner, the agents hold what the resting legs of the trades
    moved, and their books agree with the log. *)
Definition conserved (sym : string) (w : World) : Prop :=
  (∀ buy o, o ∈ side_orders buy (book_of sym (w_engine w)) → is_Some (order_owner_ (w_agents w) !! id o)) ∧
  total_position (w_agents w) = sum_list_Z (resting_leg <$> trade_log_ (w_agents w)) ∧
  audited (w_agents w).

(** The trades of an incoming order, when every resting order has an owner. *)
Lemma incoming_trades clock s t p q b oid ts M' (own : gmap OrderId agent) :
  book_ok b → 0 ≤ q → spec_submit clock s t p q (market b) = (oid, ts, M') →
  (∀ i a, own !! i = Some a → 1 ≤ i < next_order_id_ b) →
  (∀ buy o, o ∈ side_orders buy b → is_Some (own !! id o)) →
  Forall (incoming_trade own) ts.
Proof.
  intros Hok Hq Hspec Hg Hown. destruct (submit_trades_parties _ _ _ _ _ _ _ _ _ Hok Hq Hspec) as [_ Hpar].
  destruct (submit_id _ _ _ _ _ _ _ _ _ Hspec) as [Hoid _]. simpl in Hoid.
  apply Forall_forall. intros x Hx. rewrite Forall_forall in Hpar. destruct (Hpar x Hx) as (r & Hr & Hids).
  assert (invalid_order t p q = false) as Hv.
  { destruct (invalid_order t p q) eqn:E; [|done]. unfold spec_submit in Hspec. rewrite E in Hspec. simplify_eq.
    by apply not_elem_of_nil in Hx. }
  rewrite Hv in Hoid. assert (own !! oid = None) as Hnew.
  { apply eq_None_not_Some. intros [a Ha%Hg]. lia. }
  destruct (Hown _ _ Hr) as [a Ha]. pose proof (Hg _ _ Ha) as Hlt.
  unfold incoming_trade, resting_order. destruct (is_buy s), Hids as [-> ->].
  - rewrite Z.min_r by lia. rewrite (proj2 (Z.ltb_ge _ _)) by lia. by rewrite Ha.
  - rewrite Z.min_l by lia. rewrite (proj2 (Z.ltb_lt _ _)) by lia. by rewrite Ha.
Qed.

(** The legs that such an order books. *)
Lemma incoming_legs clock s t p q b oid ts M' (own : gmap OrderId agent) :
  book_ok b → 0 ≤ q → spec_submit clock s t p q (market b) = (oid, ts, M') →
  (∀ i a, own !! i = Some a → 1 ≤ i < next_order_id_ b) →
  (∀ buy o, o ∈ side_orders buy b → is_Some (own !! id o)) →
  sum_list_Z (booked_legs own <$> ts) = sum_list_Z (resting_leg <$> ts).
Proof.
  intros Hok Hq Hspec Hg Hown. f_equal. apply list_fmap_ext. intros k x Hx.
  pose proof (incoming_trades _ _ _ _ _ _ _ _ _ _ Hok Hq Hspec Hg Hown) as Hin. rewrite Forall_forall in Hin.
  destruct (Hin x (list_elem_of_lookup_2 _ _ _ Hx)) as [[a Ha] Hnew]. unfold resting_order in Ha.
  unfold booked_legs, leg_of, resting_leg. destruct (Z.ltb_spec (buy_order_id x) (sell_order_id x)).
  - rewrite Z.min_l in Ha by lia. rewrite Hnew, Ha. lia.
  - rewrite Z.min_r in Ha by lia. rewrite Hnew, Ha. lia.
Qed.

(** What rests after an order of an agent has an owner. *)
Lemma register_owns_rest sym w A oid a t p q buy (o : Order) :
  1 ≤ next_order_id_ (book_of sym (w_engine w)) →
  oid = (if invalid_order t p q then 0 else next_order_id_ (book_of sym (w_engine w))) →
  order_owner_ A = order_owner_ (w_agents w) →
  (∀ buy o, o ∈ side_orders buy (book_of sym (w_engine w)) → is_Some (order_owner_ (w_agents w) !! id o)) →
  (invalid_order t p q = false ∧ id o = next_order_id_ (book_of sym (w_engine w))) ∨
  (∃ o0, o0 ∈ side_orders buy (book_of sym (w_engine w)) ∧ id o0 = id o) →
  is_Some (order_owner_ (register oid a A) !! id o).
Proof.
  intros Hn Hoid Hown Hall Ho. unfold register. destruct (Z.gtb_spec oid 0) as [Hpos|Hneg].
  - simpl. destruct (decide (id o = oid)) as [->|Hne]; [rewrite lookup_insert_eq; by eexists|].
    rewrite lookup_insert_ne, Hown by done. destruct Ho as [[Hv Hid]|(o0 & Hin & <-)]; [|by eapply Hall].
    rewrite Hv in Hoid. congruence.
  - rewrite Hown. destruct Ho as [[Hv Hid]|(o0 & Hin & <-)]; [|by eapply Hall]. rewrite Hv in Hoid. lia.
Qed.

(** A submission, with the callback on the agents and the registration of the owner. *)
Lemma submitted_conserved sym clock a s t p q w e' A1 A2 oid ts M' n :
  book_ok (book_of sym (w_engine w)) → 0 ≤ q →
  spec_submit clock s t p q (market (book_of sym (w_engine w))) = (oid, ts, M') →
  market (book_of sym e') = M' →
  (∀ i a, order_owner_ (w_agents w) !! i = Some a → 1 ≤ i < next_order_id_ (book_of sym (w_engine w))) →
  order_owner_ A1 = order_owner_ (w_agents w) → total_position A1 = total_position (w_agents w) →
  trade_log_ A1 = trade_log_ (w_agents w) →
  (audited (w_agents w) → audited A1) →
  notify_all (Some sim_trade_callback) ts (Some A1) = Some A2 → trade_log_ A2 = trade_log_ A1 ++ ts →
  conserved sym w → conserved sym (mk_world e' (register oid a A2) n).
Proof.
  intros Hok Hq Hspec HM Hg Ho1 Ht1 Hl1 Ha1 H2 Hl2 (Hall & Htot & Haud).
  destruct (callbacks_total _ _ _ H2) as [HT2 Ho2].
  destruct (submit_id _ _ _ _ _ _ _ _ _ Hspec) as [Hoid _]. simpl in Hoid.
  destruct (register_same oid a A2) as (_ & Hlog3 & H3 & _).
  pose proof (wf_next _ (ok_wf _ Hok)) as Hrange. split_and!; simpl.
  - intros buy o Hin. rewrite <-queue_market, HM in Hin.
    apply (register_owns_rest sym w A2 oid a t p q buy o); [lia|exact Hoid|congruence|exact Hall|].
    by apply (rests_new_or_old _ _ _ _ _ _ _ _ _ _ _ Hok Hq Hspec).
  - rewrite (total_position_ext _ _ H3), Hlog3, Hl2, Hl1, HT2, Ht1, Ho1, Htot, fmap_app, sum_list_Z_app.
    by rewrite (incoming_legs _ _ _ _ _ _ _ _ _ _ Hok Hq Hspec Hg Hall).
  - apply register_audited.
    + intros Hpos. rewrite Ho2, Ho1. apply eq_None_not_Some. intros [a' Ha'%Hg].
      destruct (invalid_order t p q); lia.
    + apply (callbacks_audited ts A1); [|done|auto]. rewrite Ho1.
      by apply (incoming_trades _ _ _ _ _ _ _ _ _ _ Hok Hq Hspec Hg Hall).
Qed.

Lemma conserved_stats sym w A n :
  order_owner_ A = order_owner_ (w_agents w) → trade_log_ A = trade_log_ (w_agents w) →
  (∀ a, agent_stats a A = agent_stats a (w_agents w)) →
  conserved sym w → conserved sym (mk_world (w_engine w) A n).
Proof.
  intros Hown Hlog Hst (Hall & Ht & Ha). split_and!; simpl; [rewrite Hown; exact Hall| |].
  - by rewrite (total_position_ext _ _ Hst), Hlog.
  - apply (audited_ext (w_agents w)); try done. intros a st'. rewrite Hst. eauto.
Qed.
