(* ===== verification/SimProps.v ===== *)
(** The invariant of a simulation, and that sending an order keeps it. *)

From stdpp Require Import base list gmap strings.
From Stdlib Require Import ZArith Lia.
From S2P Require Import Prelude Machine StdMap Types ObjectPool OrderBook PriceTime.
From S2P Require Import BookInv BookOps MatchingEngine MatchRefine EngineSpec Exchange.
From S2P Require Import EngineProps Simulation SimBooks.

Open Scope Z_scope.

(** ** The invariant of a world *)

(** The log holds the trades that the engine counted. *)
Definition logged (e : MatchingEngine) (log : list Trade) : Prop :=
  total_trades (stats_ e) = u64 (Z.of_nat (length log)) ∧
  total_volume (stats_ e) = u64 (filled_by log).

Lemma submit_logged clock rejected ts e e' log :
  logged e log → (rejected = true → ts = []) → stats_ e' = submit_stats clock rejected ts (stats_ e) →
  logged e' (log ++ ts).
Proof.
  intros [Ht Hv] Hts Hst. unfold logged. rewrite Hst, filled_by_app, length_app, Nat2Z.inj_add.
  unfold submit_stats. destruct rejected; [rewrite (Hts eq_refl); simpl; by rewrite !Z.add_0_r|].
  destruct (count_trades_counts ts (count_order (stats_ e))) as (_ & _ & _ & Ht' & Hv' & Hu).
  simpl in *. rewrite Ht, u64_add_l in Ht'. rewrite Hv, u64_add_l in Hv'.
  destruct Hu as [->|[-> ->]]; [simpl; by rewrite !Z.add_0_r|done].
Qed.

(** The owners are agents and own identifiers that were given out, positions are at
    most [K], no order of the momentum trader rests, and the log is complete. *)
Record sim_inv (sym : string) (K : Z) (w : World) : Prop := {
  si_engine : engine_ok (w_engine w);
  si_owners : owners_exist (w_agents w);
  si_given oid a : order_owner_ (w_agents w) !! oid = Some a →
    1 ≤ oid < next_order_id_ (book_of sym (w_engine w));
  si_pos : pos_bounded K (w_agents w);
  si_momentum buy o : o ∈ side_orders buy (book_of sym (w_engine w)) →
    order_owner_ (w_agents w) !! id o ≠ Some Momentum;
  si_log : logged (w_engine w) (trade_log_ (w_agents w));
}.

(** What a step of the simulation keeps: the invariant, with positions that grow by at
    most [dK] and at most [dn] identifiers given out, the settings of the agents, and
    what is booked to the momentum trader. *)
Record sim_keeps (sym : string) (K dK dn : Z) (w w' : World) : Prop := {
  sk_inv : sim_inv sym (K + dK) w';
  sk_settings : settings (w_agents w') = settings (w_agents w);
  sk_next : next_order_id_ (book_of sym (w_engine w')) ≤ next_order_id_ (book_of sym (w_engine w)) + dn;
  sk_booked : booked (mo_stats (momentum_trader_ (w_agents w'))) =
    booked (mo_stats (momentum_trader_ (w_agents w)));
  sk_conserved : conserved sym w → conserved sym w';
}.

(** Counting an order or a cancellation changes no position and books nothing. *)
Lemma count_spec a f A K :
  (∀ st, booked (f st) = booked st) → is_Some (agent_stats a A) → pos_bounded K A →
  ∃ A', update_stats a (λ st, Some (f st)) A = Some A' ∧ same_shape A A' ∧ pos_bounded K A' ∧
    booked (mo_stats (momentum_trader_ A')) = booked (mo_stats (momentum_trader_ A)) ∧
    trade_log_ A' = trade_log_ A.
Proof.
  intros Hf [st Hst] HK.
  destruct (update_stats_spec a (λ st, Some (f st)) A st _ Hst eq_refl)
    as (A' & Hu & Hs & Ha & Hoth & Hl). exists A'. split_and!; try done; [by apply Hs..| |].
  - intros a' st' H. destruct (decide (a' = a)) as [->|Hne]; [|rewrite Hoth in H by done; eauto].
    rewrite Ha in H. simplify_eq. specialize (Hf st). injection Hf as -> _ _. exact (HK a st Hst).
  - destruct (decide (Momentum = a)) as [<-|Hne].
    + simpl in Ha, Hst. simplify_eq. by rewrite Ha.
    + specialize (Hoth Momentum Hne). simpl in Hoth. by injection Hoth as ->.
Qed.

(** Sending an order keeps the invariant, and books nothing to the momentum trader. *)
Lemma send_order_spec sym clocks a s t p q w K :
  sim_inv sym K w → is_Some (agent_stats a (w_agents w)) →
  (invalid_order t p q = false → valid_price t p) → 0 ≤ q < 2 ^ 32 →
  next_order_id_ (book_of sym (w_engine w)) + 1 < 2 ^ 64 → K + 2 * q < 2 ^ 63 →
  a ≠ Momentum ∨ immediate t = true →
  ∃ oid w', send_order sym clocks a s t p q w = Some (oid, w') ∧ sim_keeps sym K (2 * q) 1 w w'.
Proof.
  intros [He Ho Hg HK Hm Hl] Hst Hp Hq Hn Hb Hkind. unfold send_order.
  destruct (count_spec a count_order_sent (w_agents w) K) as (A1 & Hu & Hs1 & HK1 & Hb1 & Hl1); try done.
  rewrite Hu. cbn [mbind option_bind].
  destruct (submit_order_spec (Some sim_trade_callback) (clocks (w_calls w)) sym s t p q (w_engine w)
    (Some A1) He Hp Hq Hn) as (oid & ts & M' & e' & Hspec & Hs & He' & HM & _ & Hst').
  rewrite Hs. cbn [mbind option_bind]. destruct (book_of_ok (w_engine w) sym He) as [Hbok _].
  destruct (submit_trades_parties _ _ _ _ _ _ _ _ _ Hbok (proj1 Hq) Hspec) as [Hfill _].
  pose proof (submit_trades_range _ _ _ _ _ _ _ _ _ Hbok (proj1 Hq) Hspec) as Hts.
  pose proof (trades_of_others _ _ _ _ _ _ _ _ _ _ Momentum Hbok (proj1 Hq) Hspec Hg Hm) as Hoth.
  destruct (submit_id _ _ _ _ _ _ _ _ _ Hspec) as [Hoid Hnext]. simpl in Hoid, Hnext.
  pose proof (wf_next _ (ok_wf _ Hbok)) as Hrange.
  destruct (sim_callbacks_spec ts A1 K (same_shape_owners _ _ Hs1 Ho) HK1)
    as (A2 & H2 & Hs2 & HK2 & Ha2 & Hl2); [eapply Forall_impl; [exact Hts|simpl; lia]|lia|].
  rewrite H2. cbn [mbind option_bind]. fold (register oid a A2). eexists oid, _. split; [done|].
  destruct (same_shape_trans _ _ _ Hs1 Hs2) as [Hown Hset].
  destruct (register_same oid a A2) as (Hset3 & Hlog3 & H3 & Hown3). rewrite Hown in Hown3.
  assert (next_order_id_ (book_of sym e') =
    next_order_id_ (book_of sym (w_engine w)) + if invalid_order t p q then 0 else 1) as Hnext'.
  { rewrite <-Hnext, <-HM. done. }
  split; [split|..]; simpl; rewrite ?Hnext'; try done.
  - intros i a' H. rewrite H3, (same_agents (w_agents w) A2) by done.
    destruct (Hown3 _ _ H) as [?|(-> & -> & _)]; eauto.
  - intros i a' [H%Hg|(-> & _ & ?)]%Hown3; rewrite ?Hoid in *; destruct (invalid_order t p q); lia.
  - intros a' st'. rewrite H3. intros H. specialize (HK2 a' st' H). lia.
  - intros buy o Hin Hmo%Hown3. rewrite <-queue_market, HM in Hin.
    destruct (rests_after_submit _ _ _ _ _ _ _ _ _ _ _ Hbok (proj1 Hq) Hspec Hin)
      as [[Himm Hid]|(Hid & o0 & Hin0 & Hid0)]; destruct Hmo as [Hmo|(Hnew & <- & Hpos)].
    + apply Hg in Hmo. lia.
    + destruct Hkind; congruence.
    + rewrite <-Hid0 in Hmo. by apply (Hm buy o0 Hin0).
    + rewrite Hoid in *. destruct (invalid_order t p q); lia.
  - rewrite Hlog3, Hl2, Hl1. eapply submit_logged; [exact Hl| |exact Hst'].
    intros Hinv. unfold spec_submit in Hspec. rewrite Hinv in Hspec. by simplify_eq.
  - by rewrite Hset3.
  - destruct (invalid_order t p q); lia.
  - specialize (H3 Momentum). rewrite (proj1 Hs1) in Ha2. rewrite (Ha2 Momentum Hoth) in H3.
    simpl in H3. injection H3 as ->. done.
  - apply (submitted_conserved _ _ a _ _ _ _ w _ _ _ _ _ _ _ Hbok (proj1 Hq) Hspec HM Hg (proj1 Hs1)); try done;
      [|by apply (count_audited a count_order_sent (w_agents w))].
    by rewrite (update_stats_total _ _ _ _ 0 Hu), Z.add_0_r by (intros; simplify_eq/=; lia).
Qed.

Lemma sim_inv_mono sym K K' w : K ≤ K' → sim_inv sym K w → sim_inv sym K' w.
Proof.
  intros Hle [? ? ? HK ? ?]. split; try done. intros a st H. specialize (HK a st H). lia.
Qed.

(** The invariant only reads the engine, the owners and the statistics. *)
Lemma sim_inv_stats sym K w A n :
  sim_inv sym K w → order_owner_ A = order_owner_ (w_agents w) →
  trade_log_ A = trade_log_ (w_agents w) →
  (∀ a, agent_stats a A = agent_stats a (w_agents w)) → sim_inv sym K (mk_world (w_engine w) A n).
Proof.
  intros [He Ho Hg HK Hm Hl] Hown Hlog Hst. split; simpl; try done.
  - intros oid a. rewrite Hown, Hst. apply Ho.
  - intros oid a. rewrite Hown. apply Hg.
  - intros a st. rewrite Hst. apply HK.
  - intros buy o. rewrite Hown. apply Hm.
  - by rewrite Hlog.
Qed.

Lemma Simulation_new_inv sym p : sim_inv sym 0 (Simulation_new p).1.
Proof.
  split; simpl.
  - apply MatchingEngine_new_ok.
  - intros oid a H. simpl in H. by rewrite lookup_empty in H.
  - intros oid a H. simpl in H. by rewrite lookup_empty in H.
  - intros [| |[|[|[|i]]]] st H; simpl in H; by simplify_eq.
  - intros buy o H. rewrite lookup_empty. done.
  - done.
Qed.

(** A world in which the momentum trader has a full window, a signal, and asks to
    trade with: two of the resting orders of [demo] belong to agents. *)
Definition busy : World :=
  mk_world demo
    (mk_agents (MarketMaker_new (dofZ 100))
       (foldl (λ m p, update_price p m) MomentumTrader_new (replicate 19 (dofZ 100) ++ [dofZ 110]))
       (replicate 3 NoiseTrader_new) [] (<[1 := Maker]> (<[2 := Noise 0]> ∅))) 0.

Lemma busy_inv : sim_inv "AAPL" 0 busy.
Proof.
  assert (∀ oid a, order_owner_ (w_agents busy) !! oid = Some a →
    1 ≤ oid < 3 ∧ (a = Maker ∨ a = Noise 0)) as Hown.
  { intros oid a. simpl. rewrite !lookup_insert_Some, lookup_empty. intros H.
    destruct H as [[<- <-]|[_ [[<- <-]|[_ ?]]]]; [split; [lia|auto]..|done]. }
  split.
  - apply reachable_ok, demo_reachable.
  - by intros oid a [_ [-> | ->]]%Hown.
  - intros oid a [? _]%Hown. change (w_engine busy) with demo. rewrite demo_next_id. lia.
  - intros [| |[|[|[|i]]]] st H; simpl in H; by simplify_eq.
  - intros buy o _ H. apply Hown in H as [_ [?|?]]; done.
  - by vm_compute.
Qed.

(** In that world the momentum trader buys 35 shares, all there are, and the sellers are
    paid, but its own books do not move. *)
Example momentum_buys_for_free :
  (w ← momentum_on_tick "AAPL" (λ i n, Z.of_nat (i + n)) 7 busy;
   Some (filled_by (trade_log_ (w_agents w)),
         t_position (mm_stats (market_maker_ (w_agents w))),
         t_position (mo_stats (momentum_trader_ (w_agents w))),
         t_fills_received (mo_stats (momentum_trader_ (w_agents w))),
         t_orders_sent (mo_stats (momentum_trader_ (w_agents w))))) =
  Some (35, -10, 0, 0, 1).
Proof. vm_compute. reflexivity. Qed.

(** ** Runs that deviate from the comments *)

Definition quiet : TickDraws := mk_draws dzero dzero (λ _, mk_noise_draws (dofZ 1) 0 1 dzero dzero).
Definition sim_clocks (i n : nat) : Timestamp := Z.of_nat (10 * i + n).

Definition set_mm_position (pos : Z) (w : World) : World :=
  on_maker (λ m, with_mm_stats (mk_tstats pos (t_cash (mm_stats m)) (t_starting_cash (mm_stats m))
    (t_orders_sent (mm_stats m)) (t_fills_received (mm_stats m)) (t_cancels_sent (mm_stats m))
    (t_total_pnl (mm_stats m))) m) w.

(** The market maker quotes its full size whenever its position is below the limit, so
    from 950 shares a fill takes it to 1050, beyond the 1000 it is never to exceed. *)
Example maker_exceeds_max_position :
  (w ← maker_on_tick "AAPL" sim_clocks dzero (set_mm_position 950 (Simulation_new (dofZ 150)).1);
   '(_, w) ← send_order "AAPL" sim_clocks (Noise 0) Sell Market dzero 100 w;
   Some (t_position (mm_stats (market_maker_ (w_agents w))), mm_max_position_ (market_maker_ (w_agents w)))) =
  Some (1050, 1000).
Proof. vm_compute. reflexivity. Qed.

(** A run of two to nine ticks divides by zero when it tests whether to report its
    progress; a run of one tick, or of ten, does not. *)
Example short_run_divides_by_zero :
  (λ n, bool_decide (is_Some (sim_run "AAPL" sim_clocks (dofZ 150) n (λ _, quiet)))) <$> [1; 2; 9; 10] =
  [true; false; false; true].
Proof. vm_compute. reflexivity. Qed.
