(* ===== verification/SimMaker.v ===== *)
(** The position of the market maker: the shares it may still be filled for are those of
    its resting quotes, and every fill moves shares from a quote to the position. *)

From stdpp Require Import base list gmap strings.
From Stdlib Require Import ZArith Lia.
From S2P Require Import Prelude Machine StdMap Types ObjectPool OrderBook PriceTime.
From S2P Require Import BookInv BookOps MatchingEngine MatchRefine EngineSpec Exchange.
From S2P Require Import EngineProps Simulation SimBooks SimProps.

Open Scope Z_scope.

(** ** Shares that rest under some identifiers *)

(** The shares that rest in [l] under the identifiers that [f] accepts ... *)
Definition owned (f : OrderId → bool) (l : list Order) : Z :=
  sum_list_Z ((λ o, if f (id o) then remaining_qty o else 0) <$> l).

(** ... and the shares that the trades of an incoming order took from them. *)
Definition taken (buy : bool) (f : OrderId → bool) (ts : list Trade) : Z :=
  sum_list_Z ((λ t, if f (if buy then sell_order_id t else buy_order_id t)
                    then trade_quantity t else 0) <$> ts).

Lemma owned_cons f o l : owned f (o :: l) = (if f (id o) then remaining_qty o else 0) + owned f l.
Proof. done. Qed.
Lemma taken_cons buy f t ts :
  taken buy f (t :: ts) =
  (if f (if buy then sell_order_id t else buy_order_id t) then trade_quantity t else 0) + taken buy f ts.
Proof. done. Qed.

Lemma owned_nonneg f l : Forall live l → 0 ≤ owned f l.
Proof.
  induction 1 as [|o l [Ho _] _ IH]; [done|]. rewrite owned_cons. destruct (f (id o)); lia.
Qed.

Lemma taken_nonneg buy f ts : Forall (λ t, 0 < trade_quantity t < 2 ^ 32) ts → 0 ≤ taken buy f ts.
Proof. induction 1 as [|t ts Ht _ IH]; [done|]. rewrite taken_cons. case_match; lia. Qed.

Lemma owned_ext f g l : (∀ o, o ∈ l → f (id o) = g (id o)) → owned f l = owned g l.
Proof.
  intros H. induction l as [|o l IH]; [done|]. rewrite !owned_cons, (H o), IH; [done| |].
  - intros o' Ho'. apply H. by right.
  - by left.
Qed.

Lemma taken_ext (buy : bool) (f g : OrderId → bool) (ts : list Trade) :
  Forall (λ t, f (if buy then sell_order_id t else buy_order_id t) =
               g (if buy then sell_order_id t else buy_order_id t)) ts →
  taken buy f ts = taken buy g ts.
Proof. induction 1 as [|t ts Ht _ IH]; [done|]. by rewrite !taken_cons, Ht, IH. Qed.

Lemma owned_none f l : (∀ o, o ∈ l → f (id o) = false) → owned f l = 0.
Proof.
  intros H. induction l as [|o l IH]; [done|]. rewrite owned_cons, (H o), IH; [done| |].
  - intros o' Ho'. apply H. by right.
  - by left.
Qed.

Lemma owned_dequeue f oid l : Forall live l → owned f (dequeue oid l) ≤ owned f l.
Proof.
  induction 1 as [|o l [Ho _] _ IH]; [done|]. unfold dequeue in *. rewrite filter_cons.
  case_decide; rewrite !owned_cons; case_match; lia.
Qed.

(** A match takes from the queue what its trades say, whoever the shares belong to. *)
Lemma match_owned f buy clock inc opp ts inc' opp' :
  match_queue buy clock inc opp = (ts, inc', opp') →
  owned f opp = taken buy f ts + owned f opp'.
Proof.
  revert clock inc ts inc' opp'. induction opp as [|r rest IH]; intros clock inc ts inc' opp'; simpl.
  { by intros; simplify_eq. }
  assert (∀ q, (if buy then sell_order_id (trade_of buy inc r q (clock O))
    else buy_order_id (trade_of buy inc r q (clock O))) = id r) as Hid by (by destruct buy).
  destruct (_ && _); [|by intros; simplify_eq].
  set (q := Z.min _ _). destruct (Z.eqb_spec (remaining_qty r - q) 0) as [E|E].
  - destruct (match_queue _ _ _ rest) as [[ts' inc''] opp''] eqn:Hm. intros; simplify_eq.
    rewrite owned_cons, taken_cons, (IH _ _ _ _ _ Hm), Hid. simpl. clearbody q.
    destruct (f (id r)); lia.
  - intros; simplify_eq. rewrite !owned_cons, taken_cons, Hid. unfold taken. simpl. clearbody q.
    destruct (f (id r)); lia.
Qed.

(** What a submission does to the shares on the two sides of the book. *)
Lemma submit_owned f clock s t p q b oid ts M' :
  book_ok b → 0 ≤ q → spec_submit clock s t p q (market b) = (oid, ts, M') →
  owned f (side_orders (negb (is_buy s)) b) =
    taken (is_buy s) f ts + owned f (queue (negb (is_buy s)) M') ∧
  owned f (queue (is_buy s) M') ≤
    owned f (side_orders (is_buy s) b) + (if f (next_order_id_ b) then q else 0).
Proof.
  intros Hok Hq. unfold spec_submit. destruct (invalid_order t p q).
  { intros; simplify_eq. rewrite !queue_market. unfold taken. simpl. split; [lia|]. case_match; lia. }
  destruct (match_queue _ _ _ _) as [[ts' inc] opp] eqn:Hmq. intros; simplify_eq.
  rewrite queue_market in Hmq. pose proof (match_owned f _ _ _ _ _ _ _ Hmq) as Hown.
  pose proof (resting_live _ (ok_resting b Hok (negb (is_buy s)))) as Hlive.
  change q with (remaining_qty (Order_new (clock 1%nat) (next_id (market b)) s t
    (effective_price s t p) q)) in Hq.
  pose proof (match_incoming _ _ _ _ _ _ _ Hlive Hq Hmq) as Hinc.
  pose proof (match_incoming_range _ _ _ _ _ _ _ Hlive Hq Hmq) as Hrange. simpl in Hq, Hrange.
  assert (owned f (enqueue (is_buy s) (match_status inc) (side_orders (is_buy s) b)) ≤
    owned f (side_orders (is_buy s) b) + (if f (next_order_id_ b) then q else 0)) as Hrest.
  { unfold owned at 1. rewrite enqueue_perm. csimpl. fold (owned f (side_orders (is_buy s) b)).
    destruct (match_status_fields inc) as (-> & _ & _ & _ & ->). rewrite Hinc. simpl.
    destruct (f (next_order_id_ b)); lia. }
  assert (0 ≤ if f (next_order_id_ b) then q else 0) by (case_match; lia).
  destruct (_ || _), (is_buy s); simpl in *; split; try done; lia.
Qed.

(** The same when the identifiers that are accepted change with the submission, but for
    those that were given out. *)
Lemma submit_quotes f f' clock s t p q b oid ts M' :
  book_ok b → 0 ≤ q → spec_submit clock s t p q (market b) = (oid, ts, M') →
  (∀ i, 1 ≤ i < next_order_id_ b → f' i = f i) →
  owned f (side_orders (negb (is_buy s)) b) =
    taken (is_buy s) f ts + owned f' (queue (negb (is_buy s)) M') ∧
  owned f' (queue (is_buy s) M') ≤
    owned f (side_orders (is_buy s) b) + (if f' (next_order_id_ b) then q else 0).
Proof.
  intros Hok Hq Hspec Hf. destruct (submit_owned f' _ _ _ _ _ _ _ _ _ Hok Hq Hspec) as [H1 H2].
  destruct (submit_trades_parties _ _ _ _ _ _ _ _ _ Hok Hq Hspec) as [_ Hpar].
  assert (∀ buy, owned f' (side_orders buy b) = owned f (side_orders buy b)) as Hside.
  { intros buy. apply owned_ext. intros o Ho. by apply Hf, (resting_id_range b (ok_wf b Hok) buy). }
  rewrite !Hside in *. split; [|done]. rewrite H1. f_equal. apply taken_ext.
  eapply Forall_impl; [exact Hpar|]. intros x (r & Hr & Hx).
  apply Hf. apply (resting_id_range b (ok_wf b Hok)) in Hr.
  by destruct (is_buy s), Hx as [_ ->].
Qed.

(** ** How the market maker moves *)

(** [A'] is [A] but for statistics, the log and the prices seen: the owners are the same,
    and the market maker is, with [d] more shares. *)
Definition maker_moved (d : Z) (A A' : Agents) : Prop :=
  order_owner_ A' = order_owner_ A ∧
  ∃ st, market_maker_ A' = with_mm_stats st (market_maker_ A) ∧
    t_position st = t_position (mm_stats (market_maker_ A)) + d.

Lemma maker_moved_same A A' :
  order_owner_ A' = order_owner_ A → market_maker_ A' = market_maker_ A → maker_moved 0 A A'.
Proof.
  intros Ho Hm. split; [done|]. exists (mm_stats (market_maker_ A)). rewrite Hm.
  rewrite Z.add_0_r. split; [by destruct (market_maker_ A)|done].
Qed.

Lemma maker_moved_trans d d' A A1 A2 :
  maker_moved d A A1 → maker_moved d' A1 A2 → maker_moved (d + d') A A2.
Proof.
  intros [Ho (st & Hm & Hp)] [Ho' (st' & Hm' & Hp')]. split; [congruence|]. exists st'.
  rewrite Hm in Hm', Hp'. simpl in *. split; [done|lia].
Qed.

Lemma update_stats_moved a f A A' d :
  update_stats a f A = Some A' →
  (a = Maker → ∀ st st', f st = Some st' → t_position st' = t_position st + d) →
  (a ≠ Maker → d = 0) → maker_moved d A A'.
Proof.
  intros Hu Hd Hne. destruct a as [| |i]; simpl in Hu.
  - apply bind_Some in Hu as (st & Hst & [= <-]). split; [done|]. exists st. split; [done|].
    by apply (Hd eq_refl).
  - apply bind_Some in Hu as (st & Hst & [= <-]). rewrite Hne by done. by apply maker_moved_same.
  - apply bind_Some in Hu as (n & Hn & Hu). apply bind_Some in Hu as (st & Hst & [= <-]).
    rewrite Hne by done. by apply maker_moved_same.
Qed.

(** The shares that a fill of the order [oid] moves to the market maker. *)
Definition moved_by (own : gmap OrderId agent) (oid : OrderId) (d : Z) : Z :=
  if decide (own !! oid = Some Maker) then d else 0.

Lemma fill_owner_moved oid s p q A A' :
  fill_owner oid s p q A = Some A' →
  maker_moved (moved_by (order_owner_ A) oid (if is_buy s then q else - q)) A A'.
Proof.
  unfold fill_owner, moved_by. destruct (order_owner_ A !! oid) as [a|] eqn:E; intros H.
  - eapply update_stats_moved; [exact H| |intros Hne; rewrite decide_False; congruence].
    intros -> st st' Hf. rewrite decide_True by done. unfold trader_on_fill, ladd in Hf.
    destruct (is_buy s); apply bind_Some in Hf as (pos & [-> _]%to_long_Some & [= <-]); done.
  - rewrite decide_False by done. simplify_eq. by apply maker_moved_same.
Qed.

Definition trade_moves (own : gmap OrderId agent) (t : Trade) : Z :=
  moved_by own (buy_order_id t) (trade_quantity t) + moved_by own (sell_order_id t) (- trade_quantity t).

Lemma callback_moved t A A' :
  sim_trade_callback t (Some A) = Some A' → maker_moved (trade_moves (order_owner_ A) t) A A'.
Proof.
  unfold sim_trade_callback. cbn [mbind option_bind]. intros H.
  apply bind_Some in H as (A1 & H1%fill_owner_moved & H).
  apply bind_Some in H as (A2 & H2%fill_owner_moved & [= <-]).
  unfold trade_moves.
  assert (maker_moved 0 A2 (set_momentum (update_price (trade_price t) (momentum_trader_ A2)) A2)) as H3
    by (by apply maker_moved_same).
  rewrite (proj1 H1) in H2. rewrite <-(Z.add_0_r (_ + _)).
  eapply maker_moved_trans; [|exact H3]. eapply maker_moved_trans; [exact H1|exact H2].
Qed.

Lemma callbacks_moved ts A A' :
  notify_all (Some sim_trade_callback) ts (Some A) = Some A' →
  maker_moved (sum_list_Z (trade_moves (order_owner_ A) <$> ts)) A A'.
Proof.
  unfold notify_all. revert A. induction ts as [|t ts IH]; intros A H; cbn [foldl] in H.
  { simplify_eq. by apply maker_moved_same. }
  destruct (sim_trade_callback t (Some A)) as [A1|] eqn:H1.
  - apply callback_moved in H1. csimpl. rewrite <-(proj1 H1) at 2.
    eapply maker_moved_trans; [exact H1|by apply IH].
  - exfalso. clear IH H1. induction ts; [done|auto].
Qed.

Definition maker_owns (A : Agents) (i : OrderId) : bool :=
  bool_decide (order_owner_ A !! i = Some Maker).

(** The trades of an incoming order that is not known as the market maker's move to it
    what they took from its quotes. *)
Lemma trades_move buy A oid ts :
  order_owner_ A !! oid ≠ Some Maker →
  Forall (λ x, if buy : bool then buy_order_id x = oid else sell_order_id x = oid) ts →
  sum_list_Z (trade_moves (order_owner_ A) <$> ts) =
    if buy then - taken buy (maker_owns A) ts else taken buy (maker_owns A) ts.
Proof.
  intros Hno. induction 1 as [|t ts Ht _ IH]; [by destruct buy|].
  csimpl. rewrite IH, taken_cons. unfold trade_moves, moved_by, maker_owns.
  destruct buy; rewrite Ht, (decide_False (P := _ !! oid = _)) by done;
    rewrite decide_bool_decide; destruct (bool_decide _); lia.
Qed.

(** Registering the owner of a new identifier. *)
Lemma register_owns oid a A i :
  maker_owns (register oid a A) i = true → maker_owns A i = true ∨ a = Maker ∧ i = oid.
Proof.
  unfold maker_owns. rewrite !bool_decide_eq_true.
  destruct (register_same oid a A) as (_ & _ & _ & Hown). intros [?|(-> & <- & _)]%Hown; auto.
Qed.

Lemma register_owns_other oid a A i :
  i ≠ oid → maker_owns (register oid a A) i = maker_owns A i.
Proof.
  intros Hne. unfold maker_owns, register. destruct (oid >? 0); [|done].
  simpl. by rewrite lookup_insert_ne by done.
Qed.

Section maker.
Context (sym : string) (clocks : nat → nat → Timestamp).

(** The resting orders of a side, the shares of the market maker among them, and its
    position. *)
Definition resting_orders (buy : bool) (w : World) : list Order :=
  side_orders buy (book_of sym (w_engine w)).
Definition quoted (buy : bool) (w : World) : Z :=
  owned (maker_owns (w_agents w)) (resting_orders buy w).
Definition maker_position (w : World) : Z := t_position (mm_stats (market_maker_ (w_agents w))).

(** An order of the market maker that rests. *)
Definition quote_rests (buy : bool) (w : World) (oid : OrderId) : Prop :=
  order_owner_ (w_agents w) !! oid = Some Maker ∧ oid ∈ id <$> resting_orders buy w.

Lemma quoted_nonneg buy w : engine_ok (w_engine w) → 0 ≤ quoted buy w.
Proof.
  intros He. apply owned_nonneg, resting_live, ok_resting.
  by destruct (book_of_ok (w_engine w) sym He).
Qed.

Lemma quoted_none buy w : (∀ oid, ¬ quote_rests buy w oid) → quoted buy w = 0.
Proof.
  intros H. apply owned_none. intros o Ho. apply bool_decide_eq_false. intros Hown.
  apply (H (id o)). split; [done|]. by apply list_elem_of_fmap_2.
Qed.

(** What a step did to the market maker: [d] shares to its position, [w'] has its
    quotes up to its statistics. *)
Definition maker_step (d : Z) (w w' : World) : Prop :=
  ∃ st, market_maker_ (w_agents w') = with_mm_stats st (market_maker_ (w_agents w)) ∧
    t_position st = maker_position w + d.

Lemma send_cancel_moves a oid w r w' :
  engine_ok (w_engine w) → send_cancel sym a oid w = Some (r, w') →
  maker_step 0 w w' ∧ (∀ buy, quoted buy w' ≤ quoted buy w) ∧
  (∀ buy i, quote_rests buy w' i → quote_rests buy w i ∧ i ≠ oid).
Proof.
  intros He H. unfold send_cancel in H. apply bind_Some in H as (A1 & Hu & H).
  destruct (cancel_order_engine_spec sym oid (w_engine w) He) as (r' & e' & Hc & Hspec & _).
  rewrite Hc in H. cbn [mbind option_bind] in H. simplify_eq.
  assert (maker_moved 0 (w_agents w) A1) as [Ho Hmove].
  { eapply update_stats_moved; [exact Hu| |done]. intros _ st st' [= <-]. simpl. lia. }
  assert (∀ buy, resting_orders buy (mk_world e' A1 (w_calls w)) = dequeue oid (resting_orders buy w))
    as Hside by (unfold spec_cancel in Hspec; injection Hspec as _ Hb Ha _; intros []; by symmetry).
  destruct (book_of_ok (w_engine w) sym He) as [Hok _].
  split_and!; [done| |].
  - intros buy. unfold quoted. rewrite Hside. unfold maker_owns. simpl. rewrite Ho.
    apply owned_dequeue, resting_live, ok_resting, Hok.
  - intros buy i [Hi Hin]. rewrite Hside in Hin. simpl in Hi. rewrite Ho in Hi.
    apply list_elem_of_fmap in Hin as (o & -> & [Hne Hin]%list_elem_of_filter).
    split; [split; [done|by apply list_elem_of_fmap_2]|done].
Qed.

(** The quotes that rest after a submission: those that did before, and the order if the
    market maker sent it. *)
Lemma quote_after_submit own clock s t p q b oid ts b' a A buy x :
  book_ok b → 0 ≤ q → spec_submit clock s t p q (market b) = (oid, ts, market b') →
  (∀ i a', own !! i = Some a' → 1 ≤ i < next_order_id_ b) → order_owner_ A = own →
  x ∈ side_orders buy b' → order_owner_ (register oid a A) !! id x = Some Maker →
  (own !! id x = Some Maker ∧ id x ∈ id <$> side_orders buy b) ∨ a = Maker ∧ id x = oid.
Proof.
  intros Hok Hq Hspec Hg Hown Hx Hi. rewrite <-queue_market in Hx.
  destruct (submit_id _ _ _ _ _ _ _ _ _ Hspec) as [Hoid _]. simpl in Hoid.
  pose proof (wf_next _ (ok_wf _ Hok)) as Hnext.
  destruct (register_same oid a A) as (_ & _ & _ & Hreg). rewrite Hown in Hreg.
  destruct (rests_after_submit _ _ _ _ _ _ _ _ _ _ _ Hok Hq Hspec Hx) as [[_ Hid]|(Hid & o & Ho & Hio)];
    destruct (Hreg _ _ Hi) as [Hc|(Hc & Ha & Hpos)].
  - apply Hg in Hc. lia.
  - right. done.
  - left. split; [done|]. rewrite <-Hio. by apply list_elem_of_fmap_2.
  - rewrite Hoid in *. destruct (invalid_order t p q); lia.
Qed.

Lemma send_order_moves a s t p q w K oid w' :
  sim_inv sym K w → (invalid_order t p q = false → valid_price t p) → 0 ≤ q < 2 ^ 32 →
  next_order_id_ (book_of sym (w_engine w)) + 1 < 2 ^ 64 →
  send_order sym clocks a s t p q w = Some (oid, w') →
  ∃ d, 0 ≤ d ∧ engine_ok (w_engine w') ∧ maker_step (if is_buy s then - d else d) w w' ∧
    quoted (negb (is_buy s)) w = d + quoted (negb (is_buy s)) w' ∧
    quoted (is_buy s) w' ≤ quoted (is_buy s) w + (if decide (a = Maker) then q else 0) ∧
    (∀ buy i, quote_rests buy w' i → quote_rests buy w i ∨ a = Maker ∧ i = oid).
Proof.
  intros [He _ Hg _ _ _] Hp Hq Hn H. unfold send_order in H. apply bind_Some in H as (A1 & Hu & H).
  destruct (submit_order_spec (Some sim_trade_callback) (clocks (w_calls w)) sym s t p q (w_engine w)
    (Some A1) He Hp Hq Hn) as (oid' & ts & M' & e' & Hspec & Hs & He' & HM & _).
  rewrite Hs in H. cbn [mbind option_bind] in H. apply bind_Some in H as (A2 & Hcb & H).
  fold (register oid' a A2) in H. simplify_eq.
  destruct (book_of_ok (w_engine w) sym He) as [Hok _].
  assert (maker_moved 0 (w_agents w) A1) as Hm1.
  { eapply update_stats_moved; [exact Hu| |done]. intros _ st st' [= <-]. simpl. lia. }
  apply callbacks_moved in Hcb. pose proof (maker_moved_trans _ _ _ _ _ Hm1 Hcb) as [Hown Hmove].
  destruct (submit_id _ _ _ _ _ _ _ _ _ Hspec) as [Hoid _]. simpl in Hoid.
  pose proof (wf_next _ (ok_wf _ Hok)) as Hnext.
  assert (order_owner_ (w_agents w) !! oid ≠ Some Maker) as Hnew.
  { intros Hc%Hg. rewrite Hoid in Hc. destruct (invalid_order t p q); lia. }
  destruct (submit_trades_parties _ _ _ _ _ _ _ _ _ Hok (proj1 Hq) Hspec) as [_ Hpar].
  pose proof (submit_trades_range _ _ _ _ _ _ _ _ _ Hok (proj1 Hq) Hspec) as Hrange.
  rewrite (proj1 Hm1), (trades_move (is_buy s) (w_agents w) oid ts) in Hmove; [|done|]; cycle 1.
  { eapply Forall_impl; [exact Hpar|]. intros x (r & _ & Hx). destruct (is_buy s); apply Hx. }
  destruct (submit_quotes (maker_owns (w_agents w)) (maker_owns (register oid a A2))
    _ _ _ _ _ _ _ _ _ Hok (proj1 Hq) Hspec) as [H1 H2].
  { intros i Hi. rewrite register_owns_other; [unfold maker_owns; by rewrite Hown|].
    rewrite Hoid. destruct (invalid_order t p q); lia. }
  rewrite !queue_market in *.
  exists (taken (is_buy s) (maker_owns (w_agents w)) ts). split_and!.
  - by apply taken_nonneg.
  - done.
  - destruct Hmove as (st & Hm & Hpos). exists st.
    unfold register. destruct (oid >? 0); simpl; (split; [done|]); by rewrite Hpos; destruct (is_buy s).
  - done.
  - etrans; [exact H2|]. unfold quoted, resting_orders. apply Z.add_le_mono_l.
    destruct (maker_owns (register oid a A2) _) eqn:E; [|case_decide; lia].
    apply register_owns in E as [E|[-> _]]; [|by rewrite decide_True].
    apply bool_decide_eq_true in E. rewrite Hown in E. apply Hg in E. lia.
  - intros buy i [Hi Hin]. simpl in Hi.
    apply list_elem_of_fmap in Hin as (x & -> & Hx).
    exact (quote_after_submit _ _ _ _ _ _ _ _ _ _ _ _ _ _ Hok (proj1 Hq) Hspec Hg Hown Hx Hi).
Qed.

(** ** The invariant of the market maker *)

(** The position stays within 1099 shares on both sides, even when all its quotes are
    filled; [ok] holds of the identifiers of its quotes. *)
Record quotes_inv (ok : OrderId → Prop) (w : World) : Prop := {
  qi_bid : maker_position w + quoted true w ≤ 1099;
  qi_ask : -1099 ≤ maker_position w - quoted false w;
  qi_ids buy i : quote_rests buy w i → ok i;
}.

Definition maker_inv (w : World) : Prop :=
  let m := market_maker_ (w_agents w) in
  quotes_inv (λ i, i = active_bid_id_ m ∨ i = active_ask_id_ m) w.

Lemma quotes_inv_mono (P Q : OrderId → Prop) w :
  quotes_inv P w → (∀ buy i, quote_rests buy w i → P i → Q i) → quotes_inv Q w.
Proof. intros [Hb Ha Hi] H. split; [done..|]. intros buy i Hq. eauto. Qed.

(** Assignments to the market maker do not move its shares. *)
Lemma quotes_inv_on_maker P f w :
  (∀ m, mm_stats (f m) = mm_stats m) → quotes_inv P w → quotes_inv P (on_maker f w).
Proof.
  intros Hf [Hb Ha Hi]. split; [..|exact Hi]; unfold maker_position; simpl; by rewrite Hf.
Qed.

(** The invariant reads the engine, the owners and the market maker only. *)
Lemma maker_inv_same w A n :
  maker_inv w → order_owner_ A = order_owner_ (w_agents w) →
  mm_stats (market_maker_ A) = mm_stats (market_maker_ (w_agents w)) →
  active_bid_id_ (market_maker_ A) = active_bid_id_ (market_maker_ (w_agents w)) →
  active_ask_id_ (market_maker_ A) = active_ask_id_ (market_maker_ (w_agents w)) →
  maker_inv (mk_world (w_engine w) A n).
Proof.
  intros [Hb Ha Hi] Ho Hs Hbid Hask. split; simpl.
  - unfold maker_position, quoted, maker_owns in *. simpl. by rewrite Hs, Ho.
  - unfold maker_position, quoted, maker_owns in *. simpl. by rewrite Hs, Ho.
  - intros buy i [H1 H2]. rewrite Hbid, Hask. apply (Hi buy). split; [|done].
    simpl in H1. by rewrite Ho in H1.
Qed.

Lemma maker_step_position d w w' : maker_step d w w' → maker_position w' = maker_position w + d.
Proof. intros (st & Hm & Hp). unfold maker_position at 1. by rewrite Hm. Qed.

Lemma cancel_inv a oid w r w' P :
  engine_ok (w_engine w) → quotes_inv P w → send_cancel sym a oid w = Some (r, w') →
  quotes_inv (λ i, P i ∧ i ≠ oid) w' ∧
  ∃ st, market_maker_ (w_agents w') = with_mm_stats st (market_maker_ (w_agents w)).
Proof.
  intros He [Hb Ha Hi] H. destruct (send_cancel_moves _ _ _ _ _ He H) as (Hstep & Hq & Hr).
  pose proof (maker_step_position _ _ _ Hstep) as Hpos. destruct Hstep as (st & Hm & _).
  split; [|eauto]. pose proof (Hq true). pose proof (Hq false).
  split; [lia|lia|]. intros buy i [Hrest Hne]%Hr. split; [by eapply Hi|done].
Qed.

(** What the engine and an order must satisfy for the lemmas below. *)
Definition sendable (K : Z) (w : World) (t : OrderType) (p : Price) (q : Quantity) : Prop :=
  sim_inv sym K w ∧ (invalid_order t p q = false → valid_price t p) ∧ 0 ≤ q < 2 ^ 32 ∧
  next_order_id_ (book_of sym (w_engine w)) + 1 < 2 ^ 64.

Lemma others_inv K a s t p q w oid w' :
  sendable K w t p q → a ≠ Maker → maker_inv w →
  send_order sym clocks a s t p q w = Some (oid, w') → maker_inv w'.
Proof.
  intros (Hinv & Hp & Hq & Hn) Hne [Hb Ha Hi] H.
  destruct (send_order_moves _ _ _ _ _ _ _ _ _ Hinv Hp Hq Hn H) as (d & Hd & He & Hstep & H1 & H2 & H3).
  pose proof (maker_step_position _ _ _ Hstep) as Hpos. destruct Hstep as (st & Hm & _).
  rewrite decide_False in H2 by done.
  split; [destruct (is_buy s); simpl in *; lia..|]. rewrite Hm. simpl.
  intros buy i [Hr|[? _]]%H3; [by eapply Hi|done].
Qed.

Lemma bid_inv K p q w oid w' :
  sendable K w Limit p q → q ≤ 100 → quotes_inv (λ _, False) w → maker_position w < 1000 →
  send_order sym clocks Maker Buy Limit p q w = Some (oid, w') →
  quotes_inv (λ i, i = oid) w' ∧ quoted false w' = 0.
Proof.
  intros (Hinv & Hp & Hq & Hn) Hle [Hb Ha Hi] Hlim H.
  destruct (send_order_moves _ _ _ _ _ _ _ _ _ Hinv Hp Hq Hn H) as (d & Hd & He & Hstep & H1 & H2 & H3).
  apply maker_step_position in Hstep. rewrite decide_True in H2 by done.
  change (is_buy Buy) with true in *. cbn [negb] in *.
  pose proof (quoted_none true w (Hi true)) as Hn1. pose proof (quoted_none false w (Hi false)) as Hn2.
  pose proof (quoted_nonneg false w' He). split; [split; [lia|lia|]|lia].
  intros buy i [Hr|[_ ->]]%H3; [by destruct (Hi buy i)|done].
Qed.

Lemma ask_inv K p q w oid w' P :
  sendable K w Limit p q → q ≤ 100 → quotes_inv P w → quoted false w = 0 → -1000 < maker_position w →
  send_order sym clocks Maker Sell Limit p q w = Some (oid, w') →
  quotes_inv (λ i, P i ∨ i = oid) w' ∧
  ∃ st, market_maker_ (w_agents w') = with_mm_stats st (market_maker_ (w_agents w)).
Proof.
  intros (Hinv & Hp & Hq & Hn) Hle [Hb Ha Hi] Hz Hlim H.
  destruct (send_order_moves _ _ _ _ _ _ _ _ _ Hinv Hp Hq Hn H) as (d & Hd & He & Hstep & H1 & H2 & H3).
  pose proof (maker_step_position _ _ _ Hstep) as Hpos. destruct Hstep as (st & Hm & _).
  rewrite decide_True in H2 by done. change (is_buy Sell) with false in *. cbn [negb] in *.
  split; [|eauto]. split; [lia|lia|]. intros buy i [Hr|[_ ->]]%H3; [left; by eapply Hi|by right].
Qed.
End maker.
