(* ===== verification/SimRun.v ===== *)
(** Whole runs of the simulation: a run is defined for every number of ticks that does
    not divide by zero, whatever the draws, and what holds at its end. *)

From stdpp Require Import base list gmap strings.
From Stdlib Require Import ZArith Lia.
From S2P Require Import Prelude Machine Rounding StdMap Types ObjectPool OrderBook PriceTime.
From S2P Require Import BookInv BookOps MatchingEngine MatchRefine EngineSpec Exchange.
From S2P Require Import EngineProps Simulation SimBooks SimProps SimMaker.

Open Scope Z_scope.

(** ** The prices the agents compute are numbers *)

(** The settings from which the agents compute their prices. *)
Definition settings_ok (A : Agents) : Prop :=
  let '((fair, half, size, limit, skew), refs) := settings A in
  (size = 100 ∧ limit = 1000) ∧ num fair ∧ finiteb half = true ∧ bounded_by 10 skew ∧ Forall num refs ∧ length refs = 3%nat.

Lemma settings_ok_same A A' : settings A' = settings A → settings_ok A → settings_ok A'.
Proof. unfold settings_ok. by intros ->. Qed.

Lemma settings_ok_noises A : settings_ok A → length (noise_traders_ A) = 3%nat.
Proof. intros (_ & _ & _ & _ & _ & H). by rewrite length_fmap in H. Qed.

(** The draws of a tick: the price is multiplied by a finite factor other than zero, and
    the noises are finite. *)
Definition draws_ok (d : TickDraws) : Prop :=
  factorb (dadd (dofZ 1) (d_return d)) = true ∧ finiteb (d_maker d) = true ∧
  ∀ i, finiteb (d_offset (d_noises d i)) = true.

Lemma round_cents_num p : num p → num (round_cents p).
Proof. intros Hp. unfold round_cents. by apply num_div; [apply num_round, num_mul|]. Qed.

Lemma quotes_num neg noise m bid ask :
  quotes neg noise m = (bid, ask) → Z.abs neg < 2 ^ 63 → finiteb noise = true →
  num (fair_value_ m) → finiteb (half_spread_ m) = true → bounded_by 10 (skew_factor_ m) →
  num bid ∧ num ask.
Proof.
  unfold quotes. intros Hq Hneg Hn Hf Hh Hs.
  assert (finiteb (dmul (dofZ neg) (skew_factor_ m)) = true) as Hskew.
  { eapply bounded_by_finite, bounded_mul; [by apply (bounded_dofZ neg 63)|exact Hs|lia]. }
  set (skew := dmul (dofZ neg) _) in *. clearbody skew. cbv zeta in Hq.
  assert (num (round_cents (dadd (dadd (dsub (fair_value_ m) (half_spread_ m)) skew) noise))) as Hbid
    by (by apply round_cents_num, num_add; [apply num_add; [apply num_sub|]|]).
  injection Hq as <- <-. split; [done|]. destruct (dleb _ _); [by apply num_add|].
  by apply round_cents_num, num_add; [apply num_add; [apply num_add|]|].
Qed.

(** ** Steps that keep the invariant *)

Section run.
Context (sym : string) (clocks : nat → nat → Timestamp).

(** The identifiers that were given out. *)
Definition next_of (w : World) : Z := next_order_id_ (book_of sym (w_engine w)).

(** A step that is defined, keeps the invariant, at a cost of [dK] in the positions and of
    [dn] identifiers, and ends in a state that satisfies [Q]. *)
Definition safe (K dK dn : Z) (w : World) (m : option World) (Q : World → Prop) : Prop :=
  ∃ w', m = Some w' ∧ sim_keeps sym K dK dn w w' ∧ Q w'.

Lemma safe_ret K dK dn w w' (Q : World → Prop) :
  sim_inv sym K w → 0 ≤ dK → 0 ≤ dn → w_engine w' = w_engine w →
  order_owner_ (w_agents w') = order_owner_ (w_agents w) →
  trade_log_ (w_agents w') = trade_log_ (w_agents w) →
  (∀ a, agent_stats a (w_agents w') = agent_stats a (w_agents w)) →
  settings (w_agents w') = settings (w_agents w) → Q w' →
  safe K dK dn w (Some w') Q.
Proof.
  intros Hinv HK Hn He Ho Hl Hst Hset HQ. exists w'. split; [done|]. split; [|done].
  destruct w' as [e A n]. simpl in *. subst e. split; simpl; [|done|lia| |].
  - apply (sim_inv_mono _ K); [lia|]. by apply sim_inv_stats.
  - specialize (Hst Momentum). simpl in Hst. by injection Hst as ->.
  - by apply conserved_stats.
Qed.

Lemma safe_stay K dK dn w (Q : World → Prop) :
  sim_inv sym K w → 0 ≤ dK → 0 ≤ dn → Q w → safe K dK dn w (Some w) Q.
Proof. intros. by apply safe_ret. Qed.

Lemma safe_bind K dK1 dK2 dn1 dn2 w m f (Q R : World → Prop) :
  safe K dK1 dn1 w m Q →
  (∀ w1, sim_keeps sym K dK1 dn1 w w1 → Q w1 → safe (K + dK1) dK2 dn2 w1 (f w1) R) →
  safe K (dK1 + dK2) (dn1 + dn2) w (m ≫= f) R.
Proof.
  intros (w1 & -> & H1 & HQ) Hf. destruct (Hf w1 H1 HQ) as (w2 & E2 & H2 & HR).
  exists w2. split; [done|]. split; [|done]. destruct H1 as [I1 S1 N1 B1 C1], H2 as [I2 S2 N2 B2 C2].
  split; [by rewrite Z.add_assoc|congruence|lia|congruence|auto].
Qed.

Lemma safe_mono K dK dK' dn dn' w m Q :
  dK ≤ dK' → dn ≤ dn' → safe K dK dn w m Q → safe K dK' dn' w m Q.
Proof.
  intros HK Hn (w' & -> & [I S N B C] & HQ). exists w'. split; [done|]. split; [|done].
  split; [eapply sim_inv_mono; [|exact I]; lia|done|lia|done|done].
Qed.

(** ** The agents *)

Lemma send_cancel_spec a oid w K :
  sim_inv sym K w → is_Some (agent_stats a (w_agents w)) →
  ∃ r w', send_cancel sym a oid w = Some (r, w') ∧ sim_keeps sym K 0 0 w w'.
Proof.
  intros [He Ho Hg HK Hm Hl] Hst. unfold send_cancel.
  destruct (count_spec a count_cancel_sent (w_agents w) K) as (A1 & Hu & Hs1 & HK1 & Hb1 & Hl1); try done.
  rewrite Hu. cbn [mbind option_bind].
  destruct (cancel_order_engine_spec sym oid (w_engine w) He) as (r & e' & Hc & Hspec & He' & _ & Hst').
  rewrite Hc. cbn [mbind option_bind]. eexists r, _. split; [done|].
  unfold spec_cancel in Hspec. injection Hspec as _ Hb Ha Hnext.
  split; [split|..]; simpl; rewrite ?(proj1 Hs1), <-?Hnext, ?Z.add_0_r; try done.
  - by apply (same_shape_owners _ _ Hs1).
  - intros buy o Hin. apply (Hm buy). destruct buy; simpl in *;
      [rewrite <-Hb in Hin|rewrite <-Ha in Hin]; by apply list_elem_of_filter in Hin as [_ ?].
  - rewrite Hl1. unfold logged. rewrite Hst'. by destruct r.
  - by apply Hs1.
  - intros (Hall & Ht & Haud). split_and!; simpl.
    + intros buy o Hin. rewrite (proj1 Hs1). apply (Hall buy). destruct buy; simpl in *;
        [rewrite <-Hb in Hin|rewrite <-Ha in Hin]; by apply list_elem_of_filter in Hin as [_ ?].
    + rewrite (update_stats_total _ _ _ _ 0 Hu), Hl1, Ht by (intros; simplify_eq/=; lia). lia.
    + by apply (count_audited a count_cancel_sent (w_agents w)).
Qed.

(** Cancelling the active quote, or none: both blocks of the market maker. *)
Lemma safe_cancel (b : bool) oid f w K (Q : World → Prop) :
  sim_inv sym K w →
  (∀ m, mm_stats (f m) = mm_stats m) → (∀ A, settings (set_maker (f (market_maker_ A)) A) = settings A) →
  (b = false → Q w) →
  (b = true → ∀ r w', send_cancel sym Maker oid w = Some (r, w') → Q (on_maker f w')) →
  safe K 0 0 w (if b then '(_, w) ← send_cancel sym Maker oid w; Some (on_maker f w) else Some w) Q.
Proof.
  intros Hinv Hf Hset Hskip Hdone. destruct b; [|apply safe_stay; auto; done].
  destruct (send_cancel_spec Maker oid w K Hinv) as (r & w1 & Hc & H1); [done|].
  specialize (Hdone eq_refl r w1 Hc). rewrite Hc. cbn [mbind option_bind].
  change (Some (on_maker f w1)) with (Some w1 ≫= λ w1, Some (on_maker f w1)).
  apply (safe_bind K 0 0 0 0 _ _ _ (λ w, w = w1)); [by exists w1|]. intros w2 [I1 S1 N1 B1 C1] ->.
  apply safe_ret; try done; [|apply Hset]. intros [| |i]; simpl; [by rewrite Hf|done..].
Qed.

(** Sending an order with a price that is a number, and a change [g] of the sender that
    is not in its statistics or settings. *)
Lemma safe_send a s t p q (g : OrderId → World → World) w K (Q : World → Prop) :
  sim_inv sym K w → is_Some (agent_stats a (w_agents w)) → t = Market ∨ num p → 0 ≤ q < 2 ^ 32 →
  next_of w + 1 < 2 ^ 64 → K + 2 ^ 33 < 2 ^ 63 → a ≠ Momentum ∨ immediate t = true →
  (∀ oid w, w_engine (g oid w) = w_engine w ∧ same_shape (w_agents w) (w_agents (g oid w)) ∧
     trade_log_ (w_agents (g oid w)) = trade_log_ (w_agents w) ∧
     ∀ a', agent_stats a' (w_agents (g oid w)) = agent_stats a' (w_agents w)) →
  (∀ oid w', sendable sym K w t p q → send_order sym clocks a s t p q w = Some (oid, w') → Q (g oid w')) →
  safe K (2 ^ 33) 1 w ('(oid, w) ← send_order sym clocks a s t p q w; Some (g oid w)) Q.
Proof.
  intros Hinv Ha Hp Hq Hn HK Hne Hg HQ.
  destruct (send_order_spec sym clocks a s t p q w K Hinv Ha) as (oid & w1 & Hs & H1);
    [done|done|exact Hn|lia|done|].
  specialize (HQ oid w1 (conj Hinv (conj (λ _, Hp) (conj Hq Hn))) Hs). rewrite Hs. cbn [mbind option_bind].
  apply (safe_mono _ (2 * q + 0) _ (1 + 0)); [lia..|].
  change (Some (g oid w1)) with (Some w1 ≫= λ w1, Some (g oid w1)).
  apply (safe_bind _ _ _ _ _ _ _ _ (λ w, w = w1)); [by exists w1|]. intros w2 [I1 S1 N1 B1 C1] ->.
  destruct (Hg oid w1) as (He & [Ho Hset] & Hlog & Hst). by apply safe_ret.
Qed.

(** An agent other than the market maker sends. *)
Lemma safe_send_other a s t p q (g : World → World) w K :
  sim_inv sym K w → is_Some (agent_stats a (w_agents w)) → t = Market ∨ num p → 0 ≤ q < 2 ^ 32 →
  next_of w + 1 < 2 ^ 64 → K + 2 ^ 33 < 2 ^ 63 → a ≠ Momentum ∨ immediate t = true → a ≠ Maker →
  (∀ w, ∃ A, g w = mk_world (w_engine w) A (w_calls w) ∧ same_shape (w_agents w) A ∧
     trade_log_ A = trade_log_ (w_agents w) ∧ market_maker_ A = market_maker_ (w_agents w) ∧
     ∀ a', agent_stats a' A = agent_stats a' (w_agents w)) →
  safe K (2 ^ 33) 1 w ('(_, w) ← send_order sym clocks a s t p q w; Some (g w))
    (λ w', maker_inv sym w → maker_inv sym w').
Proof.
  intros Hinv Ha Hp Hq Hn HK Himm Hne Hg.
  apply (safe_send a s t p q (λ _, g)); try done.
  - intros _ w1. destruct (Hg w1) as (A & -> & ? & ? & ? & ?). by split_and!.
  - intros oid w' Hok Hs Hm. destruct (Hg w') as (A & -> & [Ho _] & _ & Hmk & _).
    apply maker_inv_same; rewrite ?Hmk; try done. by eapply others_inv.
Qed.

(** ** The market maker *)

Lemma quote_id_positive K w buy i : sim_inv sym K w → quote_rests sym buy w i → 1 ≤ i.
Proof. intros Hinv [Hi _]. apply (si_given _ _ _ Hinv) in Hi. lia. Qed.

(** The market maker sends its quotes when none of its orders rests. *)
Definition send_quotes (noise : double) (w : World) : option World :=
  let m := market_maker_ (w_agents w) in
  neg_position ← to_long (- t_position (mm_stats m));
  let '(bid_price, ask_price) := quotes neg_position noise m in
  w ← (if t_position (mm_stats m) <? mm_max_position_ m then
         '(oid, w) ← send_order sym clocks Maker Buy Limit bid_price (u32 (quote_size_ m)) w;
         Some (on_maker (set_active_bid oid) w)
       else Some w);
  let m := market_maker_ (w_agents w) in
  if t_position (mm_stats m) >? - mm_max_position_ m then
    '(oid, w) ← send_order sym clocks Maker Sell Limit ask_price (u32 (quote_size_ m)) w;
    Some (on_maker (set_active_ask oid) w)
  else Some w.

Lemma quoting_spec noise w K :
  sim_inv sym K w → settings_ok (w_agents w) → quotes_inv sym (λ _, False) w → finiteb noise = true →
  next_of w + 2 < 2 ^ 64 → K + 2 ^ 34 < 2 ^ 63 →
  safe K (2 ^ 34) 2 w (send_quotes noise w) (maker_inv sym).
Proof.
  intros Hinv Hset HQ Hnoise Hn HK. unfold send_quotes. set (m := market_maker_ (w_agents w)).
  pose proof (si_pos _ _ _ Hinv Maker _ eq_refl) as Hpos. fold m in Hpos.
  rewrite to_long_small by lia. cbn [mbind option_bind].
  destruct (quotes _ noise m) as [bid ask] eqn:Hq.
  pose proof Hset as ((Hsize & Hlimit) & Hf & Hh & Hk & _). fold m in Hsize, Hlimit, Hf, Hh, Hk.
  destruct (quotes_num _ _ _ _ _ Hq) as [Hbid Hask]; try done; [lia|].
  apply (safe_bind K (2 ^ 33) (2 ^ 33) 1 1 _ _ _ (λ w1, quoted sym false w1 = 0 ∧
    quotes_inv sym (λ i, i = active_bid_id_ (market_maker_ (w_agents w1))) w1)).
  - rewrite Hsize, Hlimit. destruct (Z.ltb_spec (t_position (mm_stats m)) 1000).
    + apply (safe_send Maker Buy Limit bid _ (λ oid, on_maker (set_active_bid oid)));
        [done|done|by right|apply u32_range|lia|lia|by left| |].
      * intros oid w'; by split_and!; try done; intros [].
      * intros oid w' Hok Hs. destruct (bid_inv _ _ _ _ _ _ _ _ Hok ltac:(done) HQ ltac:(done) Hs).
        split; [done|by apply quotes_inv_on_maker].
    + apply safe_stay; [done..|]. split; [exact (quoted_none _ _ _ (qi_ids _ _ _ HQ false))|].
      by eapply quotes_inv_mono.
  - intros w1 [I1 S1 N1 B1 C1] [Hz Q1]. cbv zeta.
    assert (settings_ok (w_agents w1)) as ((Hsize1 & Hlimit1) & _) by (by eapply settings_ok_same).
    rewrite Hsize1, Hlimit1, Z.gtb_ltb. change (- (1000)) with (-1000).
    destruct (Z.ltb_spec (-1000) (t_position (mm_stats (market_maker_ (w_agents w1))))).
    + apply (safe_send Maker Sell Limit ask _ (λ oid, on_maker (set_active_ask oid)));
        [done|done|by right|apply u32_range|unfold next_of in *; lia|lia|by left| |].
      * intros oid w'; by split_and!; try done; intros [].
      * intros oid w' Hok Hs.
        destruct (ask_inv _ _ _ _ _ _ _ _ _ Hok ltac:(done) Q1 Hz ltac:(done) Hs) as [Hinv' (st & Hst)].
        apply quotes_inv_on_maker; [done|]. simpl. by rewrite Hst.
    + apply safe_stay; [done..|]. eapply quotes_inv_mono; [exact Q1|]. auto.
Qed.

Lemma maker_spec noise w K :
  sim_inv sym K w → settings_ok (w_agents w) → maker_inv sym w → finiteb noise = true →
  next_of w + 2 < 2 ^ 64 → K + 2 ^ 34 < 2 ^ 63 →
  safe K (2 ^ 34) 2 w (maker_on_tick sym clocks noise w) (maker_inv sym).
Proof.
  intros Hinv Hset Hmk Hnoise Hn HK. unfold maker_on_tick.
  apply (safe_bind K 0 (2 ^ 34) 0 2 _ _ _
    (λ w1, quotes_inv sym (λ i, i = active_ask_id_ (market_maker_ (w_agents w1))) w1)).
  { apply safe_cancel; try done; simpl.
    - intros Hb. eapply quotes_inv_mono; [exact Hmk|]. intros buy i Hi [Hc|?]; [|done].
      pose proof (quote_id_positive _ _ _ _ Hinv Hi). bool_lia.
    - intros _ r w' Hc. destruct (cancel_inv _ _ _ _ _ _ _ (si_engine _ _ _ Hinv) Hmk Hc) as [Hq (st & Hst)].
      apply quotes_inv_on_maker; [done|]. simpl. rewrite Hst. simpl.
      eapply quotes_inv_mono; [exact Hq|]. naive_solver. }
  intros w1 [I1 S1 N1 B1 C1] Q1.
  apply (safe_bind (K + 0) 0 (2 ^ 34) 0 2 _ _ _ (quotes_inv sym (λ _, False))).
  { apply safe_cancel; try done; simpl.
    - intros Hb. eapply quotes_inv_mono; [exact Q1|]. intros buy i Hi Hc. simpl in Hc.
      pose proof (quote_id_positive _ _ _ _ I1 Hi). bool_lia.
    - intros _ r w' Hc. destruct (cancel_inv _ _ _ _ _ _ _ (si_engine _ _ _ I1) Q1 Hc) as [Hq _].
      apply quotes_inv_on_maker; [done|]. eapply quotes_inv_mono; [exact Hq|]. naive_solver. }
  intros w2 [I2 S2 N2 B2 C2] Q2. rewrite !Z.add_0_r in *.
  apply quoting_spec; try done; [|unfold next_of in *; lia].
  by apply (settings_ok_same (w_agents w)); [congruence|].
Qed.

(** ** The other agents *)

Lemma momentum_spec tick w K :
  sim_inv sym K w → next_of w + 1 < 2 ^ 64 → K + 2 ^ 33 < 2 ^ 63 →
  safe K (2 ^ 33) 1 w (momentum_on_tick sym clocks tick w) (λ w', maker_inv sym w → maker_inv sym w').
Proof.
  intros Hinv Hn HK. unfold momentum_on_tick. cbv zeta.
  assert (∀ s, safe K (2 ^ 33) 1 w
    ('(_, w1) ← send_order sym clocks Momentum s Market dzero
                 (u32 (trade_size_ (momentum_trader_ (w_agents w)))) w;
     Some (on_momentum (set_last_trade tick) w1)) (λ w', maker_inv sym w → maker_inv sym w')) as Hsend.
  { intros s. apply safe_send_other; try done; [by left|apply u32_range|by right|].
    intros w1. eexists. split; [done|]. by split_and!; try done; intros []. }
  repeat match goal with |- safe _ _ _ _ (if ?c then _ else _) _ => destruct c end;
    try apply safe_stay; auto; done.
Qed.

Lemma noise_spec i d w K :
  sim_inv sym K w → settings_ok (w_agents w) → (i < 3)%nat → finiteb (d_offset d) = true →
  next_of w + 1 < 2 ^ 64 → K + 2 ^ 33 < 2 ^ 63 →
  safe K (2 ^ 33) 1 w (noise_on_tick sym clocks i d w) (λ w', maker_inv sym w → maker_inv sym w').
Proof.
  intros Hinv Hset Hi Hd Hn HK. unfold noise_on_tick. rewrite <-(settings_ok_noises _ Hset) in Hi.
  apply lookup_lt_is_Some in Hi as [n Hi]. rewrite Hi. cbn [mbind option_bind].
  destruct (dgtb _ _); [by apply safe_stay|].
  assert (is_Some (agent_stats (Noise i) (w_agents w))) as Ha by (simpl; rewrite Hi; done).
  assert (num (reference_price_ n)) as Hr.
  { destruct Hset as (_ & _ & _ & _ & Hr & _). rewrite Forall_fmap in Hr.
    by apply (Forall_lookup_1 _ _ _ _ Hr Hi). }
  assert (∀ w, ∃ A, w = mk_world (w_engine w) A (w_calls w) ∧ same_shape (w_agents w) A ∧
     trade_log_ A = trade_log_ (w_agents w) ∧ market_maker_ A = market_maker_ (w_agents w) ∧
     ∀ a', agent_stats a' A = agent_stats a' (w_agents w)) as Hg.
  { intros [e A n0]. by exists A. }
  destruct (dltb _ _); apply (safe_send_other _ _ _ _ _ (λ w, w)); try done; try apply u32_range;
    [right|by left|by left..].
  destruct (dleb _ _); [done|]. by apply round_cents_num, num_add.
Qed.

Lemma noises_spec n i ds w K :
  sim_inv sym K w → settings_ok (w_agents w) → maker_inv sym w → (i + n ≤ 3)%nat →
  (∀ i, finiteb (d_offset (ds i)) = true) →
  next_of w + Z.of_nat n < 2 ^ 64 → K + 2 ^ 33 * Z.of_nat n < 2 ^ 63 →
  safe K (2 ^ 33 * Z.of_nat n) (Z.of_nat n) w (noises_on_tick sym clocks n i ds w) (maker_inv sym).
Proof.
  intros Hinv Hset Hmk Hi Hds. revert i w K Hinv Hset Hmk Hi.
  induction n as [|n IH]; intros i w K Hinv Hset Hmk Hi Hn HK; [by apply safe_stay|].
  apply (safe_mono _ (2 ^ 33 + 2 ^ 33 * Z.of_nat n) _ (1 + Z.of_nat n)); [lia..|].
  eapply safe_bind; [apply noise_spec; [done|done|lia|done|lia|lia]|]. intros w1 [I1 S1 N1 B1 C1] Hmk1.
  apply IH; [done|by apply (settings_ok_same (w_agents w))|auto|lia|unfold next_of in *; lia|lia].
Qed.

(** ** A tick *)

(** The state of the loop: the invariant, at most [n] as the next identifier, and prices
    that are numbers. *)
Record loop_inv (K n : Z) (x : World * double) : Prop := {
  li_inv : sim_inv sym K x.1;
  li_next : next_of x.1 ≤ n;
  li_settings : settings_ok (w_agents x.1);
  li_maker : maker_inv sym x.1;
  li_price : num x.2;
  li_conserved : conserved sym x.1;
}.

(** The price of the next tick. *)
Definition next_price (d : TickDraws) (p : double) : double :=
  dmax (dmul p (dadd (dofZ 1) (d_return d))) (dlit 1 2).

Lemma next_price_num d p : draws_ok d → num p → num (next_price d p).
Proof. intros (Hd & _) Hp. by apply num_max; [apply num_mul|]. Qed.

(** What [sim_tick] sets before the agents act. *)
Definition set_prices (tick : Z) (p : double) (w : World) : World :=
  let w := on_maker (set_fair_value p) w in
  let w := mk_world (w_engine w)
             (set_noises (set_reference_price p <$> noise_traders_ (w_agents w)) (w_agents w))
             (w_calls w) in
  if tick =? 0 then on_momentum (update_price p) w else w.

Lemma set_prices_same tick p w :
  w_engine (set_prices tick p w) = w_engine w ∧
  order_owner_ (w_agents (set_prices tick p w)) = order_owner_ (w_agents w) ∧
  trade_log_ (w_agents (set_prices tick p w)) = trade_log_ (w_agents w) ∧
  market_maker_ (w_agents (set_prices tick p w)) = set_fair_value p (market_maker_ (w_agents w)) ∧
  ∀ a, agent_stats a (w_agents (set_prices tick p w)) = agent_stats a (w_agents w).
Proof.
  unfold set_prices. destruct (tick =? 0); split_and!; try done;
    intros [| |i]; try done; simpl; rewrite list_lookup_fmap; by destruct (_ !! _).
Qed.

Lemma set_prices_settings tick p w :
  settings_ok (w_agents w) → num p → settings_ok (w_agents (set_prices tick p w)).
Proof.
  intros (Hm & Hf & Hh & Hs & Hr & Hlen) Hp. rewrite length_fmap in Hlen.
  unfold set_prices. destruct (tick =? 0); split_and!; try done; try apply Hm; simpl;
    by rewrite <-list_fmap_compose, ?length_fmap, ?Forall_fmap; try apply Forall_true.
Qed.

Lemma agents_spec d tick w K :
  sim_inv sym K w → settings_ok (w_agents w) → maker_inv sym w → draws_ok d →
  next_of w + 6 < 2 ^ 64 → K + 2 ^ 36 < 2 ^ 63 →
  safe K (2 ^ 36) 6 w
    (w ← maker_on_tick sym clocks (d_maker d) w;
     w ← momentum_on_tick sym clocks tick w;
     noises_on_tick sym clocks (length (noise_traders_ (w_agents w))) 0 (d_noises d) w)
    (maker_inv sym).
Proof.
  intros Hinv Hset Hmk (_ & Hm & Hd) Hn HK. unfold next_of in *.
  apply (safe_mono _ (2 ^ 34 + (2 ^ 33 + 2 ^ 33 * 3)) _ (2 + (1 + 3))); [lia..|].
  eapply safe_bind; [apply maker_spec; unfold next_of; try done; lia|]. intros w1 [I1 S1 N1 B1 C1] Q1.
  eapply safe_bind; [apply momentum_spec; [done|unfold next_of; lia|lia]|]. intros w2 [I2 S2 N2 B2 C2] Q2.
  assert (settings_ok (w_agents w2)) as Hset2 by (by apply (settings_ok_same (w_agents w)); [congruence|]).
  rewrite settings_ok_noises by done. apply (noises_spec 3); [done|done|auto|lia|done|..];
    unfold next_of; lia.
Qed.

Lemma sim_tick_eq num_ticks tick d w p :
  sim_tick sym clocks num_ticks tick d (w, p) =
  (w ← (w ← maker_on_tick sym clocks (d_maker d) (set_prices tick (next_price d p) w);
        w ← momentum_on_tick sym clocks tick w;
        noises_on_tick sym clocks (length (noise_traders_ (w_agents w))) 0 (d_noises d) w);
   if (tick >? 0) && (num_ticks / 10 =? 0) then None else Some (w, next_price d p)).
Proof.
  unfold sim_tick. fold (next_price d p). cbv zeta. fold (set_prices tick (next_price d p) w).
  destruct (maker_on_tick _ _ _ _) as [w1|]; [|done]. cbn [mbind option_bind].
  by destruct (momentum_on_tick _ _ _ _).
Qed.

Lemma tick_spec num_ticks tick d x K n :
  loop_inv K n x → draws_ok d → n + 6 < 2 ^ 64 → K + 2 ^ 36 < 2 ^ 63 →
  (0 < tick → num_ticks / 10 ≠ 0) →
  ∃ w', sim_tick sym clocks num_ticks tick d x = Some (w', next_price d x.2) ∧
    loop_inv (K + 2 ^ 36) (n + 6) (w', next_price d x.2) ∧
    booked (mo_stats (momentum_trader_ (w_agents w'))) =
      booked (mo_stats (momentum_trader_ (w_agents x.1))).
Proof.
  destruct x as [w p]. intros [Hinv Hnext Hset Hmk Hp Hc] Hd Hn HK Hdiv. rewrite sim_tick_eq.
  simpl in Hinv, Hnext, Hset, Hmk, Hp, Hc |- *.
  pose proof (next_price_num d p Hd Hp) as Hp'.
  pose proof (set_prices_settings tick (next_price d p) w Hset Hp') as Hset0.
  destruct (set_prices_same tick (next_price d p) w) as (He & Ho & Hlog & Hmm & Hst).
  destruct (set_prices tick (next_price d p) w) as [e0 A0 n0]. simpl in He, Ho, Hlog, Hmm, Hst, Hset0. subst e0.
  destruct (agents_spec d tick (mk_world (w_engine w) A0 n0) K) as (w' & Hw & [I S N B C] & Q); try done.
  { by apply sim_inv_stats. } { by apply maker_inv_same; rewrite ?Hmm. } { unfold next_of in *. simpl. lia. }
  rewrite Hw. cbn [mbind option_bind].
  assert ((tick >? 0) && (num_ticks / 10 =? 0) = false) as -> by bool_lia.
  eexists. split; [done|]. split.
  - split; simpl; [done|unfold next_of in *; simpl in N; lia|by eapply settings_ok_same|done|done|].
    by apply C, conserved_stats.
  - rewrite B. specialize (Hst Momentum). simpl in Hst |- *. by injection Hst as ->.
Qed.

(** ** The loop *)

Lemma loop_spec rounds num_ticks tick draws x K n :
  loop_inv K n x → (∀ t, draws_ok (draws t)) →
  n + 6 * Z.of_nat rounds < 2 ^ 64 → K + 2 ^ 36 * Z.of_nat rounds < 2 ^ 63 → 0 ≤ tick →
  (1 < tick + Z.of_nat rounds → num_ticks / 10 ≠ 0) →
  ∃ x', sim_loop sym clocks rounds num_ticks tick draws x = Some x' ∧
    loop_inv (K + 2 ^ 36 * Z.of_nat rounds) (n + 6 * Z.of_nat rounds) x' ∧
    booked (mo_stats (momentum_trader_ (w_agents x'.1))) =
      booked (mo_stats (momentum_trader_ (w_agents x.1))).
Proof.
  intros Hx Hd. revert tick x K n Hx.
  induction rounds as [|rounds IH]; intros tick x K n Hx Hn HK Ht Hdiv; cbn [sim_loop].
  { exists x. by rewrite !Z.mul_0_r, !Z.add_0_r. }
  destruct (tick_spec num_ticks tick (draws tick) x K n Hx (Hd tick)) as (w1 & H1 & I1 & B1); [lia..|].
  rewrite H1. cbn [mbind option_bind].
  destruct (IH (tick + 1) _ _ _ I1) as (x' & H2 & I2 & B2); [lia..|].
  exists x'. split; [done|]. split; [|by rewrite B2].
  replace (K + 2 ^ 36 * Z.of_nat (S rounds)) with (K + 2 ^ 36 + 2 ^ 36 * Z.of_nat rounds) by lia.
  by replace (n + 6 * Z.of_nat (S rounds)) with (n + 6 + 6 * Z.of_nat rounds) by lia.
Qed.

Lemma start_inv initial_price :
  num initial_price → loop_inv 0 1 (Simulation_new initial_price).
Proof.
  intros Hp. split; [apply Simulation_new_inv|done| | |done|]; [split; [done|]| |]; cycle 1.
  { split; [by vm_compute..|]. intros [] i [_ H]; by apply not_elem_of_nil in H. }
  { split; [intros [] o H; by apply not_elem_of_nil in H|]. split; [done|]. split; [constructor|].
    by intros [| |[|[|[|i]]]] st H; simpl in H; simplify_eq. }
  split; [exact Hp|]. split; [by vm_compute|]. split; [by vm_compute|].
  split; [by repeat constructor|done].
Qed.

(** After the first tick, a run of fewer than ten ticks has no progress to report by. *)
Lemma tick_divides_by_zero num_ticks tick d x :
  0 < tick → 0 ≤ num_ticks < 10 → sim_tick sym clocks num_ticks tick d x = None.
Proof.
  intros Ht Hn. destruct x as [w p]. rewrite sim_tick_eq, Z.div_small by done.
  rewrite (proj2 (Z.gtb_lt tick 0)) by done. by destruct (maker_on_tick _ _ _ _ ≫= _).
Qed.

Lemma short_run_undefined initial_price num_ticks draws :
  2 ≤ num_ticks < 10 → sim_run sym clocks initial_price num_ticks draws = None.
Proof.
  intros Hn. unfold sim_run.
  replace (Z.to_nat num_ticks) with (S (S (Z.to_nat (num_ticks - 2)))) by lia.
  cbn [sim_loop]. destruct (sim_tick _ _ _ _ _ _) as [x1|]; [|done]. cbn [mbind option_bind].
  by rewrite tick_divides_by_zero by lia.
Qed.

Lemma run_spec initial_price num_ticks draws :
  num initial_price → (∀ t, draws_ok (draws t)) → 0 ≤ num_ticks ≤ 2 ^ 26 → ¬ 2 ≤ num_ticks < 10 →
  ∃ x, sim_run sym clocks initial_price num_ticks draws = Some x ∧
    loop_inv (2 ^ 36 * num_ticks) (1 + 6 * num_ticks) x ∧
    booked (mo_stats (momentum_trader_ (w_agents x.1))) = (0, default_starting_cash, 0).
Proof.
  intros Hp Hd Hn Hshort. unfold sim_run.
  destruct (loop_spec (Z.to_nat num_ticks) num_ticks 0 draws (Simulation_new initial_price) 0 1)
    as (x & Hx & Hinv & Hb); [by apply start_inv|done|lia|lia|lia| |].
  - rewrite Z2Nat.id by lia. intros H. assert (1 ≤ num_ticks / 10); [|lia].
    apply Z.div_le_lower_bound; lia.
  - rewrite Z2Nat.id, Z.add_0_l in Hinv by lia. eauto.
Qed.

(** The simulation runs to its end exactly when it is not asked for two to nine
    ticks, whatever was drawn: no step of the engine or of an agent is undefined, every
    price the agents send is a number and no position overflows.  A run of two to nine
    ticks divides by zero in the test for its progress report. *)
Theorem simulation_defined initial_price num_ticks draws :
  num initial_price → (∀ t, draws_ok (draws t)) → 0 ≤ num_ticks ≤ 2 ^ 26 →
  is_Some (sim_run sym clocks initial_price num_ticks draws) ↔ ¬ 2 ≤ num_ticks < 10.
Proof.
  intros Hp Hd Hn. split.
  - intros [x Hx] Hshort. by rewrite short_run_undefined in Hx.
  - intros Hshort. destruct (run_spec initial_price num_ticks draws) as (x & -> & _); eauto.
Qed.

(** What holds of a run that ended. *)
Lemma run_ended initial_price num_ticks draws x :
  num initial_price → (∀ t, draws_ok (draws t)) → 0 ≤ num_ticks ≤ 2 ^ 26 →
  sim_run sym clocks initial_price num_ticks draws = Some x →
  loop_inv (2 ^ 36 * num_ticks) (1 + 6 * num_ticks) x ∧
  booked (mo_stats (momentum_trader_ (w_agents x.1))) = (0, default_starting_cash, 0).
Proof.
  intros Hp Hd Hn Hx. destruct (decide (2 ≤ num_ticks < 10)) as [Hs|Hs].
  { by rewrite short_run_undefined in Hx. }
  destruct (run_spec initial_price num_ticks draws Hp Hd Hn Hs) as (x' & Hx' & ?). by simplify_eq.
Qed.

(** The price after a tick is at least a cent. *)
Lemma next_price_floor d p : draws_ok d → num p → dleb (dlit 1 2) (next_price d p) = true.
Proof.
  intros Hd Hp. rewrite dleb_ltb; [|done|by apply next_price_num]. apply negb_true_iff.
  unfold next_price, dmax. destruct (dltb (dmul _ _) _) eqn:E; [|done]. apply swo_irrefl.
Qed.

Lemma loop_price rounds num_ticks tick draws x x' :
  (∀ t, draws_ok (draws t)) → num x.2 → (0 < rounds)%nat →
  sim_loop sym clocks rounds num_ticks tick draws x = Some x' → dleb (dlit 1 2) x'.2 = true.
Proof.
  intros Hd. revert tick x. induction rounds as [|rounds IH]; intros tick [w p] Hp Hr Hx; [lia|].
  cbn [sim_loop] in Hx. apply bind_Some in Hx as (x1 & Hx1 & Hx). rewrite sim_tick_eq in Hx1.
  apply bind_Some in Hx1 as (w1 & _ & Hx1). destruct (_ && _); [done|]. injection Hx1 as <-.
  destruct rounds as [|rounds].
  - cbn [sim_loop] in Hx. injection Hx as <-. by apply next_price_floor.
  - apply (IH (tick + 1) (w1, next_price (draws tick) p)); [by apply next_price_num|lia|done].
Qed.

(** The momentum trader acts on every tick without undefined behaviour, but the
    fills of its orders are never booked to it: the owner of an order is registered
    only after [submit_order] returns, when the trades of a market order are over, so
    its position, its cash and its count of fills stay as they are, and the invariant
    that makes this hold forever is kept. *)
Theorem momentum_fills_never_booked tick w K :
  sim_inv sym K w → next_order_id_ (book_of sym (w_engine w)) + 1 < 2 ^ 64 → K + 2 ^ 33 < 2 ^ 63 →
  ∃ w', momentum_on_tick sym clocks tick w = Some w' ∧ sim_inv sym (K + 2 ^ 33) w' ∧
    booked (mo_stats (momentum_trader_ (w_agents w'))) =
      booked (mo_stats (momentum_trader_ (w_agents w))).
Proof.
  intros Hinv Hn HK. destruct (momentum_spec tick w K Hinv Hn HK) as (w' & Hw & [] & _). eauto.
Qed.

(** At the end of a run, whatever was drawn, the books of the momentum trader show
    no fill, the position 0 and the cash it started with: that is what its result
    reports, although its orders trade. *)
Theorem momentum_result initial_price num_ticks draws wall_sec x :
  num initial_price → (∀ t, draws_ok (draws t)) → 0 ≤ num_ticks ≤ 2 ^ 26 →
  sim_run sym clocks initial_price num_ticks draws = Some x →
  ∃ r, r_trader_results (sim_results initial_price num_ticks wall_sec x) !! 1%nat = Some r ∧
    tr_name r = "MomentumTrader"%string ∧ tr_final_position r = 0 ∧ tr_fills_received r = 0 ∧
    t_cash (mo_stats (momentum_trader_ (w_agents x.1))) = default_starting_cash.
Proof.
  intros Hp Hd Hn Hx. destruct (run_ended _ _ _ _ Hp Hd Hn Hx) as [_ Hb].
  destruct x as [w p]. eexists. split; [done|]. injection Hb as ? ? ?. by split_and!.
Qed.

(** C35: the results of a run are consistent: the counts of trades and of shares traded
    are those of the trade log, modulo 2^64, the book is left uncrossed, and a run of at
    least one tick ends at a price of at least one cent. *)
Theorem simulation_results initial_price num_ticks draws wall_sec x :
  num initial_price → (∀ t, draws_ok (draws t)) → 0 ≤ num_ticks ≤ 2 ^ 26 →
  sim_run sym clocks initial_price num_ticks draws = Some x →
  let res := sim_results initial_price num_ticks wall_sec x in
  r_total_trades res = u64 (Z.of_nat (length (trade_log_ (w_agents x.1)))) ∧
  r_total_volume res = u64 (filled_by (trade_log_ (w_agents x.1))) ∧
  uncrossed (market (book_of sym (w_engine x.1))) ∧
  (1 ≤ num_ticks → dleb (dlit 1 2) (r_final_price res) = true).
Proof.
  intros Hp Hd Hn Hx. destruct (run_ended _ _ _ _ Hp Hd Hn Hx) as [[Hinv _ _ _ _ _] _].
  destruct Hinv as [He _ _ _ _ [Ht Hv]]. destruct (book_of_ok (w_engine x.1) sym He) as [Hok _].
  destruct x as [w p]. split_and!; [done|done|apply (ok_uncrossed _ Hok)|].
  intros H1. eapply (loop_price _ _ _ _ _ (w, p)); [exact Hd| | |exact Hx]; [done|lia].
Qed.

(** C36: whatever was drawn, the market maker ends a run with at most 1099 shares, long or
    short: it stops quoting a side at 1000, and the hundred shares of a quote sent below
    that may still be filled. *)
Theorem maker_position_bounded initial_price num_ticks draws wall_sec x :
  num initial_price → (∀ t, draws_ok (draws t)) → 0 ≤ num_ticks ≤ 2 ^ 26 →
  sim_run sym clocks initial_price num_ticks draws = Some x →
  ∃ r, r_trader_results (sim_results initial_price num_ticks wall_sec x) !! 0%nat = Some r ∧
    tr_name r = "MarketMaker"%string ∧ -1099 ≤ tr_final_position r ≤ 1099.
Proof.
  intros Hp Hd Hn Hx. destruct (run_ended _ _ _ _ Hp Hd Hn Hx) as [[Hinv _ _ Hmk _ _] _].
  destruct x as [w p]. eexists. split; [done|]. split; [done|]. destruct Hmk as [Hb Ha _].
  pose proof (quoted_nonneg sym true w (si_engine _ _ _ Hinv)).
  pose proof (quoted_nonneg sym false w (si_engine _ _ _ Hinv)).
  unfold maker_position in *. simpl in *. lia.
Qed.

Lemma result_positions initial_price num_ticks wall_sec x :
  sum_list_Z (tr_final_position <$> r_trader_results (sim_results initial_price num_ticks wall_sec x)) =
  total_position (w_agents x.1).
Proof.
  destruct x as [w p]. unfold total_position. csimpl. rewrite <-!list_fmap_compose. simpl.
  rewrite Z.add_assoc. done.
Qed.

(** The results of agents whose books were audited. *)
Lemma audited_results initial_price num_ticks wall_sec x :
  let A := w_agents x.1 in
  let results := r_trader_results (sim_results initial_price num_ticks wall_sec x) in
  let audits := (λ a, audit (order_owner_ A) a (trade_log_ A)) <$> [Maker; Momentum; Noise 0; Noise 1; Noise 2] in
  length (noise_traders_ A) = 3%nat → audited A →
  (λ r, (tr_final_position r, tr_fills_received r)) <$> results = (λ b, (b.1.1, b.2)) <$> audits ∧
  (tr_pnl <$> results) =
    (λ b, dadd (dsub b.1.2 default_starting_cash) (dmul (dofZ b.1.1) x.2)) <$> audits.
Proof.
  intros A results audits Hlen [_ Haud]. destruct x as [w p]. simpl in A, audits.
  destruct (noise_traders_ A) as [|n0 [|n1 [|n2 [|]]]] eqn:Hns; try done. unfold results. simpl. fold A. rewrite Hns.
  pose proof (Haud Maker _ eq_refl) as [= Hm Hmc]. pose proof (Haud Momentum _ eq_refl) as [= Ho Hoc].
  assert (∀ i n, noise_traders_ A !! i = Some n → account (no_stats n) =
    (audit (order_owner_ A) (Noise i) (trade_log_ A), default_starting_cash)) as Hn.
  { intros i n Hi. apply Haud. simpl. by rewrite Hi. }
  rewrite Hns in Hn. pose proof (Hn 0%nat n0 eq_refl) as [= H0 H0c]. pose proof (Hn 1%nat n1 eq_refl) as [= H1 H1c].
  pose proof (Hn 2%nat n2 eq_refl) as [= H2 H2c]. unfold audits. simpl. unfold calculate_pnl.
  rewrite Hmc, Hoc, H0c, H1c, H2c, <-Hm, <-Ho, <-H0, <-H1, <-H2. done.
Qed.

(** C33: the books of a run can be audited, whatever was drawn.  The position, the cash and
    the fills of each of the five agents are, to the last bit, what is recomputed from the
    log of trades and the owners of the orders: of every trade, the leg of the order that
    rested, booked to the agent that owns it, in the order of the log; the results report
    them.  The leg of the incoming order is booked to nobody, so the positions add up not
    to zero but to what the resting orders bought less what they sold.  Every order that
    rests at the end has an owner. *)
Theorem books_audited initial_price num_ticks draws wall_sec x :
  num initial_price → (∀ t, draws_ok (draws t)) → 0 ≤ num_ticks ≤ 2 ^ 26 →
  sim_run sym clocks initial_price num_ticks draws = Some x →
  let A := w_agents x.1 in
  let results := r_trader_results (sim_results initial_price num_ticks wall_sec x) in
  let audits := (λ a, audit (order_owner_ A) a (trade_log_ A)) <$> [Maker; Momentum; Noise 0; Noise 1; Noise 2] in
  (λ r, (tr_final_position r, tr_fills_received r)) <$> results = (λ b, (b.1.1, b.2)) <$> audits ∧
  (tr_pnl <$> results) =
    (λ b, dadd (dsub b.1.2 default_starting_cash) (dmul (dofZ b.1.1) x.2)) <$> audits ∧
  sum_list_Z (tr_final_position <$> results) = sum_list_Z (resting_leg <$> trade_log_ A) ∧
  (∀ buy o, o ∈ side_orders buy (book_of sym (w_engine x.1)) → is_Some (order_owner_ A !! id o)).
Proof.
  intros Hp Hd Hn Hx A results audits.
  destruct (run_ended _ _ _ _ Hp Hd Hn Hx) as [[_ _ Hset _ _ (Hall & Ht & Haud)] _].
  destruct (audited_results initial_price num_ticks wall_sec x (settings_ok_noises _ Hset) Haud) as [H1 H2].
  split_and!; [exact H1|exact H2| |exact Hall]. unfold results. by rewrite result_positions.
Qed.
End run.

(** ** Runs *)

(** Draws under which everybody trades: the price climbs by a hundredth each tick, the
    noise traders sell and buy at the market in turn. *)
Definition lively (t : Z) : TickDraws :=
  mk_draws (dlit 1 2) dzero (λ i, mk_noise_draws (dlit 1 1) (Z.of_nat i mod 2) 4 (dofZ 1) dzero).

Lemma lively_ok t : draws_ok (lively t).
Proof. by split_and!. Qed.

Lemma simulation_defined_witness :
  is_Some (sim_run "AAPL" sim_clocks (dofZ 150) 25 lively) ↔ ¬ 2 ≤ 25 < 10.
Proof. apply simulation_defined; [done|exact lively_ok|lia]. Defined.

(** What a run of 25 ticks left: the trades, the orders that the momentum trader sent,
    and its position and fills. *)
Definition lively_summary (x : World * double) : Z * Z * Z * Z :=
  let m := mo_stats (momentum_trader_ (w_agents x.1)) in
  (Z.of_nat (length (trade_log_ (w_agents x.1))), t_orders_sent m, t_position m, t_fills_received m).

Example lively_run :
  lively_summary <$> sim_run "AAPL" sim_clocks (dofZ 150) 25 lively = Some (77, 4, 0, 0).
Proof. vm_compute. reflexivity. Qed.

Lemma momentum_result_witness :
  ∃ x r, sim_run "AAPL" sim_clocks (dofZ 150) 25 lively = Some x ∧
    r_trader_results (sim_results (dofZ 150) 25 dzero x) !! 1%nat = Some r ∧
    tr_name r = "MomentumTrader"%string ∧ tr_final_position r = 0 ∧ tr_fills_received r = 0 ∧
    t_cash (mo_stats (momentum_trader_ (w_agents x.1))) = default_starting_cash.
Proof.
  pose proof lively_run as Hrun.
  destruct (sim_run "AAPL" sim_clocks (dofZ 150) 25 lively) as [x|] eqn:Hx; [|done].
  destruct (momentum_result "AAPL" sim_clocks (dofZ 150) 25 lively dzero x) as (r & Hr);
    [done|exact lively_ok|lia|exact Hx|]. exists x, r. split; [reflexivity|exact Hr].
Defined.

Lemma simulation_results_witness :
  ∃ x, sim_run "AAPL" sim_clocks (dofZ 150) 25 lively = Some x ∧
    let res := sim_results (dofZ 150) 25 dzero x in
    r_total_trades res = u64 (Z.of_nat (length (trade_log_ (w_agents x.1)))) ∧
    r_total_volume res = u64 (filled_by (trade_log_ (w_agents x.1))) ∧
    uncrossed (market (book_of "AAPL" (w_engine x.1))) ∧
    (1 ≤ 25 → dleb (dlit 1 2) (r_final_price res) = true).
Proof.
  pose proof lively_run as Hrun.
  destruct (sim_run "AAPL" sim_clocks (dofZ 150) 25 lively) as [x|] eqn:Hx; [|done].
  exists x. split; [reflexivity|].
  apply (simulation_results "AAPL" sim_clocks (dofZ 150) 25 lively dzero x);
    [done|exact lively_ok|lia|exact Hx].
Defined.

Lemma momentum_fills_never_booked_witness :
  ∃ w', momentum_on_tick "AAPL" (λ i n, Z.of_nat (i + n)) 7 busy = Some w' ∧
    sim_inv "AAPL" (0 + 2 ^ 33) w' ∧
    booked (mo_stats (momentum_trader_ (w_agents w'))) =
      booked (mo_stats (momentum_trader_ (w_agents busy))).
Proof.
  apply momentum_fills_never_booked;
    [exact busy_inv|change (w_engine busy) with demo; rewrite demo_next_id; reflexivity|lia].
Defined.

(** The positions of that run, their sum, and the legs of the trades that rested. *)
Definition lively_shares (x : World * double) : list Z * Z :=
  (tr_final_position <$> r_trader_results (sim_results (dofZ 150) 25 dzero x),
   sum_list_Z (resting_leg <$> trade_log_ (w_agents x.1))).

Example lively_shares_run :
  lively_shares <$> sim_run "AAPL" sim_clocks (dofZ 150) 25 lively = Some ([-1000; 0; 0; 0; 0], -1000).
Proof. vm_compute. reflexivity. Qed.

Lemma books_audited_witness :
  ∃ x, sim_run "AAPL" sim_clocks (dofZ 150) 25 lively = Some x ∧
    let A := w_agents x.1 in
    let results := r_trader_results (sim_results (dofZ 150) 25 dzero x) in
    let audits := (λ a, audit (order_owner_ A) a (trade_log_ A)) <$> [Maker; Momentum; Noise 0; Noise 1; Noise 2] in
    (λ r, (tr_final_position r, tr_fills_received r)) <$> results = (λ b, (b.1.1, b.2)) <$> audits ∧
    (tr_pnl <$> results) =
      (λ b, dadd (dsub b.1.2 default_starting_cash) (dmul (dofZ b.1.1) x.2)) <$> audits ∧
    sum_list_Z (tr_final_position <$> results) = sum_list_Z (resting_leg <$> trade_log_ A) ∧
    (∀ buy o, o ∈ side_orders buy (book_of "AAPL" (w_engine x.1)) → is_Some (order_owner_ A !! id o)).
Proof.
  pose proof lively_run as Hrun.
  destruct (sim_run "AAPL" sim_clocks (dofZ 150) 25 lively) as [x|] eqn:Hx; [|done].
  exists x. split; [reflexivity|].
  apply (books_audited "AAPL" sim_clocks (dofZ 150) 25 lively dzero x);
    [done|exact lively_ok|lia|exact Hx].
Defined.

Lemma maker_position_bounded_witness :
  ∃ x r, sim_run "AAPL" sim_clocks (dofZ 150) 25 lively = Some x ∧
    r_trader_results (sim_results (dofZ 150) 25 dzero x) !! 0%nat = Some r ∧
    tr_name r = "MarketMaker"%string ∧ -1099 ≤ tr_final_position r ≤ 1099.
Proof.
  pose proof lively_run as Hrun.
  destruct (sim_run "AAPL" sim_clocks (dofZ 150) 25 lively) as [x|] eqn:Hx; [|done].
  destruct (maker_position_bounded "AAPL" sim_clocks (dofZ 150) 25 lively dzero x) as (r & Hr);
    [done|exact lively_ok|lia|exact Hx|]. exists x, r. split; [reflexivity|exact Hr].
Defined.

(** A run in which the noise traders sell sixty shares a tick: the market maker buys and
    ends above the limit of 1000 that it is never to exceed. *)
Definition sellers (t : Z) : TickDraws :=
  mk_draws dzero dzero (λ _, mk_noise_draws (dlit 1 1) 1 2 (dofZ 1) dzero).

Example sellers_run :
  (λ x, maker_position x.1) <$> sim_run "AAPL" sim_clocks (dofZ 150) 20 sellers = Some 1040.
Proof. vm_compute. reflexivity. Qed.
