(* ===== verification/SimKept.v ===== *)
(** Invariants of the agents.

    Everything an agent does comes down to a few changes of the agents: counting an
    order, the trade callback, the registration of an order, and assignments to its own
    fields.  A predicate that these keep holds throughout a run, whatever is drawn and
    however often a step is undefined. *)

From stdpp Require Import base list gmap strings.
From Stdlib Require Import ZArith Lia.
From S2P Require Import Prelude Machine Types OrderBook MatchingEngine EngineSpec Exchange.
From S2P Require Import Simulation SimBooks SimProps SimMaker SimRun.

Open Scope Z_scope.

(** What the predicate has to survive, when the agents in [P] act. *)
Class AgentInvariant (P : agent → Prop) (I : Agents → Prop) : Prop := {
  ai_count a f A A' : P a → update_stats a (λ st, Some (f st)) A = Some A' → I A → I A';
  ai_callback t A A' : sim_trade_callback t (Some A) = Some A' → I A → I A';
  ai_register oid a A : I A → I (register_order oid a A);
  ai_maker m A : I A → I (set_maker m A);
  ai_last_trade tick A : P Momentum → I A → I (set_momentum (set_last_trade tick (momentum_trader_ A)) A);
}.

(** A step that, where it is defined, keeps it. *)
Definition keeps (I : Agents → Prop) (w : World) (m : option World) : Prop :=
  ∀ w', m = Some w' → I (w_agents w) → I (w_agents w').

Section kept.
Context (P : agent → Prop) (I : Agents → Prop) `{!AgentInvariant P I}.
Context (sym : string) (clocks : nat → nat → Timestamp).

Lemma keeps_bind w m f : keeps I w m → (∀ w1, keeps I w1 (f w1)) → keeps I w (m ≫= f).
Proof. intros Hm Hf w' (w1 & H1 & H2)%bind_Some HI. eapply Hf; [exact H2|]. by eapply Hm. Qed.

Lemma keeps_ret w w' : (I (w_agents w) → I (w_agents w')) → keeps I w (Some w').
Proof. intros H w1 [= <-]. exact H. Qed.

Lemma keeps_stay w : keeps I w (Some w).
Proof. by apply keeps_ret. Qed.

Lemma callbacks_keep ts A A' :
  notify_all (Some sim_trade_callback) ts (Some A) = Some A' → I A → I A'.
Proof.
  unfold notify_all. revert A. induction ts as [|t ts IH]; intros A H HI; cbn [foldl] in H; [by simplify_eq|].
  destruct (sim_trade_callback t (Some A)) as [A1|] eqn:H1; [apply (IH A1 H); by eapply ai_callback|].
  exfalso. clear IH H1. induction ts; [done|auto].
Qed.

Lemma send_order_keeps a s t p q (g : OrderId → World → World) w :
  P a → (∀ oid w, I (w_agents w) → I (w_agents (g oid w))) →
  keeps I w ('(oid, w) ← send_order sym clocks a s t p q w; Some (g oid w)).
Proof.
  intros Ha Hg w' ([oid w1] & Hs & [= <-])%bind_Some HI. apply Hg. unfold send_order in Hs.
  apply bind_Some in Hs as (A & HA & Hs). rewrite submit_order_callback in Hs.
  destruct (submit_order _ _ _ _ _ _ _ _ _) as [[[oid1 e] ts]|]; [|done]. cbn [mbind option_bind] in Hs.
  apply bind_Some in Hs as (A1 & HA1 & [= <- <-]). simpl.
  assert (I A1) as HI1 by (eapply callbacks_keep; [exact HA1|by eapply ai_count]).
  destruct (oid1 >? 0); [by apply ai_register|done].
Qed.

Lemma send_cancel_keeps a oid (g : World → World) w :
  P a → (∀ w, I (w_agents w) → I (w_agents (g w))) →
  keeps I w ('(_, w) ← send_cancel sym a oid w; Some (g w)).
Proof.
  intros Ha Hg w' ([r w1] & Hs & [= <-])%bind_Some HI. apply Hg. unfold send_cancel in Hs.
  apply bind_Some in Hs as (A & HA & Hs). apply bind_Some in Hs as ([r1 e] & _ & [= <- <-]).
  by eapply ai_count.
Qed.

Lemma maker_keeps noise w : P Maker → keeps I w (maker_on_tick sym clocks noise w).
Proof.
  intros HP. assert (∀ f w, I (w_agents w) → I (w_agents (on_maker f w))) as Hm by (intros; by apply ai_maker).
  unfold maker_on_tick. apply keeps_bind.
  { destruct (_ >? 0); [|apply keeps_stay]. apply (send_cancel_keeps _ _ (on_maker (set_active_bid 0))); auto. }
  intros w1. apply keeps_bind.
  { destruct (_ >? 0); [|apply keeps_stay]. apply (send_cancel_keeps _ _ (on_maker (set_active_ask 0))); auto. }
  intros w2. destruct (to_long _); [|done]. cbn [mbind option_bind]. destruct (quotes _ _ _) as [bid ask].
  apply keeps_bind.
  { destruct (_ <? _); [|apply keeps_stay].
    by apply (send_order_keeps _ _ _ _ _ (λ oid, on_maker (set_active_bid oid))); auto. }
  intros w3. destruct (_ >? _); [|apply keeps_stay].
  by apply (send_order_keeps _ _ _ _ _ (λ oid, on_maker (set_active_ask oid))); auto.
Qed.

Lemma momentum_keeps tick w : P Momentum → keeps I w (momentum_on_tick sym clocks tick w).
Proof.
  intros HP. unfold momentum_on_tick. repeat case_match; try apply keeps_stay;
    (apply (send_order_keeps _ _ _ _ _ (λ _, on_momentum (set_last_trade tick))); [done|]);
    intros _ w1; by apply ai_last_trade.
Qed.

Lemma noise_keeps i d w : P (Noise i) → keeps I w (noise_on_tick sym clocks i d w).
Proof.
  intros HP. unfold noise_on_tick. destruct (_ !! i); [|done]. cbn [mbind option_bind].
  repeat case_match; try apply keeps_stay; by apply (send_order_keeps _ _ _ _ _ (λ _ w, w)).
Qed.

Lemma noises_keep n i ds w : (∀ i, P (Noise i)) → keeps I w (noises_on_tick sym clocks n i ds w).
Proof.
  intros HP. revert i w. induction n as [|n IH]; intros i w; [apply keeps_stay|]. cbn [noises_on_tick].
  apply keeps_bind; [by apply noise_keeps|]. intros w1. apply IH.
Qed.

End kept.

(** A tick is the steps of the agents, one after the other. *)
Lemma sim_tick_inv sym clocks num_ticks tick d w p w' p' :
  sim_tick sym clocks num_ticks tick d (w, p) = Some (w', p') →
  p' = next_price d p ∧ ∃ w1 w2,
    maker_on_tick sym clocks (d_maker d) (set_prices tick p' w) = Some w1 ∧
    momentum_on_tick sym clocks tick w1 = Some w2 ∧
    noises_on_tick sym clocks (length (noise_traders_ (w_agents w2))) 0 (d_noises d) w2 = Some w'.
Proof.
  rewrite sim_tick_eq. intros (w1 & H1 & H2)%bind_Some. destruct (_ && _); [done|]. injection H2 as <- <-.
  apply bind_Some in H1 as (w2 & H2 & H1). apply bind_Some in H1 as (w3 & H3 & H4). eauto 10.
Qed.
