(* ===== verification/Momentum.v ===== *)
(** The momentum trader (src/simulation/MomentumTrader.cpp): its window of prices and its
    cooldown, over a whole run. *)

From stdpp Require Import base list gmap strings.
From Stdlib Require Import ZArith Lia Sorted.
From S2P Require Import Prelude Machine Types OrderBook MatchingEngine EngineSpec Exchange.
From S2P Require Import Simulation SimBooks SimProps SimMaker SimRun SimKept.

Open Scope Z_scope.

(** ** The window *)

(** The last [n] elements. *)
Definition lastn {A} (n : nat) (l : list A) : list A := drop (length l - n) l.

Lemma lastn_length {A} n (l : list A) : length (lastn n l) = (length l `min` n)%nat.
Proof. unfold lastn. rewrite length_drop. lia. Qed.

Lemma lastn_snoc {A} n (l : list A) x :
  (0 < n)%nat →
  (if (n <? length (lastn n l ++ [x]))%nat then drop 1 (lastn n l ++ [x]) else lastn n l ++ [x]) =
  lastn n (l ++ [x]).
Proof.
  intros Hn. rewrite length_app, lastn_length. simpl. unfold lastn. rewrite length_app. simpl.
  destruct (Nat.ltb_spec n (length l `min` n + 1)).
  - rewrite drop_app_le by (rewrite length_drop; lia). rewrite drop_drop.
    replace (length l - n + 1)%nat with (length l + 1 - n)%nat by lia.
    by rewrite (drop_app_le l) by lia.
  - replace (length l - n)%nat with 0%nat by lia. replace (length l + 1 - n)%nat with 0%nat by lia. done.
Qed.

(** What the trade callback and the statistics leave alone of the momentum trader. *)
Definition strategy (m : MomentumTrader) : list double * nat * (double * Z * Z * Z * Z) :=
  (price_history_ m, window_size_ m, (threshold_ m, trade_size_ m, mo_max_position_ m, last_trade_tick_ m, cooldown_ticks_ m)).

Lemma update_stats_strategy a f A A' :
  update_stats a f A = Some A' →
  strategy (momentum_trader_ A') = strategy (momentum_trader_ A) ∧ trade_log_ A' = trade_log_ A.
Proof. destruct a as [| |i]; simpl; intros H; repeat (apply bind_Some in H as (? & ? & H)); by simplify_eq/=. Qed.

Lemma fill_owner_strategy oid s p q A A' :
  fill_owner oid s p q A = Some A' →
  strategy (momentum_trader_ A') = strategy (momentum_trader_ A) ∧ trade_log_ A' = trade_log_ A.
Proof. unfold fill_owner. destruct (_ !! oid); [apply update_stats_strategy|by intros [= <-]]. Qed.

Lemma callback_strategy t A A' :
  sim_trade_callback t (Some A) = Some A' →
  ∃ m, strategy m = strategy (momentum_trader_ A) ∧ momentum_trader_ A' = update_price (trade_price t) m ∧
    trade_log_ A' = trade_log_ A ++ [t].
Proof.
  unfold sim_trade_callback. cbn [mbind option_bind]. intros H.
  apply bind_Some in H as (A1 & [S1 L1]%fill_owner_strategy & H).
  apply bind_Some in H as (A2 & [S2 L2]%fill_owner_strategy & [= <-]).
  exists (momentum_trader_ A2). split_and!; [by rewrite S2, S1|done|]. simpl. by rewrite L2, L1.
Qed.

(** The window holds the last 20 of the prices [base] and those of the trades. *)
Definition windowed (base : list double) (A : Agents) : Prop :=
  let m := momentum_trader_ A in
  window_size_ m = 20%nat ∧ price_history_ m = lastn 20 (base ++ (trade_price <$> trade_log_ A)).

#[export] Instance windowed_invariant base : AgentInvariant (λ _, True) (windowed base).
Proof.
  split.
  - intros a f A A' _ [S L]%update_stats_strategy [Hw Hh]. injection S as S1 S2 _ _ _ _ _.
    split; [congruence|]. by rewrite S1, L.
  - intros t A A' (m & S & Hm & L)%callback_strategy [Hw Hh]. injection S as S1 S2 _ _ _ _ _.
    unfold windowed. rewrite Hm, L. split; [simpl; congruence|]. unfold update_price. cbn [price_history_].
    rewrite S1, S2, Hw, Hh, lastn_snoc by lia. by rewrite fmap_app, app_assoc.
  - done.
  - done.
  - done.
Qed.

(** ** The cooldown *)

(** The trader has sent [k] orders, the last of them in the tick [last]. *)
Definition paced (k last : Z) (A : Agents) : Prop :=
  let m := momentum_trader_ A in
  t_orders_sent (mo_stats m) = k ∧ last_trade_tick_ m = last ∧ cooldown_ticks_ m = 5.

Lemma update_stats_sent a f A A' :
  update_stats a f A = Some A' → (∀ st st', f st = Some st' → t_orders_sent st' = t_orders_sent st) ∨ a ≠ Momentum →
  t_orders_sent (mo_stats (momentum_trader_ A')) = t_orders_sent (mo_stats (momentum_trader_ A)).
Proof.
  intros Hu Hf. destruct a as [| |i]; simpl in Hu;
    repeat (apply bind_Some in Hu as (? & ? & Hu)); simplify_eq/=; try done.
  destruct Hf as [Hf|]; [|done]. by apply Hf.
Qed.

Lemma fill_owner_sent oid s p q A A' :
  fill_owner oid s p q A = Some A' →
  t_orders_sent (mo_stats (momentum_trader_ A')) = t_orders_sent (mo_stats (momentum_trader_ A)).
Proof.
  unfold fill_owner. destruct (_ !! oid); [|by intros [= <-]]. intros H. eapply update_stats_sent; [exact H|]. left.
  intros st st' Hf. unfold trader_on_fill in Hf.
  destruct (is_buy s); apply bind_Some in Hf as (pos & _ & [= <-]); done.
Qed.

(** The others, and the trades, do not change that. *)
#[export] Instance paced_invariant k last : AgentInvariant (λ a, a ≠ Momentum) (paced k last).
Proof.
  split.
  - intros a f A A' Ha H (Hk & Hl & Hc). pose proof (update_stats_sent _ _ _ _ H (or_intror Ha)) as Hs.
    destruct (update_stats_strategy _ _ _ _ H) as [S _]. injection S as _ _ _ _ _ S4 S5.
    split_and!; congruence.
  - intros t A A' H (Hk & Hl & Hc). destruct (callback_strategy _ _ _ H) as (m & S & Hm & _).
    injection S as _ _ _ _ _ S4 S5. unfold paced. rewrite Hm. simpl. split_and!; [|congruence..].
    unfold sim_trade_callback in H. cbn [mbind option_bind] in H.
    apply bind_Some in H as (A1 & H1%fill_owner_sent & H). apply bind_Some in H as (A2 & H2%fill_owner_sent & [= <-]).
    simpl in Hm. injection Hm as Hm _ _ _ _ _ _ _. rewrite <-Hm, H2, H1. exact Hk.
  - done.
  - done.
  - done.
Qed.

Section run.
Context (sym : string) (clocks : nat → nat → Timestamp).

(** An order of the momentum trader is counted and dated. *)
Lemma momentum_sends s q tick k last w w' :
  ('(_, w1) ← send_order sym clocks Momentum s Market dzero q w; Some (on_momentum (set_last_trade tick) w1)) = Some w' →
  paced k last (w_agents w) → paced (u64 (k + 1)) tick (w_agents w').
Proof.
  intros ([oid w1] & Hs & [= <-])%bind_Some (Hk & Hl & Hc). unfold send_order in Hs.
  apply bind_Some in Hs as (A & HA & Hs). simpl in HA. injection HA as <-. rewrite submit_order_callback in Hs.
  destruct (submit_order _ _ _ _ _ _ _ _ _) as [[[oid1 e] ts]|]; [|done]. cbn [mbind option_bind] in Hs.
  apply bind_Some in Hs as (A1 & HA1 & [= <- <-]).
  assert (paced (u64 (k + 1)) last A1) as (K1 & _ & K3).
  { eapply (callbacks_keep (λ a, a ≠ Momentum) (paced _ _)); [exact HA1|]. by rewrite <-Hk. }
  split_and!; by destruct (oid1 >? 0).
Qed.

(** What the momentum trader has done when it sent its orders in the ticks [ts]: it has
    counted them, and remembers the last. *)
Definition sent_in (ts : list Z) (A : Agents) : Prop :=
  paced (Z.of_nat (length ts)) (default 0 (last ts)) A.

(** Ticks at least five apart, the first not before the tick 5, all before [tick]. *)
Definition spaced (tick : Z) (ts : list Z) : Prop :=
  Sorted (λ a b, a + 5 ≤ b) ts ∧ Forall (λ t, 5 ≤ t < tick) ts.

Lemma sorted_snoc (R : Z → Z → Prop) ts t :
  Sorted R ts → (∀ a, last ts = Some a → R a t) → Sorted R (ts ++ [t]).
Proof.
  induction ts as [|a ts IH]; intros Hs Hl; [by repeat constructor|].
  apply Sorted_inv in Hs as [Hs Hh]. destruct ts as [|b ts]; simpl.
  - constructor; [by repeat constructor|]. constructor. by apply Hl.
  - constructor; [apply IH; [done|exact Hl]|]. constructor. by apply HdRel_inv in Hh.
Qed.

(** A new order keeps the distance. *)
Lemma spaced_snoc tick ts :
  spaced tick ts → 5 ≤ tick - default 0 (last ts) → spaced (tick + 1) (ts ++ [tick]).
Proof.
  intros [Hs Hf] Hd. assert (0 ≤ default 0 (last ts)) as Hl.
  { destruct (last ts) as [a|] eqn:E; [|done]. simpl. rewrite Forall_forall in Hf.
    apply last_Some_elem_of, Hf in E. lia. }
  split.
  - apply sorted_snoc; [done|]. intros a E. rewrite E in Hd. simpl in Hd. lia.
  - apply Forall_app. split; [|apply Forall_singleton; lia]. eapply Forall_impl; [exact Hf|]. simpl. lia.
Qed.

Lemma spaced_weaken tick tick' ts : spaced tick ts → tick ≤ tick' → spaced tick' ts.
Proof. intros [Hs Hf] Ht. split; [done|]. eapply Forall_impl; [exact Hf|]. simpl. lia. Qed.

Lemma spaced_length tick ts : spaced tick ts → 5 * Z.of_nat (length ts) ≤ Z.max 0 (tick - 1).
Proof.
  revert tick. induction ts as [|t ts IH] using rev_ind; intros tick [Hs Hf]; [simpl; lia|].
  apply Forall_app in Hf as [Hf [Ht _]%Forall_cons].
  assert (Forall (λ a, a + 5 ≤ t) ts) as Hlt.
  { apply Sorted_StronglySorted in Hs; [|intros a b c; lia]. clear -Hs.
    induction ts as [|a ts IH]; [constructor|]. apply StronglySorted_inv in Hs as [Hs Ha].
    apply Forall_app in Ha as [_ [Ha _]%Forall_cons]. apply Forall_cons_2; [exact Ha|]. by apply IH. }
  assert (Sorted (λ a b, a + 5 ≤ b) ts) as Hs'.
  { clear -Hs. induction ts as [|a ts IH]; [constructor|]. apply Sorted_inv in Hs as [Hs Hh].
    constructor; [by apply IH|]. destruct ts; constructor. by apply HdRel_inv in Hh. }
  assert (spaced (t - 4) ts) as Hsp.
  { split; [done|]. apply Forall_forall. intros a Ha. rewrite Forall_forall in Hlt, Hf.
    specialize (Hlt a Ha). specialize (Hf a Ha). simpl in *. lia. }
  specialize (IH _ Hsp). rewrite length_app. simpl. lia.
Qed.

(** In a tick the momentum trader sends nothing, or one order that keeps the distance. *)
Lemma momentum_pace tick ts w w' :
  momentum_on_tick sym clocks tick w = Some w' → sent_in ts (w_agents w) → spaced tick ts →
  0 ≤ tick < 2 ^ 64 - 1 →
  ∃ ts', (ts' = [] ∨ ts' = [tick]) ∧ sent_in (ts ++ ts') (w_agents w') ∧ spaced (tick + 1) (ts ++ ts').
Proof.
  intros H Hp Hsp Ht. pose proof (spaced_length _ _ Hsp) as Hlen. pose proof Hp as (_ & Hlast & Hcool).
  assert (0 ≤ default 0 (last ts) ≤ tick) as Hl.
  { destruct (last ts) as [a|] eqn:E; [|simpl; lia]. simpl. destruct Hsp as [_ Hf]. rewrite Forall_forall in Hf.
    apply last_Some_elem_of, Hf in E. lia. }
  assert (Some w = Some w' → ∃ ts', (ts' = [] ∨ ts' = [tick]) ∧ sent_in (ts ++ ts') (w_agents w') ∧
    spaced (tick + 1) (ts ++ ts')) as Hstay.
  { intros [= <-]. exists []. rewrite app_nil_r. split; [by left|]. split; [done|]. apply (spaced_weaken tick); [done|lia]. }
  unfold momentum_on_tick in H. rewrite Hlast, Hcool, (u64_small (tick - _)) in H by lia.
  destruct (_ <? _)%nat; [by apply Hstay|].
  destruct (Z.ltb_spec (tick - default 0 (last ts)) 5); [by apply Hstay|].
  assert (paced (u64 (Z.of_nat (length ts) + 1)) tick (w_agents w') →
    ∃ ts', (ts' = [] ∨ ts' = [tick]) ∧ sent_in (ts ++ ts') (w_agents w') ∧ spaced (tick + 1) (ts ++ ts')) as Hdone.
  { intros Hw1. rewrite u64_small in Hw1 by lia. exists [tick]. split; [by right|]. split; [|by apply spaced_snoc].
    unfold sent_in. rewrite last_snoc, length_app. simpl.
    by replace (Z.of_nat (length ts + 1)) with (Z.of_nat (length ts) + 1) by lia. }
  destruct (_ && _); [by eapply Hdone, momentum_sends|].
  destruct (_ && _); [by eapply Hdone, momentum_sends|by apply Hstay].
Qed.

(** The state of the strategy before the tick [tick]. *)
Definition strategy_ok (base : list double) (tick : Z) (ts : list Z) (w : World) : Prop :=
  windowed base (w_agents w) ∧ sent_in ts (w_agents w) ∧ spaced tick ts.

Lemma tick_strategy num_ticks tick d w p w' p' base ts :
  sim_tick sym clocks num_ticks tick d (w, p) = Some (w', p') → 0 ≤ tick < 2 ^ 64 - 1 →
  strategy_ok base tick ts (set_prices tick (next_price d p) w) →
  ∃ ts', (ts' = [] ∨ ts' = [tick]) ∧ strategy_ok base (tick + 1) (ts ++ ts') w'.
Proof.
  intros (-> & w1 & w2 & H1 & H2 & H3)%sim_tick_inv Ht (Hw & Hp & Hsp).
  assert (sent_in ts (w_agents w1)) as Hp1 by (by eapply (maker_keeps (λ a, a ≠ Momentum) (paced _ _))).
  destruct (momentum_pace tick ts w1 w2 H2 Hp1 Hsp Ht) as (ts' & Hts & Hp2 & Hsp'). exists ts'.
  split; [done|]. split; [|split; [|done]].
  - eapply (noises_keep (λ _, True) (windowed base)); [done|exact H3|].
    eapply (momentum_keeps (λ _, True) (windowed base)); [done|exact H2|].
    by eapply (maker_keeps (λ _, True) (windowed base)).
  - eapply (noises_keep (λ a, a ≠ Momentum) (paced _ _)); [done|exact H3|exact Hp2].
Qed.

Lemma set_prices_strategy tick p base ts w :
  strategy_ok base tick ts w → tick ≠ 0 → strategy_ok base tick ts (set_prices tick p w).
Proof. intros H Ht. unfold set_prices. rewrite (proj2 (Z.eqb_neq tick 0) Ht). exact H. Qed.

(** The orders that the result of the momentum trader counts. *)
Definition momentum_orders (x : World * double) : Z := t_orders_sent (mo_stats (momentum_trader_ (w_agents x.1))).

(** How many of the ticks [ts] are before [tick]. *)
Definition before (tick : Z) (ts : list Z) : Z := Z.of_nat (length (filter (λ t, t < tick) ts)).

Lemma before_app tick ts ts' : before tick (ts ++ ts') = before tick ts + before tick ts'.
Proof. unfold before. rewrite filter_app, length_app. lia. Qed.
Lemma before_all tick ts : Forall (λ t, t < tick) ts → before tick ts = Z.of_nat (length ts).
Proof.
  unfold before. induction 1 as [|t ts Ht _ IH]; [done|]. rewrite filter_cons_True by done. simpl. lia.
Qed.
Lemma before_none tick ts : Forall (λ t, tick ≤ t) ts → before tick ts = 0.
Proof. unfold before. induction 1 as [|t ts Ht _ IH]; [done|]. by rewrite filter_cons_False by lia. Qed.

Lemma loop_strategy rounds num_ticks tick draws x x' base ts :
  sim_loop sym clocks rounds num_ticks tick draws x = Some x' → 0 < tick → tick + Z.of_nat rounds < 2 ^ 64 →
  strategy_ok base tick ts x.1 →
  ∃ ts', strategy_ok base (tick + Z.of_nat rounds) (ts ++ ts') x'.1 ∧ Forall (λ t, tick ≤ t) ts' ∧
    ∀ n y, (n ≤ rounds)%nat → sim_loop sym clocks n num_ticks tick draws x = Some y →
      momentum_orders y = before (tick + Z.of_nat n) (ts ++ ts').
Proof.
  revert tick x ts. induction rounds as [|rounds IH]; intros tick [w p] ts H Ht Hb Hs; cbn [sim_loop] in H.
  { injection H as <-. exists []. rewrite app_nil_r, Z.add_0_r. split; [done|]. split; [done|].
    intros n y Hn Hy. assert (n = 0%nat) as -> by lia. injection Hy as <-. destruct Hs as (_ & (Hk & _) & _ & Hf).
    rewrite Z.add_0_r, before_all; [exact Hk|]. eapply Forall_impl; [exact Hf|]. simpl. lia. }
  apply bind_Some in H as ([w1 p1] & H1 & H2).
  destruct (tick_strategy num_ticks tick (draws tick) w p w1 p1 base ts H1) as (t1 & Ht1 & Hs1);
    [lia|apply set_prices_strategy; [done|lia]|].
  destruct (IH _ _ (ts ++ t1) H2) as (ts' & Hs' & Hge & Hn'); [lia|lia|exact Hs1|].
  replace (tick + Z.of_nat (S rounds)) with (tick + 1 + Z.of_nat rounds) by lia. exists (t1 ++ ts').
  rewrite app_assoc. split; [done|]. split.
  { apply Forall_app. split; [destruct Ht1 as [-> | ->]; [done|apply Forall_singleton; lia]|].
    eapply Forall_impl; [exact Hge|]. simpl. lia. }
  intros [|n] y Hn Hy.
  - injection Hy as <-. destruct Hs as (_ & (Hk & _) & _ & Hf). rewrite !before_app, Z.add_0_r.
    rewrite (before_all _ ts), (before_none _ t1), (before_none _ ts').
    + rewrite !Z.add_0_r. exact Hk.
    + eapply Forall_impl; [exact Hge|]. simpl. lia.
    + destruct Ht1 as [-> | ->]; [done|apply Forall_singleton; lia].
    + eapply Forall_impl; [exact Hf|]. simpl. lia.
  - cbn [sim_loop] in Hy. rewrite H1 in Hy. cbn [mbind option_bind] in Hy.
    rewrite (Hn' n y) by (done || lia). f_equal. lia.
Qed.

(** C34: the strategy of the momentum trader over a run of at least one tick, whatever was
    drawn.  Its window holds the last twenty of the prices it is to average: the reference
    price of the first tick, then the price of every trade of the log, in order.  And it
    keeps its cooldown: there are ticks, the first not before the sixth (number 5), each
    at least five after the one before, such that it sends one order in each of them and
    none in the others: after any number of ticks, the orders it has sent are the ticks
    among these that have passed.  Its result therefore counts at most a fifth of the
    ticks before the last. *)
Theorem momentum_strategy initial_price num_ticks draws wall_sec x :
  1 ≤ num_ticks < 2 ^ 64 → sim_run sym clocks initial_price num_ticks draws = Some x →
  price_history_ (momentum_trader_ (w_agents x.1)) =
    lastn 20 (next_price (draws 0) initial_price :: (trade_price <$> trade_log_ (w_agents x.1))) ∧
  ∃ ts r, Sorted (λ a b, a + 5 ≤ b) ts ∧ Forall (λ t, 5 ≤ t < num_ticks) ts ∧
    (∀ n y, (n ≤ Z.to_nat num_ticks)%nat →
       sim_loop sym clocks n num_ticks 0 draws (Simulation_new initial_price) = Some y →
       momentum_orders y = before (Z.of_nat n) ts) ∧
    r_trader_results (sim_results initial_price num_ticks wall_sec x) !! 1%nat = Some r ∧
    tr_name r = "MomentumTrader"%string ∧ tr_orders_sent r = Z.of_nat (length ts) ∧
    Z.of_nat (length ts) ≤ (num_ticks - 1) / 5.
Proof.
  intros Hn Hx. unfold sim_run in Hx.
  replace (Z.to_nat num_ticks) with (S (Z.to_nat (num_ticks - 1))) in Hx |- * by lia. cbn [sim_loop] in Hx.
  apply bind_Some in Hx as ([w1 p1] & H1 & Hx).
  destruct (tick_strategy num_ticks 0 (draws 0) _ _ w1 p1 [next_price (draws 0) initial_price] [] H1)
    as (t1 & Ht1 & Hs); [lia|split_and!; [by split|by split_and!|by split]|].
  assert (t1 = []) as ->.
  { destruct Ht1 as [-> | ->]; [done|]. destruct Hs as (_ & _ & _ & [H5 _]%Forall_cons). lia. }
  destruct (loop_strategy _ _ _ _ _ _ [next_price (draws 0) initial_price] [] Hx) as (ts & ((_ & Hh) & (Hk & _) & Hsp) & Hge & Hbefore); [lia|lia|exact Hs|].
  simpl in Hsp, Hk, Hh, Hbefore. pose proof (spaced_length _ _ Hsp) as Hlen. destruct Hsp as [Hsort Hf].
  destruct x as [w p]. split; [exact Hh|]. eexists ts, _. split; [done|].
  split; [eapply Forall_impl; [exact Hf|]; simpl; lia|]. split.
  - intros [|n] y Hny Hy.
    + injection Hy as <-. rewrite before_none; [done|]. eapply Forall_impl; [exact Hge|]. simpl. lia.
    + cbn [sim_loop] in Hy. rewrite H1 in Hy. cbn [mbind option_bind] in Hy.
      rewrite (Hbefore n y) by (done || lia). f_equal. lia.
  - split; [done|]. split; [done|]. split; [exact Hk|]. apply Z.div_le_lower_bound; lia.
Qed.
End run.

Lemma momentum_strategy_witness :
  ∃ x ts r, sim_run "AAPL" sim_clocks (dofZ 150) 25 lively = Some x ∧
    price_history_ (momentum_trader_ (w_agents x.1)) =
      lastn 20 (next_price (lively 0) (dofZ 150) :: (trade_price <$> trade_log_ (w_agents x.1))) ∧
    Sorted (λ a b, a + 5 ≤ b) ts ∧ Forall (λ t, 5 ≤ t < 25) ts ∧
    (∀ n y, (n ≤ 25)%nat → sim_loop "AAPL" sim_clocks n 25 0 lively (Simulation_new (dofZ 150)) = Some y →
       momentum_orders y = before (Z.of_nat n) ts) ∧
    r_trader_results (sim_results (dofZ 150) 25 dzero x) !! 1%nat = Some r ∧
    tr_name r = "MomentumTrader"%string ∧ tr_orders_sent r = Z.of_nat (length ts) ∧
    Z.of_nat (length ts) ≤ (25 - 1) / 5.
Proof.
  pose proof lively_run as Hrun.
  destruct (sim_run "AAPL" sim_clocks (dofZ 150) 25 lively) as [x|] eqn:Hx; [|done].
  destruct (momentum_strategy "AAPL" sim_clocks (dofZ 150) 25 lively dzero x) as (Hh & ts & r & Hr); [lia|exact Hx|].
  exists x, ts, r. split; [reflexivity|]. split; [exact Hh|exact Hr].
Defined.
