(* ===== verification/Seeded.v ===== *)
(** The simulation with its generators.

    [Simulation] takes the draws of each tick as arguments; here they are drawn as the
    code draws them.  The price walk has a generator with the seed 42, and every agent
    has its own, seeded by [std::random_device] in the constructor of [Trader].  A noise
    trader draws only what its decisions need, so the use of its generator depends on
    what it drew.  The theorem says that a seeded run is a run for some draws that are in
    their ranges, so that all that is proved of runs holds of it. *)

From stdpp Require Import base list gmap strings.
From Stdlib Require Import ZArith Lia.
From S2P Require Import Prelude Machine Rounding StdMap Types OrderBook MatchingEngine EngineSpec Exchange.
From S2P Require Import Random Simulation SimBooks SimProps SimMaker SimRun SimKept.

Open Scope Z_scope.

(** The generators: of the price walk, and the members [rng_] of the agents. *)
Record Generators := mk_generators {
  g_price : mt19937;
  g_maker : mt19937;
  g_momentum : mt19937;
  g_noises : list mt19937;
}.

(** [device i] is what [std::random_device] returned to the [i]-th agent. *)
Definition Generators_new (device : nat → Z) : Generators :=
  mk_generators (mt_seed 42) (mt_seed (device 0%nat)) (mt_seed (device 1%nat))
    ((λ i, mt_seed (device i)) <$> [2; 3; 4]%nat).

Section seeded.
Context `{Distributions}.
Context (symbol : string) (clocks : nat → nat → Timestamp).

(** The draws of [NoiseTrader::on_tick], in its order; what is not drawn is not read. *)
Definition draw_noise (n : NoiseTrader) (rng : mt19937) : NoiseDraws * mt19937 :=
  let '(trade, rng) := random_double dzero (dofZ 1) rng in
  if dgtb trade (trade_probability_ n) then (mk_noise_draws trade 0 1 dzero dzero, rng)
  else
    let '(side, rng) := random_int 0 1 rng in
    let '(lots, rng) := random_int 1 (Z.quot (max_size_ n) 10) rng in
    let '(limit, rng) := random_double dzero (dofZ 1) rng in
    if dltb limit (dlit 7 1) then
      let '(offset, rng) := random_double (dneg (price_range_ n)) (price_range_ n) rng in
      (mk_noise_draws trade side lots limit offset, rng)
    else (mk_noise_draws trade side lots limit dzero, rng).

Fixpoint seeded_noises (n i : nat) (w : World) (rngs : list mt19937) : option (World * list mt19937) :=
  match n with
  | O => Some (w, rngs)
  | S n =>
      noise ← noise_traders_ (w_agents w) !! i;
      rng ← rngs !! i;
      let '(d, rng) := draw_noise noise rng in
      w ← noise_on_tick symbol clocks i d w;
      seeded_noises n (S i) w (<[i := rng]> rngs)
  end.

(** The state of the loop: the world, the price, the distribution of the price walk and
    the generators. *)
Record SeededState := mk_seeded {
  s_world : World;
  s_price : double;
  s_walk : normal_distribution;
  s_rngs : Generators;
}.

Definition seeded_tick (num_ticks tick : Z) (x : SeededState) : option SeededState :=
  let G := s_rngs x in
  let '(return_pct, (walk, g)) := normal_next (s_walk x, g_price G) in
  let true_price := dmax (dmul (s_price x) (dadd (dofZ 1) return_pct)) (dlit 1 2) in
  let '(noise, gm) := random_double (dneg (dlit 2 2)) (dlit 2 2) (g_maker G) in
  w ← maker_on_tick symbol clocks noise (set_prices tick true_price (s_world x));
  w ← momentum_on_tick symbol clocks tick w;
  '(w, gn) ← seeded_noises (length (noise_traders_ (w_agents w))) 0 w (g_noises G);
  if (tick >? 0) && (num_ticks / 10 =? 0) then None
  else Some (mk_seeded w true_price walk (mk_generators g gm (g_momentum G) gn)).

Fixpoint seeded_loop (rounds : nat) (num_ticks tick : Z) (x : SeededState) : option SeededState :=
  match rounds with
  | O => Some x
  | S rounds => x ← seeded_tick num_ticks tick x; seeded_loop rounds num_ticks (tick + 1) x
  end.

(** A simulation of [num_ticks] ticks, from its constructor on. *)
Definition seeded_run (initial_price price_volatility : double) (num_ticks : Z) (device : nat → Z)
    : option SeededState :=
  let '(w, p) := Simulation_new initial_price in
  seeded_loop (Z.to_nat num_ticks) num_ticks 0
    (mk_seeded w p (normal_new dzero price_volatility) (Generators_new device)).

(** The price walk on its own. *)
Fixpoint price_walk (rounds : nat) (walk : normal_distribution * mt19937) (p : double) : double :=
  match rounds with
  | O => p
  | S rounds =>
      let '(return_pct, walk) := normal_next walk in
      price_walk rounds walk (dmax (dmul p (dadd (dofZ 1) return_pct)) (dlit 1 2))
  end.

(** The returns that it draws. *)
Fixpoint walk_returns (rounds : nat) (walk : normal_distribution * mt19937) : list double :=
  match rounds with
  | O => []
  | S rounds => let '(return_pct, walk) := normal_next walk in return_pct :: walk_returns rounds walk
  end.
End seeded.

(** ** The parameters of the noise traders never change *)

Definition noise_params (A : Agents) : list (double * Z * double) :=
  (λ n, (trade_probability_ n, max_size_ n, price_range_ n)) <$> noise_traders_ A.

Lemma update_stats_params a f A A' : update_stats a f A = Some A' → noise_params A' = noise_params A.
Proof.
  destruct a as [| |i]; simpl; intros H; repeat (apply bind_Some in H as (? & ? & H)); simplify_eq/=; try done.
  unfold noise_params. simpl. rewrite list_fmap_insert. apply list_insert_id.
  rewrite list_lookup_fmap. by rewrite H0.
Qed.

#[export] Instance noise_params_invariant ps : AgentInvariant (λ _, True) (λ A, noise_params A = ps).
Proof.
  split.
  - intros a f A A' _ H%update_stats_params. by rewrite H.
  - intros t A A' H <-. unfold sim_trade_callback, fill_owner in H. cbn [mbind option_bind] in H.
    apply bind_Some in H as (A2 & H2 & H). apply bind_Some in H as (A3 & H3 & [= <-]).
    change (noise_params (set_momentum _ A3)) with (noise_params A3). transitivity (noise_params A2).
    + destruct (order_owner_ A2 !! _); [by eapply update_stats_params|by simplify_eq].
    + destruct (order_owner_ (log_trade t A) !! _); [by apply update_stats_params in H2|by simplify_eq].
  - done.
  - done.
  - done.
Qed.

Lemma set_prices_params tick p w : noise_params (w_agents (set_prices tick p w)) = noise_params (w_agents w).
Proof. unfold set_prices, noise_params. destruct (tick =? 0); simpl; by rewrite <-list_fmap_compose. Qed.

(** ** What is drawn *)

(** The draws of a noise trader are in their ranges. *)
Definition noise_drawn (d : NoiseDraws) : Prop :=
  finiteb (d_offset d) = true ∧ 0 ≤ d_side d ≤ 1 ∧ 1 ≤ d_lots d ≤ 20.

(** The draws of a tick are in their ranges. *)
Definition drawn (d : TickDraws) : Prop := draws_ok d ∧ ∀ i, noise_drawn (d_noises d i).

Definition params_ok (A : Agents) : Prop :=
  noise_params A = replicate 3 (trade_probability_ NoiseTrader_new, 200, dlit 50 2).

Record gens_ok (G : Generators) : Prop := {
  go_price : mt_ok (g_price G);
  go_maker : mt_ok (g_maker G);
  go_noises : Forall mt_ok (g_noises G);
  go_three : length (g_noises G) = 3%nat;
}.

Lemma Generators_new_ok device : gens_ok (Generators_new device).
Proof.
  split; cbn [g_price g_maker g_noises Generators_new]; [apply mt_seed_ok..| |done].
  apply Forall_fmap, Forall_true. intros i. apply mt_seed_ok.
Qed.

Section runs.
Context `{DistributionLaws}.
Context (sym : string) (clocks : nat → nat → Timestamp).

Lemma draw_noise_ok n g d g' :
  mt_ok g → max_size_ n = 200 → price_range_ n = dlit 50 2 → draw_noise n g = (d, g') →
  noise_drawn d ∧ mt_ok g'.
Proof.
  intros Hg Hm Hr. unfold draw_noise. rewrite Hm, Hr.
  pose proof (random_double_finite dzero (dofZ 1) g Hg ltac:(done) ltac:(done) ltac:(done)) as [_ Hg1].
  destruct (random_double dzero (dofZ 1) g) as [t g1]. simpl in Hg1.
  destruct (dgtb t _); [intros [= <- <-]; by split|].
  destruct (uniform_int_range 0 1 g1 Hg1 ltac:(done)) as [Hs Hg2]. fold (random_int 0 1 g1) in Hs, Hg2.
  destruct (random_int 0 1 g1) as [s g2]. simpl in Hs, Hg2.
  destruct (uniform_int_range 1 20 g2 Hg2 ltac:(done)) as [Hl Hg3]. change (Z.quot 200 10) with 20.
  fold (random_int 1 20 g2) in Hl, Hg3. destruct (random_int 1 20 g2) as [l g3]. simpl in Hl, Hg3.
  pose proof (random_double_finite dzero (dofZ 1) g3 Hg3 ltac:(done) ltac:(done) ltac:(done)) as [_ Hg4].
  destruct (random_double dzero (dofZ 1) g3) as [m g4]. simpl in Hg4.
  destruct (dltb m _); [|intros [= <- <-]; by split].
  pose proof (random_double_finite (dneg (dlit 50 2)) (dlit 50 2) g4 Hg4 ltac:(done) ltac:(done) ltac:(done)) as [Ho Hg5].
  destruct (random_double _ _ g4) as [o g5]. simpl in Ho, Hg5. intros [= <- <-]. by split.
Qed.

Lemma noises_ext n i ds ds' w :
  (∀ j, (i ≤ j)%nat → ds j = ds' j) → noises_on_tick sym clocks n i ds w = noises_on_tick sym clocks n i ds' w.
Proof.
  revert i w. induction n as [|n IH]; intros i w He; [done|]. cbn [noises_on_tick]. rewrite He by done.
  destruct (noise_on_tick _ _ _ _ w) as [w1|]; [|done]. apply IH. intros j Hj. apply He. lia.
Qed.

Definition nothing_drawn : NoiseDraws := mk_noise_draws dzero 0 1 dzero dzero.

(** The noise traders act as with some draws in their ranges. *)
Lemma seeded_noises_spec n i w gs :
  params_ok (w_agents w) → Forall mt_ok gs → length gs = 3%nat → (i + n ≤ 3)%nat →
  ∃ ds, (∀ j, noise_drawn (ds j)) ∧
    noises_on_tick sym clocks n i ds w = fst <$> seeded_noises sym clocks n i w gs ∧
    ∀ w' gs', seeded_noises sym clocks n i w gs = Some (w', gs') →
      params_ok (w_agents w') ∧ Forall mt_ok gs' ∧ length gs' = 3%nat.
Proof.
  revert i w gs. induction n as [|n IH]; intros i w gs Hp Hgs Hlen Hi.
  { exists (λ _, nothing_drawn). split; [by intros j|]. split; [done|]. by intros w' gs' [= <- <-]. }
  assert (∃ nt, noise_traders_ (w_agents w) !! i = Some nt ∧ max_size_ nt = 200 ∧ price_range_ nt = dlit 50 2)
    as (nt & Hnt & Hm & Hr).
  { pose proof (f_equal (.!! i) Hp) as Hl. unfold noise_params in Hl.
    rewrite list_lookup_fmap, lookup_replicate_2 in Hl by lia.
    destruct (noise_traders_ (w_agents w) !! i) as [nt|]; [|done]. injection Hl as ? ? ?. eauto. }
  destruct (lookup_lt_is_Some_2 gs i) as [g Hg]; [lia|].
  destruct (draw_noise nt g) as [d g'] eqn:Hd.
  destruct (draw_noise_ok nt g d g' (Forall_lookup_1 _ _ _ _ Hgs Hg) Hm Hr Hd) as [Hdr Hg'].
  cbn [seeded_noises noises_on_tick]. rewrite Hnt, Hg. cbn [mbind option_bind]. rewrite Hd.
  destruct (noise_on_tick sym clocks i d w) as [w1|] eqn:Hw1.
  - destruct (IH (S i) w1 (<[i := g']> gs)) as (ds & Hds & He & Hafter).
    { by eapply (noise_keeps (λ _, True) (λ A, noise_params A = _)). }
    { by apply Forall_insert. } { by rewrite length_insert. } { lia. }
    exists (λ j, if decide (j = i) then d else ds j). split_and!.
    + intros j. by case_decide.
    + rewrite decide_True by done. rewrite Hw1. cbn [mbind option_bind]. rewrite <-He. apply noises_ext.
      intros j Hj. rewrite decide_False by lia. done.
    + exact Hafter.
  - exists (λ _, d). split; [by intros j|]. by rewrite Hw1.
Qed.

Definition state_ok (x : SeededState) : Prop := params_ok (w_agents (s_world x)) ∧ gens_ok (s_rngs x).
Definition observed (x : SeededState) : World * double := (s_world x, s_price x).

(** A return that is finite and does not take the whole price. *)
Definition return_ok (r : double) : Prop := factorb (dadd (dofZ 1) r) = true.

(** A tick is a tick with some draws in their ranges, and the price goes on its walk. *)
Lemma seeded_tick_spec num_ticks tick x :
  state_ok x → return_ok (normal_next (s_walk x, g_price (s_rngs x))).1 →
  ∃ d, drawn d ∧ sim_tick sym clocks num_ticks tick d (observed x) =
      observed <$> seeded_tick sym clocks num_ticks tick x ∧
    ∀ y, seeded_tick sym clocks num_ticks tick x = Some y → state_ok y ∧
      (s_walk y, g_price (s_rngs y)) = (normal_next (s_walk x, g_price (s_rngs x))).2 ∧
      ∀ k, price_walk k (s_walk y, g_price (s_rngs y)) (s_price y) =
           price_walk (S k) (s_walk x, g_price (s_rngs x)) (s_price x).
Proof.
  intros [Hp [G1 G2 G3 G4]] Hf. unfold seeded_tick. pose proof (normal_generator (s_walk x) _ G1) as Hg1.
  destruct (normal_next (s_walk x, g_price (s_rngs x))) as [ret [walk g]] eqn:En. simpl in Hf, Hg1.
  pose proof (random_double_finite (dneg (dlit 2 2)) (dlit 2 2) _ G2 ltac:(done) ltac:(done) ltac:(done)) as [Hm Hg2].
  destruct (random_double _ _ (g_maker (s_rngs x))) as [noise gm]. simpl in Hm, Hg2.
  set (p' := dmax _ _).
  assert (∀ ds, (∀ j, noise_drawn (ds j)) → drawn (mk_draws ret noise ds)) as Hdr.
  { intros ds Hds. split; [split; [done|]; split; [done|]; intros i; apply Hds|done]. }
  set (none := λ _ : nat, nothing_drawn). assert (∀ j, noise_drawn (none j)) as Hnone by (by intros j).
  assert (∀ ds, sim_tick sym clocks num_ticks tick (mk_draws ret noise ds) (observed x) =
    (w ← (w ← maker_on_tick sym clocks noise (set_prices tick p' (s_world x));
          w ← momentum_on_tick sym clocks tick w;
          noises_on_tick sym clocks (length (noise_traders_ (w_agents w))) 0 ds w);
     if (tick >? 0) && (num_ticks / 10 =? 0) then None else Some (w, p'))) as Heq
    by (intros ds; exact (sim_tick_eq sym clocks num_ticks tick (mk_draws ret noise ds) (s_world x) (s_price x))).
  destruct (maker_on_tick sym clocks noise _) as [w1|] eqn:H1; cbn [mbind option_bind] in Heq |- *;
    [|exists (mk_draws ret noise none); by rewrite Heq; auto].
  destruct (momentum_on_tick sym clocks tick w1) as [w2|] eqn:H2; cbn [mbind option_bind] in Heq |- *;
    [|exists (mk_draws ret noise none); by rewrite Heq; auto].
  assert (params_ok (w_agents w2)) as Hp2.
  { eapply (momentum_keeps (λ _, True) (λ A, noise_params A = _)); [done|exact H2|].
    eapply (maker_keeps (λ _, True) (λ A, noise_params A = _)); [done|exact H1|]. by rewrite set_prices_params. }
  assert (length (noise_traders_ (w_agents w2)) = 3%nat) as Hl.
  { pose proof (f_equal length Hp2) as Hl. unfold noise_params in Hl. by rewrite length_fmap in Hl. }
  rewrite Hl in Heq |- *.
  destruct (seeded_noises_spec 3 0 w2 (g_noises (s_rngs x)) Hp2 G3 G4) as (ds & Hds & He & Hafter); [lia|].
  exists (mk_draws ret noise ds). split; [by apply Hdr|]. rewrite Heq, He.
  destruct (seeded_noises sym clocks 3 0 w2 _) as [[w3 gn]|] eqn:H3; [|done].
  cbn [mbind option_bind fmap option_fmap option_map fst]. destruct (_ && _); [done|].
  split; [done|]. intros y [= <-]. destruct (Hafter w3 gn eq_refl) as (Hp3 & Hgn & Hgl).
  split; [split; [done|by split]|]. split; [done|]. intros k. cbn [price_walk s_walk s_rngs s_price g_price]. by rewrite En.
Qed.

(** A run, likewise. *)
Lemma loop_ext rounds num_ticks tick draws draws' x :
  (∀ t, tick ≤ t → draws t = draws' t) →
  sim_loop sym clocks rounds num_ticks tick draws x = sim_loop sym clocks rounds num_ticks tick draws' x.
Proof.
  revert tick x. induction rounds as [|rounds IH]; intros tick x He; [done|]. cbn [sim_loop].
  rewrite He by lia. destruct (sim_tick _ _ _ _ _ x) as [x1|]; [|done]. apply IH. intros t Ht. apply He. lia.
Qed.

Definition quiet_draws : TickDraws := mk_draws dzero dzero (λ _, nothing_drawn).
Lemma quiet_drawn : drawn quiet_draws.
Proof. split; [split; [by vm_compute|]; split; [done|]; by intros i|]. by intros i. Qed.

Lemma seeded_loop_spec rounds num_ticks tick x :
  state_ok x → Forall return_ok (walk_returns rounds (s_walk x, g_price (s_rngs x))) →
  ∃ draws, (∀ t, drawn (draws t)) ∧ sim_loop sym clocks rounds num_ticks tick draws (observed x) =
      observed <$> seeded_loop sym clocks rounds num_ticks tick x ∧
    ∀ y, seeded_loop sym clocks rounds num_ticks tick x = Some y →
      s_price y = price_walk rounds (s_walk x, g_price (s_rngs x)) (s_price x).
Proof.
  revert tick x. induction rounds as [|rounds IH]; intros tick x Hx Hret; cbn [seeded_loop sim_loop].
  { exists (λ _, quiet_draws). split; [intros t; exact quiet_drawn|]. split; [done|]. by intros y [= <-]. }
  assert (return_ok (normal_next (s_walk x, g_price (s_rngs x))).1 ∧
    Forall return_ok (walk_returns rounds (normal_next (s_walk x, g_price (s_rngs x))).2)) as [H1 Hret'].
  { cbn [walk_returns] in Hret. destruct (normal_next _) as [ret walk]. by apply Forall_cons in Hret. }
  destruct (seeded_tick_spec num_ticks tick x Hx H1) as (d & Hd & He & Hy).
  destruct (seeded_tick sym clocks num_ticks tick x) as [x1|]; cycle 1.
  { exists (λ _, d). split; [by intros t|]. by rewrite He. }
  destruct (Hy x1 eq_refl) as (Hx1 & Hw & Hk). rewrite <-Hw in Hret'.
  destruct (IH (tick + 1) x1 Hx1 Hret') as (draws & Hdr & Hl & Hprice).
  exists (λ t, if decide (t = tick) then d else draws t). split_and!.
  - intros t. by case_decide.
  - rewrite decide_True, He by done. cbn [fmap option_fmap option_map mbind option_bind]. rewrite <-Hl.
    apply loop_ext. intros t Ht. by rewrite decide_False by lia.
  - intros y Hs. by rewrite (Hprice y Hs), Hk.
Qed.

(** C32: the simulation with its generators, for up to 2^26 ticks, an initial price that is
    not NaN, whatever [std::random_device] returns to the agents and for any distributions
    that keep to the ranges of the standard, if the returns that the price walk draws from
    the seed 42 in this run are finite and none of them is exactly -100%.  It runs to its
    end exactly when it is not asked for two to nine ticks; a run is one with draws that
    are all in their ranges, so that what is proved of runs for arbitrary draws holds of
    it; and the price at its end is that of the price walk from the seed 42, which depends
    on the volatility, the initial price and the number of ticks alone: the agents and the
    device have no influence on it. *)
Theorem seeded_simulation initial_price price_volatility num_ticks device :
  num initial_price → 0 ≤ num_ticks ≤ 2 ^ 26 →
  Forall return_ok (walk_returns (Z.to_nat num_ticks) (normal_new dzero price_volatility, mt_seed 42)) →
  (is_Some (seeded_run sym clocks initial_price price_volatility num_ticks device) ↔ ¬ 2 ≤ num_ticks < 10) ∧
  ∀ x, seeded_run sym clocks initial_price price_volatility num_ticks device = Some x →
    (∃ draws, (∀ t, drawn (draws t)) ∧
       sim_run sym clocks initial_price num_ticks draws = Some (s_world x, s_price x)) ∧
    s_price x = price_walk (Z.to_nat num_ticks) (normal_new dzero price_volatility, mt_seed 42) initial_price.
Proof.
  intros Hp Hn Hret. unfold seeded_run. cbn [Simulation_new].
  destruct (seeded_loop_spec (Z.to_nat num_ticks) num_ticks 0
    (mk_seeded (Simulation_new initial_price).1 initial_price (normal_new dzero price_volatility)
       (Generators_new device))) as (draws & Hd & He & Hprice); [by split; [|apply Generators_new_ok]|exact Hret|].
  assert (sim_run sym clocks initial_price num_ticks draws = observed <$> seeded_loop sym clocks
    (Z.to_nat num_ticks) num_ticks 0 (mk_seeded (Simulation_new initial_price).1 initial_price
    (normal_new dzero price_volatility) (Generators_new device))) as Hrun by exact He.
  split.
  - rewrite <-(simulation_defined sym clocks initial_price num_ticks draws); [|done|apply Hd|done].
    rewrite Hrun. by rewrite fmap_is_Some.
  - intros x Hx. split; [|by apply Hprice]. exists draws. split; [done|].
    rewrite Hrun. cbn [Simulation_new fst] in Hx |- *. by rewrite Hx.
Qed.
End runs.

(** ** Two runs *)

(** The trades, the shares traded and the price of a run of twenty ticks, when the device
    returns numbers from [seed] on. *)
Definition device_from (seed : Z) (i : nat) : Z := seed + Z.of_nat i.

Definition seeded_demo (seed : Z) : option (@SeededState simple_distributions) :=
  @seeded_run simple_distributions "AAPL" sim_clocks (dofZ 150) (dlit 1 3) 20 (device_from seed).

Definition seeded_summary (x : @SeededState simple_distributions) : Z * Z * double :=
  let stats := stats_ (w_engine (s_world x)) in (total_trades stats, total_volume stats, s_price x).

(** Other numbers of the device, other trades, but the same price: as the comment in
    [Simulation::run] says, a run is not reproducible, only its price walk is. *)
Example seeded_runs :
  (λ seed, fst <$> (seeded_summary <$> seeded_demo seed)) <$> [1; 2; 3] = [Some (25, 1610); Some (15, 1140); Some (20, 1250)] ∧
  (snd <$> (seeded_summary <$> seeded_demo 1)) = (snd <$> (seeded_summary <$> seeded_demo 2)).
Proof. vm_compute. done. Qed.

(** The returns of these runs, by computation. *)
Lemma demo_returns :
  Forall return_ok (@walk_returns simple_distributions (Z.to_nat 20)
    (@normal_new simple_distributions dzero (dlit 1 3), mt_seed 42)).
Proof.
  apply Forall_forall. intros r Hr. assert (forallb (λ r, factorb (dadd (dofZ 1) r))
    (@walk_returns simple_distributions (Z.to_nat 20) (@normal_new simple_distributions dzero (dlit 1 3), mt_seed 42)) =
    true) as H by (vm_compute; reflexivity).
  rewrite forallb_forall in H. by apply H, list_elem_of_In.
Qed.

Lemma seeded_simulation_witness :
  ∃ x, seeded_demo 1 = Some x ∧
    (∃ draws, (∀ t, drawn (draws t)) ∧
       sim_run "AAPL" sim_clocks (dofZ 150) 20 draws = Some (s_world x, s_price x)) ∧
    s_price x = @price_walk simple_distributions 20
      (@normal_new simple_distributions dzero (dlit 1 3), mt_seed 42) (dofZ 150).
Proof.
  destruct (@seeded_simulation simple_distributions simple_distribution_laws
    "AAPL" sim_clocks (dofZ 150) (dlit 1 3) 20 (device_from 1)) as [[_ Hdef] Hx]; [done|lia|exact demo_returns|].
  destruct Hdef as [x Hrun]; [lia|]. exists x. split; [exact Hrun|]. exact (Hx x Hrun).
Defined.
