(* ===== verification/Replay.v ===== *)
(** The replay harness: include/replay/ReplayHarness.h and src/replay/ReplayHarness.cpp.

    [replay_event] is one round of the loop of [ReplayHarness::replay] and [replay] the
    loop over the events of a tape.  The counters that the trade callback updates are
    the state of the callback.  The latency histogram and the wall-clock figures are in
    [Harness]; [clocks i] gives the clock during the [i]-th event. *)

From stdpp Require Import base list gmap strings.
From Stdlib Require Import ZArith Lia Ascii.
From S2P Require Import Prelude Machine StdMap Types ObjectPool OrderBook PriceTime.
From S2P Require Import BookInv BookOps MatchingEngine MatchRefine EngineSpec Exchange.
From S2P Require Import RiskChecker Wire Protocol.

Open Scope Z_scope.
Open Scope list_scope.

(** ** Fields of a line *)

(** The characters of a field, as codes. *)
Definition parse_side (field : list byte) : Side :=
  match field with
  | [] => Buy
  | c :: _ => if (c =? 83) || (c =? 115) then Sell else Buy
  end.

Definition parse_type (field : list byte) : OrderType :=
  match field with
  | [] => Limit
  | c :: _ =>
      if (c =? 77) || (c =? 109) then Market
      else if (c =? 73) || (c =? 105) then IOC
      else Limit
  end.

(** The loop of [std::getline(ss, field, sep)]: fields end at a separator; what follows
    the last one is a field only if it is not empty. *)
Fixpoint split_fields (sep : byte) (l : list byte) (field : list byte) : list (list byte) :=
  match l with
  | [] => if decide (field = []) then [] else [field]
  | c :: l => if c =? sep then field :: split_fields sep l [] else split_fields sep l (field ++ [c])
  end.

Definition split_csv (line : list byte) : bool * list (list byte) :=
  let out := split_fields 44 line [] in (negb (bool_decide (out = [])), out).

(** ** Events and results *)

Record ReplayEvent := mk_event {
  ev_timestamp_ns : Z;
  ev_symbol : list byte;
  ev_side : Side;
  ev_type : OrderType;
  ev_price : Price;
  ev_quantity : Quantity;
  ev_action : byte;
  ev_order_id : OrderId;
}.

(** [const std::string symbol(ev.symbol)] *)
Definition event_symbol (ev : ReplayEvent) : string := string_of_chars (until_nul (ev_symbol ev)).

Record ReplayResult := mk_replay_result {
  events_processed : Z;
  new_orders : Z;
  cancels : Z;
  risk_rejections : Z;
}.

(** The variables that the trade callback captures. *)
Record Running := mk_running {
  trades_count : Z;
  volume_running : Quantity;
  notional_running : double;
}.

Definition replay_callback (t : Trade) (r : Running) : Running :=
  mk_running (u64 (trades_count r + 1)) (u32 (volume_running r + trade_quantity t))
    (dadd (notional_running r) (dmul (trade_price t) (dofZ (trade_quantity t)))).

Record Replay := mk_replay {
  re_engine : MatchingEngine;
  re_risk : option RiskChecker;
  re_result : ReplayResult;
  re_id_map : gmap OrderId OrderId;
  re_running : Running;
}.

Definition is_new (c : byte) : bool := (c =? 78) || (c =? 110).
Definition is_cancel (c : byte) : bool := (c =? 67) || (c =? 99).

(** The risk check of a new order; a null checker lets everything pass. *)
Definition replay_gate (ev : ReplayEvent) (rc : option RiskChecker)
    : option (RejectReason * option RiskChecker) :=
  match rc with
  | None => Some (Reason_None, None)
  | Some rc =>
      '(r, rc) ← check (event_symbol ev) (ev_side ev) (ev_type ev) (ev_price ev) (ev_quantity ev) rc;
      Some (r, Some rc)
  end.

Definition replay_event (clock : nat → Timestamp) (ev : ReplayEvent) (st : Replay) : option Replay :=
  let r := re_result st in
  let r := mk_replay_result (u64 (events_processed r + 1)) (new_orders r) (cancels r) (risk_rejections r) in
  if is_new (ev_action ev) then
    let r := mk_replay_result (events_processed r) (u64 (new_orders r + 1)) (cancels r) (risk_rejections r) in
    '(reason, rc) ← replay_gate ev (re_risk st);
    if decide (reason = Reason_None) then
      '(assigned_id, e, run) ←
        submit_order (Some replay_callback) clock (event_symbol ev) (ev_side ev) (ev_type ev)
          (ev_price ev) (ev_quantity ev) (re_engine st) (re_running st);
      Some (mk_replay e rc r
              (if ev_order_id ev =? 0 then re_id_map st
               else <[ev_order_id ev := assigned_id]> (re_id_map st)) run)
    else
      Some (mk_replay (re_engine st) rc
              (mk_replay_result (events_processed r) (new_orders r) (cancels r) (u64 (risk_rejections r + 1)))
              (re_id_map st) (re_running st))
  else if is_cancel (ev_action ev) then
    let r := mk_replay_result (events_processed r) (new_orders r) (u64 (cancels r + 1)) (risk_rejections r) in
    let target := default (ev_order_id ev) (re_id_map st !! ev_order_id ev) in
    '(_, e) ← MatchingEngine.cancel_order (event_symbol ev) target (re_engine st);
    Some (mk_replay e (re_risk st) r (re_id_map st) (re_running st))
  else Some (mk_replay (re_engine st) (re_risk st) r (re_id_map st) (re_running st)).

Fixpoint replay (clocks : nat → nat → Timestamp) (i : nat) (evs : list ReplayEvent) (st : Replay)
    : option Replay :=
  match evs with
  | [] => Some st
  | ev :: evs => st ← replay_event (clocks i) ev st; replay clocks (S i) evs st
  end.

Definition replay_start (e : MatchingEngine) (rc : option RiskChecker) : Replay :=
  mk_replay e rc (mk_replay_result 0 0 0 0) ∅ (mk_running 0 0 dzero).

(** ** The counters *)

(** The callback and the statistics of the engine see the same trades. *)
Lemma replay_callbacks_agree ts run st :
  trades_count run = total_trades st → volume_running run = u32 (total_volume st) →
  notional_running run = total_notional st →
  let run' := notify_all (Some replay_callback) ts run in
  let st' := foldl (λ st t, count_trade t st) st ts in
  trades_count run' = total_trades st' ∧ volume_running run' = u32 (total_volume st') ∧
  notional_running run' = total_notional st'.
Proof.
  unfold notify_all. revert run st. induction ts as [|t ts IH]; intros run st Ht Hv Hn; simpl; [done|].
  apply IH; simpl; [by rewrite Ht| |by rewrite Hn].
  rewrite Hv, u32_add_l. unfold u32, u64.
  rewrite Z.mod_mod_divide; [done|]. by exists (2 ^ 32).
Qed.

(** What holds between two events of a replay that began on a new engine. *)
Record replay_inv (n : Z) (st : Replay) : Prop := {
  ri_engine : engine_ok (re_engine st);
  ri_risk : match re_risk st with Some rc => ∀ sym, position sym rc = 0 | None => True end;
  ri_events : events_processed (re_result st) = u64 n;
  ri_orders : total_orders (stats_ (re_engine st)) =
    u64 (new_orders (re_result st) - risk_rejections (re_result st));
  ri_trades : trades_count (re_running st) = total_trades (stats_ (re_engine st));
  ri_volume : volume_running (re_running st) = u32 (total_volume (stats_ (re_engine st)));
  ri_notional : notional_running (re_running st) = total_notional (stats_ (re_engine st));
  ri_ids sym : next_order_id_ (book_of sym (re_engine st)) ≤ n + 1;
}.

(** The fields of an event that the parser guarantees, and no NaN. *)
Definition event_ok (ev : ReplayEvent) : Prop :=
  0 ≤ ev_quantity ev < 2 ^ 32 ∧ valid_price (ev_type ev) (ev_price ev).

Lemma replay_gate_ok ev rc :
  match rc with Some rc => ∀ sym, position sym rc = 0 | None => True end → event_ok ev →
  ∃ reason rc', replay_gate ev rc = Some (reason, rc') ∧
    match rc' with Some rc => ∀ sym, position sym rc = 0 | None => True end.
Proof.
  intros Hrc [Hq _]. destruct rc as [rc|]; simpl; [|by eauto].
  destruct (check_defined (event_symbol ev) (ev_side ev) (ev_type ev) (ev_price ev) (ev_quantity ev) rc)
    as (r & rc' & Hc); [rewrite Hrc; lia|done|].
  rewrite Hc. simpl. eexists _, _. split; [done|]. simpl. intros sym.
  apply check_frame in Hc. rewrite Hc. apply Hrc.
Qed.

Lemma u64_sub_add x y k : u64 (u64 (x + k) - y) = u64 (u64 (x - y) + k).
Proof.
  unfold u64. rewrite Zplus_mod_idemp_l, Zminus_mod_idemp_l. f_equal. lia.
Qed.

Lemma u64_sub_sub x y : u64 (u64 (x + 1) - u64 (y + 1)) = u64 (x - y).
Proof.
  unfold u64. rewrite Zminus_mod_idemp_l, Zminus_mod_idemp_r. f_equal. lia.
Qed.

(** After a submission the counters of the callback still agree with the engine's. *)
Lemma replay_submit_agrees clock s t p q M oid ts M' e e' run :
  spec_submit clock s t p q M = (oid, ts, M') →
  stats_ e' = submit_stats clock (invalid_order t p q) ts (stats_ e) →
  trades_count run = total_trades (stats_ e) →
  volume_running run = u32 (total_volume (stats_ e)) →
  notional_running run = total_notional (stats_ e) →
  let run' := notify_all (Some replay_callback) ts run in
  total_orders (stats_ e') = u64 (total_orders (stats_ e) + 1) ∧
  trades_count run' = total_trades (stats_ e') ∧
  volume_running run' = u32 (total_volume (stats_ e')) ∧
  notional_running run' = total_notional (stats_ e').
Proof.
  intros Hspec Hst Htr Hvol Hnot. cbv zeta. rewrite Hst. unfold submit_stats.
  destruct (invalid_order _ _ _) eqn:Hinv.
  - unfold spec_submit in Hspec. rewrite Hinv in Hspec. simplify_eq. by split_and!.
  - destruct (replay_callbacks_agree ts run (count_order (stats_ e)) Htr Hvol Hnot) as (-> & -> & ->).
    split; [|done]. unfold count_latency. cbn [total_orders].
    by destruct (count_trades_counts ts (count_order (stats_ e))) as (-> & _).
Qed.

(** A new order that passed the risk check. *)
Lemma replay_new_inv clock ev st n result rc id_map :
  replay_inv n st → event_ok ev → n + 2 < 2 ^ 64 →
  match rc with Some rc => ∀ sym, position sym rc = 0 | None => True end →
  events_processed result = u64 (n + 1) →
  u64 (new_orders result - risk_rejections result) =
    u64 (u64 (new_orders (re_result st) - risk_rejections (re_result st)) + 1) →
  ∃ oid e run,
    submit_order (Some replay_callback) clock (event_symbol ev) (ev_side ev) (ev_type ev)
      (ev_price ev) (ev_quantity ev) (re_engine st) (re_running st) = Some (oid, e, run) ∧
    replay_inv (n + 1) (mk_replay e rc result (id_map oid) run).
Proof.
  intros [He _ _ Hord Htr Hvol Hnot Hids] [Hq Hp] Hn Hrc Hev Hnew.
  destruct (submit_order_spec (Some replay_callback) clock (event_symbol ev) (ev_side ev) (ev_type ev)
    (ev_price ev) (ev_quantity ev) (re_engine st) (re_running st) He (λ _, Hp) Hq)
    as (oid & ts & M' & e' & Hspec & Hs & He' & HM & Hoth & Hst).
  { specialize (Hids (event_symbol ev)). lia. }
  eexists _, _, _. split; [exact Hs|].
  destruct (replay_submit_agrees _ _ _ _ _ _ _ _ _ _ _ _ Hspec Hst Htr Hvol Hnot) as (Ho' & Ht' & Hv' & Hn').
  split; simpl; try done.
  - by rewrite Ho', Hord, Hnew.
  - intros sym. destruct (decide (sym = event_symbol ev)) as [->|Hne];
      [|rewrite Hoth by done; specialize (Hids sym); lia].
    apply submit_id in Hspec as [_ Hnext]. specialize (Hids (event_symbol ev)).
    change (next_order_id_ (book_of ?s e')) with (next_id (market (book_of s e'))).
    rewrite HM, Hnext. simpl. destruct (invalid_order _ _ _); lia.
Qed.

Lemma replay_event_inv clock ev st n :
  replay_inv n st → event_ok ev → n + 2 < 2 ^ 64 →
  ∃ st', replay_event clock ev st = Some st' ∧ replay_inv (n + 1) st'.
Proof.
  intros Hinv Hok Hn. pose proof Hinv as [He Hrc Hev Hord Htr Hvol Hnot Hids]. unfold replay_event.
  assert (u64 (events_processed (re_result st) + 1) = u64 (n + 1)) as Hn1 by (rewrite Hev; apply u64_add_l).
  assert (∀ sym, next_order_id_ (book_of sym (re_engine st)) ≤ n + 1 + 1) as Hids1
    by (intros sym; specialize (Hids sym); lia).
  destruct (is_new (ev_action ev)); [|destruct (is_cancel (ev_action ev))].
  - destruct (replay_gate_ok ev (re_risk st) Hrc Hok) as (reason & rc' & Hg & Hrc').
    rewrite Hg. cbn [mbind option_bind]. case_decide as Hr; cycle 1.
    { eexists. split; [done|]. split; simpl; try done. by rewrite Hord, u64_sub_sub. }
    destruct (replay_new_inv clock ev st n
      (mk_replay_result (u64 (events_processed (re_result st) + 1)) (u64 (new_orders (re_result st) + 1))
        (cancels (re_result st)) (risk_rejections (re_result st))) rc'
      (λ oid, if ev_order_id ev =? 0 then re_id_map st else <[ev_order_id ev := oid]> (re_id_map st)))
      as (oid & e & run & Hs & Hinv'); [done..|apply u64_sub_add|].
    rewrite Hs. cbn [mbind option_bind]. eauto.
  - destruct (cancel_order_engine_spec (event_symbol ev)
      (default (ev_order_id ev) (re_id_map st !! ev_order_id ev)) (re_engine st) He)
      as (r & e' & Hc & Hspec & He' & Hoth & Hst).
    rewrite Hc. cbn [mbind option_bind]. eexists. split; [done|].
    split; simpl; rewrite ?Hst; try done; try (by destruct r).
    intros sym. specialize (Hids sym).
    destruct (decide (sym = event_symbol ev)) as [->|Hne]; [|rewrite Hoth by done; lia].
    pose proof (f_equal (λ x, next_id x.2) Hspec) as Hnext. simpl in Hnext. lia.
  - eexists. split; [done|]. by split.
Qed.

Lemma replay_inv_run clocks i evs st n :
  replay_inv n st → Forall event_ok evs → n + Z.of_nat (length evs) + 1 < 2 ^ 64 →
  ∃ st', replay clocks i evs st = Some st' ∧ replay_inv (n + Z.of_nat (length evs)) st'.
Proof.
  intros Hinv Hevs. revert i st n Hinv. induction Hevs as [|ev evs Hev _ IH]; intros i st n Hinv Hn; simpl.
  { exists st. by rewrite Z.add_0_r. }
  simpl in Hn. destruct (replay_event_inv (clocks i) ev st n Hinv Hev) as (st1 & H1 & Hinv1); [lia|].
  rewrite H1. cbn [mbind option_bind].
  destruct (IH (S i) st1 (n + 1) Hinv1) as (st' & H & Hinv'); [lia|].
  exists st'. split; [done|]. by replace (n + Z.of_nat (S (length evs)))
    with (n + 1 + Z.of_nat (length evs)) by lia.
Qed.

(** Replaying a tape on a new engine runs to the end of the tape, counts every
    event, submits exactly the new orders that risk did not reject, and reports the
    trades, the notional and (modulo 2^32) the volume that the engine recorded. *)
Theorem replay_counts clocks evs rc :
  Forall event_ok evs → Z.of_nat (length evs) + 1 < 2 ^ 64 →
  match rc with Some rc => ∀ sym, position sym rc = 0 | None => True end →
  ∃ st, replay clocks 0 evs (replay_start MatchingEngine_new rc) = Some st ∧
    events_processed (re_result st) = u64 (Z.of_nat (length evs)) ∧
    total_orders (stats_ (re_engine st)) =
      u64 (new_orders (re_result st) - risk_rejections (re_result st)) ∧
    trades_count (re_running st) = total_trades (stats_ (re_engine st)) ∧
    volume_running (re_running st) = u32 (total_volume (stats_ (re_engine st))) ∧
    notional_running (re_running st) = total_notional (stats_ (re_engine st)).
Proof.
  intros Hevs Hlen Hrc.
  destruct (replay_inv_run clocks 0 evs (replay_start MatchingEngine_new rc) 0) as (st & H & Hinv);
    [|done|lia|].
  { by split. }
  exists st. destruct Hinv. by split_and!.
Qed.

Definition sample_tape : list ReplayEvent :=
  [mk_event 1000000000 (chars "AAPL") Buy Limit (dlit 15000 2) 100 78 0;
   mk_event 1000001500 (chars "AAPL") Sell Limit (dlit 15005 2) 80 78 7;
   mk_event 1000002200 (chars "AAPL") Buy Limit (dlit 15005 2) 50 78 0;
   mk_event 1000005000 (chars "AAPL") Buy Limit dzero 0 67 7].

Lemma replay_counts_witness :
  ∃ st, replay (λ i n, Z.of_nat (10 * i + n)) 0 sample_tape
      (replay_start MatchingEngine_new (Some (RiskChecker_new RiskLimits_default))) = Some st ∧
    events_processed (re_result st) = u64 (Z.of_nat (length sample_tape)) ∧
    total_orders (stats_ (re_engine st)) =
      u64 (new_orders (re_result st) - risk_rejections (re_result st)) ∧
    trades_count (re_running st) = total_trades (stats_ (re_engine st)) ∧
    volume_running (re_running st) = u32 (total_volume (stats_ (re_engine st))) ∧
    notional_running (re_running st) = total_notional (stats_ (re_engine st)).
Proof.
  apply replay_counts; [|reflexivity|intros sym; reflexivity].
  unfold sample_tape. repeat (apply Forall_cons_2; [split; [simpl; lia|by right]|]). apply Forall_nil_2.
Defined.

(** ** Lines of a tape *)

(** The line with the given fields. *)
Fixpoint join_csv (fields : list (list byte)) : list byte :=
  match fields with
  | [] => []
  | [f] => f
  | f :: fields => f ++ 44 :: join_csv fields
  end.

Lemma split_fields_app sep f l acc :
  Forall (λ c, c ≠ sep) f → split_fields sep (f ++ l) acc = split_fields sep l (acc ++ f).
Proof.
  intros Hf. revert acc. induction Hf as [|c f Hc _ IH]; intros acc; simpl; [by rewrite app_nil_r|].
  destruct (Z.eqb_spec c sep); [done|]. by rewrite IH, <-app_assoc.
Qed.

(** Fields that are each followed by a comma. *)
Lemma split_fields_terminated sep fields l :
  Forall (Forall (λ c, c ≠ sep)) fields →
  split_fields sep (concat ((λ f, f ++ [sep]) <$> fields) ++ l) [] = fields ++ split_fields sep l [].
Proof.
  induction 1 as [|f fields Hf _ IH]; [done|]. csimpl.
  rewrite <-!app_assoc, split_fields_app by done. simpl. by rewrite Z.eqb_refl, IH.
Qed.

Lemma join_csv_snoc fields f :
  join_csv (fields ++ [f]) = concat ((λ f, f ++ [44]) <$> fields) ++ f.
Proof.
  induction fields as [|g fields IH]; [done|]. csimpl. rewrite <-app_assoc. simpl.
  destruct (fields ++ [f]) eqn:E; [by destruct fields|].
  by rewrite IH, <-app_assoc.
Qed.

Lemma split_join fields last :
  Forall (Forall (λ c, c ≠ 44)) fields → Forall (λ c, c ≠ 44) last →
  split_fields 44 (join_csv (fields ++ [last])) [] =
    fields ++ (if decide (last = []) then [] else [last]).
Proof.
  intros Hf Hl. rewrite join_csv_snoc, split_fields_terminated by done.
  pose proof (split_fields_app 44 last [] [] Hl) as Hs. rewrite app_nil_r in Hs. by rewrite Hs.
Qed.

(** Splitting a line at its commas gives back its fields when the last one is not
    empty; an empty last field is lost, so a line that ends in a comma comes out one
    field short. *)
Theorem csv_roundtrip fields last :
  Forall (Forall (λ c, c ≠ 44)) fields → Forall (λ c, c ≠ 44) last →
  split_csv (join_csv (fields ++ [last])) =
    if decide (last = []) then (negb (bool_decide (fields = [])), fields)
    else (true, fields ++ [last]).
Proof.
  intros Hf Hl. unfold split_csv. rewrite split_join by done.
  case_decide as E; [by rewrite app_nil_r|]. rewrite bool_decide_eq_false_2; [done|].
  by destruct fields.
Qed.

(** A row of the documented format without an order id. *)
Lemma csv_roundtrip_witness :
  split_csv (join_csv ([chars "1000"; chars "AAPL"; chars "B"; chars "L"; chars "150.00"; chars "100";
    chars "N"] ++ [[]])) =
    if decide ([] = ([] : list byte))
    then (negb (bool_decide ([chars "1000"; chars "AAPL"; chars "B"; chars "L"; chars "150.00";
            chars "100"; chars "N"] = [])),
          [chars "1000"; chars "AAPL"; chars "B"; chars "L"; chars "150.00"; chars "100"; chars "N"])
    else (true, [chars "1000"; chars "AAPL"; chars "B"; chars "L"; chars "150.00"; chars "100";
            chars "N"] ++ [[]]).
Proof. apply csv_roundtrip; vm_compute; repeat constructor; discriminate. Defined.
