(* ===== verification/Tape.v ===== *)
(** The tape reader: [TapeReader] and the loop of [ReplayHarness::replay] over it
    (src/replay/ReplayHarness.cpp).

    A file is its characters.  [parse_row] is the [try] block of [TapeReader::next]; a
    row that throws, or has fewer than eight fields, is skipped.  [replay_tape] is the
    loop that reads and executes events; it has one round for each line and one more. *)

From stdpp Require Import base list gmap strings.
From Stdlib Require Import ZArith Lia.
From S2P Require Import Prelude Machine StdMap Types ObjectPool OrderBook PriceTime.
From S2P Require Import BookInv BookOps MatchingEngine MatchRefine EngineSpec Exchange.
From S2P Require Import RiskChecker Wire Numbers Protocol Format Replay.

Open Scope Z_scope.
Open Scope list_scope.

(** ** Rows *)

(** [memset] to zero, then [strncpy] of at most [sizeof(symbol) - 1] characters. *)
Definition tape_symbol (field : list byte) : list byte :=
  let l := take 15 (until_nul field) in l ++ replicate (16 - length l) 0.

Definition parse_row (fields : list (list byte)) : option ReplayEvent :=
  match fields with
  | f0 :: f1 :: f2 :: f3 :: f4 :: f5 :: f6 :: f7 :: _ =>
      timestamp ← stoll f0;
      price ← (if decide (f4 = []) then Some dzero else stod f4);
      quantity ← (if decide (f5 = []) then Some 0 else q ← stoull f5; Some (u32 q));
      order_id ← (if decide (f7 = []) then Some 0 else stoull f7);
      Some (mk_event timestamp (tape_symbol f1) (parse_side f2) (parse_type f3) price quantity
              (match f6 with [] => 78 | c :: _ => c end) order_id)
  | _ => None
  end.

(** One round of the loop of [TapeReader::next]: the event of a line, if it has one. *)
Definition parse_line (line : list byte) : option ReplayEvent :=
  if decide (line = []) then None
  else
    let '(ok, fields) := split_csv line in
    if negb ok || (length fields <? 8)%nat then None else parse_row fields.

(** ** The reader *)

Record TapeReader := mk_reader {
  file_ : list (list byte);
  count_ : Z;
}.

(** The lines of a file; the constructor discards the first. *)
Definition TapeReader_new (content : list byte) : TapeReader :=
  mk_reader (drop 1 (split_fields 10 content [])) 0.

Fixpoint next_line (lines : list (list byte)) (count : Z) : option (ReplayEvent * TapeReader) :=
  match lines with
  | [] => None
  | line :: lines =>
      match parse_line line with
      | Some ev => Some (ev, mk_reader lines (u64 (count + 1)))
      | None => next_line lines count
      end
  end.

Definition next (r : TapeReader) : option (ReplayEvent * TapeReader) := next_line (file_ r) (count_ r).

(** The loop [while (reader.next(ev))]. *)
Fixpoint replay_tape (fuel : nat) (clocks : nat → nat → Timestamp) (i : nat) (r : TapeReader)
    (st : Replay) : option (TapeReader * Replay) :=
  match fuel with
  | O => None
  | S fuel =>
      match next r with
      | None => Some (r, st)
      | Some (ev, r) => st ← replay_event (clocks i) ev st; replay_tape fuel clocks (S i) r st
      end
  end.

(** [ReplayHarness::replay] on the file [content]. *)
Definition replay_file (clocks : nat → nat → Timestamp) (content : list byte) (e : MatchingEngine)
    (rc : option RiskChecker) : option (TapeReader * Replay) :=
  let r := TapeReader_new content in
  replay_tape (S (length (file_ r))) clocks 0 r (replay_start e rc).

(** ** Reading a tape is reading its rows *)

(** The events of a file. *)
Definition tape_events (content : list byte) : list ReplayEvent :=
  omap parse_line (drop 1 (split_fields 10 content [])).

Lemma next_line_spec lines count :
  match next_line lines count with
  | None => omap parse_line lines = []
  | Some (ev, r) => omap parse_line lines = ev :: omap parse_line (file_ r) ∧
                    (length (file_ r) < length lines)%nat ∧ count_ r = u64 (count + 1)
  end.
Proof.
  induction lines as [|line lines IH]; [done|]. cbn [next_line]. csimpl.
  destruct (parse_line line) as [ev|]; [split_and!; simpl; auto with lia|].
  destruct (next_line lines count) as [[ev r]|]; [|done]. destruct IH as (H1 & H2 & H3).
  split_and!; [done|lia|done].
Qed.

Lemma replay_tape_spec fuel clocks i r st :
  (length (file_ r) < fuel)%nat →
  snd <$> replay_tape fuel clocks i r st = replay clocks i (omap parse_line (file_ r)) st.
Proof.
  revert i r st. induction fuel as [|fuel IH]; intros i r st Hf; [lia|].
  cbn [replay_tape]. unfold next. pose proof (next_line_spec (file_ r) (count_ r)) as H.
  destruct (next_line (file_ r) (count_ r)) as [[ev r']|]; [|by rewrite H].
  destruct H as (-> & Hlen & _). cbn [replay]. destruct (replay_event (clocks i) ev st) as [st'|]; [|done].
  cbn [mbind option_bind]. apply IH. lia.
Qed.

Lemma parse_row_quantity fields ev : parse_row fields = Some ev → 0 ≤ ev_quantity ev < 2 ^ 32.
Proof.
  intros H. do 8 (destruct fields as [|? fields]; [done|]). cbn [parse_row] in H.
  apply bind_Some in H as (ts & _ & H). apply bind_Some in H as (p & _ & H).
  apply bind_Some in H as (q & Hq & H). apply bind_Some in H as (oid & _ & [= <-]). simpl.
  case_decide; [by simplify_eq|]. apply bind_Some in Hq as (q' & _ & [= <-]). apply u32_range.
Qed.

Lemma tape_events_quantity content : Forall (λ ev, 0 ≤ ev_quantity ev < 2 ^ 32) (tape_events content).
Proof.
  apply Forall_forall. intros ev (line & _ & Hev)%list_elem_of_omap.
  unfold parse_line in Hev. case_decide; [done|]. destruct (split_csv line) as [ok fields].
  destruct (_ || _); [done|]. by eapply parse_row_quantity.
Qed.

(** Replaying any file on a new engine runs to its end, whatever the file holds, if no
    limit or IOC order of it has the price NaN: the reader skips the lines it cannot
    parse, every other line is an event, and the counters agree with the engine's. *)
Theorem replay_any_file clocks content rc :
  Forall (λ ev, valid_price (ev_type ev) (ev_price ev)) (tape_events content) →
  Z.of_nat (length (tape_events content)) + 1 < 2 ^ 64 →
  match rc with Some rc => ∀ sym, position sym rc = 0 | None => True end →
  ∃ r st, replay_file clocks content MatchingEngine_new rc = Some (r, st) ∧
    events_processed (re_result st) = u64 (Z.of_nat (length (tape_events content))) ∧
    total_orders (stats_ (re_engine st)) =
      u64 (new_orders (re_result st) - risk_rejections (re_result st)) ∧
    trades_count (re_running st) = total_trades (stats_ (re_engine st)).
Proof.
  intros Hp Hlen Hrc.
  assert (Forall event_ok (tape_events content)) as Hok.
  { pose proof (tape_events_quantity content) as Hq. rewrite Forall_forall in Hp, Hq |- *.
    intros ev Hev. split; auto. }
  destruct (replay_inv_run clocks 0 (tape_events content) (replay_start MatchingEngine_new rc) 0)
    as (st & Hst & Hinv); [by split|done|lia|].
  unfold replay_file. set (r := TapeReader_new content) in *.
  pose proof (replay_tape_spec (S (length (file_ r))) clocks 0 r (replay_start MatchingEngine_new rc)) as H.
  unfold tape_events in Hst. change (drop 1 _) with (file_ r) in Hst. rewrite Hst in H.
  destruct (replay_tape _ _ _ _ _) as [[r' st']|]; [|by specialize (H ltac:(lia))].
  specialize (H ltac:(lia)). simpl in H. simplify_eq. exists r', st. destruct Hinv. by split_and!.
Qed.

(** ** Printed tapes *)

(** A row as it is written to a tape: the price, the side and the type are text. *)
Record TapeRow := mk_row {
  row_timestamp : Z;
  row_symbol : list byte;
  row_side : list byte;
  row_type : list byte;
  row_price : list byte;
  row_quantity : Z;
  row_action : byte;
  row_order_id : Z;
}.

Definition print_row (r : TapeRow) : list byte :=
  join_csv ([dec_signed (row_timestamp r); row_symbol r; row_side r; row_type r; row_price r;
             dec (row_quantity r); [row_action r]] ++ [dec (row_order_id r)]).

Definition print_tape (header : list byte) (rows : list TapeRow) : list byte :=
  concat ((λ l, l ++ [10]) <$> (header :: (print_row <$> rows))).

(** Text without commas and newlines. *)
Definition plain (l : list byte) : Prop := Forall (λ c, c ≠ 44 ∧ c ≠ 10) l.

(** The fields of a row are in the range of their types, and its price is a number in
    text, or empty for 0. *)
Record row_ok (r : TapeRow) (p : Price) : Prop := {
  rok_timestamp : - 2 ^ 63 ≤ row_timestamp r < 2 ^ 63;
  rok_symbol : plain (row_symbol r) ∧ Forall (λ c, c ≠ 0) (row_symbol r) ∧ (length (row_symbol r) ≤ 15)%nat;
  rok_side : plain (row_side r);
  rok_type : plain (row_type r);
  rok_price : plain (row_price r) ∧
    (if decide (row_price r = []) then Some dzero else stod (row_price r)) = Some p;
  rok_quantity : 0 ≤ row_quantity r < 2 ^ 32;
  rok_action : plain [row_action r];
  rok_order_id : 0 ≤ row_order_id r < 2 ^ 64;
}.

(** The event that a row stands for. *)
Definition row_event (r : TapeRow) (p : Price) : ReplayEvent :=
  mk_event (row_timestamp r) (row_symbol r ++ replicate (16 - length (row_symbol r)) 0)
    (parse_side (row_side r)) (parse_type (row_type r)) p (row_quantity r) (row_action r)
    (row_order_id r).

Lemma is_digit_plain l : Forall is_digit l → plain l.
Proof. intros H. eapply Forall_impl; [exact H|]. unfold is_digit. intros c Hc. lia. Qed.

Lemma dec_plain n : 0 ≤ n → plain (dec n).
Proof. intros Hn. by apply is_digit_plain, dec_is_digits. Qed.

Lemma dec_signed_plain z : plain (dec_signed z).
Proof.
  unfold dec_signed. destruct (Z.ltb_spec z 0); [|by apply dec_plain].
  constructor; [done|]. apply dec_plain. lia.
Qed.

(** The fields of a row, before the last. *)
Definition front_fields (r : TapeRow) : list (list byte) :=
  [dec_signed (row_timestamp r); row_symbol r; row_side r; row_type r; row_price r;
   dec (row_quantity r); [row_action r]].

Lemma row_fields_plain r p : row_ok r p → Forall plain (front_fields r) ∧ plain (dec (row_order_id r)).
Proof.
  intros [Hts (Hsym & _) Hside Htype (Hprice & _) Hq Hact Hid].
  split; [|apply dec_plain; lia]. unfold front_fields.
  repeat (apply Forall_cons_2; [first [done|apply dec_signed_plain|apply dec_plain; lia]|]). constructor.
Qed.

Lemma join_csv_Forall (P : byte → Prop) fields :
  P 44 → Forall (Forall P) fields → Forall P (join_csv fields).
Proof.
  intros HP. induction 1 as [|f fields Hf Hfs IH]; simpl; [constructor|].
  destruct fields; [done|]. apply Forall_app. auto.
Qed.

Lemma until_nul_none l : Forall (λ c, c ≠ 0) l → until_nul l = l.
Proof.
  induction 1 as [|c l Hc _ IH]; [done|]. simpl. rewrite (proj2 (Z.eqb_neq c 0)) by done. by rewrite IH.
Qed.

Lemma parse_row_fields r p :
  row_ok r p → parse_row (front_fields r ++ [dec (row_order_id r)]) = Some (row_event r p).
Proof.
  intros [Hts (_ & Hnul & Hlen) _ _ (_ & Hp) Hq _ Hid]. unfold front_fields. cbn [app parse_row].
  rewrite stoll_dec by done. cbn [mbind option_bind]. rewrite Hp. cbn [mbind option_bind].
  destruct (dec_nonempty (row_quantity r)) as (c & l & Hc).
  destruct (dec_nonempty (row_order_id r)) as (c' & l' & Hc').
  pose proof (stoull_dec (row_quantity r)) as Hsq. pose proof (stoull_dec (row_order_id r)) as Hsi.
  rewrite Hc in *. rewrite Hc' in *. rewrite !(decide_False (P := _ :: _ = [])) by done.
  rewrite Hsq, Hsi by lia. cbn [mbind option_bind]. unfold row_event, tape_symbol.
  by rewrite until_nul_none, take_ge, u32_small by done.
Qed.

Lemma parse_print_row r p : row_ok r p → parse_line (print_row r) = Some (row_event r p).
Proof.
  intros Hr. destruct (row_fields_plain r p Hr) as [Hf Hl].
  destruct (dec_nonempty (row_order_id r)) as (c & l & Hc).
  assert (split_fields 44 (print_row r) [] = front_fields r ++ [dec (row_order_id r)]) as Hs.
  { unfold print_row. fold (front_fields r). rewrite split_join.
    - by rewrite decide_False by (by rewrite Hc).
    - eapply Forall_impl; [exact Hf|]. intros f H. eapply Forall_impl; [exact H|]. by intros ? [].
    - eapply Forall_impl; [exact Hl|]. by intros ? []. }
  unfold parse_line. rewrite decide_False by (intros E; rewrite E in Hs; done).
  unfold split_csv. rewrite Hs. simpl. by apply parse_row_fields.
Qed.

Lemma print_tape_events header rows prices :
  Forall (λ c, c ≠ 10) header → Forall2 row_ok rows prices →
  tape_events (print_tape header rows) = zip_with row_event rows prices.
Proof.
  intros Hh Hrows. unfold tape_events, print_tape.
  pose proof (split_fields_terminated 10 (header :: (print_row <$> rows)) []) as H.
  rewrite app_nil_r in H. rewrite H; clear H.
  - cbn [app drop split_fields]. rewrite decide_True by done. rewrite app_nil_r, drop_0.
    induction Hrows as [|r p rows prices Hr _ IH]; [done|]. csimpl. by rewrite (parse_print_row r p), IH.
  - constructor; [done|]. apply Forall_fmap.
    induction Hrows as [|r p rows prices Hr _ IH]; constructor; [|done].
    destruct (row_fields_plain r p Hr) as [Hf Hl]. apply join_csv_Forall; [done|].
    apply Forall_app. split; [|constructor; [|constructor]].
    + eapply Forall_impl; [exact Hf|]. intros f H. eapply Forall_impl; [exact H|]. by intros ? [].
    + eapply Forall_impl; [exact Hl|]. by intros ? [].
Qed.

(** C30: a tape that was printed is read back: replaying the file with a header and the rows
    executes exactly the events the rows stand for, in their order. *)
Theorem tape_roundtrip clocks header rows prices e rc :
  Forall (λ c, c ≠ 10) header → Forall2 row_ok rows prices →
  snd <$> replay_file clocks (print_tape header rows) e rc =
    replay clocks 0 (zip_with row_event rows prices) (replay_start e rc).
Proof.
  intros Hh Hrows. rewrite <-(print_tape_events header) by done. unfold replay_file.
  by rewrite replay_tape_spec by lia.
Qed.

(** The header and two rows of the documented example. *)
Definition tape_header : list byte :=
  chars "timestamp_ns,symbol,side,type,price,quantity,action,order_id".
Definition example_rows : list TapeRow :=
  [mk_row 1000001500 (chars "AAPL") (chars "S") (chars "L") (chars "150.05") 80 78 2;
   mk_row 1000005000 (chars "AAPL") [] [] [] 0 67 2].

Lemma example_rows_ok : Forall2 row_ok example_rows [dlit 15005 2; dzero].
Proof.
  repeat (apply Forall2_cons_2 || apply Forall2_nil_2); split; simpl; try lia;
    split_and?; try (repeat constructor; discriminate); try lia; by vm_compute.
Qed.

Lemma tape_roundtrip_witness :
  snd <$> replay_file (λ i n, Z.of_nat (10 * i + n)) (print_tape tape_header example_rows)
    MatchingEngine_new None =
  replay (λ i n, Z.of_nat (10 * i + n)) 0 (zip_with row_event example_rows [dlit 15005 2; dzero])
    (replay_start MatchingEngine_new None).
Proof. apply tape_roundtrip; [repeat constructor; discriminate|exact example_rows_ok]. Defined.

(** The tape data/sample_tape.csv. *)
Definition sample_csv : string :=
"timestamp_ns,symbol,side,type,price,quantity,action,order_id
1000000000,AAPL,B,L,150.00,100,N,1
1000001500,AAPL,S,L,150.05,80,N,2
1000002200,AAPL,B,L,150.05,50,N,3
1000003100,AAPL,B,L,149.95,200,N,4
1000004000,AAPL,S,L,150.10,300,N,5
1000005000,AAPL,,,,,C,2
1000006000,AAPL,S,L,150.00,75,N,6
1000007200,AAPL,B,L,150.00,150,N,7
1000008100,AAPL,S,M,0,40,N,8
1000009000,AAPL,B,L,149.90,500,N,9
1000010500,AAPL,S,L,149.95,250,N,10
1000011700,AAPL,B,I,150.00,1000,N,11
1000012900,AAPL,S,L,150.20,400,N,12
1000013500,AAPL,B,L,150.15,200,N,13
1000014800,AAPL,,,,,C,5
1000016000,AAPL,B,L,150.10,100,N,14
1000017500,AAPL,S,L,150.10,300,N,15
1000019000,AAPL,B,L,150.10,150,N,16
1000020800,AAPL,S,L,150.05,200,N,17
1000022000,AAPL,B,M,0,80,N,18
1000023700,AAPL,S,L,150.15,500,N,19
1000025100,AAPL,B,L,150.00,1200,N,20
1000026900,AAPL,S,L,150.20,800,N,21
1000028500,AAPL,B,L,150.18,300,N,22
1000030200,AAPL,,,,,C,9
1000031800,AAPL,B,L,150.05,400,N,23
1000033500,AAPL,S,L,150.05,200,N,24
1000035100,AAPL,B,L,149.98,600,N,25
1000037000,AAPL,S,L,149.99,400,N,26
1000039200,AAPL,B,M,0,150,N,27
1000041500,AAPL,S,L,150.25,1000,N,28
1000043800,AAPL,B,L,150.20,500,N,29
1000045900,AAPL,S,L,150.10,700,N,30
1000048000,AAPL,B,L,150.08,1500,N,31
1000050500,AAPL,,,,,C,19
1000052700,MSFT,B,L,420.00,200,N,32
1000054200,MSFT,S,L,420.10,150,N,33
1000056100,MSFT,B,L,420.10,100,N,34
1000058300,MSFT,B,L,419.90,500,N,35
1000060500,MSFT,S,L,420.20,800,N,36
1000062800,AAPL,B,L,150.06,250,N,37
1000064900,AAPL,S,L,150.06,250,N,38
1000067200,MSFT,B,L,420.10,300,N,39
1000069400,MSFT,S,M,0,120,N,40
1000071800,AAPL,B,L,150.15,800,N,41
1000074100,AAPL,S,L,150.15,500,N,42
1000076500,AAPL,S,L,150.18,600,N,43
1000079000,AAPL,B,I,150.20,2000,N,44
1000081500,AAPL,S,L,150.30,1500,N,45
1000084200,MSFT,B,L,420.15,400,N,46
1000086900,MSFT,S,L,420.15,400,N,47
".

Lemma replay_any_file_witness :
  ∃ r st, replay_file (λ i n, Z.of_nat (10 * i + n)) (chars sample_csv) MatchingEngine_new
      (Some (RiskChecker_new RiskLimits_default)) = Some (r, st) ∧
    events_processed (re_result st) = u64 (Z.of_nat (length (tape_events (chars sample_csv)))) ∧
    total_orders (stats_ (re_engine st)) =
      u64 (new_orders (re_result st) - risk_rejections (re_result st)) ∧
    trades_count (re_running st) = total_trades (stats_ (re_engine st)).
Proof.
  apply replay_any_file; [|by vm_compute|intros sym; reflexivity].
  apply (bool_decide_unpack _). by vm_compute.
Defined.

(** The figures of the README for this tape: 51 events, 30 trades, 47 risk checks. *)
Example sample_tape_figures :
  ('(r, st) ← replay_file (λ i n, Z.of_nat (10 * i + n)) (chars sample_csv) MatchingEngine_new
                (Some (RiskChecker_new RiskLimits_default));
   Some (count_ r, events_processed (re_result st), trades_count (re_running st),
         total_checks <$> (risk_stats_ <$> re_risk st))) =
  Some (51, 51, 30, Some 47).
Proof. vm_compute. reflexivity. Qed.

(** A quantity that does not fit its 32 bits is cut down, and a negative one is taken
    modulo 2^32: these rows order 1 and 4294967291 shares. *)
Example quantity_cut_down :
  (λ l, ev_quantity <$> parse_line (chars l)) <$>
    ["1000,AAPL,B,L,150.00,4294967297,N,1"; "1000,AAPL,B,L,150.00,-5,N,1"]%string =
  [Some 1; Some 4294967291].
Proof. vm_compute. reflexivity. Qed.
