(* ===== verification/Harness.v ===== *)
(** [ReplayHarness] with its clock: include/replay/ReplayHarness.h and the whole of
    [ReplayHarness::replay] of src/replay/ReplayHarness.cpp, on top of [Replay] and [Tape].

    [lats i] is what the steady clock measured around the engine call of the [i]-th
    event, [dur] the time of the whole replay.  [timed_tape] is the loop of the source
    with the histogram; [replay_report] fills the result.  The main result is that the
    outcome of a replay does not depend on any clock, which is what makes a tape a
    regression test. *)

From stdpp Require Import base list gmap strings.
From Stdlib Require Import ZArith Lia.
From S2P Require Import Prelude Machine StdMap Types ObjectPool OrderBook PriceTime.
From S2P Require Import BookInv BookOps MatchingEngine MatchRefine EngineSpec Exchange Determinism.
From S2P Require Import RiskChecker Wire Protocol LatencyHistogram Replay Tape.

Open Scope Z_scope.
Open Scope list_scope.

Section harness.
Context `{Hdr}.

Record ReplayHarness := mk_harness {
  ha_engine : MatchingEngine;
  ha_risk : option RiskChecker;
  ha_latency : hdr_histogram;
}.

(** The constructor, with the default arguments of the histogram; [None] when that throws. *)
Definition ReplayHarness_new (e : MatchingEngine) (rc : option RiskChecker) : option ReplayHarness :=
  h ← hdr_init 1 60000000000 3; Some (mk_harness e rc h).

(** Does the event reach the engine, between two readings of the clock? *)
Definition measured (ev : ReplayEvent) (st : Replay) : bool :=
  if is_new (ev_action ev) then
    match replay_gate ev (re_risk st) with
    | Some (reason, _) => bool_decide (reason = Reason_None)
    | None => false
    end
  else is_cancel (ev_action ev).

(** [if (latency_ns > 0) latency_.record(latency_ns)] *)
Definition record_latency (lat : Z) (h : hdr_histogram) : hdr_histogram :=
  if lat >? 0 then record_hdr lat h else h.

Definition timed_event (lat : Z) (clock : nat → Timestamp) (ev : ReplayEvent)
    (x : Replay * hdr_histogram) : option (Replay * hdr_histogram) :=
  let '(st, h) := x in
  st' ← replay_event clock ev st;
  Some (st', if measured ev st then record_latency lat h else h).

Fixpoint timed_tape (fuel : nat) (clocks : nat → nat → Timestamp) (lats : nat → Z) (i : nat)
    (r : TapeReader) (x : Replay * hdr_histogram) : option (TapeReader * (Replay * hdr_histogram)) :=
  match fuel with
  | O => None
  | S fuel =>
      match next r with
      | None => Some (r, x)
      | Some (ev, r) => x ← timed_event (lats i) (clocks i) ev x; timed_tape fuel clocks lats (S i) r x
      end
  end.

(** All fields of the result. *)
Record ReplayReport := mk_replay_report {
  rr_result : ReplayResult;
  trades_generated : Z;
  volume_traded : Quantity;
  notional_traded : double;
  total_duration_ns : Z;
  throughput_ops_per_sec : double;
  latency_min_ns : Z;
  latency_p50_ns : Z;
  latency_p99_ns : Z;
  latency_p999_ns : Z;
  latency_max_ns : Z;
  latency_mean_ns : double;
}.

(** The end of [replay], behind the loop. *)
Definition replay_report (dur : Z) (st : Replay) (h : hdr_histogram) : ReplayReport :=
  let some := hdr_total_count h >? 0 in
  {| rr_result := re_result st;
     trades_generated := trades_count (re_running st);
     volume_traded := volume_running (re_running st);
     notional_traded := notional_running (re_running st);
     total_duration_ns := dur;
     throughput_ops_per_sec :=
       if dur >? 0
       then ddiv (dmul (dofZ (events_processed (re_result st))) (dofZ 1000000000)) (dofZ dur)
       else dzero;
     latency_min_ns := if some then hdr_min h else 0;
     latency_p50_ns := if some then hdr_value_at_percentile h (dlit 500 1) else 0;
     latency_p99_ns := if some then hdr_value_at_percentile h (dlit 990 1) else 0;
     latency_p999_ns := if some then hdr_value_at_percentile h (dlit 999 1) else 0;
     latency_max_ns := if some then hdr_max h else 0;
     latency_mean_ns := if some then hdr_mean h else dzero |}.

Definition harness_replay (clocks : nat → nat → Timestamp) (lats : nat → Z) (dur : Z)
    (content : list byte) (ha : ReplayHarness) : option (ReplayReport * ReplayHarness) :=
  let r := TapeReader_new content in
  '(_, (st, h)) ← timed_tape (S (length (file_ r))) clocks lats 0 r
                    (replay_start (ha_engine ha) (ha_risk ha), ha_latency ha);
  Some (replay_report dur st h, mk_harness (re_engine st) (re_risk st) h).

(** ** The samples of a replay *)

(** Over the events of a tape instead of its lines. *)
Fixpoint timed_replay (clocks : nat → nat → Timestamp) (lats : nat → Z) (i : nat)
    (evs : list ReplayEvent) (x : Replay * hdr_histogram) : option (Replay * hdr_histogram) :=
  match evs with
  | [] => Some x
  | ev :: evs => x ← timed_event (lats i) (clocks i) ev x; timed_replay clocks lats (S i) evs x
  end.

Lemma timed_tape_spec fuel clocks lats i r x :
  (length (file_ r) < fuel)%nat →
  snd <$> timed_tape fuel clocks lats i r x = timed_replay clocks lats i (omap parse_line (file_ r)) x.
Proof.
  revert i r x. induction fuel as [|fuel IH]; intros i r x Hf; [lia|].
  cbn [timed_tape]. unfold next. pose proof (next_line_spec (file_ r) (count_ r)) as Hn.
  destruct (next_line (file_ r) (count_ r)) as [[ev r']|]; [|by rewrite Hn].
  destruct Hn as (-> & Hlen & _). cbn [timed_replay]. destruct (timed_event _ _ _ _) as [x'|]; [|done].
  cbn [mbind option_bind]. apply IH. lia.
Qed.

(** The latencies of the events that are measured. *)
Fixpoint samples (clocks : nat → nat → Timestamp) (lats : nat → Z) (i : nat)
    (evs : list ReplayEvent) (st : Replay) : list Z :=
  match evs with
  | [] => []
  | ev :: evs =>
      (if measured ev st then [lats i] else []) ++
      match replay_event (clocks i) ev st with Some st => samples clocks lats (S i) evs st | None => [] end
  end.

(** Measuring changes nothing but the histogram, which gets the positive samples. *)
Lemma timed_replay_spec clocks lats i evs st h :
  timed_replay clocks lats i evs (st, h) =
  (λ st', (st', foldl (λ h v, record_hdr v h) h (filter (λ v, 0 < v) (samples clocks lats i evs st)))) <$>
    replay clocks i evs st.
Proof.
  revert i st h. induction evs as [|ev evs IH]; intros i st h; [done|].
  cbn [timed_replay timed_event samples replay]. destruct (replay_event (clocks i) ev st) as [st'|]; [|done].
  cbn [mbind option_bind]. rewrite IH. destruct (replay clocks (S i) evs st') as [st''|]; [|done].
  simpl. rewrite filter_app, foldl_app. do 3 f_equal. unfold record_latency.
  destruct (measured ev st); [|done]. rewrite filter_cons.
  destruct (Z.gtb_spec (lats i) 0); [rewrite decide_True by lia|rewrite decide_False by lia]; done.
Qed.

(** Every event that is measured is counted as a submission or a cancellation. *)
Lemma replay_event_measured clock ev st st' :
  replay_event clock ev st = Some st' →
  u64 (new_orders (re_result st') - risk_rejections (re_result st') + cancels (re_result st')) =
  u64 (new_orders (re_result st) - risk_rejections (re_result st) + cancels (re_result st) +
       (if measured ev st then 1 else 0)).
Proof.
  unfold replay_event, measured. destruct (is_new (ev_action ev)); [|destruct (is_cancel (ev_action ev))].
  - destruct (replay_gate ev (re_risk st)) as [[reason rc]|]; [|done]. cbn [mbind option_bind].
    case_decide as Hr; [rewrite bool_decide_eq_true_2 by done|rewrite bool_decide_eq_false_2 by done].
    + intros ([[oid e] run] & _ & [= <-])%bind_Some. simpl. unfold u64.
      rewrite (Zplus_mod (_ - _)), Zminus_mod_idemp_l, <-Zplus_mod. f_equal. lia.
    + intros [= <-]. simpl. unfold u64. rewrite (Zplus_mod (_ - _)), Zminus_mod_idemp_l,
        Zminus_mod_idemp_r, <-Zplus_mod. f_equal. lia.
  - intros ([r e] & _ & [= <-])%bind_Some. simpl. unfold u64. rewrite Zplus_mod_idemp_r. f_equal. lia.
  - intros [= <-]. simpl. f_equal. lia.
Qed.

Lemma samples_count clocks lats i evs st st' :
  replay clocks i evs st = Some st' →
  u64 (new_orders (re_result st') - risk_rejections (re_result st') + cancels (re_result st')) =
  u64 (new_orders (re_result st) - risk_rejections (re_result st) + cancels (re_result st) +
       Z.of_nat (length (samples clocks lats i evs st))).
Proof.
  revert i st. induction evs as [|ev evs IH]; intros i st Hr; cbn [replay samples] in *.
  { injection Hr as ->. simpl. f_equal. lia. }
  destruct (replay_event (clocks i) ev st) as [st1|] eqn:E; [|done]. cbn [mbind option_bind] in Hr.
  rewrite (IH _ _ Hr), length_app. apply replay_event_measured in E. unfold u64 in *.
  rewrite <-Zplus_mod_idemp_l, E, Zplus_mod_idemp_l. f_equal. destruct (measured ev st); simpl; lia.
Qed.

Lemma samples_length clocks lats i evs st : (length (samples clocks lats i evs st) ≤ length evs)%nat.
Proof.
  revert i st. induction evs as [|ev evs IH]; intros i st; cbn [samples]; [done|]. rewrite length_app.
  destruct (replay_event (clocks i) ev st) as [st1|]; [specialize (IH (S i) st1)|];
    destruct (measured ev st); simpl; lia.
Qed.

Lemma samples_all (P : Z → Prop) clocks lats i evs st :
  (∀ i, P (lats i)) → Forall P (samples clocks lats i evs st).
Proof.
  intros HP. revert i st. induction evs as [|ev evs IH]; intros i st; cbn [samples]; [constructor|].
  apply Forall_app. split; [destruct (measured ev st); auto|]. destruct (replay_event _ _ _); auto.
Qed.

(** ** Replays under different clocks *)

Record same_replay (st st' : Replay) : Prop := {
  sr_engine : same_engine (re_engine st) (re_engine st');
  sr_risk : re_risk st = re_risk st';
  sr_result : re_result st = re_result st';
  sr_ids : re_id_map st = re_id_map st';
  sr_running : re_running st = re_running st';
}.

Lemma replay_callback_timeless : timeless (Some replay_callback).
Proof. done. Qed.

Lemma replay_event_same clock clock' ev st st' st1 st1' n n' :
  same_replay st st' → replay_inv n st → replay_inv n' st' → event_ok ev → n + 2 < 2 ^ 64 →
  replay_event clock ev st = Some st1 → replay_event clock' ev st' = Some st1' → same_replay st1 st1'.
Proof.
  intros [Hse Hrk Hrs Hid Hrun] Hinv Hinv' [Hq Hp] Hn. unfold replay_event. rewrite <-Hrk, <-Hrs, <-Hid, <-Hrun.
  pose proof (ri_engine _ _ Hinv) as He. pose proof (ri_engine _ _ Hinv') as He'.
  destruct (is_new (ev_action ev)); [|destruct (is_cancel (ev_action ev))].
  - destruct (replay_gate ev (re_risk st)) as [[reason rc]|]; [|done]. cbn [mbind option_bind].
    case_decide; [|by intros [= <-] [= <-]].
    destruct (submit_same (Some replay_callback) clock clock' (event_symbol ev) (ev_side ev) (ev_type ev)
      (ev_price ev) (ev_quantity ev) (re_engine st) (re_engine st') (re_running st))
      as (oid & e1 & e1' & run & -> & -> & _ & _ & Hs); try done.
    { pose proof (ri_ids _ _ Hinv (event_symbol ev)). lia. }
    cbn [mbind option_bind]. by intros [= <-] [= <-].
  - destruct (cancel_same (event_symbol ev) (default (ev_order_id ev) (re_id_map st !! ev_order_id ev))
      (re_engine st) (re_engine st') He He' Hse) as (r & e1 & e1' & -> & -> & _ & _ & Hs).
    cbn [mbind option_bind]. by intros [= <-] [= <-].
  - by intros [= <-] [= <-].
Qed.

Lemma replay_same clocks clocks' i evs st st' st1 st1' n :
  same_replay st st' → replay_inv n st → replay_inv n st' → Forall event_ok evs →
  n + Z.of_nat (length evs) + 1 < 2 ^ 64 →
  replay clocks i evs st = Some st1 → replay clocks' i evs st' = Some st1' → same_replay st1 st1'.
Proof.
  intros Hs Hi Hi' Hevs. revert i st st' n Hs Hi Hi'.
  induction Hevs as [|ev evs Hev _ IH]; intros i st st' n Hs Hi Hi' Hn; cbn [replay length] in *.
  { by intros [= <-] [= <-]. }
  destruct (replay_event_inv (clocks i) ev st n Hi Hev) as (st2 & E & Hi2); [lia|].
  destruct (replay_event_inv (clocks' i) ev st' n Hi' Hev) as (st2' & E' & Hi2'); [lia|].
  rewrite E, E'. cbn [mbind option_bind]. apply (IH (S i) st2 st2' (n + 1)); [|done..|lia].
  by eapply replay_event_same; [..|exact E|exact E']; [done..|lia].
Qed.

(** ** The properties *)

Lemma tape_events_ok content :
  Forall (λ ev, valid_price (ev_type ev) (ev_price ev)) (tape_events content) →
  Forall event_ok (tape_events content).
Proof.
  intros Hp. pose proof (tape_events_quantity content) as Hq. rewrite Forall_forall in Hp, Hq |- *.
  intros ev Hev. split; auto.
Qed.

(** A replay of a file on a new engine: the loop over its events, then the report. *)
Lemma harness_replay_spec clocks lats dur content rc h :
  Forall (λ ev, valid_price (ev_type ev) (ev_price ev)) (tape_events content) →
  Z.of_nat (length (tape_events content)) + 1 < 2 ^ 64 →
  match rc with Some rc => ∀ sym, position sym rc = 0 | None => True end →
  let st0 := replay_start MatchingEngine_new rc in
  let h' := foldl (λ h v, record_hdr v h) h
              (filter (λ v, 0 < v) (samples clocks lats 0 (tape_events content) st0)) in
  ∃ st, replay clocks 0 (tape_events content) st0 = Some st ∧
    replay_inv (Z.of_nat (length (tape_events content))) st ∧
    harness_replay clocks lats dur content (mk_harness MatchingEngine_new rc h) =
    Some (replay_report dur st h', mk_harness (re_engine st) (re_risk st) h').
Proof.
  intros Hp Hlen Hrc. cbv zeta.
  destruct (replay_inv_run clocks 0 (tape_events content) (replay_start MatchingEngine_new rc) 0)
    as (st & Hst & Hinv); [by split|by apply tape_events_ok|lia|].
  exists st. split; [done|]. split; [done|]. unfold harness_replay. set (r := TapeReader_new content).
  pose proof (timed_tape_spec (S (length (file_ r))) clocks lats 0 r
    (replay_start MatchingEngine_new rc, h) ltac:(lia)) as Ht.
  change (omap parse_line (file_ r)) with (tape_events content) in Ht.
  rewrite timed_replay_spec, Hst in Ht. cbn [ha_engine ha_risk ha_latency].
  destruct (timed_tape _ _ _ _ _ _) as [[r' [st' h']]|]; [|done]. simpl in Ht. by injection Ht as -> ->.
Qed.

(** C28: replaying any file on a new engine, with or without a risk checker, runs to its end
    if no order of it other than a market order has the price NaN.  The report counts the
    events of the file, the submissions it counts are those the engine counted, trades,
    notional and (modulo 2^32) volume are the engine's, and the histogram has at most one sample per
    event: exactly one for each engine call when every call takes between 1 ns and 60 s.
    Without a sample the latencies are reported as zero. *)
Theorem harness_report_correct `{!HdrLaws} clocks lats dur content rc ha :
  ReplayHarness_new MatchingEngine_new rc = Some ha →
  Forall (λ ev, valid_price (ev_type ev) (ev_price ev)) (tape_events content) →
  Z.of_nat (length (tape_events content)) + 1 < 2 ^ 64 →
  match rc with Some rc => ∀ sym, position sym rc = 0 | None => True end →
  ∃ rep ha', harness_replay clocks lats dur content ha = Some (rep, ha') ∧
    let r := rr_result rep in
    let stats := stats_ (ha_engine ha') in
    let n := hdr_total_count (ha_latency ha') in
    events_processed r = u64 (Z.of_nat (length (tape_events content))) ∧
    total_orders stats = u64 (new_orders r - risk_rejections r) ∧
    trades_generated rep = total_trades stats ∧
    volume_traded rep = u32 (total_volume stats) ∧ notional_traded rep = total_notional stats ∧
    0 ≤ n ≤ Z.of_nat (length (tape_events content)) ∧
    ((∀ i, 1 ≤ lats i ≤ 60000000000) → n = u64 (new_orders r - risk_rejections r + cancels r)) ∧
    (n = 0 → latency_min_ns rep = 0 ∧ latency_p50_ns rep = 0 ∧ latency_p99_ns rep = 0 ∧
       latency_p999_ns rep = 0 ∧ latency_max_ns rep = 0 ∧ latency_mean_ns rep = dzero).
Proof.
  intros (h & Hinit & [= <-])%bind_Some Hp Hlen Hrc.
  destruct (harness_replay_spec clocks lats dur content rc h Hp Hlen Hrc) as (st & Hst & Hinv & Hr).
  set (sm := samples clocks lats 0 _ _) in *. eexists _, _. split; [exact Hr|].
  cbn [rr_result replay_report ha_engine ha_latency trades_generated volume_traded notional_traded].
  destruct (record_hdr_all (filter (λ v, 0 < v) sm) h) as (Hc & Hsub & Hall).
  rewrite (hdr_init_count _ _ _ _ Hinit) in Hc. rewrite (hdr_init_highest _ _ _ _ Hinit) in Hall.
  pose proof (samples_length clocks lats 0 (tape_events content) (replay_start MatchingEngine_new rc)) as Hl.
  fold sm in Hl. apply sublist_length in Hsub. pose proof (length_filter (λ v, 0 < v) sm) as Hf.
  destruct Hinv as [_ _ Hev Hord Htr Hvol Hnot _]. split_and!; try done; try lia.
  - intros Hlat. assert (Forall (λ v, 1 ≤ v ≤ 60000000000) sm) as Hsm by apply samples_all, Hlat.
    assert (filter (λ v, 0 < v) sm = sm) as E
      by (apply filter_all; eapply Forall_impl; [exact Hsm|]; simpl; lia).
    rewrite E in *. rewrite Hc, Hall by (eapply Forall_impl; [exact Hsm|]; simpl; lia).
    rewrite (samples_count clocks lats 0 _ _ _ Hst). fold sm. simpl. symmetry. apply u64_small. lia.
  - intros Hz. simpl. rewrite Hz. by split_and!.
Qed.

(** The parts of a report that do not come from a clock. *)
Definition untimed_report (r : ReplayReport) : ReplayReport :=
  mk_replay_report (rr_result r) (trades_generated r) (volume_traded r) (notional_traded r)
    0 dzero 0 0 0 0 0 dzero.

(** C29: a replay is deterministic: two replays of a file on new engines, whatever the
    clocks say, give reports that agree in all counts, in the trades, the volume and the
    notional, leave the same risk checker, and leave engines with the same markets and
    the same statistics, up to times. *)
Theorem replay_deterministic clocks clocks' lats lats' dur dur' content rc h h' :
  Forall (λ ev, valid_price (ev_type ev) (ev_price ev)) (tape_events content) →
  Z.of_nat (length (tape_events content)) + 1 < 2 ^ 64 →
  match rc with Some rc => ∀ sym, position sym rc = 0 | None => True end →
  ∃ rep ha rep' ha',
    harness_replay clocks lats dur content (mk_harness MatchingEngine_new rc h) = Some (rep, ha) ∧
    harness_replay clocks' lats' dur' content (mk_harness MatchingEngine_new rc h') = Some (rep', ha') ∧
    untimed_report rep = untimed_report rep' ∧ ha_risk ha = ha_risk ha' ∧
    same_engine (ha_engine ha) (ha_engine ha').
Proof.
  intros Hp Hlen Hrc.
  destruct (harness_replay_spec clocks lats dur content rc h Hp Hlen Hrc) as (st & Hst & _ & Hr).
  destruct (harness_replay_spec clocks' lats' dur' content rc h' Hp Hlen Hrc) as (st' & Hst' & _ & Hr').
  eexists _, _, _, _. split; [exact Hr|]. split; [exact Hr'|].
  assert (replay_inv 0 (replay_start MatchingEngine_new rc)) as Hinv by (by split).
  destruct (replay_same clocks clocks' 0 (tape_events content) (replay_start MatchingEngine_new rc)
    (replay_start MatchingEngine_new rc) st st' 0) as [H1 H2 H3 H4 H5]; try done;
    [by apply tape_events_ok|].
  unfold untimed_report, replay_report. simpl. by rewrite H2, H3, H5.
Qed.
End harness.

(** ** Witnesses *)

Definition new_risk : option RiskChecker := Some (RiskChecker_new RiskLimits_default).

Lemma sample_csv_prices : Forall (λ ev, valid_price (ev_type ev) (ev_price ev)) (tape_events (chars sample_csv)).
Proof. apply (bool_decide_unpack _). by vm_compute. Qed.

Lemma harness_report_correct_witness :
  let h := @mk_harness list_hdr MatchingEngine_new new_risk (mk_list_histogram 60000000000 []) in
  ∃ rep ha', harness_replay (λ i n, Z.of_nat (10 * i + n)) (λ _, 200) 20000 (chars sample_csv) h =
      Some (rep, ha') ∧
    let r := rr_result rep in
    let stats := stats_ (ha_engine ha') in
    let n := hdr_total_count (ha_latency ha') in
    events_processed r = u64 (Z.of_nat (length (tape_events (chars sample_csv)))) ∧
    total_orders stats = u64 (new_orders r - risk_rejections r) ∧
    trades_generated rep = total_trades stats ∧
    volume_traded rep = u32 (total_volume stats) ∧ notional_traded rep = total_notional stats ∧
    0 ≤ n ≤ Z.of_nat (length (tape_events (chars sample_csv))) ∧
    ((∀ i : nat, 1 ≤ 200 ≤ 60000000000) → n = u64 (new_orders r - risk_rejections r + cancels r)) ∧
    (n = 0 → latency_min_ns rep = 0 ∧ latency_p50_ns rep = 0 ∧ latency_p99_ns rep = 0 ∧
       latency_p999_ns rep = 0 ∧ latency_max_ns rep = 0 ∧ latency_mean_ns rep = dzero).
Proof.
  apply (@harness_report_correct list_hdr list_hdr_laws _ _ _ (chars sample_csv) new_risk);
    [reflexivity|exact sample_csv_prices|by vm_compute|intros sym; reflexivity].
Defined.

Lemma replay_deterministic_witness :
  let ha0 := @mk_harness list_hdr MatchingEngine_new new_risk (mk_list_histogram 60000000000 []) in
  ∃ rep ha rep' ha',
    harness_replay (λ i n, Z.of_nat (10 * i + n)) (λ _, 200) 20000 (chars sample_csv) ha0 = Some (rep, ha) ∧
    harness_replay (λ i n, Z.of_nat (7 * i + n)) (λ _, 0) 30000 (chars sample_csv) ha0 = Some (rep', ha') ∧
    untimed_report rep = untimed_report rep' ∧ ha_risk ha = ha_risk ha' ∧
    same_engine (ha_engine ha) (ha_engine ha').
Proof.
  apply (@replay_deterministic list_hdr);
    [exact sample_csv_prices|by vm_compute|intros sym; reflexivity].
Defined.

(** ** After the replay *)

(** The trade callback captures the counters of [replay] by reference and stays installed
    when [replay] has returned and they are gone: calling it is undefined. *)
Definition dangling_callback (t : Trade) (alive : option unit) : option unit := None.

(** Submitting to the engine of a harness after [replay] has returned. *)
Definition submit_after_replay (clock : nat → Timestamp) (sym : string) (s : Side) (t : OrderType)
    (p : Price) (q : Quantity) (e : MatchingEngine) : option (OrderId * MatchingEngine) :=
  '(oid, e, alive) ← submit_order (Some dangling_callback) clock sym s t p q e (Some ());
  match alive with Some _ => Some (oid, e) | None => None end.

Lemma notify_dangling ts :
  notify_all (Some dangling_callback) ts (Some ()) = if decide (ts = []) then Some () else None.
Proof.
  destruct ts as [|t ts]; [done|]. rewrite decide_False by done. unfold notify_all. simpl.
  induction ts as [|t' ts IH]; done.
Qed.

(** After a replay the engine can only be used for orders that do not trade: a
    submission that would return with trades is undefined behaviour, one that would
    return without trades does the same as ever. *)
Theorem submission_after_replay clock sym s t p q e oid ts e' :
  run_op (OpSubmit clock sym s t p q) e = Some (RSubmit oid ts, e') →
  submit_after_replay clock sym s t p q e = if decide (ts = []) then Some (oid, e') else None.
Proof.
  simpl. intros ([[oid0 e0] ts0] & Hs & [= -> -> ->])%bind_Some.
  unfold submit_after_replay. rewrite submit_order_callback. unfold recorder in Hs. rewrite Hs.
  cbn [mbind option_bind]. rewrite notify_dangling. by case_decide.
Qed.

(** A book with one resting sell order, then an order that buys from it. *)
Definition one_sell : MatchingEngine := after [OpSubmit Z.of_nat "AAPL" Sell Limit (dlit 10050 2) 10].
Definition buy_op : op := OpSubmit Z.of_nat "AAPL" Buy Limit (dlit 10050 2) 4.

Lemma one_sell_trades :
  (λ x, match x.1 with RSubmit oid ts => Some (oid, length ts) | _ => None end) <$> run_op buy_op one_sell =
  Some (Some (2, 1%nat)).
Proof. vm_compute. reflexivity. Qed.

Lemma submission_after_replay_witness :
  submit_after_replay Z.of_nat "AAPL" Buy Limit (dlit 10050 2) 4 one_sell = None.
Proof.
  pose proof one_sell_trades as Ht. destruct (run_op buy_op one_sell) as [[[oid ts| |] e']|] eqn:E; [|discriminate..].
  rewrite (submission_after_replay _ _ _ _ _ _ _ _ _ _ E). by destruct ts.
Defined.
