(* ===== verification/Benchmark.v ===== *)
(** The throughput benchmark: benchmarks/bench_throughput.cpp.

    Two phases run the same operations on new engines: [run_throughput] without clock
    readings of its own, [run_latency] with a histogram sample per operation.  The operations
    and the price offsets are drawn from seeded generators ([Random]); the clocks and the
    elapsed times are arguments. *)

From stdpp Require Import base list gmap strings.
From Stdlib Require Import ZArith Lia.
From S2P Require Import Prelude Machine StdMap Types ObjectPool OrderBook PriceTime.
From S2P Require Import BookInv BookOps MatchingEngine MatchRefine EngineSpec Exchange Determinism.
From S2P Require Import LatencyHistogram Random.

Open Scope Z_scope.
Open Scope list_scope.

Definition kSymbol : string := "AAPL".
Definition kMid : double := dlit 10000 2.
Definition kTick : double := dlit 1 2.
Definition kBand : Z := 50.
Definition kDepth : Z := 50000.

Inductive Op := PassiveBuy | PassiveSell | Cancel | Aggress.

Definition op_of_draw (r : Z) : Op :=
  if r <? 35 then PassiveBuy else if r <? 70 then PassiveSell else if r <? 90 then Cancel else Aggress.

(** [build_workload] and [build_offsets]: [n_ops] draws of a new generator each. *)
Definition build_workload `{Distributions} (n_ops : nat) (seed : Z) : list Op :=
  op_of_draw <$> (draw_list (uniform_int 0 99) n_ops (mt_seed seed)).1.

Definition build_offsets `{Distributions} (n_ops : nat) (seed : Z) : list Z :=
  (draw_list (uniform_int 1 kBand) n_ops (mt_seed seed)).1.

Definition passive_price (buy : bool) (off : Z) : Price :=
  if buy then dsub kMid (dmul (dofZ off) kTick) else dadd kMid (dmul (dofZ off) kTick).

Definition aggress_side (off : Z) : Side := if Z.rem off 2 =? 0 then Buy else Sell.
Definition aggress_price (s : Side) : Price :=
  if is_buy s then dadd kMid (dmul (dofZ kBand) kTick) else dsub kMid (dmul (dofZ kBand) kTick).

(** The engine and the deque of the orders that were added. *)
Definition BenchState : Type := MatchingEngine * list OrderId.

(** Cancel the oldest order. *)
Definition retire (x : BenchState) : option BenchState :=
  let '(engine, resting) := x in
  match resting with
  | [] => Some x
  | oid :: resting => '(_, engine) ← cancel_order kSymbol oid engine; Some (engine, resting)
  end.

(** The body of the loop of [run_throughput]. *)
Definition bench_op (clock : nat → Timestamp) (op : Op) (off : Z) (x : BenchState) : option BenchState :=
  let '(engine, resting) := x in
  match op with
  | PassiveBuy | PassiveSell =>
      if kDepth <=? Z.of_nat (length resting) then retire x
      else
        let buy := match op with PassiveBuy => true | _ => false end in
        '(oid, engine, _) ← submit_order (CS := unit) None clock kSymbol (if buy then Buy else Sell) Limit
                              (passive_price buy off) 100 engine ();
        Some (engine, if oid =? 0 then resting else resting ++ [oid])
  | Cancel => retire x
  | Aggress =>
      let s := aggress_side off in
      '(_, engine, _) ← submit_order (CS := unit) None clock kSymbol s IOC (aggress_price s) 300 engine ();
      Some (engine, resting)
  end.

(** The loop of phase 1; an offset that is missing is a read behind the end of a vector. *)
Fixpoint throughput_loop (clocks : nat → nat → Timestamp) (i : nat) (ops : list Op) (offsets : list Z)
    (x : BenchState) : option BenchState :=
  match ops with
  | [] => Some x
  | op :: ops =>
      off ← offsets !! i;
      x ← bench_op (clocks i) op off x;
      throughput_loop clocks (S i) ops offsets x
  end.

Record RunResult := mk_run_result { ops_executed : Z; elapsed_sec : double; run_stats : EngineStats }.

Definition run_throughput (clocks : nat → nat → Timestamp) (elapsed : double) (ops : list Op)
    (offsets : list Z) : option RunResult :=
  '(engine, _) ← throughput_loop clocks 0 ops offsets (MatchingEngine_new, []);
  Some (mk_run_result (u64 (Z.of_nat (length ops))) elapsed (stats_ engine)).

Section latency.
Context `{Hdr}.

(** The body of the loop of [run_latency], which the source has again. *)
Definition latency_op (clock : nat → Timestamp) (op : Op) (off : Z) (x : BenchState) : option BenchState :=
  let '(engine, resting) := x in
  match op with
  | PassiveBuy | PassiveSell =>
      if kDepth <=? Z.of_nat (length resting) then retire x
      else
        let buy := match op with PassiveBuy => true | _ => false end in
        '(oid, engine, _) ← submit_order (CS := unit) None clock kSymbol (if buy then Buy else Sell) Limit
                              (passive_price buy off) 100 engine ();
        Some (engine, if oid =? 0 then resting else resting ++ [oid])
  | Cancel => retire x
  | Aggress =>
      let s := aggress_side off in
      '(_, engine, _) ← submit_order (CS := unit) None clock kSymbol s IOC (aggress_price s) 300 engine ();
      Some (engine, resting)
  end.

(** The loop of phase 2: a sample per operation, whatever its value. *)
Fixpoint latency_loop (clocks : nat → nat → Timestamp) (lats : nat → Z) (i : nat) (ops : list Op)
    (offsets : list Z) (x : BenchState) (h : hdr_histogram) : option (BenchState * hdr_histogram) :=
  match ops with
  | [] => Some (x, h)
  | op :: ops =>
      off ← offsets !! i;
      x ← latency_op (clocks i) op off x;
      latency_loop clocks lats (S i) ops offsets x (record_hdr (lats i) h)
  end.

Definition run_latency (clocks : nat → nat → Timestamp) (lats : nat → Z) (elapsed : double)
    (ops : list Op) (offsets : list Z) (h : hdr_histogram) : option (RunResult * hdr_histogram) :=
  '((engine, _), h) ← latency_loop clocks lats 0 ops offsets (MatchingEngine_new, []) h;
  Some (mk_run_result (u64 (Z.of_nat (length ops))) elapsed (stats_ engine), h).
End latency.

(** ** Prices *)

Definition offset_ok (off : Z) : Prop := 1 ≤ off ≤ kBand.

(** The offsets are in the band, and there is one for each operation. *)
Lemma build_offsets_ok `{DistributionLaws} n seed : Forall offset_ok (build_offsets n seed).
Proof. apply (draw_list_forall mt_ok); [|apply mt_seed_ok]. intros g Hg. by apply uniform_int_range. Qed.

Lemma build_offsets_length `{Distributions} n seed : length (build_offsets n seed) = n.
Proof. apply draw_list_length. Qed.

Lemma build_workload_length `{Distributions} n seed : length (build_workload n seed) = n.
Proof. unfold build_workload. rewrite length_fmap. apply draw_list_length. Qed.

Lemma passive_prices :
  Forall (λ off, ∀ buy, num (passive_price buy off) ∧ dleb (passive_price buy off) dzero = false)
    (Z.of_nat <$> seq 1 50).
Proof. repeat constructor; try (by destruct buy; vm_compute). Qed.

Lemma passive_price_ok buy off :
  offset_ok off → num (passive_price buy off) ∧ dleb (passive_price buy off) dzero = false.
Proof.
  unfold offset_ok, kBand. intros Ho. pose proof passive_prices as Hp. rewrite Forall_forall in Hp. apply Hp.
  apply list_elem_of_fmap. exists (Z.to_nat off). split; [lia|]. apply elem_of_seq. lia.
Qed.

Lemma aggress_price_ok s : num (aggress_price s).
Proof. unfold aggress_price. destruct (is_buy s); vm_compute; done. Qed.

(** ** The invariant of the loops *)

Record bench_inv (n : Z) (x : BenchState) : Prop := {
  bi_engine : engine_ok x.1;
  bi_next : next_order_id_ (book_of kSymbol x.1) ≤ n;
  bi_depth : Z.of_nat (length x.2) ≤ kDepth;
  bi_ids buy o : o ∈ side_orders buy (book_of kSymbol x.1) → id o ∈ x.2;
}.

Lemma bench_inv_new : bench_inv 1 (MatchingEngine_new, []).
Proof. split; [apply MatchingEngine_new_ok|done|done|]. intros buy o. destruct buy; by intros ?%not_elem_of_nil. Qed.

(** The deque names every order that rests. *)
Lemma bench_depth n x :
  bench_inv n x → Z.of_nat (order_count (book_of kSymbol x.1)) ≤ Z.of_nat (length x.2) ≤ kDepth.
Proof.
  intros [He _ Hd Hids]. split; [|done]. destruct (book_of_ok x.1 kSymbol He) as [[Hwf _ _] _].
  rewrite order_count_spec, <-length_app, <-(length_fmap id) by done. apply inj_le.
  apply submseteq_length, NoDup_submseteq; [by apply order_ids_NoDup|].
  intros oid (o & -> & Ho)%list_elem_of_fmap. apply elem_of_app in Ho as [Ho|Ho]; eauto.
Qed.

Lemma retire_inv n x : bench_inv n x → ∃ x', retire x = Some x' ∧ bench_inv n x'.
Proof.
  intros Hinv. destruct x as [e [|oid resting]]; [by eauto|]. destruct Hinv as [He Hn Hd Hids]. simpl in *.
  destruct (cancel_order_engine_spec kSymbol oid e He) as (r & e' & -> & Hspec & He' & _).
  cbn [mbind option_bind]. eexists. split; [done|]. unfold spec_cancel in Hspec.
  assert (market (book_of kSymbol e') = mk_market (dequeue oid (side_orders true (book_of kSymbol e)))
    (dequeue oid (side_orders false (book_of kSymbol e))) (next_order_id_ (book_of kSymbol e))) as HM
    by exact (eq_sym (f_equal snd Hspec)).
  split; simpl; [done|exact (Z.le_trans _ _ _ (Z.eq_le_incl _ _ (f_equal next_id HM)) Hn)|lia|].
  intros buy o Ho. assert (o ∈ dequeue oid (side_orders buy (book_of kSymbol e))) as Ho'.
  { rewrite <-queue_market, HM in Ho. by destruct buy. }
  apply list_elem_of_filter in Ho' as [Hne Ho']. apply Hids in Ho'. apply elem_of_cons in Ho' as [?|?]; done.
Qed.

Lemma submit_bench_inv clock s t p q e resting n resting' :
  bench_inv n (e, resting) → n + 1 < 2 ^ 64 → 0 ≤ q < 2 ^ 32 → valid_price t p →
  Z.of_nat (length resting') ≤ kDepth →
  (∀ x, x ∈ resting → x ∈ resting') →
  (immediate t = false → next_order_id_ (book_of kSymbol e) ∈ resting' ∧ invalid_order t p q = false) →
  ∃ oid e', submit_order (CS := unit) None clock kSymbol s t p q e () = Some (oid, e', ()) ∧
    (immediate t = false → oid = next_order_id_ (book_of kSymbol e)) ∧ bench_inv (n + 1) (e', resting').
Proof.
  intros [He Hn Hd Hids] Hlt Hq Hp Hd' Hsub Hnew. simpl in *.
  destruct (submit_order_spec (CS := unit) None clock kSymbol s t p q e () He (λ _, Hp) Hq)
    as (oid & ts & M' & e' & Hspec & Hs & He' & HM & _); [lia|].
  destruct (book_of_ok e kSymbol He) as [Hok _]. pose proof (submit_id _ _ _ _ _ _ _ _ _ Hspec) as [Hoid Hnext].
  assert (immediate t = false → oid = next_order_id_ (book_of kSymbol e)) as Hoid'.
  { intros Him. destruct (Hnew Him) as [_ Hv]. by rewrite Hv in Hoid. }
  exists oid, e'. split; [done|]. split; [done|]. split; simpl; [done| |done|].
  - change (next_order_id_ (book_of kSymbol e')) with (next_id (market (book_of kSymbol e'))).
    rewrite HM, Hnext. simpl. destruct (invalid_order t p q); lia.
  - intros buy o Ho. rewrite <-queue_market, HM in Ho.
    destruct (submit_resting_ids _ _ _ _ _ _ _ _ _ buy o Hok (proj1 Hq) Hspec Ho) as [[Him ->]|(o' & Ho' & <-)].
    + rewrite Hoid' by done. by apply Hnew.
    + by eapply Hsub, Hids.
Qed.

Lemma passive_inv clock (buy : bool) off e resting n :
  bench_inv n (e, resting) → n + 1 < 2 ^ 64 → offset_ok off → Z.of_nat (length resting) < kDepth →
  ∃ oid e', submit_order (CS := unit) None clock kSymbol (if buy then Buy else Sell) Limit
      (passive_price buy off) 100 e () = Some (oid, e', ()) ∧ oid ≠ 0 ∧
    bench_inv (n + 1) (e', resting ++ [oid]).
Proof.
  intros Hinv Hlt Hoff Hd. destruct (passive_price_ok buy off Hoff) as [Hnum Hpos].
  destruct (submit_bench_inv clock (if buy then Buy else Sell) Limit (passive_price buy off) 100 e resting n
    (resting ++ [next_order_id_ (book_of kSymbol e)]) Hinv Hlt) as (oid & e' & Hs & Hoid & Hinv').
  - lia.
  - by right.
  - rewrite length_app. simpl. lia.
  - intros x Hx. apply elem_of_app. by left.
  - intros _. split; [apply elem_of_app; right; by left|]. unfold invalid_order. by rewrite Hpos.
  - exists oid, e'. rewrite (Hoid eq_refl) in *. split; [done|]. split; [|done].
    destruct (book_of_ok e kSymbol (bi_engine _ _ Hinv)) as [Hok _]. pose proof (wf_next _ (ok_wf _ Hok)). lia.
Qed.

Lemma bench_op_inv clock op off x n :
  bench_inv n x → n + 1 < 2 ^ 64 → offset_ok off →
  ∃ x', bench_op clock op off x = Some x' ∧ bench_inv (n + 1) x'.
Proof.
  intros Hinv Hlt Hoff. destruct x as [e resting].
  assert (∃ x', retire (e, resting) = Some x' ∧ bench_inv (n + 1) x') as Hret.
  { destruct (retire_inv n _ Hinv) as (x' & ? & []). exists x'. split; [done|]. split; try done; lia. }
  assert (∀ buy : bool, ∃ x',
    (if kDepth <=? Z.of_nat (length resting) then retire (e, resting)
     else '(oid, engine, _) ← submit_order (CS := unit) None clock kSymbol (if buy then Buy else Sell) Limit
            (passive_price buy off) 100 e ();
          Some (engine, if oid =? 0 then resting else resting ++ [oid])) = Some x' ∧
    bench_inv (n + 1) x') as Hpass.
  { intros buy. destruct (Z.leb_spec kDepth (Z.of_nat (length resting))) as [|Hd]; [done|].
    destruct (passive_inv clock buy off e resting n Hinv Hlt Hoff Hd) as (oid & e' & -> & Hne & Hinv').
    cbn [mbind option_bind]. apply Z.eqb_neq in Hne. rewrite Hne. eauto. }
  destruct op; cbn [bench_op].
  - apply (Hpass true).
  - apply (Hpass false).
  - done.
  - destruct (submit_bench_inv clock (aggress_side off) IOC (aggress_price (aggress_side off)) 300 e resting n
      resting Hinv Hlt) as (oid & e' & -> & _ & Hinv'); try done.
    + right. apply aggress_price_ok.
    + by destruct Hinv.
    + cbn [mbind option_bind]. eauto.
Qed.

Lemma throughput_loop_inv clocks i ops offsets x n :
  bench_inv n x → n + Z.of_nat (length ops) < 2 ^ 64 → Forall offset_ok offsets →
  (i + length ops ≤ length offsets)%nat →
  ∃ x', throughput_loop clocks i ops offsets x = Some x' ∧ bench_inv (n + Z.of_nat (length ops)) x'.
Proof.
  intros Hinv Hn Hoff. revert i x n Hinv Hn.
  induction ops as [|op ops IH]; intros i x n Hinv Hn Hlen; cbn [throughput_loop length] in *.
  { exists x. by rewrite Z.add_0_r. }
  destruct (lookup_lt_is_Some_2 offsets i) as [off Hi]; [lia|]. rewrite Hi. cbn [mbind option_bind].
  destruct (bench_op_inv (clocks i) op off x n Hinv) as (x1 & -> & Hinv1); [lia|by eapply Forall_lookup_1|].
  cbn [mbind option_bind]. destruct (IH (S i) x1 (n + 1) Hinv1) as (x' & ? & ?); [lia|lia|].
  exists x'. split; [done|]. by replace (n + Z.of_nat (S (length ops))) with (n + 1 + Z.of_nat (length ops)) by lia.
Qed.

(** ** The two phases *)

Definition same_bench (x x' : BenchState) : Prop := same_engine x.1 x'.1 ∧ x.2 = x'.2.

Lemma retire_same x x' x1 x1' n n' :
  same_bench x x' → bench_inv n x → bench_inv n' x' →
  retire x = Some x1 → retire x' = Some x1' → same_bench x1 x1'.
Proof.
  destruct x as [e resting], x' as [e' resting']. intros [Hs Hr] Hi Hi'. simpl in Hr. subst resting'.
  destruct resting as [|oid resting]; simpl; [by intros [= <-] [= <-]|].
  destruct (cancel_same kSymbol oid e e' (bi_engine _ _ Hi) (bi_engine _ _ Hi') Hs)
    as (r & e1 & e1' & -> & -> & _ & _ & Hs'). by intros [= <-] [= <-].
Qed.

Lemma submit_bench_same clock clock' s t p q e e' resting resting' n n' :
  same_engine e e' → bench_inv n (e, resting) → bench_inv n' (e', resting') → n + 1 < 2 ^ 64 →
  valid_price t p → 0 ≤ q < 2 ^ 32 →
  ∃ oid e1 e1', submit_order (CS := unit) None clock kSymbol s t p q e () = Some (oid, e1, ()) ∧
    submit_order (CS := unit) None clock' kSymbol s t p q e' () = Some (oid, e1', ()) ∧ same_engine e1 e1'.
Proof.
  intros Hs Hi Hi' Hn Hp Hq.
  destruct (submit_same (CS := unit) None clock clock' kSymbol s t p q e e' ())
    as (oid & e1 & e1' & [] & H1 & H2 & _ & _ & Hs'); try done.
  - exact (bi_engine _ _ Hi).
  - exact (bi_engine _ _ Hi').
  - pose proof (bi_next _ _ Hi). simpl in *. lia.
  - by exists oid, e1, e1'.
Qed.

Lemma bench_op_same clock clock' op off x x' x1 x1' n n' :
  same_bench x x' → bench_inv n x → bench_inv n' x' → n + 1 < 2 ^ 64 → offset_ok off →
  bench_op clock op off x = Some x1 → bench_op clock' op off x' = Some x1' → same_bench x1 x1'.
Proof.
  intros Hs Hi Hi' Hn Hoff. pose proof (retire_same x x' x1 x1' n n' Hs Hi Hi') as Hret.
  destruct x as [e resting], x' as [e' resting']. destruct Hs as [Hs Hr]. simpl in Hs, Hr. subst resting'.
  assert (∀ buy, valid_price Limit (passive_price buy off)) as Hpp
    by (intros buy; right; by apply passive_price_ok).
  destruct op; cbn [bench_op]; [| |done|].
  - destruct (_ <=? _); [done|].
    destruct (submit_bench_same clock clock' Buy Limit (passive_price true off) 100 e e' resting resting n n')
      as (oid & e1 & e1' & -> & -> & Hs'); try done. by intros [= <-] [= <-].
  - destruct (_ <=? _); [done|].
    destruct (submit_bench_same clock clock' Sell Limit (passive_price false off) 100 e e' resting resting n n')
      as (oid & e1 & e1' & -> & -> & Hs'); try done. by intros [= <-] [= <-].
  - destruct (submit_bench_same clock clock' (aggress_side off) IOC (aggress_price (aggress_side off)) 300
      e e' resting resting n n') as (oid & e1 & e1' & -> & -> & Hs'); try done; [|by intros [= <-] [= <-]].
    right. apply aggress_price_ok.
Qed.

Section phases.
Context `{Hdr}.

(** The two copies of the loop body do the same. *)
Lemma latency_op_eq clock op off x : latency_op clock op off x = bench_op clock op off x.
Proof. by destruct x, op. Qed.

(** Phase 2 runs what phase 1 runs and records every sample. *)
Lemma latency_loop_spec clocks lats i ops offsets x h :
  latency_loop clocks lats i ops offsets x h =
  (λ x', (x', foldl (λ h v, record_hdr v h) h (lats <$> seq i (length ops)))) <$>
    throughput_loop clocks i ops offsets x.
Proof.
  revert i x h. induction ops as [|op ops IH]; intros i x h; [done|]. cbn [latency_loop throughput_loop length seq].
  destruct (offsets !! i) as [off|]; [|done]. cbn [mbind option_bind]. rewrite latency_op_eq.
  destruct (bench_op (clocks i) op off x) as [x1|]; [|done]. cbn [mbind option_bind]. apply IH.
Qed.

Lemma throughput_loop_same clocks clocks' i ops offsets x x' x1 x1' n :
  same_bench x x' → bench_inv n x → bench_inv n x' → n + Z.of_nat (length ops) < 2 ^ 64 →
  Forall offset_ok offsets → (i + length ops ≤ length offsets)%nat →
  throughput_loop clocks i ops offsets x = Some x1 → throughput_loop clocks' i ops offsets x' = Some x1' →
  same_bench x1 x1'.
Proof.
  intros Hs Hi Hi' Hn Hoff. revert i x x' n Hs Hi Hi' Hn.
  induction ops as [|op ops IH]; intros i x x' n Hs Hi Hi' Hn Hlen; cbn [throughput_loop length] in *.
  { by intros [= <-] [= <-]. }
  destruct (lookup_lt_is_Some_2 offsets i) as [off Ho]; [lia|]. rewrite Ho. cbn [mbind option_bind].
  assert (offset_ok off) as Hok by (by eapply Forall_lookup_1).
  destruct (bench_op_inv (clocks i) op off x n Hi) as (x2 & E & Hi2); [lia|done|].
  destruct (bench_op_inv (clocks' i) op off x' n Hi') as (x2' & E' & Hi2'); [lia|done|].
  rewrite E, E'. cbn [mbind option_bind]. apply (IH (S i) x2 x2' (n + 1)); [|done|done|lia|lia].
  eapply bench_op_same; [exact Hs|exact Hi|exact Hi'|lia|exact Hok|exact E|exact E'].
Qed.
End phases.

(** ** The properties *)

(** Whatever the operations, the benchmark runs without undefined behaviour when there
    is an offset for each of them, and at any point the deque has at most [kDepth] entries
    and names every resting order, so the book never holds more than [kDepth] orders. *)
Theorem benchmark_depth_capped clocks ops offsets :
  Forall offset_ok offsets → (length ops ≤ length offsets)%nat → Z.of_nat (length ops) + 1 < 2 ^ 64 →
  ∃ engine resting, throughput_loop clocks 0 ops offsets (MatchingEngine_new, []) = Some (engine, resting) ∧
    Z.of_nat (order_count (book_of kSymbol engine)) ≤ Z.of_nat (length resting) ≤ kDepth ∧
    ∀ buy o, o ∈ side_orders buy (book_of kSymbol engine) → id o ∈ resting.
Proof.
  intros Hoff Hlen Hn.
  destruct (throughput_loop_inv clocks 0 ops offsets (MatchingEngine_new, []) 1) as ([e resting] & Hr & Hinv);
    [apply bench_inv_new|lia|done|done|].
  exists e, resting. split; [done|]. split; [by apply (bench_depth _ _ Hinv)|]. apply (bi_ids _ _ Hinv).
Qed.

(** The two phases execute the same work: whatever the clocks say, phase 2 ends with the
    statistics of phase 1, up to the latencies, and its histogram has a sample for each
    operation that took at most 60 s. *)
Theorem phases_agree `{HdrLaws} clocks clocks' lats t1 t2 ops offsets h :
  hdr_init 1 60000000000 3 = Some h → Forall offset_ok offsets → (length ops ≤ length offsets)%nat →
  Z.of_nat (length ops) + 1 < 2 ^ 64 →
  ∃ r1 r2 h', run_throughput clocks t1 ops offsets = Some r1 ∧
    run_latency clocks' lats t2 ops offsets h = Some (r2, h') ∧
    untimed_stats (run_stats r1) = untimed_stats (run_stats r2) ∧ ops_executed r1 = ops_executed r2 ∧
    ((∀ i, 0 ≤ lats i ≤ 60000000000) → hdr_total_count h' = ops_executed r2).
Proof.
  intros Hinit Hoff Hlen Hn.
  destruct (throughput_loop_inv clocks 0 ops offsets (MatchingEngine_new, []) 1) as ([e1 q1] & Hr & _);
    [apply bench_inv_new|lia|done|done|].
  destruct (throughput_loop_inv clocks' 0 ops offsets (MatchingEngine_new, []) 1) as ([e2 q2] & Hr' & _);
    [apply bench_inv_new|lia|done|done|].
  destruct (throughput_loop_same clocks clocks' 0 ops offsets (MatchingEngine_new, []) (MatchingEngine_new, [])
    (e1, q1) (e2, q2) 1) as [[_ Hst] _]; try done; [apply bench_inv_new|apply bench_inv_new|lia|].
  unfold run_throughput, run_latency. rewrite latency_loop_spec, Hr, Hr'. simpl.
  eexists _, _, _. split; [done|]. split; [done|]. split; [done|]. split; [done|]. simpl.
  intros Hlat. destruct (record_hdr_all (lats <$> seq 0 (length ops)) h) as (Hc & _ & Hall).
  rewrite Hc, Hall, length_fmap, length_seq, (hdr_init_count _ _ _ _ Hinit).
  - rewrite u64_small; lia.
  - rewrite (hdr_init_highest _ _ _ _ Hinit). apply Forall_fmap, Forall_forall. intros i _. apply Hlat.
Qed.

Definition demo_workload : list Op := op_of_draw <$> [10; 50; 95; 95; 80; 20; 99].
Definition demo_offsets : list Z := [1; 2; 4; 7; 50; 3; 9].

Lemma demo_offsets_ok : Forall offset_ok demo_offsets.
Proof. unfold demo_offsets. repeat (apply Forall_cons_2; [split; vm_compute; discriminate|]). apply Forall_nil_2. Qed.

Lemma benchmark_depth_capped_witness :
  ∃ engine resting,
    throughput_loop (λ i n, Z.of_nat (10 * i + n)) 0 demo_workload demo_offsets (MatchingEngine_new, []) =
      Some (engine, resting) ∧
    Z.of_nat (order_count (book_of kSymbol engine)) ≤ Z.of_nat (length resting) ≤ kDepth ∧
    ∀ buy o, o ∈ side_orders buy (book_of kSymbol engine) → id o ∈ resting.
Proof. apply benchmark_depth_capped; [exact demo_offsets_ok|simpl; lia|reflexivity]. Defined.

Lemma phases_agree_witness :
  ∃ r1 r2 (h' : @hdr_histogram list_hdr),
    run_throughput (λ i n, Z.of_nat (10 * i + n)) dzero demo_workload demo_offsets = Some r1 ∧
    @run_latency list_hdr (λ i n, Z.of_nat (7 * i + n)) (λ _, 250) dzero demo_workload demo_offsets
      (mk_list_histogram 60000000000 []) = Some (r2, h') ∧
    untimed_stats (run_stats r1) = untimed_stats (run_stats r2) ∧ ops_executed r1 = ops_executed r2 ∧
    ((∀ i : nat, 0 ≤ 250 ≤ 60000000000) → hdr_total_count h' = ops_executed r2).
Proof.
  apply (@phases_agree list_hdr list_hdr_laws); [reflexivity|exact demo_offsets_ok|simpl; lia|reflexivity].
Defined.
