(* ===== verification/MicroBench.v ===== *)
(** The microbenchmarks: benchmarks/bench_matching_engine.cpp.

    Each benchmark is the calls it makes of one engine, a round per iteration; how many
    iterations there are, and what they measure, is up to the benchmark library.  The
    calls are [run_op]s, which also return the trades, so that the theorems can say
    whether a benchmark measures what it is named for. *)

From stdpp Require Import base list gmap strings.
From Stdlib Require Import ZArith Lia.
From S2P Require Import Prelude Machine Rounding StdMap Types OrderBook PriceTime BookInv MatchingEngine EngineSpec Exchange.

Open Scope Z_scope.
Open Scope list_scope.

(** ** The benchmarks *)

Definition limit_op (clock : nat → Timestamp) (s : Side) (p : Price) (q : Quantity) : op :=
  OpSubmit clock "AAPL" s Limit p q.

(** [100.00 + k * 0.01] and [100.00 - k * 0.01] *)
Definition up (k : Z) : Price := dadd (dofZ 100) (dmul (dofZ k) (dlit 1 2)).
Definition down (k : Z) : Price := dsub (dofZ 100) (dmul (dofZ k) (dlit 1 2)).

(** The [i]-th iteration of [BM_LimitOrderInsert]. *)
Definition insert_op (clocks : nat → nat → Timestamp) (i : nat) : op :=
  let k := Z.of_nat i mod 100 in
  if Z.of_nat i mod 2 =? 0 then limit_op (clocks i) Buy (down k) 100
  else limit_op (clocks i) Sell (up k) 100.

(** An iteration of [BM_LimitOrderMatch]. *)
Definition match_ops (clocks : nat → nat → Timestamp) (i : nat) : list op :=
  [limit_op (clocks (2 * i)%nat) Sell (dofZ 100) 100; limit_op (clocks (2 * i + 1)%nat) Buy (dofZ 100) 100].

(** [n] sell orders at consecutive prices, of [BM_MarketOrderFill] and
    [BM_MultiLevelSweep]. *)
Definition levels (clocks : nat → nat → Timestamp) (n : nat) : list op :=
  (λ i, limit_op (clocks i) Sell (up (Z.of_nat i)) 100) <$> seq 0 n.

(** An iteration of [BM_MarketOrderFill]. *)
Definition fill_ops (clocks : nat → nat → Timestamp) (i : nat) : list op :=
  [OpSubmit (clocks (2 * i)%nat) "AAPL" Buy Market dzero 100;
   limit_op (clocks (2 * i + 1)%nat) Sell (dofZ 100) 100].

(** An iteration of [BM_MultiLevelSweep], which has an engine of its own. *)
Definition sweep_ops (clocks : nat → nat → Timestamp) (n : nat) : list op :=
  levels clocks n ++ [limit_op (clocks n) Buy (up (Z.of_nat n)) (u32 (Z.of_nat n * 100))].

(** [BM_CancelOrder]: filling the book with [n] orders, the [i]-th the next of them, and
    collecting their identifiers. *)
Fixpoint fill_book (clocks : nat → nat → Timestamp) (n i : nat) (ids : list OrderId) (e : MatchingEngine)
    : option (list OrderId * MatchingEngine) :=
  match n with
  | O => Some (ids, e)
  | S n =>
      '(r, e) ← run_op (limit_op (clocks i) Buy (down (Z.of_nat i mod 100)) 100) e;
      match r with
      | RSubmit oid _ => fill_book clocks n (S i) (ids ++ [oid]) e
      | _ => None
      end
  end.

Record CancelBench := mk_cancel_bench { cb_engine : MatchingEngine; cb_ids : list OrderId; cb_idx : nat }.

(** An iteration: the result of the cancel, or none when the book is refilled. *)
Definition cancel_round (n : nat) (clocks : nat → nat → Timestamp) (x : CancelBench)
    : option (option bool * CancelBench) :=
  match cb_ids x !! cb_idx x with
  | Some oid =>
      '(r, e) ← run_op (OpCancel "AAPL" oid) (cb_engine x);
      match r with
      | RCancel done => Some (Some done, mk_cancel_bench e (cb_ids x) (S (cb_idx x)))
      | _ => None
      end
  | None => '(ids, e) ← fill_book clocks n 0 [] (cb_engine x); Some (None, mk_cancel_bench e ids 0)
  end.

Fixpoint cancel_rounds (n : nat) (clocks : nat → nat → nat → Timestamp) (rounds i : nat) (x : CancelBench)
    : option (list (option bool) * CancelBench) :=
  match rounds with
  | O => Some ([], x)
  | S rounds =>
      '(r, x) ← cancel_round n (clocks i) x;
      '(rs, x) ← cancel_rounds n clocks rounds (S i) x;
      Some (r :: rs, x)
  end.

(** The whole benchmark, which fills the book with 100000 orders. *)
Definition cancel_bench (n : nat) (clocks : nat → nat → nat → Timestamp) (rounds : nat)
    : option (list (option bool) * CancelBench) :=
  '(ids, e) ← fill_book (clocks O) n 0 [] MatchingEngine_new;
  cancel_rounds n clocks rounds 1 (mk_cancel_bench e ids 0).
Definition cancel_bench_orders : nat := Z.to_nat 100000.

(** ** Orders that rest *)

(** A limit order that nothing on the other side crosses joins its queue. *)
Lemma spec_op_rests clock sym s p q M :
  0 < q → dleb p dzero = false →
  Forall (λ r, crosses (is_buy s) p r = false) (queue (negb (is_buy s)) M) →
  let o := Order_new (clock 1%nat) (next_id M) s Limit p q in
  spec_op (OpSubmit clock sym s Limit p q) M =
    (RSubmit (next_id M) [],
     set_queue (is_buy s) (enqueue (is_buy s) (match_status o) (queue (is_buy s) M))
       (mk_market (bids M) (asks M) (next_id M + 1))).
Proof.
  intros Hq Hp Hc o. cbn [spec_op]. unfold spec_submit, invalid_order. cbn [is_limit].
  rewrite (proj2 (Z.eqb_neq q 0)), Hp by lia. cbn [orb andb].
  assert (effective_price s Limit p = p) as -> by done. fold o.
  assert (∀ c, match_queue (is_buy s) c o (queue (negb (is_buy s)) M) = ([], o, queue (negb (is_buy s)) M)) as ->.
  { intros c. destruct (queue (negb (is_buy s)) M) as [|r l]; [done|]. apply Forall_cons in Hc as [Hc _].
    cbn [match_queue]. change (price o) with p. by rewrite Hc, andb_false_r. }
  unfold is_filled. change (remaining_qty o) with q. rewrite (proj2 (Z.eqb_neq q 0)) by lia.
  by destruct s, M.
Qed.

(** ** Insertion *)

Definition evens : list Z := (λ k, 2 * k) <$> seqZ 0 50.
Definition odds : list Z := (λ k, 2 * k + 1) <$> seqZ 0 50.
#[local] Arguments evens : simpl never.
#[local] Arguments odds : simpl never.

(** Every bid price is below every ask price, and all are positive. *)
Lemma insert_prices :
  Forall (λ k, dleb (down k) dzero = false ∧ Forall (λ j, dgeb (down k) (up j) = false) odds) evens ∧
  Forall (λ j, dleb (up j) dzero = false) odds.
Proof.
  assert (forallb (λ k, negb (dleb (down k) dzero) && forallb (λ j, negb (dgeb (down k) (up j))) odds) evens
          && forallb (λ j, negb (dleb (up j) dzero)) odds = true) as H by (vm_compute; reflexivity).
  apply andb_true_iff in H as [H1 H2]. rewrite forallb_forall in H1, H2.
  split; apply Forall_forall; intros k Hk.
  - rewrite list_elem_of_In in Hk. apply H1, andb_true_iff in Hk as [Ha Hb]. apply negb_true_iff in Ha.
    split; [done|]. rewrite forallb_forall in Hb. apply Forall_forall. intros j Hj.
    rewrite list_elem_of_In in Hj. by apply negb_true_iff, Hb.
  - rewrite list_elem_of_In in Hk. by apply negb_true_iff, H2.
Qed.

Lemma mod_evens i : i mod 2 = 0 → i mod 100 ∈ evens.
Proof.
  intros Hi. apply list_elem_of_fmap. exists (i mod 100 / 2). rewrite elem_of_seqZ.
  pose proof (Z.mod_pos_bound i 100). pose proof (Z.div_mod i 100). pose proof (Z.div_mod i 2).
  assert ((i mod 100) mod 2 = 0) by (rewrite Z.mod_mod_divide; [done|by exists 50]).
  pose proof (Z.div_mod (i mod 100) 2). lia.
Qed.
Lemma mod_odds i : i mod 2 ≠ 0 → i mod 100 ∈ odds.
Proof.
  intros Hi. apply list_elem_of_fmap. exists (i mod 100 / 2). rewrite elem_of_seqZ.
  pose proof (Z.mod_pos_bound i 100). pose proof (Z.mod_pos_bound i 2).
  assert ((i mod 100) mod 2 = i mod 2) by (rewrite Z.mod_mod_divide; [done|by exists 50]).
  pose proof (Z.div_mod (i mod 100) 2). lia.
Qed.

Definition bid_level (o : Order) : Prop := ∃ k, price o = down k ∧ k ∈ evens.
Definition ask_level (o : Order) : Prop := ∃ k, price o = up k ∧ k ∈ odds.

Record inserted (i : nat) (M : MarketState) : Prop := {
  in_next : next_id M = Z.of_nat i + 1;
  in_count : (length (bids M) + length (asks M) = i)%nat;
  in_bids : Forall bid_level (bids M);
  in_asks : Forall ask_level (asks M);
}.

Lemma enqueue_length buy o l : length (enqueue buy o l) = S (length l).
Proof. by rewrite (enqueue_perm buy o l). Qed.
Lemma enqueue_Forall (P : Order → Prop) buy o l : P o → Forall P l → Forall P (enqueue buy o l).
Proof. intros. rewrite (enqueue_perm buy o l). by constructor. Qed.

Lemma insert_spec clocks i M :
  inserted i M →
  ∃ M', spec_op (insert_op clocks i) M = (RSubmit (Z.of_nat i + 1) [], M') ∧ inserted (S i) M'.
Proof.
  intros [Hn Hc Hb Ha]. destruct insert_prices as [HE HO]. rewrite Forall_forall in HE, HO.
  unfold insert_op, limit_op. destruct (Z.eqb_spec (Z.of_nat i mod 2) 0) as [E|E].
  - pose proof (mod_evens _ E) as Hk. destruct (HE _ Hk) as [Hpos Hx]. rewrite Forall_forall in Hx.
    rewrite spec_op_rests; [|lia|done|].
    + eexists. split; [by rewrite Hn|]. constructor; simpl; rewrite ?enqueue_length; try lia; [|done].
      apply enqueue_Forall; [|done]. by eexists.
    + simpl. eapply Forall_impl; [exact Ha|]. intros r (j & Hj & Hin).
      unfold crosses. simpl. rewrite Hj. by apply Hx.
  - pose proof (mod_odds _ E) as Hk. rewrite spec_op_rests; [|lia|by apply HO|].
    + eexists. split; [by rewrite Hn|]. constructor; simpl; rewrite ?enqueue_length; try lia; [done|].
      apply enqueue_Forall; [|done]. by eexists.
    + simpl. eapply Forall_impl; [exact Hb|]. intros r (j & Hj & Hin).
      unfold crosses. simpl. rewrite Hj. destruct (HE _ Hin) as [_ Hx]. rewrite Forall_forall in Hx. by apply Hx.
Qed.

(** ** Sequences of calls on one market *)

Fixpoint market_ops (os : list op) (M : MarketState) : list response * MarketState :=
  match os with
  | [] => ([], M)
  | o :: os =>
      let '(r, M) := spec_op o M in
      let '(rs, M) := market_ops os M in
      (r :: rs, M)
  end.

Lemma market_ops_app os os' M :
  market_ops (os ++ os') M =
  let '(rs, M1) := market_ops os M in let '(rs', M2) := market_ops os' M1 in (rs ++ rs', M2).
Proof.
  revert M. induction os as [|o os IH]; intros M; simpl; [by destruct (market_ops os' M)|].
  destruct (spec_op o M) as [r M1]. rewrite IH. destruct (market_ops os M1) as [rs M2].
  by destruct (market_ops os' M2).
Qed.

Lemma spec_ops_market sym os Ms :
  Forall (λ o, op_symbol o = sym) os →
  ∃ Ms', spec_ops os Ms = ((market_ops os (Ms sym)).1, Ms') ∧ Ms' sym = (market_ops os (Ms sym)).2.
Proof.
  intros Hos. revert Ms. induction Hos as [|o os Ho _ IH]; intros Ms; simpl; [by eexists|].
  rewrite Ho. destruct (spec_op o (Ms sym)) as [r M]. destruct (IH (set_market sym M Ms)) as (Ms' & HS & HM).
  unfold set_market in HS at 2, HM. rewrite decide_True in HS, HM by done.
  exists Ms'. rewrite HS. by destruct (market_ops os M).
Qed.

(** A benchmark on a new engine does to its market what the specification says. *)
Lemma run_market_ops os :
  Forall (λ o, op_symbol o = "AAPL" ∧ op_ok o) os → Z.of_nat (length os) + 1 < 2 ^ 64 →
  ∃ e, run_ops os MatchingEngine_new = Some ((market_ops os no_orders).1, e) ∧
    market (book_of "AAPL" e) = (market_ops os no_orders).2.
Proof.
  intros Hos Hlen.
  destruct (spec_ops_market "AAPL" os (λ _, no_orders)) as (Ms & HS & HM).
  { eapply Forall_impl; [exact Hos|]. by intros o [? _]. }
  destruct (run_ops_sim os MatchingEngine_new (λ _, no_orders) 1 sim_new) as (rs & Ms' & e & Hr & HS' & [_ He] & _);
    [|done|lia|].
  { eapply Forall_impl; [exact Hos|]. by intros o [_ ?]. }
  rewrite HS in HS'. injection HS' as <- <-. exists e. split; [done|]. by rewrite He.
Qed.

Definition aapl_ok (o : op) : Prop := op_symbol o = "AAPL" ∧ op_ok o.

Lemma limit_op_ok clock s p q : num p → 0 ≤ q < 2 ^ 32 → aapl_ok (limit_op clock s p q).
Proof. intros Hp Hq. split; [done|]. split; [|done]. intros _. by right. Qed.

(** *** Insertion *)

Lemma insert_market clocks n i M :
  inserted i M →
  ∃ M', market_ops (insert_op clocks <$> seq i n) M =
      ((λ k, RSubmit (Z.of_nat k + 1) []) <$> seq i n, M') ∧ inserted (i + n) M'.
Proof.
  revert i M. induction n as [|n IH]; intros i M HM; csimpl; [exists M; by rewrite Nat.add_0_r|].
  destruct (insert_spec clocks i M HM) as (M1 & -> & H1). destruct (IH (S i) M1 H1) as (M' & -> & H').
  exists M'. rewrite Nat.add_succ_r. done.
Qed.

(** *** Matching *)

Definition match_trade (clocks : nat → nat → Timestamp) (i : nat) (sell : OrderId) : Trade :=
  {| buy_order_id := sell + 1; sell_order_id := sell; trade_price := dofZ 100; trade_quantity := 100;
     trade_timestamp := clocks (2 * i + 1)%nat 2%nat |}.

Lemma match_round clocks i k :
  market_ops (match_ops clocks i) (mk_market [] [] k) =
  ([RSubmit k []; RSubmit (k + 1) [match_trade clocks i k]], mk_market [] [] (k + 2)).
Proof. replace (k + 2) with (k + 1 + 1) by lia. reflexivity. Qed.

Lemma match_market clocks n i k :
  market_ops (concat (match_ops clocks <$> seq i n)) (mk_market [] [] k) =
  (concat ((λ j, let s := k + 2 * Z.of_nat (j - i) in [RSubmit s []; RSubmit (s + 1) [match_trade clocks j s]]) <$> seq i n),
   mk_market [] [] (k + 2 * Z.of_nat n)).
Proof.
  revert i k. induction n as [|n IH]; intros i k; [cbn; by rewrite Z.add_0_r|].
  cbn [seq]. rewrite !fmap_cons. cbn [concat]. rewrite market_ops_app, match_round, IH.
  rewrite Nat.sub_diag, Z.add_0_r. f_equal; [|f_equal; lia].
  cbn [app]. do 2 f_equal. f_equal. apply list_fmap_ext. intros j x Hj%lookup_seq.
  replace (k + 2 + 2 * Z.of_nat (x - S i)) with (k + 2 * Z.of_nat (x - i)) by lia. done.
Qed.

(** *** Filling the best level *)

(** The asks: an untouched order of 100 shares at 100.00, the others behind it in price. *)
Definition above (o : Order) : Prop := price_before false (dofZ 100) (price o) = true.
Definition best_full (o : Order) : Prop := price o = dofZ 100 ∧ remaining_qty o = 100 ∧ quantity o = 100.

(** The trade of the [i]-th market order, [buy], with the sell order [sell]. *)
Definition fill_trade (clocks : nat → nat → Timestamp) (i : nat) (buy sell : OrderId) : Trade :=
  {| buy_order_id := buy; sell_order_id := sell; trade_price := dofZ 100; trade_quantity := 100;
     trade_timestamp := clocks (2 * i)%nat 2%nat |}.

Lemma fill_round clocks i k best rest :
  best_full best → Forall above rest →
  ∃ best', best_full best' ∧ id best' = k + 1 ∧
    market_ops (fill_ops clocks i) (mk_market [] (best :: rest) k) =
    ([RSubmit k [fill_trade clocks i k (id best)]; RSubmit (k + 1) []], mk_market [] (best' :: rest) (k + 2)).
Proof.
  intros (Hp & Hr & Hq) Hrest.
  assert (spec_op (OpSubmit (clocks (2 * i)%nat) "AAPL" Buy Market dzero 100) (mk_market [] (best :: rest) k) =
    (RSubmit k [fill_trade clocks i k (id best)], mk_market [] rest (k + 1))) as E1.
  { destruct best as [bid bp bq br bts bs bt bst]. simpl in Hp, Hr, Hq. subst bp br bq.
    cbn [spec_op]. unfold spec_submit. change (invalid_order Market dzero 100) with false. cbn iota zeta.
    cbn [is_buy negb queue asks match_queue]. unfold crosses. cbn [price remaining_qty Order_new].
    change (dgeb (effective_price Buy Market dzero) (dofZ 100)) with true.
    cbn [andb Z.gtb Z.compare Z.min Pos.compare Pos.compare_cont Z.sub Z.add Z.opp Z.pos_sub Z.eqb].
    destruct rest as [|r rest]; reflexivity. }
  unfold fill_ops. cbn [market_ops]. rewrite E1. unfold limit_op.
  rewrite spec_op_rests; [|lia|by vm_compute|constructor].
  change (is_buy Sell) with false. cbn [queue asks bids set_queue next_id].
  set (o := match_status _). assert (price o = dofZ 100 ∧ remaining_qty o = 100 ∧ quantity o = 100) as Ho by done.
  exists o. split; [done|]. split; [done|]. replace (k + 2) with (k + 1 + 1) by lia.
  assert (enqueue false o rest = o :: rest) as ->; [|done].
  destruct rest as [|r rest]; [done|]. apply Forall_cons in Hrest as [Ha _].
  cbn [enqueue]. destruct Ho as [-> _]. by rewrite Ha.
Qed.

(** The [j]-th iteration from a book whose best order is [best] and whose next identifier
    is [k]: the market order takes the order that the iteration before it has placed. *)
Definition fill_answers (clocks : nat → nat → Timestamp) (best k : OrderId) (i j : nat) : list response :=
  let b := k + 2 * Z.of_nat (j - i) in
  [RSubmit b [fill_trade clocks j b (if (j =? i)%nat then best else b - 1)]; RSubmit (b + 1) []].

Lemma fill_market clocks n i k best rest :
  best_full best → Forall above rest →
  ∃ best', best_full best' ∧
    market_ops (concat (fill_ops clocks <$> seq i n)) (mk_market [] (best :: rest) k) =
      (concat (fill_answers clocks (id best) k i <$> seq i n), mk_market [] (best' :: rest) (k + 2 * Z.of_nat n)).
Proof.
  intros Hb Hrest. revert i k best Hb. induction n as [|n IH]; intros i k best Hb.
  { exists best. cbn. by rewrite Z.add_0_r. }
  cbn [seq]. rewrite !fmap_cons. cbn [concat]. rewrite market_ops_app.
  destruct (fill_round clocks i k best rest Hb Hrest) as (best1 & Hb1 & Hid & ->).
  destruct (IH (S i) (k + 2) best1 Hb1) as (best' & Hb' & ->). exists best'. split; [done|].
  f_equal; [|f_equal; lia]. unfold fill_answers at 2. cbv zeta. rewrite Nat.sub_diag, Nat.eqb_refl, Z.add_0_r.
  cbn [app]. do 2 f_equal. f_equal. apply list_fmap_ext. intros j x Hj%lookup_seq. unfold fill_answers. cbv zeta.
  assert ((x =? i)%nat = false) as -> by (apply Nat.eqb_neq; lia).
  replace (k + 2 + 2 * Z.of_nat (x - S i)) with (k + 2 * Z.of_nat (x - i)) by lia.
  destruct (Nat.eqb_spec x (S i)) as [->|]; [|done].
  replace (S i - i)%nat with 1%nat by lia. rewrite Hid. do 4 f_equal. lia.
Qed.

(** What the orders of the levels are answered, and the asks that they leave: 100 shares at
    each price. *)
Definition level_answers (n : nat) : list response := (λ i, RSubmit (Z.of_nat i + 1) []) <$> seq 0 n.
Definition ladder (n : nat) (M : MarketState) : Prop :=
  bids M = [] ∧ (λ o, (price o, remaining_qty o)) <$> asks M = (λ i, (up (Z.of_nat i), 100)) <$> seq 0 n.

Definition filled_book (n : nat) (x : list response * MarketState) : bool :=
  match bids x.2, asks x.2 with
  | [], best :: rest =>
      (next_id x.2 =? Z.of_nat n + 1) && bool_decide (price best = dofZ 100) && (remaining_qty best =? 100) &&
      (quantity best =? 100) && (id best =? 1) && forallb (λ o, price_before false (dofZ 100) (price o)) rest &&
      bool_decide ((λ o, (price o, remaining_qty o)) <$> rest = (λ i, (up (Z.of_nat i), 100)) <$> seq 1 (n - 1))
  | _, _ => false
  end &&
  forallb (λ ir, match ir.2 with RSubmit oid [] => oid =? Z.of_nat ir.1 + 1 | _ => false end)
    (zip (seq 0 n) x.1) && (length x.1 =? n)%nat.

Lemma answers_of l i :
  forallb (λ ir, match ir.2 with RSubmit oid [] => oid =? Z.of_nat ir.1 + 1 | _ => false end)
    (zip (seq i (length l)) l) = true →
  l = (λ i, RSubmit (Z.of_nat i + 1) []) <$> seq i (length l).
Proof.
  revert i. induction l as [|r l IH]; intros i; [done|]. cbn [length seq zip zip_with forallb].
  intros [H1 H2]%andb_true_iff. rewrite fmap_cons, <-(IH _ H2). f_equal. simpl in H1.
  destruct r as [oid [|]| |]; try done. apply Z.eqb_eq in H1. by rewrite H1.
Qed.

Lemma filled_book_inv n rs M :
  filled_book n (rs, M) = true →
  rs = level_answers n ∧ ∃ best rest, M = mk_market [] (best :: rest) (Z.of_nat n + 1) ∧ best_full best ∧ id best = 1 ∧
    Forall above rest ∧ (λ o, (price o, remaining_qty o)) <$> rest = (λ i, (up (Z.of_nat i), 100)) <$> seq 1 (n - 1).
Proof.
  intros [[H Hrs]%andb_true_iff Hlen%Nat.eqb_eq]%andb_true_iff. cbn [fst snd] in *. subst n.
  split; [by apply answers_of|].
  destruct M as [[|] [|best rest] k]; cbn [bids asks next_id] in H; [done| |done..].
  rewrite !andb_true_iff in H. destruct H as [[[[[[Hk Hp] Hq] Hs] Hid] Hrest] Hl].
  apply Z.eqb_eq in Hk as ->. apply bool_decide_eq_true in Hp, Hl. apply Z.eqb_eq in Hq, Hs, Hid.
  exists best, rest. split; [reflexivity|]. split; [by split_and!|]. split; [done|]. split; [|done].
  rewrite forallb_forall in Hrest. apply Forall_forall. intros o Ho. apply Hrest. by apply list_elem_of_In.
Qed.

Lemma levels_1000 clocks : filled_book 1000 (market_ops (levels clocks 1000) no_orders) = true.
Proof. vm_compute. reflexivity. Qed.

(** *** Sweeping *)

(** One trade per level, of 100 shares each at the price of the level, and nothing left. *)
Definition swept (n : nat) (x : list response * MarketState) : bool :=
  match last x.1 with
  | Some (RSubmit oid ts) =>
      (oid =? Z.of_nat n + 1) && (length ts =? n)%nat && forallb (λ t, trade_quantity t =? 100) ts &&
      bool_decide (sell_order_id <$> ts = seqZ 1 (Z.of_nat n)) &&
      bool_decide (trade_price <$> ts = up <$> seqZ 0 (Z.of_nat n))
  | _ => false
  end && match bids x.2, asks x.2 with [], [] => true | _, _ => false end.

Lemma sweeps clocks :
  forallb (λ n, swept n (market_ops (sweep_ops clocks n) no_orders)) [1; 10; 100; 1000]%nat = true.
Proof. vm_compute. reflexivity. Qed.

(** *** Cancelling *)

Lemma num_levels k : 0 ≤ k < 2 ^ 20 → num (up k) ∧ num (down k).
Proof.
  intros Hk. assert (finiteb (dmul (dofZ k) (dlit 1 2)) = true) as Hf.
  { apply (bounded_by_finite (21 + 1 + 1)), bounded_mul; [apply (bounded_dofZ k 20); lia| |lia].
    by vm_compute. }
  split; [by apply num_add|by apply num_sub].
Qed.

Lemma down_positive i : dleb (down (Z.of_nat i mod 100)) dzero = false.
Proof.
  assert (forallb (λ k, negb (dleb (down k) dzero)) (seqZ 0 100) = true) as H by (vm_compute; reflexivity).
  rewrite forallb_forall in H. apply negb_true_iff, H. rewrite <-list_elem_of_In, elem_of_seqZ.
  pose proof (Z.mod_pos_bound (Z.of_nat i) 100). lia.
Qed.

(** The identifiers [ids] are those of different resting bids, there are no asks, and at
    most [n] identifiers have been used. *)
Record booked_ids (n : Z) (ids : list OrderId) (e : MatchingEngine) : Prop := {
  bi_ok : engine_ok e;
  bi_asks : asks (market (book_of "AAPL" e)) = [];
  bi_nodup : NoDup ids;
  bi_bids : Forall (λ oid, oid ∈ id <$> bids (market (book_of "AAPL" e))) ids;
  bi_below : Forall (λ oid, oid < next_id (market (book_of "AAPL" e))) ids;
  bi_next : next_id (market (book_of "AAPL" e)) ≤ n;
}.

Lemma submit_booked clock i n ids e :
  booked_ids n ids e → n + 1 < 2 ^ 64 →
  ∃ oid e', run_op (limit_op clock Buy (down (Z.of_nat i mod 100)) 100) e = Some (RSubmit oid [], e') ∧
    booked_ids (n + 1) (ids ++ [oid]) e'.
Proof.
  intros [He Ha Hnd Hb Hlt Hn] Hbound. set (M := market (book_of "AAPL" e)) in *.
  pose proof (Z.mod_pos_bound (Z.of_nat i) 100) as Hk.
  destruct (run_op_spec (limit_op clock Buy (down (Z.of_nat i mod 100)) 100) e He) as (r & e' & Hr & Hspec & He' & _).
  { split; [|lia]. intros _. right. apply num_levels. lia. }
  { cbn [limit_op op_symbol]. change (next_order_id_ (book_of "AAPL" e)) with (next_id M). lia. }
  unfold limit_op in Hspec. cbn [op_symbol] in Hspec. fold M in Hspec.
  rewrite spec_op_rests in Hspec; [|lia|apply down_positive|change (queue _ M) with (asks M); by rewrite Ha].
  apply pair_equal_spec in Hspec as [<- HM]. exists (next_id M), e'. split; [exact Hr|].
  constructor; rewrite <-?HM; cbn [asks bids next_id set_queue is_buy]; try done; try lia.
  - apply NoDup_app. split; [done|]. split; [|apply NoDup_singleton].
    intros oid Hoid ->%list_elem_of_singleton. rewrite Forall_forall in Hlt. specialize (Hlt _ Hoid). lia.
  - apply Forall_app. split.
    + eapply Forall_impl; [exact Hb|]. intros oid (o & -> & Ho)%list_elem_of_fmap. apply list_elem_of_fmap.
      exists o. split; [done|]. apply elem_of_enqueue. by right.
    + constructor; [|done]. apply list_elem_of_fmap. eexists. split; [|apply elem_of_enqueue; by left].
      by destruct (match_status_fields (Order_new (clock 1%nat) (next_id M) Buy Limit (down (Z.of_nat i mod 100)) 100)).
  - apply Forall_app. split; [eapply Forall_impl; [exact Hlt|]; simpl; lia|]. constructor; [lia|done].
Qed.

Lemma fill_book_booked clocks k i n ids e :
  booked_ids n ids e → n + Z.of_nat k < 2 ^ 64 →
  ∃ ids' e', fill_book clocks k i ids e = Some (ids', e') ∧ booked_ids (n + Z.of_nat k) ids' e'.
Proof.
  revert i n ids e. induction k as [|k IH]; intros i n ids e He Hn; cbn [fill_book].
  { eexists _, _. split; [done|]. by rewrite Z.add_0_r. }
  destruct (submit_booked (clocks i) i n ids e He) as (oid & e1 & -> & He1); [lia|]. cbn [mbind option_bind].
  destruct (IH (S i) (n + 1) (ids ++ [oid]) e1 He1) as (ids' & e' & -> & He'); [lia|].
  eexists _, _. split; [done|]. by replace (n + Z.of_nat (S k)) with (n + 1 + Z.of_nat k) by lia.
Qed.

Lemma cancel_booked n oid ids e :
  booked_ids n (oid :: ids) e →
  ∃ e', run_op (OpCancel "AAPL" oid) e = Some (RCancel true, e') ∧ booked_ids n ids e'.
Proof.
  intros [He Ha Hnd Hb Hlt Hn]. set (M := market (book_of "AAPL" e)) in *.
  apply NoDup_cons in Hnd as [Hni Hnd]. apply Forall_cons in Hb as [Hoid Hb]. apply Forall_cons in Hlt as [Hol Hlt].
  destruct (cancel_order_engine_spec "AAPL" oid e He) as (r & e' & Hr & Hspec & He' & _).
  fold M in Hspec. unfold spec_cancel in Hspec. apply pair_equal_spec in Hspec as [Hrd HM].
  assert (r = true) as -> by (rewrite <-Hrd; apply bool_decide_eq_true; rewrite fmap_app; set_solver).
  exists e'. split; [cbn [run_op]; by rewrite Hr|].
  constructor; rewrite <-?HM; cbn [asks bids next_id]; try done.
  - by rewrite Ha.
  - rewrite Forall_forall in Hb |- *. intros x Hx. specialize (Hb x Hx) as (o & -> & Ho)%list_elem_of_fmap.
    apply list_elem_of_fmap. exists o. split; [done|]. apply list_elem_of_filter. split; [|done].
    intros E. rewrite <-E in Hni. done.
Qed.

Lemma fill_book_length clocks k i ids e ids' e' :
  fill_book clocks k i ids e = Some (ids', e') → length ids' = (length ids + k)%nat.
Proof.
  revert i ids e. induction k as [|k IH]; intros i ids e; cbn [fill_book]; [intros [= <- _]; lia|].
  intros ([r e1] & _ & H)%bind_Some. destruct r; [|done..]. apply IH in H. rewrite length_app in H. simpl in H. lia.
Qed.

(** What the iterations from the [p]-th on answer: [k] cancels that succeed, then a refill,
    and so on. *)
Definition cancel_answers (k p rounds : nat) : list (option bool) :=
  (λ q, if (q mod (k + 1) =? k)%nat then None else Some true) <$> seq p rounds.

Lemma next_position p k :
  (S p mod (k + 1) = if p mod (k + 1) =? k then 0 else S (p mod (k + 1)))%nat.
Proof.
  pose proof (Nat.div_mod_eq p (k + 1)) as E. pose proof (Nat.mod_upper_bound p (k + 1) ltac:(lia)) as B.
  destruct (Nat.eqb_spec (p mod (k + 1)) k) as [H|H].
  - symmetry. apply (Nat.mod_unique _ _ (S (p / (k + 1)))); lia.
  - symmetry. apply (Nat.mod_unique _ _ (p / (k + 1))); lia.
Qed.

Lemma cancel_rounds_true k clocks rounds i n x p :
  booked_ids n (drop (cb_idx x) (cb_ids x)) (cb_engine x) →
  length (cb_ids x) = k → cb_idx x = (p mod (k + 1))%nat →
  n + Z.of_nat rounds * Z.of_nat k < 2 ^ 64 →
  ∃ x', cancel_rounds k clocks rounds i x = Some (cancel_answers k p rounds, x').
Proof.
  revert i n x p. induction rounds as [|rounds IH]; intros i n x p Hx Hlen Hidx Hn; cbn [cancel_rounds]; [by eexists|].
  pose proof (next_position p k) as Hnext. rewrite <-Hidx in Hnext.
  unfold cancel_round, cancel_answers. cbn [seq]. rewrite fmap_cons, <-Hidx.
  destruct (cb_ids x !! cb_idx x) as [oid|] eqn:E.
  - pose proof (lookup_lt_Some _ _ _ E) as Hlt. rewrite Hlen in Hlt.
    rewrite (proj2 (Nat.eqb_neq (cb_idx x) k)) in Hnext |- * by lia.
    rewrite (drop_S _ _ _ E) in Hx. destruct (cancel_booked _ _ _ _ Hx) as (e' & -> & He'). cbn [mbind option_bind].
    destruct (IH (S i) n (mk_cancel_bench e' (cb_ids x) (S (cb_idx x))) (S p)) as (x' & ->); [done|done|done|lia|].
    by eexists.
  - apply lookup_ge_None_1 in E. pose proof (Nat.mod_upper_bound p (k + 1) ltac:(lia)).
    rewrite (proj2 (Nat.eqb_eq (cb_idx x) k)) in Hnext |- * by lia.
    assert (booked_ids n [] (cb_engine x)) as H0 by (destruct Hx; constructor; (done || constructor)).
    destruct (fill_book_booked (clocks i) k 0 n [] _ H0) as (ids & e' & Hf & He'); [lia|].
    pose proof (fill_book_length _ _ _ _ _ _ _ Hf) as Hl. rewrite Hf. cbn [mbind option_bind].
    destruct (IH (S i) (n + Z.of_nat k) (mk_cancel_bench e' ids 0) (S p)) as (x' & ->);
      [by rewrite drop_0|done|done|lia|]. by eexists.
Qed.

Lemma cancel_bench_true k clocks rounds :
  1 + (Z.of_nat rounds + 1) * Z.of_nat k < 2 ^ 64 →
  ∃ x, cancel_bench k clocks rounds = Some (cancel_answers k 0 rounds, x).
Proof.
  intros Hn. unfold cancel_bench. destruct sim_new as [Hok HM].
  assert (booked_ids 1 [] MatchingEngine_new) as H0.
  { specialize (HM "AAPL"). constructor; rewrite ?HM; (done || constructor). }
  destruct (fill_book_booked (clocks O) k 0 1 [] _ H0) as (ids & e & Hf & He); [lia|].
  pose proof (fill_book_length _ _ _ _ _ _ _ Hf) as Hl. rewrite Hf. cbn [mbind option_bind].
  apply (cancel_rounds_true _ _ _ _ (1 + Z.of_nat k)); [by rewrite drop_0|done| |lia].
  by rewrite Nat.mod_0_l by lia.
Qed.

(** ** What the benchmarks measure *)

(** [levels] is a part of [fill] and [sweep]; their calls are legal. *)
Lemma levels_ok clocks n : (n ≤ 1000)%nat → Forall aapl_ok (levels clocks n).
Proof.
  intros Hn. unfold levels. apply Forall_fmap, Forall_forall. intros i [_ Hi]%elem_of_seq.
  apply limit_op_ok; [apply num_levels|]; lia.
Qed.

Lemma insert_ok clocks n : Forall aapl_ok (insert_op clocks <$> seq 0 n).
Proof.
  apply Forall_fmap, Forall_forall. intros i _. simpl. unfold insert_op.
  pose proof (Z.mod_pos_bound (Z.of_nat i) 100).
  destruct (_ =? 0); apply limit_op_ok; try apply num_levels; lia.
Qed.

Lemma rounds_ok (f : nat → list op) n : (∀ i, Forall aapl_ok (f i)) → Forall aapl_ok (concat (f <$> seq 0 n)).
Proof. intros Hf. apply Forall_concat, Forall_fmap, Forall_forall. intros i _. apply Hf. Qed.

Lemma rounds_length (f : nat → list op) k n i :
  (∀ j, length (f j) = k) → length (concat (f <$> seq i n)) = (k * n)%nat.
Proof.
  intros Hf. revert i. induction n as [|n IH]; intros i; csimpl; [lia|]. rewrite length_app, Hf, IH. lia.
Qed.

Lemma match_ops_ok clocks i : Forall aapl_ok (match_ops clocks i).
Proof.
  assert (num (dofZ 100)) by done.
  constructor; [apply limit_op_ok; [done|lia]|]. constructor; [apply limit_op_ok; [done|lia]|constructor].
Qed.

Lemma fill_ops_ok clocks i : Forall aapl_ok (fill_ops clocks i).
Proof.
  assert (num (dofZ 100)) by done. constructor; [|constructor; [apply limit_op_ok; [done|lia]|constructor]].
  split; [done|]. split; [|lia]. intros _. by left.
Qed.

Lemma insert_bench clocks n :
  Z.of_nat n + 1 < 2 ^ 64 →
  ∃ e, run_ops (insert_op clocks <$> seq 0 n) MatchingEngine_new =
      Some ((λ k, RSubmit (Z.of_nat k + 1) []) <$> seq 0 n, e) ∧
    let M := market (book_of "AAPL" e) in (length (bids M) + length (asks M) = n)%nat.
Proof.
  intros Hn. destruct (run_market_ops (insert_op clocks <$> seq 0 n)) as (e & Hr & HM);
    [apply insert_ok|rewrite length_fmap, length_seq; lia|].
  destruct (insert_market clocks n 0 no_orders) as (M' & HM' & [_ Hc _ _]); [by constructor|].
  rewrite HM' in Hr, HM. exists e. split; [done|]. cbv zeta. by rewrite HM.
Qed.

Lemma match_bench clocks n :
  2 * Z.of_nat n + 1 < 2 ^ 64 →
  ∃ e, run_ops (concat (match_ops clocks <$> seq 0 n)) MatchingEngine_new =
      Some (concat ((λ j, let s := 1 + 2 * Z.of_nat j in
                          [RSubmit s []; RSubmit (s + 1) [match_trade clocks j s]]) <$> seq 0 n), e) ∧
    market (book_of "AAPL" e) = mk_market [] [] (1 + 2 * Z.of_nat n).
Proof.
  intros Hn. destruct (run_market_ops (concat (match_ops clocks <$> seq 0 n))) as (e & Hr & HM);
    [apply rounds_ok, match_ops_ok|rewrite (rounds_length _ 2) by done; lia|].
  unfold no_orders in Hr, HM. rewrite match_market in Hr, HM. exists e. split; [|done]. rewrite Hr.
  cbn [fst]. do 3 f_equal. apply list_fmap_ext. intros j x _. by rewrite Nat.sub_0_r.
Qed.

Lemma fill_bench clocks n :
  2 * Z.of_nat n + 1001 < 2 ^ 64 →
  ∃ e, run_ops (levels clocks 1000 ++ concat (fill_ops clocks <$> seq 0 n)) MatchingEngine_new =
      Some (level_answers 1000 ++ concat (fill_answers clocks 1 1001 0 <$> seq 0 n), e) ∧
    ladder 1000 (market (book_of "AAPL" e)).
Proof.
  intros Hn. destruct (run_market_ops (levels clocks 1000 ++ concat (fill_ops clocks <$> seq 0 n))) as (e & Hr & HM).
  { apply Forall_app. split; [by apply levels_ok|]. apply rounds_ok, fill_ops_ok. }
  { rewrite length_app, (rounds_length _ 2) by done. unfold levels. rewrite length_fmap, length_seq. lia. }
  pose proof (levels_1000 clocks) as Hl. set (l := levels clocks 1000) in *. clearbody l.
  rewrite market_ops_app in Hr, HM. destruct (market_ops l no_orders) as [rs0 M0].
  destruct (filled_book_inv _ _ _ Hl) as (-> & best & rest & -> & Hbest & Hid & Hrest & Hprices).
  destruct (fill_market clocks n 0 (Z.of_nat 1000 + 1) best rest Hbest Hrest) as (best' & (Hp & Hq & _) & Hm).
  rewrite Hm, Hid in Hr. rewrite Hm in HM. exists e. split; [exact Hr|]. rewrite HM. split; [done|].
  cbn [snd asks]. change (seq 0 1000) with (0%nat :: seq 1 (1000 - 1)). rewrite !fmap_cons, Hprices, Hp, Hq. done.
Qed.

Lemma sweep_bench clocks m :
  m ∈ [1; 10; 100; 1000]%nat →
  ∃ rs e, run_ops (sweep_ops clocks m) MatchingEngine_new = Some (rs, e) ∧
    swept m (rs, market (book_of "AAPL" e)) = true.
Proof.
  intros Hm. pose proof (sweeps clocks) as Hsw. rewrite forallb_forall in Hsw.
  assert (m ≤ 1000)%nat as Hle by (set_unfold in Hm; lia).
  destruct (run_market_ops (sweep_ops clocks m)) as (e & Hr & HM).
  - unfold sweep_ops. apply Forall_app. split; [by apply levels_ok|]. constructor; [|done].
    apply limit_op_ok; [apply num_levels; lia|apply u32_range].
  - unfold sweep_ops, levels. rewrite length_app, length_fmap, length_seq. simpl. lia.
  - eexists _, e. split; [exact Hr|]. rewrite HM, <-surjective_pairing. apply Hsw. by apply list_elem_of_In.
Qed.

(** The calls of the benchmarks with what they are answered and leave behind, for [n]
    iterations: insertions get the next identifier, never trade and rest; *)
Definition inserts_rest (clocks : nat → nat → Timestamp) (n : nat) : Prop :=
  ∃ e, run_ops (insert_op clocks <$> seq 0 n) MatchingEngine_new =
      Some ((λ k, RSubmit (Z.of_nat k + 1) []) <$> seq 0 n, e) ∧
    let M := market (book_of "AAPL" e) in (length (bids M) + length (asks M) = n)%nat.

(** an iteration of the matching benchmark is one trade, and leaves the book empty; *)
Definition matches_trade (clocks : nat → nat → Timestamp) (n : nat) : Prop :=
  ∃ e, run_ops (concat (match_ops clocks <$> seq 0 n)) MatchingEngine_new =
      Some (concat ((λ j, let s := 1 + 2 * Z.of_nat j in
                          [RSubmit s []; RSubmit (s + 1) [match_trade clocks j s]]) <$> seq 0 n), e) ∧
    market (book_of "AAPL" e) = mk_market [] [] (1 + 2 * Z.of_nat n).

(** an iteration of the fill benchmark is a market order that trades once, at the best
    level, and a limit order that does not trade, after which the book is as before; *)
Definition fills_restored (clocks : nat → nat → Timestamp) (n : nat) : Prop :=
  ∃ e, run_ops (levels clocks 1000 ++ concat (fill_ops clocks <$> seq 0 n)) MatchingEngine_new =
      Some (level_answers 1000 ++ concat (fill_answers clocks 1 1001 0 <$> seq 0 n), e) ∧
    ladder 1000 (market (book_of "AAPL" e)).

(** the cancel benchmark is 100000 cancels that succeed, a refill, and so on; *)
Definition cancels_hit (clocks : nat → nat → nat → Timestamp) (n : nat) : Prop :=
  ∃ x, cancel_bench cancel_bench_orders clocks n = Some (cancel_answers cancel_bench_orders 0 n, x).

(** a sweep is one trade per level. *)
Definition sweeps_clear (clocks : nat → nat → Timestamp) : Prop :=
  Forall (λ m, ∃ rs e, run_ops (sweep_ops clocks m) MatchingEngine_new = Some (rs, e) ∧
    swept m (rs, market (book_of "AAPL" e)) = true) [1; 10; 100; 1000]%nat.

(** C40: the microbenchmarks measure what they are named for, for any number of iterations
    that identifiers allow.  Insertions never trade: each gets the next identifier and
    rests.  An iteration of the matching benchmark is one trade of 100 shares at 100.00
    between its two orders, and leaves the book empty.  In each iteration of the fill
    benchmark the market order makes one trade of its 100 shares at the best level,
    100.00, with the order that the iteration before has placed, and the limit order makes
    none; after any number of iterations the book has again no bids and 100 shares at each
    of the thousand prices.  The cancel benchmark is 100000 cancels that all succeed, then
    a refill, and so on.  A sweep of 1, 10, 100 or 1000 levels is one trade of 100 shares
    per level at its price, best level first, and leaves the book empty. *)
Theorem microbenchmarks n clocks cclocks :
  1 + (Z.of_nat n + 1) * 100000 < 2 ^ 64 →
  inserts_rest clocks n ∧ matches_trade clocks n ∧ fills_restored clocks n ∧ cancels_hit cclocks n ∧
  sweeps_clear clocks.
Proof.
  intros Hn. split_and!; [apply insert_bench|apply match_bench|apply fill_bench|apply cancel_bench_true|]; try lia.
  - unfold cancel_bench_orders. rewrite Z2Nat.id by lia. lia.
  - apply Forall_forall. intros m. apply sweep_bench.
Qed.

Lemma microbenchmarks_witness :
  inserts_rest (λ i j, 0) 200000 ∧ matches_trade (λ i j, 0) 200000 ∧ fills_restored (λ i j, 0) 200000 ∧
  cancels_hit (λ i j k, 0) 200000 ∧ sweeps_clear (λ i j, 0).
Proof. apply (microbenchmarks 200000 (λ i j, 0) (λ i j k, 0)). reflexivity. Defined.
