(* ===== verification/Main.v ===== *)
(** The entry points: src/main.cpp, src/run_simulation.cpp and the configuration of a
    simulation (include/simulation/Simulation.h). *)

From stdpp Require Import base list gmap strings.
From Stdlib Require Import ZArith Lia.
From S2P Require Import Prelude Machine StdMap Types OrderBook MatchingEngine Exchange.
From S2P Require Import RiskChecker Wire Numbers Protocol Format TcpServer Threads.
From S2P Require Import Rounding Simulation SimBooks SimProps SimMaker SimRun Replay Tape.

Open Scope Z_scope.
Open Scope list_scope.

(** ** The server *)

(** [static_cast<uint16_t>(std::stoi(argv[1]))], 9876 without an argument; [None] when
    [stoi] throws, which ends the program. *)
Definition main_port (argv : list (list byte)) : option Z :=
  match argv with
  | _ :: arg :: _ => z ← stoi arg; Some (z `mod` 2 ^ 16)
  | _ => Some 9876
  end.

(** The engine and the risk checker with the default limits. *)
Definition main_server : Server :=
  mk_server MatchingEngine_new (Some (RiskChecker_new RiskLimits_default)).

(** [main] up to the accept loop of the server: the port, and the state of the server,
    given what [socket] returns and whether [bind] and [listen] succeed. *)
Definition main (argv : list (list byte)) (fd : Z) (bind_ok listen_ok : bool) : option (Z * State) :=
  port ← main_port argv; Some (port, start fd bind_ok listen_ok (TcpServer_new main_server)).

(** ** The simulations *)

Record SimulationConfig := mk_config {
  config_symbol : string;
  config_initial_price : double;
  config_num_ticks : Z;
  config_price_volatility : double;
}.
Definition SimulationConfig_default : SimulationConfig := mk_config "AAPL" (dlit 15000 2) 10000 (dlit 1 3).

(** The background thread of [main], and [run_simulation]. *)
Definition main_config : SimulationConfig := mk_config "AAPL" (dlit 15000 2) 50000 (dlit 1 3).
Definition run_simulation_config : SimulationConfig := mk_config "AAPL" (dlit 15000 2) 10000 (dlit 1 3).

(** [Simulation sim(config); auto results = sim.run();] with the returns among the draws. *)
Definition run_config (config : SimulationConfig) (clocks : nat → nat → Timestamp) (wall_sec : double)
    (draws : Z → TickDraws) : option SimulationResults :=
  x ← sim_run (config_symbol config) clocks (config_initial_price config) (config_num_ticks config) draws;
  Some (sim_results (config_initial_price config) (config_num_ticks config) wall_sec x).

Lemma run_config_defined config clocks wall_sec draws :
  num (config_initial_price config) → 10 ≤ config_num_ticks config ≤ 2 ^ 26 → (∀ t, draws_ok (draws t)) →
  ∃ results, run_config config clocks wall_sec draws = Some results ∧
    r_total_ticks results = config_num_ticks config.
Proof.
  intros Hp Hn Hd. unfold run_config.
  destruct (run_spec (config_symbol config) clocks (config_initial_price config) (config_num_ticks config) draws)
    as ([w p] & -> & _); [done|done|lia|lia|]. eexists. by split.
Qed.

(** The programs start as their arguments say.  The server listens on the port that is
    its argument in decimal, if that is below 65536 (above, it silently takes the port
    modulo 65536), and on 9876 without one, with an empty engine and the default limits;
    the simulation in its background and the one of run_simulation run to their ends
    whatever they draw, for 50000 and 10000 ticks. *)
Theorem programs_start prog p fd clocks wall_sec draws :
  0 ≤ p < 2 ^ 31 → (∀ t, draws_ok (draws t)) →
  main [prog; dec p] fd true true = Some (p `mod` 2 ^ 16, listening main_server fd) ∧
  (p < 65536 → p `mod` 2 ^ 16 = p) ∧
  main [prog] fd true true = Some (9876, listening main_server fd) ∧
  (∃ results, run_config main_config clocks wall_sec draws = Some results ∧ r_total_ticks results = 50000) ∧
  (∃ results, run_config run_simulation_config clocks wall_sec draws = Some results ∧
     r_total_ticks results = 10000).
Proof.
  intros Hp Hd. split_and!.
  - unfold main, main_port, stoi. rewrite read_integer_dec by lia. cbn [mbind option_bind].
    destruct ((_ <=? p) && (p <? _)) eqn:E; [done|]. lia.
  - intros. apply Z.mod_small. lia.
  - done.
  - apply (run_config_defined main_config); [vm_compute; done|by vm_compute|done].
  - apply (run_config_defined run_simulation_config); [vm_compute; done|by vm_compute|done].
Qed.
