(* ===== verification/Reports.v ===== *)
(** What the programs print: [Simulation::run] and [Simulation::print_results]
    (src/simulation/Simulation.cpp), src/run_replay.cpp, src/run_simulation.cpp
    and benchmarks/bench_throughput.cpp.

    The output of a program is a list of items put into [std::cout] one after the other
    ([Format]); its text is what they print from the format state of a new stream, so a
    manipulator keeps its effect until another one changes it. *)

From stdpp Require Import base list gmap strings.
From Stdlib Require Import ZArith Lia.
From S2P Require Import Prelude Machine Rounding StdMap Types OrderBook MatchingEngine EngineSpec Exchange.
From S2P Require Import RiskChecker Wire Numbers Protocol Format LatencyHistogram Random.
From S2P Require Import Simulation SimBooks SimProps SimMaker SimRun Replay Tape Harness Benchmark Main.

Open Scope Z_scope.
Open Scope list_scope.

Definition text (its : list item) : list byte := (print its ios_new).1.

(** ** The simulation *)

Definition rule : list item := [Text (replicate 60 45); nl].

Definition run_banner (config : SimulationConfig) : list item :=
  [str "Starting simulation: "; str (config_symbol config);
   str " @ $"; fixed; setprecision 2; Real (config_initial_price config);
   str " for "; Int (config_num_ticks config); str " ticks"; nl] ++ rule.

(** The line that reports progress after a tick, and when it is due; the conversion of the
    percentage to [int] is [None] if it does not fit. *)
Definition progress_due (num_ticks tick : Z) : bool :=
  (tick >? 0) && (tick mod (num_ticks / 10) =? 0).

Definition progress_line (num_ticks tick : Z) (x : World * double) : option (list item) :=
  let '(w, true_price) := x in
  let stats := stats_ (w_engine w) in
  pct ← truncate 32 (ddiv (dmul (dofZ 100) (dofZ tick)) (dofZ num_ticks));
  Some [str "  "; setw 3; Int pct; str "% complete | ";
        str "Price: $"; fixed; setprecision 2; Real true_price;
        str " | Trades: "; Int (total_trades stats);
        str " | Orders: "; Int (total_orders stats); nl].

(** The main loop with what it prints. *)
Fixpoint sim_loop_out (sym : string) (clocks : nat → nat → Timestamp) (rounds : nat) (num_ticks tick : Z)
    (draws : Z → TickDraws) (x : World * double) : option (list item * (World * double)) :=
  match rounds with
  | O => Some ([], x)
  | S rounds =>
      x ← sim_tick sym clocks num_ticks tick (draws tick) x;
      line ← (if progress_due num_ticks tick then progress_line num_ticks tick x else Some []);
      '(its, x) ← sim_loop_out sym clocks rounds num_ticks (tick + 1) draws x;
      Some (line ++ its, x)
  end.

(** [Simulation::run], with its output. *)
Definition run_out (config : SimulationConfig) (clocks : nat → nat → Timestamp) (wall_sec : double)
    (draws : Z → TickDraws) : option (list item * SimulationResults) :=
  let n := config_num_ticks config in
  '(its, x) ← sim_loop_out (config_symbol config) clocks (Z.to_nat n) n 0 draws
                (Simulation_new (config_initial_price config));
  Some (run_banner config ++ its ++ [str "  100% complete"; nl] ++ rule,
        sim_results (config_initial_price config) n wall_sec x).

(** [Simulation::print_results]. *)
Definition trader_row (tr : TraderResult) : list item :=
  [str "║ "; setw 16; left_; str (tr_name tr);
   str " Pos:"; setw 6; right_; Int (tr_final_position tr);
   str " P&L: $"; setw 10; Real (tr_pnl tr); str " ║"; nl].

Definition print_throughput (r : SimulationResults) : list item :=
  if dgtb (r_wall_clock_sec r) dzero then
    let ops := u64 (r_total_orders r + r_total_cancels r) in
    let ops_per_sec := ddiv (dofZ ops) (r_wall_clock_sec r) in
    [nl; str "Wall clock:  "; fixed; setprecision 3; Real (r_wall_clock_sec r); str " s"; nl;
     str "Operations:  "; Int ops; str " ("; Int (r_total_orders r); str " orders + ";
     Int (r_total_cancels r); str " cancels)"; nl;
     str "Throughput:  "; fixed; setprecision 0; Real ops_per_sec; str " ops/sec (";
     setprecision 2; Real (ddiv ops_per_sec (dofZ 1000000));
     str "M ops/sec), measured over the whole run"; nl]
  else [].

Definition print_results (r : SimulationResults) : list item :=
  [nl;
   str "╔══════════════════════════════════════════════╗"; nl;
   str "║          SIMULATION RESULTS                 ║"; nl;
   str "╠══════════════════════════════════════════════╣"; nl;
   fixed; setprecision 2;
   str "║ Total Ticks:     "; setw 10; Int (r_total_ticks r); str "                 ║"; nl;
   str "║ Total Trades:    "; setw 10; Int (r_total_trades r); str "                 ║"; nl;
   str "║ Total Volume:    "; setw 10; Int (r_total_volume r); str " shares          ║"; nl;
   str "║ Total Notional:  $"; setw 12; Real (r_total_notional r); str "               ║"; nl;
   str "║ Final Price:     $"; setw 9; Real (r_final_price r); str "                ║"; nl;
   str "║ Price Return:    "; setw 9; Real (r_price_return_pct r); str "%               ║"; nl;
   str "╠══════════════════════════════════════════════╣"; nl;
   str "║          LATENCY (nanoseconds)              ║"; nl;
   str "╠══════════════════════════════════════════════╣"; nl;
   fixed; setprecision 0;
   str "║ Average:         "; setw 10; Real (r_avg_latency_ns r); str " ns              ║"; nl;
   str "║ Minimum:         "; setw 10; Real (r_min_latency_ns r); str " ns              ║"; nl;
   str "║ Maximum:         "; setw 10; Real (r_max_latency_ns r); str " ns              ║"; nl;
   str "╠══════════════════════════════════════════════╣"; nl;
   str "║          TRADER P&L                         ║"; nl;
   str "╠══════════════════════════════════════════════╣"; nl;
   fixed; setprecision 2] ++
  concat (trader_row <$> r_trader_results r) ++
  [str "╚══════════════════════════════════════════════╝"; nl] ++
  print_throughput r.

(** src/run_simulation.cpp. *)
Definition run_simulation_main (clocks : nat → nat → Timestamp) (wall_sec : double)
    (draws : Z → TickDraws) : option (list item) :=
  '(its, results) ← run_out run_simulation_config clocks wall_sec draws;
  Some (its ++ print_results results).

(** The background thread of src/main.cpp. *)
Definition main_sim_thread (clocks : nat → nat → Timestamp) (wall_sec : double)
    (draws : Z → TickDraws) : option (list item) :=
  '(its, results) ← run_out main_config clocks wall_sec draws;
  Some (its ++ print_results results).

(** ** The replay *)

Section run_replay.
Context `{Hdr}.

Definition run_replay_banner (path : list byte) : list item :=
  [Text (replicate 60 61); nl; str " Replaying tape: "; Text path; nl; Text (replicate 60 61); nl].

(** The results; the conversion of the throughput to [int64_t] is [None] if it does not
    fit. *)
Definition replay_results (rep : ReplayReport) : option (list item) :=
  let r := rr_result rep in
  rate ← truncate 64 (throughput_ops_per_sec rep);
  Some
  [nl; str "--- Replay Results ---"; nl;
   str "  Events processed: "; Int (events_processed r); nl;
   str "  New orders:       "; Int (new_orders r); nl;
   str "  Cancels:          "; Int (cancels r); nl;
   str "  Risk rejections:  "; Int (risk_rejections r); nl;
   str "  Trades generated: "; Int (trades_generated rep); nl;
   str "  Volume traded:    "; Int (volume_traded rep); str " shares"; nl;
   str "  Notional traded:  $"; Real (notional_traded rep); nl;
   str "  Duration:         "; Int (Z.quot (total_duration_ns rep) 1000); str " µs"; nl;
   str "  Throughput:       "; Int rate; str " ops/sec"; nl].

Definition risk_results (st : RiskStats) : list item :=
  [nl; str "--- Risk Stats ---"; nl;
   str "  Total checks:     "; Int (total_checks st); nl;
   str "  Passes:           "; Int (total_passes st); nl;
   str "  Rejections:       "; Int (total_rejections st); nl].

Definition run_replay_path (argv : list (list byte)) : list byte :=
  match argv with _ :: path :: _ => path | _ => chars "data/sample_tape.csv" end.

(** src/run_replay.cpp; [file path] are the characters of a file that can be opened, and
    the reader throws for others. *)
Definition run_replay_main (file : list byte → option (list byte)) (clocks : nat → nat → Timestamp)
    (lats : nat → Z) (dur : Z) (argv : list (list byte)) : option (list item) :=
  let path := run_replay_path argv in
  ha ← ReplayHarness_new MatchingEngine_new (Some (RiskChecker_new RiskLimits_default));
  content ← file path;
  '(rep, ha) ← harness_replay clocks lats dur content ha;
  results ← replay_results rep;
  rc ← ha_risk ha;
  Some (run_replay_banner path ++ results ++
        [nl; str "--- Latency Distribution (nanoseconds) ---"; nl] ++
        summary_items (chars "  Per-op latency") (ha_latency ha) ++
        risk_results (risk_stats_ rc)).
End run_replay.

(** ** The throughput benchmark *)

Section bench.
Context `{Hdr} `{Distributions}.

(** [printf] with [%.nf]. *)
Definition printf_f (n : nat) (x : double) : list item := [fixed; setprecision n; Real x].

Definition bench_phase1 (tp : RunResult) : list item :=
  let ops_per_sec := ddiv (dofZ (ops_executed tp)) (elapsed_sec tp) in
  let stats := run_stats tp in
  [nl; str "[phase 1] sustained throughput (no per-op instrumentation)"; nl;
   str "  wall clock        : "] ++ printf_f 3 (elapsed_sec tp) ++ [str " s"; nl;
   str "  operations        : "; Int (ops_executed tp); nl;
   str "  throughput        : "] ++ printf_f 0 ops_per_sec ++ [str " ops/sec ("] ++
     printf_f 2 (ddiv ops_per_sec (dofZ 1000000)) ++ [str "M ops/sec)"; nl;
   str "  orders submitted  : "; Int (total_orders stats); nl;
   str "  cancels           : "; Int (total_cancels stats); nl;
   str "  trades            : "; Int (total_trades stats); nl;
   str "  shares traded     : "; Int (total_volume stats); nl].

Definition bench_phase2 (lat : RunResult) (h : hdr_histogram) : list item :=
  [nl; str "[phase 2] latency distribution (two clock reads per op)"; nl;
   str "  samples           : "; Int (hdr_total_count h); nl;
   str "  min               : "; Int (hdr_min h); str " ns"; nl;
   str "  p50               : "; Int (hdr_value_at_percentile h (dlit 500 1)); str " ns"; nl;
   str "  p90               : "; Int (hdr_value_at_percentile h (dlit 900 1)); str " ns"; nl;
   str "  p99               : "; Int (hdr_value_at_percentile h (dlit 990 1)); str " ns"; nl;
   str "  p99.9             : "; Int (hdr_value_at_percentile h (dlit 999 1)); str " ns"; nl;
   str "  max               : "; Int (hdr_max h); str " ns"; nl;
   str "  mean              : "] ++ printf_f 1 (hdr_mean h) ++ [str " ns"; nl;
   str "  instrumented rate : "] ++
     printf_f 2 (ddiv (ddiv (dofZ (ops_executed lat)) (elapsed_sec lat)) (dofZ 1000000)) ++
   [str "M ops/sec (lower than phase 1 by the cost of timestamping)"; nl].

(** [main]: the number of operations and the CSV file are arguments; [opened] says whether
    that file could be opened, and its text is returned with the output. *)
Definition bench_n_ops (argv : list (list byte)) : Z :=
  match argv with _ :: arg :: _ => strtoull arg | _ => 5000000 end.
Definition bench_csv (argv : list (list byte)) : list byte :=
  match argv with _ :: _ :: arg :: _ => arg | _ => [] end.

Definition bench_header (n_ops : Z) : list item :=
  [str "workload            : "; Int n_ops;
   str " operations (35% passive buy, 35% passive sell, 20% cancel, 10% IOC cross)"; nl].

Definition bench_main (argv : list (list byte)) (clocks clocks' : nat → nat → Timestamp)
    (lats : nat → Z) (t1 t2 : double) (opened : bool) : option (list item * option (list byte)) :=
  let n_ops := bench_n_ops argv in
  let csv := bench_csv argv in
  let ops := build_workload (Z.to_nat n_ops) 12345 in
  let offsets := build_offsets (Z.to_nat n_ops) 6789 in
  tp ← run_throughput clocks t1 ops offsets;
  h ← hdr_init 1 60000000000 3;
  '(lat, h) ← run_latency clocks' lats t2 ops offsets h;
  let out := bench_header n_ops ++ bench_phase1 tp ++ bench_phase2 lat h in
  if decide (csv = []) then Some (out, None)
  else if opened then
    Some (out ++ [nl; str "full distribution written to "; Text csv; nl], Some (hdr_percentiles_print h 5 (dofZ 1)))
  else None.
End bench.

(** ** The output that the repository keeps *)

(** results/replay.txt: a replay of data/sample_tape.csv, up to the measured times. *)
Definition sample_file (path : list byte) : option (list byte) :=
  if decide (path = chars "data/sample_tape.csv") then Some (chars sample_csv) else None.

Definition replay_txt_head : string :=
"============================================================
 Replaying tape: data/sample_tape.csv
============================================================

--- Replay Results ---
  Events processed: 51
  New orders:       47
  Cancels:          4
  Risk rejections:  0
  Trades generated: 30
  Volume traded:    6135 shares
  Notional traded:  $1.1019e+06
  Duration:         892 µs
  Throughput:       57116 ops/sec
".
Definition replay_txt_tail : string :=
"
--- Risk Stats ---
  Total checks:     47
  Passes:           47
  Rejections:       0
".

Definition sample_replay : list byte :=
  text (default [] (@run_replay_main list_hdr sample_file (λ i n, Z.of_nat (10 * i + n)) (λ _, 200) 892919 [[]])).

Example replay_txt :
  string_of_chars (take (String.length replay_txt_head) sample_replay) = replay_txt_head ∧
  string_of_chars (drop (length sample_replay - String.length replay_txt_tail) sample_replay) = replay_txt_tail.
Proof. vm_compute. done. Qed.

(** results/simulation.txt: the table for the results of the run it shows. *)
Definition shown_results : SimulationResults :=
  mk_results 10000 30699 16057 13760 794560 (dlit 12913305830 2) (dlit 715620785 11)
    (dofZ 129) (dofZ 0) (dofZ 424750) (dlit 16056 2) (dlit 704 2)
    [mk_trader_result "MarketMaker" (-210) (dlit 1077144 2) 0 0;
     mk_trader_result "MomentumTrader" 0 dzero 0 0;
     mk_trader_result "NoiseTrader" 1140 (dlit 1070189 2) 0 0;
     mk_trader_result "NoiseTrader" (-510) (dlit 1700628 2) 0 0;
     mk_trader_result "NoiseTrader" (-5100) (dlit 8070064 2) 0 0].

Definition simulation_txt : string :=
"
╔══════════════════════════════════════════════╗
║          SIMULATION RESULTS                 ║
╠══════════════════════════════════════════════╣
║ Total Ticks:          10000                 ║
║ Total Trades:         13760                 ║
║ Total Volume:        794560 shares          ║
║ Total Notional:  $129133058.30               ║
║ Final Price:     $   160.56                ║
║ Price Return:         7.04%               ║
╠══════════════════════════════════════════════╣
║          LATENCY (nanoseconds)              ║
╠══════════════════════════════════════════════╣
║ Average:                129 ns              ║
║ Minimum:                  0 ns              ║
║ Maximum:             424750 ns              ║
╠══════════════════════════════════════════════╣
║          TRADER P&L                         ║
╠══════════════════════════════════════════════╣
║ MarketMaker      Pos:  -210 P&L: $  10771.44 ║
║ MomentumTrader   Pos:     0 P&L: $      0.00 ║
║ NoiseTrader      Pos:  1140 P&L: $  10701.89 ║
║ NoiseTrader      Pos:  -510 P&L: $  17006.28 ║
║ NoiseTrader      Pos: -5100 P&L: $  80700.64 ║
╚══════════════════════════════════════════════╝

Wall clock:  0.007 s
Operations:  46756 (30699 orders + 16057 cancels)
Throughput:  6533628 ops/sec (6.53M ops/sec), measured over the whole run
".

Example simulation_table : string_of_chars (text (print_results shown_results)) = simulation_txt.
Proof. vm_compute. reflexivity. Qed.

(** results/throughput.txt, the first phase. *)
Definition throughput_txt : string :=
"
[phase 1] sustained throughput (no per-op instrumentation)
  wall clock        : 0.555 s
  operations        : 5000000
  throughput        : 9010894 ops/sec (9.01M ops/sec)
  orders submitted  : 2774893
  cancels           : 758476
  trades            : 1499355
  shares traded     : 149935500
".

Example throughput_phase1 :
  string_of_chars (text (bench_phase1 (mk_run_result 5000000 (dlit 554883899 9)
    (mk_stats 2774893 1499355 758476 0 149935500 dzero 0 0 0)))) = throughput_txt.
Proof. vm_compute. reflexivity. Qed.
