(* ===== verification/ReportProps.v ===== *)
(** What the printed reports say: the numbers of a replay report can be read back from
    the text, the progress lines of a simulation show the states they should, and prices
    and money are printed to the nearest cent. *)

From stdpp Require Import base list gmap strings.
From Stdlib Require Import ZArith Lia SpecFloat.
From S2P Require Import Prelude Machine Rounding StdMap Types OrderBook MatchingEngine EngineSpec Exchange.
From S2P Require Import RiskChecker Wire Numbers Protocol Format LatencyHistogram.
From S2P Require Import Simulation SimBooks SimProps SimMaker SimRun Replay Tape Harness Main Reports.

Open Scope Z_scope.
Open Scope list_scope.

(** ** The counters of a replay *)

Definition u64_ok (x : Z) : Prop := 0 ≤ x < 2 ^ 64.

(** The counters fit their types, and there is a risk checker whose counters agree with
    the result. *)
Record counters_ok (st : Replay) : Prop := {
  co_events : u64_ok (events_processed (re_result st));
  co_new : u64_ok (new_orders (re_result st));
  co_cancels : u64_ok (cancels (re_result st));
  co_rejections : u64_ok (risk_rejections (re_result st));
  co_trades : u64_ok (trades_count (re_running st));
  co_volume : 0 ≤ volume_running (re_running st) < 2 ^ 32;
  co_risk : ∃ rc, re_risk st = Some rc ∧
    total_checks (risk_stats_ rc) = new_orders (re_result st) ∧
    total_rejections (risk_stats_ rc) = risk_rejections (re_result st) ∧
    total_passes (risk_stats_ rc) = u64 (new_orders (re_result st) - risk_rejections (re_result st));
}.

Lemma u64_ok_u64 x : u64_ok (u64 x).
Proof. apply u64_range. Qed.

Lemma notify_counters ts run :
  u64_ok (trades_count run) → 0 ≤ volume_running run < 2 ^ 32 →
  let run' := notify_all (Some replay_callback) ts run in
  u64_ok (trades_count run') ∧ 0 ≤ volume_running run' < 2 ^ 32.
Proof.
  unfold notify_all. revert run. induction ts as [|t ts IH]; intros run Ht Hv; simpl; [done|].
  apply IH; simpl; [apply u64_ok_u64|apply u32_range].
Qed.

Lemma replay_gate_counters ev rc r rc' :
  replay_gate ev (Some rc) = Some (r, rc') →
  ∃ rc1, rc' = Some rc1 ∧ risk_stats_ rc1 =
    if decide (r = Reason_None) then record_pass (risk_stats_ rc) else record_reject r (risk_stats_ rc).
Proof.
  simpl. intros ([r1 rc1] & Hc & [= -> <-])%bind_Some. exists rc1. split; [done|].
  by rewrite (check_frame _ _ _ _ _ _ _ _ Hc).
Qed.

Lemma replay_event_counters clock ev st st' :
  counters_ok st → replay_event clock ev st = Some st' → counters_ok st'.
Proof.
  intros [H1 H2 H3 H4 H5 H6 (rc0 & E & Hc & Hj & Hp)]. unfold replay_event. rewrite E. destruct (is_new _).
  - intros ([r rc] & Hg & H)%bind_Some. apply replay_gate_counters in Hg as (rc1 & -> & Hs).
    case_decide as Hr.
    + apply bind_Some in H as ([[oid e] run] & Hsub & [= <-]).
      rewrite submit_order_callback in Hsub. apply bind_Some in Hsub as ([[? ?] ts] & _ & [= -> -> <-]).
      destruct (notify_counters ts (re_running st) H5 H6) as [Ht Hv].
      constructor; simpl; try done; try apply u64_ok_u64. exists rc1. split; [done|].
      rewrite Hs. cbn [record_pass total_checks total_rejections total_passes].
      by rewrite Hc, Hj, Hp, u64_sub_add.
    + injection H as <-. constructor; simpl; try done; try apply u64_ok_u64. exists rc1. split; [done|].
      rewrite Hs. cbn [record_reject total_checks total_rejections total_passes].
      by rewrite Hc, Hj, Hp, u64_sub_sub.
  - destruct (is_cancel _).
    + intros ([? e] & _ & [= <-])%bind_Some. constructor; simpl; try done; try apply u64_ok_u64. eauto.
    + intros [= <-]. constructor; simpl; try done; try apply u64_ok_u64. eauto.
Qed.

Lemma replay_counters clocks i evs st st' :
  counters_ok st → replay clocks i evs st = Some st' → counters_ok st'.
Proof.
  revert i st. induction evs as [|ev evs IH]; intros i st Hst; simpl; [by intros [= <-]|].
  intros (st1 & H1 & H2)%bind_Some. by eapply IH; [eapply replay_event_counters|].
Qed.

Lemma start_counters limits : counters_ok (replay_start MatchingEngine_new (Some (RiskChecker_new limits))).
Proof. constructor; simpl; try done. by eexists. Qed.

(** ** Reading a report *)

Fixpoint is_prefix (a b : list byte) : bool :=
  match a, b with
  | [], _ => true
  | x :: a, y :: b => (x =? y) && is_prefix a b
  | _ :: _, [] => false
  end.

(** The number behind a label, in the first line that begins with it. *)
Fixpoint find_line (label : list byte) (lines : list (list byte)) : option (list byte) :=
  match lines with
  | [] => None
  | l :: lines => if is_prefix label l then Some (drop (length label) l) else find_line label lines
  end.
Definition read_field (label : string) (out : list byte) : option Z :=
  find_line (chars label) (split_fields 10 out []) ≫= stoull.

Definition unlines (lines : list (list byte)) : list byte := concat ((λ l, l ++ [10]) <$> lines).

Lemma split_unlines lines : Forall no_nl lines → split_fields 10 (unlines lines) [] = lines.
Proof.
  intros Hl. pose proof (split_fields_terminated 10 lines [] Hl) as H.
  rewrite app_nil_r in H. unfold unlines. rewrite H. by rewrite app_nil_r.
Qed.

Section replay_text.
Context `{Hdr}.

Arguments chars : simpl never.
Arguments replicate : simpl never.

Definition summary_line (label : list byte) (h : hdr_histogram) : list byte :=
  concat (show ios_new <$> take 17 (summary_items label h)).

(** The lines that run_replay prints. *)
Definition replay_lines (path : list byte) (rep : ReplayReport) (rate : Z) (h : hdr_histogram)
    (st : RiskStats) : list (list byte) :=
  let r := rr_result rep in
  [replicate 60 61; chars " Replaying tape: " ++ path; replicate 60 61; [];
   chars "--- Replay Results ---";
   chars "  Events processed: " ++ dec_signed (events_processed r);
   chars "  New orders:       " ++ dec_signed (new_orders r);
   chars "  Cancels:          " ++ dec_signed (cancels r);
   chars "  Risk rejections:  " ++ dec_signed (risk_rejections r);
   chars "  Trades generated: " ++ dec_signed (trades_generated rep);
   chars "  Volume traded:    " ++ dec_signed (volume_traded rep) ++ chars " shares";
   chars "  Notional traded:  $" ++ show_general 6 (notional_traded rep);
   chars "  Duration:         " ++ dec_signed (Z.quot (total_duration_ns rep) 1000) ++ chars " µs";
   chars "  Throughput:       " ++ dec_signed rate ++ chars " ops/sec"; [];
   chars "--- Latency Distribution (nanoseconds) ---";
   summary_line (chars "  Per-op latency") h; [];
   chars "--- Risk Stats ---";
   chars "  Total checks:     " ++ dec_signed (total_checks st);
   chars "  Passes:           " ++ dec_signed (total_passes st);
   chars "  Rejections:       " ++ dec_signed (total_rejections st)].

Lemma replay_text path rep rate h st results :
  truncate 64 (throughput_ops_per_sec rep) = Some rate → replay_results rep = Some results →
  text (run_replay_banner path ++ results ++ [nl; str "--- Latency Distribution (nanoseconds) ---"; nl] ++
        summary_items (chars "  Per-op latency") h ++ risk_results st) =
  unlines (replay_lines path rep rate h st).
Proof.
  unfold replay_results. intros -> [= <-]. unfold text. rewrite print_values; [|repeat constructor|done].
  unfold unlines, replay_lines, summary_line, summary_items, run_replay_banner, risk_results, str, nl.
  cbn [app fmap list_fmap concat show ios_fixed ios_precision ios_new take fst].
  rewrite <-!app_assoc. cbn [app]. reflexivity.
Qed.

Lemma replay_lines_no_nl path rep rate h st : no_nl path → Forall no_nl (replay_lines path rep rate h st).
Proof.
  intros Hp. assert (∀ b, no_nl b ↔ forallb (λ c, negb (c =? 10)) b = true) as Hb.
  { intros b. rewrite forallb_forall. unfold no_nl. rewrite Forall_forall.
    split; intros Hall c Hc; specialize (Hall c); rewrite <-?list_elem_of_In in *; destruct (Z.eqb_spec c 10); naive_solver. }
  unfold replay_lines, summary_line, summary_items, str, nl. cbn [take fmap list_fmap concat show ios_new ios_fixed ios_precision].
  repeat constructor; repeat (apply Forall_app; split);
    first [done|apply dec_signed_no_nl|apply show_general_no_nl|apply Hb; vm_compute; reflexivity|constructor].
Qed.
End replay_text.

Lemma stoull_signed n l : u64_ok n → no_digit l → stoull (dec_signed n ++ l) = Some n.
Proof. intros Hn Hl. unfold dec_signed. rewrite (proj2 (Z.ltb_ge n 0)) by apply Hn. by apply stoull_app. Qed.

(** Literals as the characters they stand for. *)
Ltac literals :=
  repeat match goal with
  | |- context [chars ?s] => let v := eval vm_compute in (chars s) in change (chars s) with v
  end.

(** What a report of a replay says about each of its counters. *)
Lemma replay_lines_fields `{Hdr} path rep rate h st :
  let r := rr_result rep in
  no_nl path → u64_ok (events_processed r) → u64_ok (new_orders r) → u64_ok (cancels r) →
  u64_ok (risk_rejections r) → u64_ok (trades_generated rep) → u64_ok (volume_traded rep) →
  u64_ok (total_checks st) → u64_ok (total_passes st) → u64_ok (total_rejections st) →
  let out := unlines (replay_lines path rep rate h st) in
  (λ label, read_field label out) <$>
    ["  Events processed: "; "  New orders:       "; "  Cancels:          "; "  Risk rejections:  ";
     "  Trades generated: "; "  Volume traded:    "; "  Total checks:     "; "  Passes:           ";
     "  Rejections:       "]%string =
  Some <$> [events_processed r; new_orders r; cancels r; risk_rejections r; trades_generated rep;
            volume_traded rep; total_checks st; total_passes st; total_rejections st].
Proof.
  intros r Hp H1 H2 H3 H4 H5 H6 H7 H8 H9 out. unfold read_field, out.
  rewrite split_unlines by by apply replay_lines_no_nl. cbn [fmap list_fmap].
  assert (∀ n, u64_ok n → stoull (dec_signed n) = Some n) as Hs.
  { intros n Hn. rewrite <-(app_nil_r (dec_signed n)). by apply stoull_signed. }
  unfold replay_lines, summary_line, summary_items, str.
  set (rule := replicate 60 61). assert (rule = ltac:(let v := eval vm_compute in (replicate 60 61) in exact v)) as -> by done.
  cbn [take fmap list_fmap concat show ios_new ios_fixed ios_precision]. literals.
  cbn [find_line is_prefix app Z.eqb Pos.eqb andb length drop mbind option_bind].
  rewrite !drop_0, !Hs by done. by rewrite stoull_signed.
Qed.

(** The throughput of a replay fits 64 bits. *)
Lemma truncate_bounded D x w : bounded_by D x → 0 ≤ D < w → is_Some (truncate w x).
Proof.
  intros Hx Hw. destruct x as [s|s| |s m e]; [by eexists|done..|]. destruct Hx as [He Hm]. simpl.
  assert (0 ≤ numerator m e / denominator e < 2 ^ D) as Hq.
  { pose proof (numerator_pos m e). pose proof (denominator_pos e). split; [apply Z.div_pos; lia|].
    apply Z.div_lt_upper_bound; [done|]. unfold numerator, denominator.
    destruct (decide (0 ≤ e)).
    - rewrite (Z.max_r 0 e), (Z.max_l 0 (- e)) by lia. replace D with (D - e + e) at 1 by lia.
      rewrite Z.pow_add_r by lia. rewrite Z.mul_1_l. apply Z.mul_lt_mono_pos_r; [|done]. apply Z.pow_pos_nonneg; lia.
    - rewrite (Z.max_l 0 e), (Z.max_r 0 (- e)), Z.mul_1_r, <-Z.pow_add_r by lia.
      replace (- e + D) with (D - e) by lia. done. }
  assert (2 ^ D ≤ 2 ^ (w - 1)) by (apply Z.pow_le_mono_r; lia).
  destruct (_ && _) eqn:E; [by eexists|]. destruct s; lia.
Qed.

Lemma replay_rate_defined n dur :
  0 ≤ n < 2 ^ 28 → dur < 2 ^ 53 →
  is_Some (truncate 64 (if dur >? 0 then ddiv (dmul (dofZ n) (dofZ 1000000000)) (dofZ dur) else dzero)).
Proof.
  intros Hn Hd. destruct (Z.gtb_spec dur 0); [|by eexists].
  destruct (dofZ_pos dur) as (m & e & E & Hm & He); [lia|].
  pose proof (bounded_dofZ dur 53) as Hb. rewrite E in Hb. destruct Hb as [He2 _]; [lia..|].
  apply truncate_bounded with 62; [|lia]. apply (bounded_div _ _ m e 61); [|done|done|lia|lia].
  apply (bounded_mul _ _ 29 31); [apply (bounded_dofZ _ 28); lia|apply (bounded_dofZ _ 30); lia|lia].
Qed.

(** C31: what run_replay prints can be read back.  For any tape without NaN prices, of fewer
    than 2^28 events and replayed in less than 2^53 ns, the program ends normally, and the
    number behind each label of its output, found as a script would find it, is the
    counter it stands for: the events of the tape, the orders, cancels and rejections of
    the result, the trades and the volume of the engine's statistics (the volume cut to
    32 bits), and the checks of the risk checker, which are one per new order, rejected
    as often as the result says. *)
Theorem replay_report_roundtrip `{Hdr} file clocks lats dur prog path content ha0 :
  ReplayHarness_new MatchingEngine_new (Some (RiskChecker_new RiskLimits_default)) = Some ha0 →
  file path = Some content → no_nl path →
  Forall (λ ev, valid_price (ev_type ev) (ev_price ev)) (tape_events content) →
  Z.of_nat (length (tape_events content)) < 2 ^ 28 → dur < 2 ^ 53 →
  ∃ its rep ha, run_replay_main file clocks lats dur [prog; path] = Some its ∧
    harness_replay clocks lats dur content ha0 = Some (rep, ha) ∧
    let r := rr_result rep in
    let stats := stats_ (ha_engine ha) in
    (λ label, read_field label (text its)) <$>
      ["  Events processed: "; "  New orders:       "; "  Cancels:          "; "  Risk rejections:  ";
       "  Trades generated: "; "  Volume traded:    "; "  Total checks:     "; "  Passes:           ";
       "  Rejections:       "]%string =
    Some <$> [Z.of_nat (length (tape_events content)); new_orders r; cancels r; risk_rejections r;
              total_trades stats; u32 (total_volume stats); new_orders r;
              u64 (new_orders r - risk_rejections r); risk_rejections r].
Proof.
  intros (h & Hinit & [= <-])%bind_Some Hfile Hpath Hp Hlen Hdur.
  assert (∀ sym, position sym (RiskChecker_new RiskLimits_default) = 0) as Hrc by done.
  destruct (harness_replay_spec clocks lats dur content (Some (RiskChecker_new RiskLimits_default)) h Hp)
    as (st & Hst & Hinv & Hr); [lia|done|]. set (h' := foldl _ h _) in *. clearbody h'.
  pose proof (replay_counters _ _ _ _ _ (start_counters RiskLimits_default) Hst)
    as [C1 C2 C3 C4 C5 C6 (rc & Hrcs & K1 & K2 & K3)].
  destruct Hinv as [_ _ Hev _ Htr Hvol _ _]. rewrite u64_small in Hev by lia.
  destruct (replay_rate_defined (events_processed (re_result st)) dur) as [rate Hrate]; [lia|done|].
  assert (∃ results, replay_results (replay_report dur st h') = Some results) as [results Hres].
  { unfold replay_results. cbn [replay_report throughput_ops_per_sec]. rewrite Hrate. by eexists. }
  eexists _, _, _. split.
  { unfold run_replay_main, run_replay_path, ReplayHarness_new. cbv zeta. rewrite Hinit, Hfile. cbn [mbind option_bind].
    rewrite Hr. cbn [mbind option_bind]. rewrite Hres. cbn [mbind option_bind ha_risk]. by rewrite Hrcs. }
  split; [exact Hr|]. cbv zeta. rewrite (replay_text path (replay_report dur st h') rate h' _ results Hrate Hres).
  rewrite replay_lines_fields; cbn [rr_result replay_report trades_generated volume_traded ha_engine ha_latency];
    rewrite ?K1, ?K2, ?K3; try done; [by rewrite Hev, Htr, Hvol|unfold u64_ok; lia|apply u64_ok_u64].
Qed.

Lemma replay_report_roundtrip_witness :
  ∃ its rep ha, @run_replay_main list_hdr sample_file (λ i n, Z.of_nat (10 * i + n)) (λ _, 200) 892919
      [chars "run_replay"; chars "data/sample_tape.csv"] = Some its ∧
    harness_replay (λ i n, Z.of_nat (10 * i + n)) (λ _, 200) 892919 (chars sample_csv)
      (@mk_harness list_hdr MatchingEngine_new new_risk (mk_list_histogram 60000000000 [])) = Some (rep, ha) ∧
    let r := rr_result rep in
    let stats := stats_ (ha_engine ha) in
    (λ label, read_field label (text its)) <$>
      ["  Events processed: "; "  New orders:       "; "  Cancels:          "; "  Risk rejections:  ";
       "  Trades generated: "; "  Volume traded:    "; "  Total checks:     "; "  Passes:           ";
       "  Rejections:       "]%string =
    Some <$> [Z.of_nat (length (tape_events (chars sample_csv))); new_orders r; cancels r; risk_rejections r;
              total_trades stats; u32 (total_volume stats); new_orders r;
              u64 (new_orders r - risk_rejections r); risk_rejections r].
Proof.
  apply (@replay_report_roundtrip list_hdr sample_file _ _ 892919 (chars "run_replay")
           (chars "data/sample_tape.csv") (chars sample_csv));
    [reflexivity|vm_compute; reflexivity|apply (bool_decide_unpack _); vm_compute; exact I
    |exact sample_csv_prices|vm_compute; reflexivity|reflexivity].
Defined.

(** ** The output of a simulation *)

(** The ticks after which progress is reported. *)
Fixpoint due_ticks (num_ticks tick : Z) (rounds : nat) : list Z :=
  match rounds with
  | O => []
  | S rounds =>
      (if progress_due num_ticks tick then [tick] else []) ++ due_ticks num_ticks (tick + 1) rounds
  end.

Definition percent (num_ticks tick : Z) : option Z :=
  truncate 32 (ddiv (dmul (dofZ 100) (dofZ tick)) (dofZ num_ticks)).

(** Printing does not change the run, and the lines are those of the states after the
    ticks that are due. *)
Lemma sim_loop_out_spec sym clocks rounds n tick draws x x' :
  sim_loop sym clocks rounds n tick draws x = Some x' →
  Forall (λ t, is_Some (percent n t)) (due_ticks n tick rounds) →
  ∃ lines, sim_loop_out sym clocks rounds n tick draws x = Some (concat lines, x') ∧
    Forall2 (λ t line, ∃ y, sim_loop sym clocks (Z.to_nat (t - tick + 1)) n tick draws x = Some y ∧
                            progress_line n t y = Some line) (due_ticks n tick rounds) lines ∧
    Forall (λ t, tick ≤ t) (due_ticks n tick rounds).
Proof.
  revert tick x. induction rounds as [|rounds IH]; intros tick x; cbn [sim_loop sim_loop_out due_ticks].
  { intros [= <-] _. by exists []. }
  intros (x1 & H1 & H2)%bind_Some Hp. apply Forall_app in Hp as [Hp Hps].
  destruct (IH _ _ H2 Hps) as (lines & Hl & HF & Hge). rewrite H1. cbn [mbind option_bind].
  assert (Forall2 (λ t line, ∃ y, sim_loop sym clocks (Z.to_nat (t - tick + 1)) n tick draws x = Some y ∧
    progress_line n t y = Some line) (due_ticks n (tick + 1) rounds) lines) as HF'.
  { clear -HF Hge H1. induction HF as [|t line ts lines (y & Hy & Hline) _ IH]; [constructor|].
    apply Forall_cons in Hge as [Ht Hge]. constructor; [|by apply IH]. exists y. split; [|done].
    replace (Z.to_nat (t - tick + 1)) with (S (Z.to_nat (t - (tick + 1) + 1))) by lia.
    cbn [sim_loop]. by rewrite H1. }
  assert (Forall (λ t, tick ≤ t) (due_ticks n (tick + 1) rounds)) as Hge'.
  { eapply Forall_impl; [exact Hge|]. simpl. lia. }
  destruct (progress_due n tick) eqn:Ed; rewrite Hl; cbn [mbind option_bind].
  - apply Forall_cons in Hp as [[pct Hpct] _]. destruct x1 as [w p]. unfold progress_line at 1.
    unfold percent in Hpct. rewrite Hpct. cbn [mbind option_bind].
    eexists (_ :: lines). split; [done|]. split; [|by constructor].
    constructor; [|done]. exists (w, p). replace (tick - tick + 1) with 1 by lia.
    change (Z.to_nat 1) with 1%nat. cbn [sim_loop]. rewrite H1. cbn [mbind option_bind]. split; [done|].
    unfold progress_line. by rewrite Hpct.
  - exists lines. by split_and!.
Qed.

(** A progress line, and the stream between two of them. *)
Definition between : ios := mk_ios true 2 0 false.

Definition progress_text (pct : Z) (x : World * double) : list byte :=
  chars "  " ++ pad (mk_ios true 2 3 false) (dec_signed pct) ++ chars "% complete | Price: $" ++
  show_fixed 2 x.2 ++ chars " | Trades: " ++ dec_signed (total_trades (stats_ (w_engine x.1))) ++
  chars " | Orders: " ++ dec_signed (total_orders (stats_ (w_engine x.1))) ++ [10].

Lemma pad_0 f p l : pad (mk_ios f p 0 false) l = l.
Proof. done. Qed.

Lemma progress_line_text n t y pct line :
  percent n t = Some pct → progress_line n t y = Some line →
  print line between = (progress_text pct y, between).
Proof.
  destruct y as [w p]. unfold percent, progress_line. intros -> [= <-].
  cbn [print put str nl ios_width ios_fixed ios_precision ios_left between]. rewrite !pad_0.
  by rewrite ?app_nil_r.
Qed.

Lemma progress_lines_text {A} (P : Z → A → Prop) (Q : Z → A → list item → Prop) (F : Z → A → list byte) st ks lines :
  (∀ k y line, k ∈ ks → Q k y line → print line st = (F k y, st)) →
  Forall2 (λ k line, ∃ y, P k y ∧ Q k y line) ks lines →
  ∃ ys, Forall2 P ks ys ∧ print (concat lines) st = (concat (zip_with F ks ys), st).
Proof.
  intros HQ HF. induction HF as [|k line ks lines (y & HP & Hq) _ IH]; [by exists []|].
  destruct IH as (ys & HPs & Hpr); [intros; eapply HQ; [by right|done]|].
  exists (y :: ys). split; [by constructor|]. cbn [concat zip_with]. rewrite print_app.
  erewrite HQ; [|by left|done]. by rewrite Hpr.
Qed.

Definition banner_text (config : SimulationConfig) : list byte :=
  chars "Starting simulation: " ++ chars (config_symbol config) ++ chars " @ $" ++
  show_fixed 2 (config_initial_price config) ++ chars " for " ++ dec_signed (config_num_ticks config) ++
  chars " ticks" ++ [10] ++ replicate 60 45 ++ [10].

Lemma run_banner_text config : print (run_banner config) ios_new = (banner_text config, between).
Proof. done. Qed.

Lemma fmap_eq_Forall {A B} (f g : A → B) l : f <$> l = g <$> l → Forall (λ k, f k = g k) l.
Proof. induction l as [|k l IH]; [done|]. intros [= H1 H2]. constructor; auto. Qed.

(** The ticks and the percentages of the two configurations, by computation. *)
Lemma deployed_ticks config :
  config = main_config ∨ config = run_simulation_config →
  let n := config_num_ticks config in
  num (config_initial_price config) ∧ 10 ≤ n ≤ 2 ^ 26 ∧
  due_ticks n 0 (Z.to_nat n) = (λ k, k * (n / 10)) <$> seqZ 1 9 ∧
  Forall (λ k, percent n (k * (n / 10)) = Some (10 * k)) (seqZ 1 9).
Proof.
  intros [-> | ->]; (split; [by vm_compute|]); (split; [by vm_compute|]);
    (split; [vm_compute; reflexivity|]); apply fmap_eq_Forall; vm_compute; reflexivity.
Qed.

(** The runs of the programs end, and printing does not change their results. *)
Lemma run_out_defined config clocks wall_sec draws :
  config = main_config ∨ config = run_simulation_config → (∀ t, draws_ok (draws t)) →
  ∃ its results, run_out config clocks wall_sec draws = Some (its, results) ∧
    run_config config clocks wall_sec draws = Some results.
Proof.
  intros Hc Hd. destruct (deployed_ticks config Hc) as (Hp & Hn & Hdue & Hpct).
  destruct (run_spec (config_symbol config) clocks (config_initial_price config) (config_num_ticks config) draws)
    as (x & Hrun & _); [done|done|lia|lia|].
  unfold sim_run in Hrun. unfold run_out, run_config, sim_run.
  destruct (sim_loop_out_spec _ _ _ _ _ _ _ _ Hrun) as (lines & Hout & _).
  { rewrite Hdue. apply Forall_fmap. eapply Forall_impl; [exact Hpct|]. intros k Hk. simpl. by rewrite Hk. }
  rewrite Hout, Hrun. cbn [mbind option_bind]. by eexists _, _.
Qed.

(** C37: what a simulation prints.  For the two configurations the programs use, whatever is
    drawn, the run prints its banner, then exactly nine progress lines, which say 10%, 20%
    up to 90% and show the price, the trades and the orders of the state after that tenth
    of the ticks, then that it is complete; printing changes nothing in the run, whose
    results are those of the loop without it. *)
Theorem simulation_output config clocks wall_sec draws :
  config = main_config ∨ config = run_simulation_config → (∀ t, draws_ok (draws t)) →
  let n := config_num_ticks config in
  ∃ its results states, run_out config clocks wall_sec draws = Some (its, results) ∧
    run_config config clocks wall_sec draws = Some results ∧
    Forall2 (λ k y, sim_loop (config_symbol config) clocks (Z.to_nat (k * (n / 10) + 1)) n 0 draws
                      (Simulation_new (config_initial_price config)) = Some y) (seqZ 1 9) states ∧
    text its = banner_text config ++ concat (zip_with (λ k y, progress_text (10 * k) y) (seqZ 1 9) states) ++
               chars "  100% complete" ++ [10] ++ replicate 60 45 ++ [10].
Proof.
  intros Hc Hd n.
  destruct (deployed_ticks config Hc) as (Hp & Hn & Hdue & Hpct). fold n in Hn, Hdue, Hpct.
  destruct (run_spec (config_symbol config) clocks (config_initial_price config) n draws)
    as (x & Hrun & _); [done|done|lia|lia|].
  unfold sim_run in Hrun. unfold run_out, run_config, sim_run. fold n.
  destruct (sim_loop_out_spec _ _ _ _ _ _ _ _ Hrun) as (lines & Hout & HF & _).
  { rewrite Hdue. apply Forall_fmap. eapply Forall_impl; [exact Hpct|]. intros k Hk. simpl. by rewrite Hk. }
  rewrite Hout, Hrun. cbn [mbind option_bind]. rewrite Hdue in HF. apply Forall2_fmap_l in HF.
  destruct (progress_lines_text
    (λ k y, sim_loop (config_symbol config) clocks (Z.to_nat (k * (n / 10) - 0 + 1)) n 0 draws
              (Simulation_new (config_initial_price config)) = Some y)
    (λ k y line, progress_line n (k * (n / 10)) y = Some line) (λ k y, progress_text (10 * k) y)
    between (seqZ 1 9) lines) as (states & HP & Htext); [|exact HF|].
  { intros k y line Hk Hq. rewrite Forall_forall in Hpct. by eapply progress_line_text; [apply Hpct|exact Hq]. }
  eexists _, _, states. split; [done|]. split; [done|]. split.
  { eapply Forall2_impl; [exact HP|]. intros k y. simpl. by rewrite Z.sub_0_r. }
  unfold text. rewrite print_app, run_banner_text, print_app, Htext. cbn [fst]. by rewrite <-?app_assoc.
Qed.

(** ** Money *)

(** What a table shows for an amount: a finite one as the nearest number of cents, which is
    read back from the digits, and whole cents below 2^50 exactly. *)
Definition money_shown (x : double) (l : list byte) : Prop :=
  match x with
  | S754_zero s => l = minus s ++ chars "0.00"
  | S754_finite s m e =>
      ∃ n, 0 ≤ n ∧ l = minus s ++ point 2 n ∧ (∃ k, read_mantissa 10 (point 2 n) = (n, k, 2%nat, [])) ∧
        2 * Z.abs (denominator e * n - numerator m e * 100) ≤ denominator e
  | S754_infinity s => l = minus s ++ chars "inf"
  | S754_nan => l = chars "nan"
  end ∧
  ∀ c, 0 < c < 2 ^ 50 →
    (x = dlit c 2 → l = point 2 c ∧ stod l = Some x) ∧ (x = dneg (dlit c 2) → l = 45 :: point 2 c).

Lemma show_fixed_neg x c : 0 ≤ c → show_fixed 2 x = point 2 c → show_fixed 2 (dneg x) = 45 :: point 2 c.
Proof.
  intros Hc Hx. destruct (point_front 2 c [] Hc) as (d & l & Hf & Hd). rewrite app_nil_r in Hf.
  rewrite <-Hx. unfold is_digit in Hd. destruct x as [[]|[]| |[] m e]; cbn -[point chars] in *; try done;
    rewrite Hf in Hx; (discriminate Hx || (injection Hx as E _; lia)).
Qed.

Lemma money_shown_fixed x : money_shown x (show_fixed 2 x).
Proof.
  split.
  - destruct x as [s|s| |s m e]; [by vm_compute; destruct s|done|done|].
    destruct (show_fixed_spec 2 s m e) as (n & Hn & Hs & Hd). exists n. split; [done|]. split; [done|].
    split; [|exact Hd]. destruct (read_point 2 n [] Hn I) as [k Hk]; [done|]. rewrite app_nil_r in Hk. by eexists.
  - intros c Hc. destruct (show_fixed_dlit 2 c Hc) as [Hsf Hst]; [lia|]. split.
    + intros ->. by rewrite Hsf.
    + intros ->. apply show_fixed_neg; [lia|done].
Qed.

(** The row of a trader, with its amount. *)
Definition row_text (tr : TraderResult) (amount : list byte) : list byte :=
  chars "║ " ++ pad (mk_ios true 2 16 true) (chars (tr_name tr)) ++ chars " Pos:" ++
  pad (mk_ios true 2 6 false) (dec_signed (tr_final_position tr)) ++ chars " P&L: $" ++
  pad (mk_ios true 2 10 false) amount ++ chars " ║" ++ [10].

Lemma pad_none st l : ios_width st = O → pad st l = l.
Proof. intros Hw. unfold pad. rewrite Hw. cbn. by destruct (ios_left st); rewrite ?app_nil_r. Qed.

(** A row does not depend on the alignment that the stream has before it. *)
Lemma trader_row_text tr b :
  print (trader_row tr) (mk_ios true 2 0 b) = (row_text tr (show_fixed 2 (tr_pnl tr)), between).
Proof.
  unfold trader_row, row_text, between. cbn [print put str nl ios_width ios_fixed ios_precision ios_left].
  rewrite !(pad_none (mk_ios _ _ 0 _)) by done. by rewrite !app_nil_r.
Qed.

Lemma trader_rows_text trs b :
  ∃ b', print (concat (trader_row <$> trs)) (mk_ios true 2 0 b) =
    (concat ((λ tr, row_text tr (show_fixed 2 (tr_pnl tr))) <$> trs), mk_ios true 2 0 b').
Proof.
  revert b. induction trs as [|tr trs IH]; intros b; [by exists b|]. rewrite !fmap_cons. cbn [concat].
  rewrite print_app, trader_row_text. destruct (IH false) as [b' E]. exists b'. unfold between. by rewrite E.
Qed.

(** A value resets the width. *)
Lemma print_last_text its st l : last its = Some (Text l) → ios_width (print its st).2 = O.
Proof.
  revert st. induction its as [|it its IH]; intros st Hl; [done|]. cbn [print].
  destruct (put it st) as [l1 st1] eqn:E. destruct its as [|it' its].
  - simpl in Hl. injection Hl as ->. by injection E as <- <-.
  - specialize (IH st1 Hl). by destruct (print (it' :: its) st1).
Qed.

(** The title of the table of profits and losses, and its last line. *)
Definition table_title : list byte :=
  chars "║          TRADER P&L                         ║" ++ [10] ++
  chars "╠══════════════════════════════════════════════╣" ++ [10].
Definition table_end : list byte := chars "╚══════════════════════════════════════════════╝" ++ [10].

(** What [print_results] prints below that title, from any format state. *)
Lemma print_results_rows r st :
  ∃ head tail, (print (print_results r) st).1 =
    head ++ table_title ++ concat ((λ tr, row_text tr (show_fixed 2 (tr_pnl tr))) <$> r_trader_results r) ++
    table_end ++ tail.
Proof.
  unfold print_results. match goal with |- context [print (?L ++ _) st] => set (items := L) end.
  assert (∃ above, items = above ++
    [str "║          TRADER P&L                         ║"; nl;
     str "╠══════════════════════════════════════════════╣"; nl; fixed; setprecision 2] ∧
    last above = Some nl) as (above & -> & Hlast).
  { exists (take (length items - 6) items). split; [|reflexivity].
    rewrite <-(take_drop (length items - 6) items) at 1. reflexivity. }
  rewrite <-app_assoc, print_app. pose proof (print_last_text above st _ Hlast) as Hw.
  destruct (print above st) as [head [f p w b]]. simpl in Hw. subst w. rewrite print_app.
  cbn [print put str nl ios_width ios_fixed ios_precision ios_left]. rewrite !(pad_none (mk_ios _ _ 0 _)) by done.
  rewrite print_app. destruct (trader_rows_text (r_trader_results r) b) as [b' ->]. rewrite print_app.
  cbn [print put str nl ios_width ios_fixed ios_precision ios_left]. rewrite !(pad_none (mk_ios _ _ 0 _)) by done.
  destruct (print (print_throughput r) _) as [tail st']. exists head, tail.
  unfold table_title, table_end. cbn [fst app]. by rewrite <-!app_assoc, ?app_nil_r.
Qed.

Lemma zip_rows {A B C} (f : A → B → C) (g : A → B) l : zip_with f l (g <$> l) = (λ x, f x (g x)) <$> l.
Proof. induction l as [|x l IH]; [done|]. rewrite !fmap_cons. cbn [zip_with]. by rewrite IH. Qed.

(** C38: profits and losses are printed to the nearest cent.  Whatever is drawn, the output
    of run_simulation, and of the simulation of src/main.cpp, has under the title of its
    last table a row for each trader of the results with the name, the position and the
    amount, and no more.  A finite amount is shown with two digits behind the point, which
    are read back as the number of cents that is at most half a cent from the exact value
    of the double; an amount of whole cents below 2^50, gain or loss, is shown exactly.
    The format is what the program has set: the table before it is printed without
    digits behind the point. *)
Theorem money_to_the_cent program config clocks wall_sec draws :
  (program = run_simulation_main ∧ config = run_simulation_config) ∨
  (program = main_sim_thread ∧ config = main_config) →
  (∀ t, draws_ok (draws t)) →
  ∃ out results head tail amounts,
    program clocks wall_sec draws = Some out ∧ run_config config clocks wall_sec draws = Some results ∧
    text out = head ++ table_title ++ concat (zip_with row_text (r_trader_results results) amounts) ++
               table_end ++ tail ∧
    Forall2 (λ tr amount, money_shown (tr_pnl tr) amount) (r_trader_results results) amounts.
Proof.
  intros Hprog Hd. destruct (run_out_defined config clocks wall_sec draws) as (its & results & Hout & Hrun);
    [by destruct Hprog as [[_ ->]|[_ ->]]; auto|done|].
  destruct (print its ios_new) as [l st] eqn:Ep. destruct (print_results_rows results st) as (head & tail & Hrows).
  exists (its ++ print_results results), results, (l ++ head), tail,
    ((λ tr, show_fixed 2 (tr_pnl tr)) <$> r_trader_results results).
  split; [destruct Hprog as [[-> ->]|[-> ->]]; unfold run_simulation_main, main_sim_thread; by rewrite Hout|].
  split; [done|]. split.
  - unfold text. rewrite print_app, Ep. destruct (print (print_results results) st) as [l2 st2]. cbn [fst] in Hrows |- *.
    by rewrite Hrows, zip_rows, <-app_assoc.
  - apply Forall2_fmap_r, Forall_Forall2_diag, Forall_true. intros tr. apply money_shown_fixed.
Qed.

Lemma money_to_the_cent_witness :
  ∃ out results head tail amounts,
    run_simulation_main sim_clocks (dofZ 1) lively = Some out ∧
    run_config run_simulation_config sim_clocks (dofZ 1) lively = Some results ∧
    text out = head ++ table_title ++ concat (zip_with row_text (r_trader_results results) amounts) ++
               table_end ++ tail ∧
    Forall2 (λ tr amount, money_shown (tr_pnl tr) amount) (r_trader_results results) amounts.
Proof.
  apply (money_to_the_cent run_simulation_main run_simulation_config sim_clocks (dofZ 1) lively);
    [left; split; reflexivity|exact lively_ok].
Defined.

Lemma simulation_output_witness :
  ∃ its results states, run_out run_simulation_config sim_clocks (dofZ 1) lively = Some (its, results) ∧
    run_config run_simulation_config sim_clocks (dofZ 1) lively = Some results ∧
    Forall2 (λ k y, sim_loop "AAPL" sim_clocks (Z.to_nat (k * (10000 / 10) + 1)) 10000 0 lively
                      (Simulation_new (dlit 15000 2)) = Some y) (seqZ 1 9) states ∧
    text its = banner_text run_simulation_config ++
               concat (zip_with (λ k y, progress_text (10 * k) y) (seqZ 1 9) states) ++
               chars "  100% complete" ++ [10] ++ replicate 60 45 ++ [10].
Proof. apply (simulation_output run_simulation_config); [right; reflexivity|exact lively_ok]. Defined.

(** A tenth of the ticks is rounded down: 19 ticks give a line after each of the last 18. *)
Example short_run_lines : due_ticks 19 0 19 = seqZ 1 18 ∧ length (due_ticks 25 0 25) = 12%nat.
Proof. vm_compute. done. Qed.

(** The characters of a line of the table; those of UTF-8 that continue a character do not
    count. *)
Definition columns (l : list byte) : nat := length (filter (λ c, c < 128 ∨ 192 ≤ c) l).

(** The frame of the table is not straight: borders, traders and this notional have 48
    columns, titles and most rows 47, the final price 46 and the return 45. *)
Example table_widths :
  columns <$> take 24 (drop 1 (split_fields 10 (text (print_results shown_results)) [])) =
  [48; 47; 48; 47; 47; 47; 48; 46; 45; 48; 47; 48; 47; 47; 47; 48; 47; 48; 48; 48; 48; 48; 48; 48]%nat.
Proof. vm_compute. reflexivity. Qed.
