(* ===== verification/BenchProps.v ===== *)
(** The throughput benchmark as a program: for up to 2^40 operations, whatever the
    distributions draw, it runs, and its two phases report on the same work. *)

From stdpp Require Import base list gmap strings.
From Stdlib Require Import ZArith Lia.
From S2P Require Import Prelude Machine StdMap Types OrderBook MatchingEngine EngineSpec Exchange Determinism.
From S2P Require Import Wire Numbers Protocol Format LatencyHistogram Random Benchmark Reports.

Open Scope Z_scope.
Open Scope list_scope.

Lemma read_integer_nonneg l neg v : read_integer l = Some (neg, v) → 0 ≤ v.
Proof.
  assert (∀ l v n, 0 ≤ v → 0 ≤ (read_digits 10 v n l).1.1) as Hd.
  { clear. induction l as [|c l IH]; intros v n Hv; [done|]. cbn [read_digits].
    destruct (digit 10 c) as [d|] eqn:E; [|done]. apply IH. unfold digit in E.
    destruct (_ <? 10) in E; [|done]. injection E as <-.
    destruct (_ && _) eqn:E1; [bool_lia|]. destruct (_ && _) eqn:E2 in |- *; [bool_lia|].
    destruct (_ && _) eqn:E3 in |- *; bool_lia. }
  unfold read_integer. destruct (read_sign _) as [s l']. specialize (Hd l' 0 0%nat).
  destruct (read_digits 10 0 0 l') as [[v' n] r]. destruct (n =? 0)%nat; [done|].
  intros [= _ <-]. by apply Hd.
Qed.

Lemma bench_n_ops_nonneg argv : 0 ≤ bench_n_ops argv.
Proof.
  destruct argv as [|a [|arg argv]]; try done. simpl. unfold strtoull.
  destruct (read_integer arg) as [[[] v]|] eqn:E; [..|done]; destruct (v <? 2 ^ 64); try lia.
  - apply u64_range.
  - pose proof (read_integer_nonneg _ _ _ E). lia.
Qed.

(** C39: bench_throughput, with any arguments that ask for fewer than 2^40 operations and any
    distributions that keep to their ranges: the program is undefined nowhere and ends
    normally, unless it is to write a CSV file that cannot be opened.  It prints its
    header, the results of a run without instrumentation and those of a run with it, and
    both runs executed the operations asked for, with the same orders, cancels, trades,
    volume and notional, whatever the clocks said; if no operation took longer than 60 s
    the histogram that is reported, and written to the file, has a sample for each
    operation. *)
Theorem throughput_benchmark `{HdrLaws} `{DistributionLaws} argv clocks clocks' lats t1 t2 opened h0 :
  hdr_init 1 60000000000 3 = Some h0 → bench_n_ops argv < 2 ^ 40 →
  (bench_csv argv = [] ∨ opened = true) →
  ∃ tp lat h tail csv,
    bench_main argv clocks clocks' lats t1 t2 opened =
      Some (bench_header (bench_n_ops argv) ++ bench_phase1 tp ++ bench_phase2 lat h ++ tail, csv) ∧
    ops_executed tp = bench_n_ops argv ∧ ops_executed lat = bench_n_ops argv ∧
    elapsed_sec tp = t1 ∧ elapsed_sec lat = t2 ∧
    untimed_stats (run_stats tp) = untimed_stats (run_stats lat) ∧
    ((∀ i, 0 ≤ lats i ≤ 60000000000) → hdr_total_count h = bench_n_ops argv) ∧
    csv = (if decide (bench_csv argv = []) then None else Some (hdr_percentiles_print h 5 (dofZ 1))).
Proof.
  intros Hinit Hn Hopen. pose proof (bench_n_ops_nonneg argv) as Hpos. unfold bench_main. cbv zeta.
  set (n := Z.to_nat (bench_n_ops argv)).
  pose proof (build_workload_length n 12345) as Hlen. pose proof (build_offsets_length n 6789) as Hoff.
  destruct (phases_agree clocks clocks' lats t1 t2 (build_workload n 12345) (build_offsets n 6789) h0)
    as (tp & lat & h & Htp & Hlat & Hst & Hex & Hcount);
    [done|apply build_offsets_ok|by rewrite Hlen, Hoff|lia|].
  assert (ops_executed tp = bench_n_ops argv ∧ elapsed_sec tp = t1) as [E1 T1].
  { unfold run_throughput in Htp. apply bind_Some in Htp as ([e q] & _ & [= <-]).
    split; [|done]. simpl. rewrite Hlen, u64_small; lia. }
  assert (elapsed_sec lat = t2) as T2.
  { unfold run_latency in Hlat. apply bind_Some in Hlat as ([[e q] h'] & _ & [= <- <-]). done. }
  rewrite Htp, Hinit. cbn [mbind option_bind]. rewrite Hlat. cbn [mbind option_bind].
  destruct (decide (bench_csv argv = [])) as [Hc|Hc].
  - exists tp, lat, h, [], None. rewrite app_nil_r. split_and!; try done; [congruence|].
    intros Hl. rewrite Hcount by done. congruence.
  - destruct Hopen as [?| ->]; [done|]. eexists tp, lat, h, _, _. rewrite <-!app_assoc.
    split_and!; try done; [congruence|]. intros Hl. rewrite Hcount by done. congruence.
Qed.

Lemma throughput_benchmark_witness :
  ∃ tp lat (h : @hdr_histogram list_hdr) tail csv,
    @bench_main list_hdr simple_distributions [chars "bench_throughput"; chars "25"; chars "out.csv"]
      (λ i n, Z.of_nat (10 * i + n)) (λ i n, Z.of_nat (7 * i + n)) (λ _, 250) dzero dzero true =
      Some (bench_header 25 ++ bench_phase1 tp ++ bench_phase2 lat h ++ tail, csv) ∧
    ops_executed tp = 25 ∧ ops_executed lat = 25 ∧ elapsed_sec tp = dzero ∧ elapsed_sec lat = dzero ∧
    untimed_stats (run_stats tp) = untimed_stats (run_stats lat) ∧
    ((∀ i : nat, 0 ≤ 250 ≤ 60000000000) → hdr_total_count h = 25) ∧
    csv = Some (hdr_percentiles_print h 5 (dofZ 1)).
Proof.
  apply (@throughput_benchmark list_hdr list_hdr_laws simple_distributions simple_distribution_laws
    [chars "bench_throughput"; chars "25"; chars "out.csv"]) with (h0 := mk_list_histogram 60000000000 []);
    [reflexivity|reflexivity|right; reflexivity].
Defined.
