(* ===== verification/UnitTests.v ===== *)
(** The unit tests of the repository (tests/*.cpp), run on the model.

    Every test of the seven files is an example here, with the name of the test, the
    calls it makes and the values it expects; evaluation decides it.  A test that leaves
    a value open (a latency above zero, a spread near ten cents) is stated with the same
    tolerance.  This is how the model is checked against what the authors of the program
    expect of it, apart from any proof. *)

From stdpp Require Import base list gmap strings.
From Stdlib Require Import ZArith Lia.
From S2P Require Import Prelude Machine Types ObjectPool OrderBook MatchingEngine Exchange RiskChecker.
From S2P Require Import Wire Protocol Format Layout LatencyHistogram Replay Tape Harness.

Open Scope Z_scope.
Open Scope list_scope.

(** The clock of the tests: ten nanoseconds between two readings. *)
Definition now (n : nat) : Timestamp := 10 * Z.of_nat n + 1.

(** [EXPECT_NEAR] *)
Definition near (x y tolerance : double) : bool := dleb (dsub x y) tolerance && dleb (dsub y x) tolerance.

(** ** tests/test_matching_engine.cpp *)
Module MatchingEngineTest.

Definition submit (sym : string) (s : Side) (t : OrderType) (p : Price) (q : Quantity) : op :=
  OpSubmit now sym s t p q.

(** What a test looks at: the answers, the trades that the callback saw (seller, price and
    quantity), and the engine. *)
Definition ids (rs : list response) : list Z :=
  (λ r, match r with RSubmit oid _ => oid | RCancel b | RReduce b => if b : bool then 1 else 0 end) <$> rs.
Definition trades (rs : list response) : list (OrderId * Price * Quantity) :=
  concat ((λ r, match r with
                | RSubmit _ ts => (λ t, (sell_order_id t, trade_price t, trade_quantity t)) <$> ts
                | _ => []
                end) <$> rs).
Definition test {A} (os : list op) (f : list response → MatchingEngine → A) : option A :=
  '(rs, e) ← run_ops os MatchingEngine_new; Some (f rs e).
Definition count (sym : string) (e : MatchingEngine) : nat := order_count (book_of sym e).

Example NoMatchWhenBookIsEmpty :
  test [submit "AAPL" Buy Limit (dofZ 100) 50] (λ rs e, (trades rs, count "AAPL" e)) = Some ([], 1%nat).
Proof. vm_compute. reflexivity. Qed.

Example ExactPriceMatch :
  test [submit "AAPL" Sell Limit (dofZ 100) 50; submit "AAPL" Buy Limit (dofZ 100) 50]
    (λ rs e, (trades rs, count "AAPL" e)) = Some ([(1, dofZ 100, 50)], 0%nat).
Proof. vm_compute. reflexivity. Qed.

Example BuyerGetsPriceImprovement :
  test [submit "AAPL" Sell Limit (dofZ 99) 50; submit "AAPL" Buy Limit (dofZ 101) 50]
    (λ rs e, trades rs) = Some [(1, dofZ 99, 50)].
Proof. vm_compute. reflexivity. Qed.

Example PartialFill :
  test [submit "AAPL" Sell Limit (dofZ 100) 100; submit "AAPL" Buy Limit (dofZ 100) 30]
    (λ rs e, (trades rs, count "AAPL" e, total_ask_quantity (book_of "AAPL" e))) =
  Some ([(1, dofZ 100, 30)], 1%nat, Some 70).
Proof. vm_compute. reflexivity. Qed.

Example SweepMultiplePriceLevels :
  test [submit "AAPL" Sell Limit (dofZ 100) 30; submit "AAPL" Sell Limit (dofZ 101) 30;
        submit "AAPL" Sell Limit (dofZ 102) 30; submit "AAPL" Buy Limit (dofZ 102) 80]
    (λ rs e, (trades rs, total_ask_quantity (book_of "AAPL" e))) =
  Some ([(1, dofZ 100, 30); (2, dofZ 101, 30); (3, dofZ 102, 20)], Some 10).
Proof. vm_compute. reflexivity. Qed.

Example TimePriorityAtSamePrice :
  test [submit "AAPL" Sell Limit (dofZ 100) 50; submit "AAPL" Sell Limit (dofZ 100) 50;
        submit "AAPL" Buy Limit (dofZ 100) 50]
    (λ rs e, (trades rs, count "AAPL" e)) = Some ([(1, dofZ 100, 50)], 1%nat).
Proof. vm_compute. reflexivity. Qed.

Example MarketBuyFillsImmediately :
  test [submit "AAPL" Sell Limit (dofZ 100) 50; submit "AAPL" Buy Market dzero 30]
    (λ rs e, trades rs) = Some [(1, dofZ 100, 30)].
Proof. vm_compute. reflexivity. Qed.

Example MarketOrderCancelledWhenNoLiquidity :
  test [submit "AAPL" Buy Market dzero 50] (λ rs e, (trades rs, count "AAPL" e)) = Some ([], 0%nat).
Proof. vm_compute. reflexivity. Qed.

Example IOCFillsAndCancelsRemainder :
  test [submit "AAPL" Sell Limit (dofZ 100) 30; submit "AAPL" Buy IOC (dofZ 100) 50]
    (λ rs e, (trades rs, count "AAPL" e)) = Some ([(1, dofZ 100, 30)], 0%nat).
Proof. vm_compute. reflexivity. Qed.

Example CancelPreventsMatch :
  test [submit "AAPL" Sell Limit (dofZ 100) 50; OpCancel "AAPL" 1; submit "AAPL" Buy Limit (dofZ 100) 50]
    (λ rs e, (ids rs, trades rs)) = Some ([1; 1; 2], []).
Proof. vm_compute. reflexivity. Qed.

Example RejectsZeroQuantity :
  test [submit "AAPL" Buy Limit (dofZ 100) 0] (λ rs e, (ids rs, total_rejects (stats_ e))) = Some ([0], 1).
Proof. vm_compute. reflexivity. Qed.

Example RejectsNegativePriceLimit :
  test [submit "AAPL" Buy Limit (dofZ (-5)) 100] (λ rs e, (ids rs, total_rejects (stats_ e))) = Some ([0], 1).
Proof. vm_compute. reflexivity. Qed.

Example DifferentSymbolsDontMatch :
  test [submit "AAPL" Sell Limit (dofZ 100) 50; submit "GOOG" Buy Limit (dofZ 100) 50]
    (λ rs e, (trades rs, count "AAPL" e, count "GOOG" e)) = Some ([], 1%nat, 1%nat).
Proof. vm_compute. reflexivity. Qed.

Example StatsTracking :
  test [submit "AAPL" Sell Limit (dofZ 100) 50; submit "AAPL" Buy Limit (dofZ 100) 50]
    (λ rs e, let st := stats_ e in
       (total_orders st, total_trades st, total_volume st,
        near (total_notional st) (dofZ 5000) (dlit 1 2), dgtb (avg_latency_ns st) dzero)) =
  Some (2, 1, 50, true, true).
Proof. vm_compute. reflexivity. Qed.
End MatchingEngineTest.

(** ** tests/test_orderbook.cpp *)
Module OrderBookTest.

Definition book : OrderBook := OrderBook_new "AAPL" default_pool_size.

(** The orders of a test, all of them limit orders, then what it does with the book. *)
Fixpoint add_all (os : list (Side * Price * Quantity)) (b : OrderBook) : option OrderBook :=
  match os with
  | [] => Some b
  | (s, p, q) :: os => '(_, b) ← add_order (now 0) s Limit p q b; add_all os b
  end.
Definition test {A} (os : list (Side * Price * Quantity)) (f : OrderBook → option A) : option A :=
  b ← add_all os book; f b.

Example EmptyBookHasZeroPrices :
  (best_bid book, best_ask book, spread book, order_count book) = (dzero, dzero, dzero, 0%nat).
Proof. vm_compute. reflexivity. Qed.

Example AddSingleBid :
  test [(Buy, dofZ 100, 50)] (λ b, Some (best_bid b, best_ask b, order_count b, total_bid_quantity b)) =
  Some (dofZ 100, dzero, 1%nat, Some 50).
Proof. vm_compute. reflexivity. Qed.

Example AddSingleAsk :
  test [(Sell, dofZ 101, 30)] (λ b, Some (best_ask b, best_bid b, order_count b, total_ask_quantity b)) =
  Some (dofZ 101, dzero, 1%nat, Some 30).
Proof. vm_compute. reflexivity. Qed.

Example BestBidIsHighest :
  test [(Buy, dofZ 99, 100); (Buy, dofZ 101, 100); (Buy, dofZ 100, 100)]
    (λ b, Some (best_bid b, bid_depth b)) = Some (dofZ 101, 3%nat).
Proof. vm_compute. reflexivity. Qed.

Example BestAskIsLowest :
  test [(Sell, dofZ 102, 100); (Sell, dofZ 100, 100); (Sell, dofZ 101, 100)]
    (λ b, Some (best_ask b, ask_depth b)) = Some (dofZ 100, 3%nat).
Proof. vm_compute. reflexivity. Qed.

Example SpreadCalculation :
  test [(Buy, dlit 9995 2, 100); (Sell, dlit 10005 2, 100)]
    (λ b, Some (near (spread b) (dlit 10 2) (dlit 1 3), near (mid_price b) (dofZ 100) (dlit 1 3))) =
  Some (true, true).
Proof. vm_compute. reflexivity. Qed.

Example CancelOrder :
  test [(Buy, dofZ 100, 50)]
    (λ b, '(r, b') ← OrderBook.cancel_order 1 b; Some (order_count b, r, order_count b', best_bid b')) =
  Some (1%nat, true, 0%nat, dzero).
Proof. vm_compute. reflexivity. Qed.

Example CancelNonExistentOrderReturnsFalse :
  test [] (λ b, fst <$> OrderBook.cancel_order 99999 b) = Some false.
Proof. vm_compute. reflexivity. Qed.

Example CancelOnlyRemovesTargetOrder :
  test [(Buy, dofZ 100, 50); (Buy, dofZ 100, 30)]
    (λ b, '(_, b') ← OrderBook.cancel_order 1 b;
          Some (total_bid_quantity b, total_bid_quantity b', order_count b')) = Some (Some 80, Some 30, 1%nat).
Proof. vm_compute. reflexivity. Qed.

Example EmptyPriceLevelIsRemoved :
  test [(Sell, dofZ 100, 50)]
    (λ b, '(_, b') ← OrderBook.cancel_order 1 b; Some (ask_depth b, ask_depth b')) = Some (1%nat, 0%nat).
Proof. vm_compute. reflexivity. Qed.

Example TimePriorityPreserved :
  test [(Buy, dofZ 100, 50); (Buy, dofZ 100, 30)]
    (λ b, level ← best_bid_level b;
          front ← head level; back ← last level;
          o1 ← get_order (node_order front) b; o2 ← get_order (node_order back) b; Some (id o1, id o2)) =
  Some (1, 2).
Proof. vm_compute. reflexivity. Qed.

Example ReduceOrderQuantity :
  test [(Buy, dofZ 100, 100)]
    (λ b, '(r, b) ← reduce_order 1 50 b; Some (r, total_bid_quantity b)) = Some (true, Some 50).
Proof. vm_compute. reflexivity. Qed.

Example ReduceToZeroCancels :
  test [(Buy, dofZ 100, 100)] (λ b, '(r, b) ← reduce_order 1 0 b; Some (r, order_count b)) = Some (true, 0%nat).
Proof. vm_compute. reflexivity. Qed.

Example CannotIncreaseQuantity :
  test [(Buy, dofZ 100, 100)]
    (λ b, '(r, b) ← reduce_order 1 200 b; Some (r, total_bid_quantity b)) = Some (false, Some 100).
Proof. vm_compute. reflexivity. Qed.
End OrderBookTest.

(** ** tests/test_object_pool.cpp *)
Module ObjectPoolTest.

Definition pool (n : N) : ObjectPool Order := pool_new n.

(** [n] calls of [acquire], with the identifiers that the test writes to the orders. *)
Fixpoint acquire_all (oids : list OrderId) (P : ObjectPool Order) : option (list N * ObjectPool Order) :=
  match oids with
  | [] => Some ([], P)
  | oid :: oids =>
      let '(p, P) := acquire P in
      o ← load P p;
      P ← store P p (mk_order oid (price o) (quantity o) (remaining_qty o) (timestamp o) (side o) (type o) (status o));
      '(ps, P) ← acquire_all oids P;
      Some (p :: ps, P)
  end.

Example PreallocatesRequestedCapacity : (capacity (pool 16), active_count (pool 16)) = (16, 0).
Proof. vm_compute. reflexivity. Qed.

Example AcquireAndReleaseTrackActiveCount :
  let '(a, P) := acquire (pool 4) in
  let '(b, P) := acquire P in
  (active_count P, active_count (release a P), active_count (release b (release a P))) = (2, 1, 0).
Proof. vm_compute. reflexivity. Qed.

Example ReleasedObjectsAreRecycled :
  let '(a, P) := acquire (pool 2) in
  let '(b, P) := acquire (release a P) in
  a = b ∧ capacity P = 2.
Proof. vm_compute. done. Qed.

Example GrowthDoesNotInvalidateOutstandingPointers :
  ('(held, P) ← acquire_all (seqZ 1 8 ++ replicate 32 9999) (pool 8);
   Some ((λ p, id <$> load P p) <$> take 8 held, capacity P, active_count P)) =
  Some (Some <$> seqZ 1 8, 40, 40).
Proof. vm_compute. reflexivity. Qed.

Example SizeMatchesDocumentedValue :
  sizeof Order_struct = 40 ∧ alignof Order_struct = 8 ∧ sizeof Order_struct < 64.
Proof. by vm_compute. Qed.
End ObjectPoolTest.

(** ** tests/test_order.cpp *)
Module OrderTest.

Definition order : Order := Order_new (now 0) 1 Buy Limit (dofZ 150) 100.

Example ConstructorSetsFields :
  id order = 1 ∧ side order = Buy ∧ type order = Limit ∧ price order = dofZ 150 ∧ quantity order = 100 ∧
  remaining_qty order = 100 ∧ status order = Accepted ∧ timestamp order > 0.
Proof. by vm_compute. Qed.

Example FilledQuantityTracking :
  (λ q, let o := set_remaining q order in (filled_qty o, is_filled o)) <$> [100; 40; 0] =
  [(0, false); (60, false); (100, true)].
Proof. vm_compute. reflexivity. Qed.

Example TradeStruct :
  let t := mk_trade 1 2 (dofZ 150) 50 (now 0) in
  buy_order_id t = 1 ∧ sell_order_id t = 2 ∧ trade_price t = dofZ 150 ∧ trade_quantity t = 50.
Proof. by vm_compute. Qed.

(** The comment of this test wants two orders in a cache line of 64 bytes; the bound it
    tests, and the size, allow one. *)
Example SizeIsCompact : sizeof Order_struct ≤ 48 ∧ 64 / sizeof Order_struct = 1.
Proof. by vm_compute. Qed.
End OrderTest.

(** ** tests/test_risk_checker.cpp *)
Module RiskCheckerTest.

Definition tight_limits : RiskLimits := mk_limits 1000 (dofZ 100000) 5000 (dofZ 500000).
Definition rc : RiskChecker := RiskChecker_new tight_limits.

(** Checks, fills and the switch, one after the other. *)
Inductive call :=
  | Check (s : Side) (t : OrderType) (p : Price) (q : Quantity)
  | Fill (sym : string) (s : Side) (p : Price) (q : Quantity)
  | Switch (on : bool).

Fixpoint run (cs : list call) (rc : RiskChecker) : option (list RejectReason * RiskChecker) :=
  match cs with
  | [] => Some ([], rc)
  | Check s t p q :: cs =>
      '(r, rc) ← check "AAPL" s t p q rc; '(rs, rc) ← run cs rc; Some (r :: rs, rc)
  | Fill sym s p q :: cs => rc ← on_fill sym s p q rc; run cs rc
  | Switch on :: cs => run cs (if on then engage_kill_switch rc else disengage_kill_switch rc)
  end.
Definition reasons (cs : list call) : option (list RejectReason) := fst <$> run cs rc.

Example AcceptsValidLimitOrder :
  ('(rs, rc) ← run [Check Buy Limit (dofZ 150) 100] rc; Some (rs, total_passes (risk_stats_ rc))) =
  Some ([Reason_None], 1).
Proof. vm_compute. reflexivity. Qed.

Example RiskRejectsZeroQuantity : reasons [Check Buy Limit (dofZ 150) 0] = Some [InvalidQuantity].
Proof. vm_compute. reflexivity. Qed.

Example RejectsQuantityAboveMax : reasons [Check Buy Limit (dofZ 150) 2000] = Some [MaxOrderQuantityExceeded].
Proof. vm_compute. reflexivity. Qed.

Example RejectsNegativeLimitPrice : reasons [Check Sell Limit (dofZ (-1)) 100] = Some [InvalidPrice].
Proof. vm_compute. reflexivity. Qed.

Example AllowsMarketOrderWithoutPrice : reasons [Check Buy Market dzero 100] = Some [Reason_None].
Proof. vm_compute. reflexivity. Qed.

Example RejectsNotionalAboveMax : reasons [Check Buy Limit (dofZ 200) 1000] = Some [MaxOrderNotionalExceeded].
Proof. vm_compute. reflexivity. Qed.

Example RejectsPositionAboveMax :
  ('(rs, rc) ← run [Fill "AAPL" Buy (dofZ 150) 4500; Check Buy Limit (dofZ 150) 600] rc;
   Some (position "AAPL" rc, rs)) = Some (4500, [MaxPositionExceeded]).
Proof. vm_compute. reflexivity. Qed.

Example KillSwitchRejectsEverything :
  is_killed (engage_kill_switch rc) = true ∧ is_killed (disengage_kill_switch (engage_kill_switch rc)) = false ∧
  reasons [Switch true; Check Buy Limit (dofZ 150) 100; Switch false; Check Buy Limit (dofZ 150) 100] =
    Some [KillSwitchActive; Reason_None].
Proof. by vm_compute. Qed.

Example OnFillUpdatesPositionsCorrectly :
  ('(_, rc) ← run [Fill "AAPL" Buy (dofZ 150) 100; Fill "AAPL" Buy (dofZ 151) 50;
                   Fill "AAPL" Sell (dofZ 152) 30] rc;
   Some (position "AAPL" rc, position "MSFT" rc)) = Some (120, 0).
Proof. vm_compute. reflexivity. Qed.

Example NotionalExposureAccumulates :
  (λ cs, current_notional_exposure_ ∘ snd <$> run cs rc) <$>
    [[Fill "AAPL" Buy (dofZ 150) 100]; [Fill "AAPL" Buy (dofZ 150) 100; Fill "MSFT" Buy (dofZ 420) 50]] =
  [Some (dofZ 15000); Some (dofZ 36000)].
Proof. vm_compute. reflexivity. Qed.

Example StatsBreakdownByReason :
  ('(_, rc) ← run [Check Buy Limit (dofZ 150) 100; Check Buy Limit (dofZ 150) 0; Check Buy Limit (dofZ 150) 2000;
                   Switch true; Check Buy Limit (dofZ 150) 100] rc;
   let st := risk_stats_ rc in
   Some (total_checks st, total_passes st, total_rejections st,
         (λ r, by_reason st !! reason_index r) <$> [InvalidQuantity; MaxOrderQuantityExceeded; KillSwitchActive])) =
  Some (4, 1, 3, [Some 1; Some 1; Some 1]).
Proof. vm_compute. reflexivity. Qed.
End RiskCheckerTest.

(** ** tests/test_latency_histogram.cpp *)
Module LatencyHistogramTest.

(** A histogram of the class, on the list instance of the library, and its samples. *)
Definition h : Histograms (H := list_hdr) := (LatencyHistogram_default 0 Histograms_new).2.
Definition test {A} (vs : list Z) (f : Histograms → option A) : option A := st ← record_all 0 vs h; f st.

Example RecordsAndCounts :
  test (replicate 1000 100) (λ st, Some (total_count 0 st, value_at_percentile 0 (dofZ 50) st)) =
  Some (Some 1000, Some 100).
Proof. vm_compute. reflexivity. Qed.

Example PercentilesOnUniformDistribution :
  test (seqZ 1 1000)
    (λ st, p50 ← value_at_percentile 0 (dofZ 50) st; p99 ← value_at_percentile 0 (dofZ 99) st;
           Some ((Z.abs (p50 - 500) <=? 10) && (Z.abs (p99 - 990) <=? 10))) = Some true.
Proof. vm_compute. reflexivity. Qed.

Example MinAndMax :
  test [50; 100; 150] (λ st, Some (histogram_min 0 st, histogram_max 0 st)) = Some (Some 50, Some 150).
Proof. vm_compute. reflexivity. Qed.

Example ResetClearsState :
  test (replicate 100 42) (λ st, st' ← reset 0 st; Some (total_count 0 st, total_count 0 st')) =
  Some (Some 100, Some 0).
Proof. vm_compute. reflexivity. Qed.

(** The test looks for the label and for the names of some fields; this is the line. *)
Example PrintSummaryFormat :
  test (seqZ 1 100)
    (λ st, its ← print_summary 0 (chars "test") st; Some (string_of_chars (print its ios_new).1)) =
  Some ("test:  count=100  min=1  mean=50.5  p50=50  p90=90  p99=99  p99.9=100  max=100
")%string.
Proof. vm_compute. reflexivity. Qed.

Example HandlesWideDynamicRange :
  test [1; 1000; 1000000; 1000000000]
    (λ st, m ← histogram_max 0 st; Some (total_count 0 st, histogram_min 0 st, 999000000 <=? m)) =
  Some (Some 4, Some 1, true).
Proof. vm_compute. reflexivity. Qed.
End LatencyHistogramTest.

(** ** tests/test_replay_harness.cpp *)
Module ReplayHarnessTest.

Definition header : string := "timestamp_ns,symbol,side,type,price,quantity,action,order_id
".
Definition tmp_tape : string :=
"1000,AAPL,B,L,100.00,10,N,1
2000,AAPL,S,L,100.00,10,N,2
3000,AAPL,B,L,99.50,5,N,3
4000,AAPL,S,L,100.50,5,N,4
5000,AAPL,,,,,C,3
6000,AAPL,S,L,99.40,10,N,5
7000,AAPL,B,L,99.40,10,N,6
".

(** A replay on a new engine, every operation taking 200 ns or as long as [lats] says. *)
Definition test {A} (limits : RiskLimits) (rows : string) (lats : nat → Z)
    (f : ReplayReport → ReplayHarness (H := list_hdr) → A) : option A :=
  ha ← ReplayHarness_new MatchingEngine_new (Some (RiskChecker_new limits));
  '(rep, ha) ← harness_replay (λ i n, now (i + n)) lats 5000 (chars (header ++ rows)) ha;
  Some (f rep ha).

(** The test expects at least 2 trades and 20 shares; it is exactly that. *)
Example BasicTapeReplay :
  test RiskLimits_default tmp_tape (λ _, 200)
    (λ rep _, let r := rr_result rep in
       (events_processed r, new_orders r, cancels r, trades_generated rep, volume_traded rep,
        total_duration_ns rep >? 0)) = Some (7, 6, 1, 2, 20, true).
Proof. vm_compute. reflexivity. Qed.

Example RiskBlocksOversizedOrder :
  test (mk_limits 10000 (max_order_notional RiskLimits_default) (max_position_abs RiskLimits_default)
          (max_notional_exposure RiskLimits_default))
    "1000,AAPL,B,L,100.00,1000000000,N,1
" (λ _, 200) (λ rep _, (risk_rejections (rr_result rep), trades_generated rep)) = Some (1, 0).
Proof. vm_compute. reflexivity. Qed.

Example LatencyHistogramPopulated :
  test RiskLimits_default tmp_tape (λ i, 100 + 13 * Z.of_nat i)
    (λ rep ha, (hdr_total_count (ha_latency ha) >? 0) && (latency_p50_ns rep >? 0) &&
       (latency_p50_ns rep <=? latency_p99_ns rep) && (latency_p99_ns rep <=? latency_p999_ns rep) &&
       (latency_p999_ns rep <=? latency_max_ns rep)) = Some true.
Proof. vm_compute. reflexivity. Qed.

Example SampleTapeRuns :
  (ha ← ReplayHarness_new (H := list_hdr) MatchingEngine_new (Some (RiskChecker_new RiskLimits_default));
   '(rep, ha) ← harness_replay (λ i n, now (i + n)) (λ _, 200) 5000 (chars sample_csv) ha;
   Some ((events_processed (rr_result rep) >=? 40) && (trades_generated rep >? 0) &&
         (hdr_total_count (ha_latency ha) >? 0))) = Some true.
Proof. vm_compute. reflexivity. Qed.
End ReplayHarnessTest.
